(* ===== verification/_CoqProject ===== *)
-Q . S2P
Prelude.v
Lock.v
JobQueue.v
ObjectPool.v
Bytes.v
Packets.v
RecvBuffer.v
SendPool.v
Session.v
Service.v
Lifetime.v
Systems.v
Crypto.v
Auth.v
Db.v
Setting.v
Slots.v
Game.v
Admin.v
DeadLock.v
Wire.v
Messages.v
Accessors.v
Tables.v
Ipc.v
Streams.v
Grpc.v
Scenario.v
Report.v
Average.v
Stress.v
Server.v
Link.v
Startup.v
