(* ===== verification/Prelude.v ===== *)
(** * DhNet: a verification development

    DhNet is a Windows game server in C++ with its client and its load
    generator: a utility library (src/DhUtil), a network core on completion ports
    (src/DhNet_Server/ServerCore), a packet protocol
    (src/DhNet_Server/DhNet_Protocol), the server
    (src/DhNet_Server/DhNet_Server), a console client and a stress tester
    (src/DhNet_Client).  This library models its own code as executable Gallina
    definitions and step relations and proves what makes each part correct; of the
    headers under src/Tools it models those parts of protobuf and gRPC that the
    generated code runs through.

    ** Parts, and how they fit together

    Worker threads take completions from the port (IocpCore) and dispatch them to
    sessions.  A session reassembles packets from its receive buffer and hands
    them to OnRecv, which the server's GameSession implements: key exchange,
    decryption, then the handler table.  Handlers act on players, lobbies and
    rooms; a lobby and a room are job queues, so their state is changed by one
    thread at a time.  Answers are built in chunks of the send pool and go out
    through the session's send queue.  Logins pass through the database workers.
    The RW lock guards most of the containers; the deadlock profiler watches it.
    main reads the settings from the environment and puts these parts together;
    an administration service answers remote calls on threads of its own: a client's
    stub writes a request to a byte stream, the service reads it, calls the command
    and writes the answer.

    ** Files

    - Prelude: machine integers ([wrapU], [wrapS]), fail-fast outcomes (CRASH and
      ASSERT_CRASH of Macro.h), reachability, sums over lists, tactics.
    - Lock: DhUtil/Lock.h and Lock.cpp, thread ids of ThreadManager.cpp.  Each
      atomic access of WriteLock, ReadLock and the unlocks is a step
      ([exec_action]); [lock_reach] are all interleavings.
    - JobQueue: LockQueue.h, JobQueue.cpp, GlobalQueue.cpp, the global queue work
      of ThreadManager.cpp.  [job_step] is one atomic step of Push or Execute.
    - ObjectPool: ObjectPool.h.
    - DeadLock: DeadLockProfiler.cpp, the search on its vectors.
    - Bytes, Packets: little-endian memory, C strings and strncpy_s; every packet
      class of PacketList.h at the byte level, [encode] and [decode].
    - RecvBuffer: RecvBuffer.cpp, ProcessRecv and RegisterRecv of Session.cpp,
      against the class [SessionOps] of what a session's callbacks are.
    - SendPool: SendPool.cpp and Sender.cpp.
    - Session: the send path of Session.cpp with the kernel's completions.
    - Lifetime: the other operations of a session (connecting, receiving,
      disconnecting) with its four OVERLAPPED events and the references that keep
      it alive; [life_step] interleaves threads and kernel.
    - Systems: the fail-fast macro on a clock, Logger.cpp, Launch and Join of
      ThreadManager.cpp, the id generator, GameSessionSystem.cpp.
    - Setting: ServerSetting.cpp over a parameter for the environment, std::stoi.
    - Service: Service.cpp, Listener.cpp, IocpCore.cpp, NetAddress.cpp, connecting
      and disconnecting in Session.cpp.
    - Crypto: AesGcm.h, EcdhKeyExchange.h, the channel half of GameSession.cpp and
      ServerSession.cpp, over the class [OpenSSL] with its laws [OpenSSL_ok].
    - Auth: CryptoUtil.cpp, AccountRepository.cpp, LoginController.cpp.
    - Db: DbConnectionPool.cpp, DbConnection.cpp, DbSystem.cpp.
    - Slots: the compare-and-swap loop of Lobby and Room.
    - Game: Lobby, LobbySystem, Room, RoomSystem, Player, PlayerSystem, the game
      half of GameSession, the room, lobby and administration controllers.
      [game_step] interleaves handlers, jobs, connects and disconnects.
    - Admin: AdminGrpcServer.cpp, the calls of the service, their dispatch with a
      timeout, and GrpcHost.
    - Wire: the inline functions of the protobuf headers the messages call, over the
      class [ProtobufLib] with its laws [ProtobufLib_ok], and the documented format.
    - Messages: the generated classes of DhNet_Ipc/generated/dhnet.pb.h and .cc; the
      class [Generated] is what they have in common, [implements] what each promises.
    - Accessors: the other functions protoc wrote for each field and message, over the
      class [AccessorLib] with its laws [AccessorLib_ok].
    - Tables: the parse tables of dhnet.pb.cc with the dispatch on them, from
      generated_message_tctable_decl.h and _impl.h.
    - Ipc: how AdminController.cpp fills the answers, and what a client reads.
    - Streams: ProtoBufferWriter and ProtoBufferReader of grpcpp/support, over the class
      [SliceLib] with its laws [SliceLib_ok].
    - Grpc: the stub and the service of dhnet.grpc.pb.cc with AdminServiceImpl, through
      the headers of grpcpp a blocking call runs through (BlockingUnaryCall,
      GenericSerialize, GenericDeserialize, RpcMethodHandler), over the classes
      [GrpcLib] (parsing) and [GrpcCore] (the transport) with their laws.
    - Scenario: the load generator's state machine, registry, counters and churn.
    - Report: its statistics (in binary64, as the code computes them), the history
      of intervals and the final file; [report_reach] interleaves the recording
      threads, the main loop and the console handler, whose thread has no id.
    - Average: the averages of the reports, in binary64.
    - Stress: its command line, dispatch threads and main loop.
    - Server: Handler.h, the three handler tables, the client's handlers, and the
      theorems that need several components.
    - Link: both ends of a connection composed of Packets, Crypto, RecvBuffer, the
      handler table and Game; [ChannelEnd] is the interface of an end.
    - Startup: SocketUtils.cpp, the constructor of IocpCore, Listener::StartAccept,
      GameServer.cpp and the main programs of server and client, composed of the
      definitions above, StartServer as the list of its statements
      ([StartServer_steps]); a worker's turn.

    ** What is proved

    - Concurrency: mutual exclusion of the lock under every interleaving of threads
      that have an id (threads without InitTLS break it, as a theorem shows); serial,
      exactly-once, in-order execution of jobs without lost wake-ups, as a
      refinement of a serial queue; the slot counter as an atomic bounded counter,
      refusals included; one outstanding WSASend and first-in-first-out sending,
      nothing stranded exactly when nothing was sent before the connection; one
      disconnect per session; every event the kernel holds belongs to a live session, a session
      without pending work is released, a connected one keeps receiving; exclusive
      database connections, and a shutdown that starts every accepted task if there is
      a worker; disjoint send buffers; an acyclic lock order, and a
      crash exactly on the edge that would close a cycle.
    - Protocol: every packet round-trips through memory, cut to what its fields hold;
      reassembly equals parsing the whole byte stream, for any cut of it, and never
      gets stuck; the encrypted channel round-trips, both ends of the handshake agree
      on the key and the client's login is what follows, and the server's handlers are
      reached by sealed packets only.
    - End to end: a connection from one program's Send to the other's handlers
      refines handing over the messages, however the bytes are cut; packets a client
      fills take effect on the game as their contents say; whatever bytes arrive, only
      packets sealed under the session's key act, and a peer without it can do no
      more than have its own session closed.
    - Game: slots of lobbies and rooms are conserved in every interleaving; who is
      told when a player leaves; every packet the server sends has a handler in
      both clients, but for Res_RoomList.
    - Start-up: the settings equal a direct reading of the environment; the server is
      complete before its first worker is launched, and starts exactly under the
      listed conditions; a worker's turn ends; a crash ends the process within half a
      second.
    - Administration: each call runs on the calling thread and answers with the status
      and data of the game's registry, rooms and lobbies;
      every generated message sizes, writes, clears, merges and copies its fields as
      specified, and what a client decodes from an answer is what the game had.  Each
      accessor is a lawful lens on its field; each parse table takes exactly the tags
      of its class; the two byte streams are an append-only buffer and a cursor; and a
      call of the generated stub has the effect and the answer of the command in the
      game, with every status.
    - Accounts: passwords verify exactly when their PBKDF2 images agree; login packets
      never overrun the buffers, and a login succeeds exactly for an account the
      database finds with a password of the same PBKDF2 image.
    - Load generator: exact budgets of what a session sends unanswered, giving up,
      and exact accounting of every ping; percentiles with the exact index and in
      order, averages with a bound on their relative error, one final report with
      every event up to its snapshot when the run ends by itself, the command line's
      round trip, fair dispatch.
    - Defects, as theorems about the code as it is: the lock's id 0, counts a console
      signal loses, double
      construction in the object pool, null senders on an exhausted pool, the
      leaked room slot, the unanswered login, iterator invalidation in BroadCast,
      sends before the connection, the ghost in the lobby, duplicate logins, a login
      that races with its disconnect, pings during the handshake, misattributed
      late answers, sessions leaked by a refused connection, failed connections
      taken for good ones, receive loops that end silently, truncated ports, room
      ids that alias, the wrong socket option, a session limit that is not applied,
      short sealed packets handled on uninitialised stack, a completion port that
      could not be created and is not missed, an address that could not be read and
      is used, lists a client cannot read because of one name, answers that are filled
      and not sent.

    ** Bounds and fuel

    The parsing loop of ProcessRecv has fuel the number of unread bytes, and each
    turn consumes at least four ([recv_never_stuck]); the profiler's search has
    fuel the number of locks plus one, and each nested call visits a new lock
    ([DFS_ok]).  [lock_reach] and [job_reach] bound the live guards (0xFFFF per
    lock) and the pending jobs (int32), the widths of their counters; thread ids
    are those ThreadManager::Launch hands out, at most 0xFFFF.  Decimal text is
    written with fuel for 20 digits, enough for 64-bit numbers.  The percentile
    theorems hold below 2^40 samples, where the rounding error of the product is
    below a hundredth; no process holds more.  The loop of a worker's turn is
    driven by the list of clock readings, one per test of its condition.
    A varint is written with fuel 10, enough for 64 bits ([varint_roundtrip]), and
    records are read with fuel the number of bytes, each taking at least two.
    Messages are below 2^31 bytes, protobuf's own limit, and those sent through gRPC
    below its default of 4 MiB.  Skip has fuel two more than the slices that are
    left, enough for one a turn ([reader_refines] shows that it ends).  The averages are
    bounded for fewer than 2^53 samples; the range of a double's exponent is not
    bounded in the model, round trips and their sums are far inside it.
    [report_reach] counts fewer than 2^64 recordings, the width of the counters.
    RegisterAccept calls itself until an accept is posted: its argument lists the
    attempts the stack has room for, and using them up is a crash.
    Counters that wrap in C++ wrap here.

    ** Parameters

    OpenSSL, MySQL, Winsock's results, the kernel's completions, failures of operator
    new[] and of the send pool, clock readings, the environment with what GetEnvironmentVariableA
    leaves in a buffer that is too small, whether gRPC could start, and the parts of
    protobuf and gRPC that are not in their headers are arguments or class members;
    what is assumed of them is a hypothesis or a class of laws, with an instance that
    satisfies it ([toy.ssl_ok] in Crypto, [toy.lib_ok] in Messages,
    [plain_strings.accessors_ok] in Accessors, [plain.slices_ok] in Streams,
    [local.grpc_ok] and [local.core_ok] in Grpc).  The memory model is sequential
    consistency per atomic access; data races the code has on plain members are not
    given a meaning, but for the console handler's snapshot in Report, whose accesses
    are steps of their own.

    ** Not modelled

    Winsock and spdlog's sinks, the text of reports and log lines, timestamps, the
    stubs compiled without gRPC, the parser protobuf runs on the tables (compiled into
    the library), swaps across arenas and moves of messages, reflection; the
    asynchronous, callback and streaming variants of the calls, metadata and
    interceptors of gRPC; the C# front end, and the rest of the vendored headers under
    Tools, which are third-party code. *)

From stdpp Require Export base decidable tactics numbers list gmap fin_sets sets strings option relations.
From Stdlib Require Export ZArith Lia.

#[global] Open Scope Z_scope.

Declare Scope dhnet_scope.
Delimit Scope dhnet_scope with dhnet.
#[global] Open Scope dhnet_scope.

(** Membership as a boolean, for the conditions of the code. *)
Notation "x ∈? s" := (bool_decide (x ∈ s)) (at level 70, no associativity) : dhnet_scope.

(** ** Machine integers *)

(** A [w]-bit unsigned value is a [Z] in [0, 2^w); conversion to it wraps. *)
Definition wrapU (w z : Z) : Z := z mod 2 ^ w.

(** A [w]-bit two's complement value; conversion to it wraps. *)
Definition wrapS (w z : Z) : Z := (z + 2 ^ (w - 1)) mod 2 ^ w - 2 ^ (w - 1).

Abbreviation u8 := (wrapU 8).
Abbreviation u16 := (wrapU 16).
Abbreviation u32 := (wrapU 32).
Abbreviation u64 := (wrapU 64).
Abbreviation i16 := (wrapS 16).
Abbreviation i32 := (wrapS 32).
Abbreviation i64 := (wrapS 64).

Lemma wrapU_small w z : 0 <= z < 2 ^ w -> wrapU w z = z.
Proof. intros H. by apply Z.mod_small. Qed.

Lemma wrapU_range w z : 0 <= w -> 0 <= wrapU w z < 2 ^ w.
Proof. intros Hw. apply Z.mod_pos_bound. lia. Qed.

Lemma wrapU_add w a b : wrapU w (wrapU w a + b) = wrapU w (a + b).
Proof. unfold wrapU. by rewrite Zplus_mod_idemp_l. Qed.

Lemma wrapU_sub w a b : wrapU w (wrapU w a - b) = wrapU w (a - b).
Proof. unfold wrapU. by rewrite Zminus_mod_idemp_l. Qed.

Lemma wrapS_small w z :
  0 < w -> - 2 ^ (w - 1) <= z < 2 ^ (w - 1) -> wrapS w z = z.
Proof.
  intros Hw Hz. unfold wrapS.
  assert (2 ^ w = 2 * 2 ^ (w - 1)) as E.
  { rewrite <- Z.pow_succ_r by lia. f_equal. lia. }
  rewrite Z.mod_small; lia.
Qed.

(** ** Fail-fast outcomes *)

(** [CRASH(cause)] of Macro.h never returns: an operation that may reach it
    returns [Crash cause], every other result is [Ok]. *)
Inductive outcome (A : Type) : Type :=
| Ok (a : A)
| Crash (cause : string).
Arguments Ok {A} a.
Arguments Crash {A} cause.

#[global] Instance outcome_ret : MRet outcome := fun _ a => Ok a.
#[global] Instance outcome_bind : MBind outcome := fun A B f m =>
  match m with
  | Ok a => f a
  | Crash c => Crash c
  end.

(** [ASSERT_CRASH(expr)] of Macro.h. *)
Definition ASSERT_CRASH (expr : bool) : outcome unit :=
  if expr then Ok tt else Crash "ASSERT_CRASH".

Definition is_Ok {A} (m : outcome A) : bool :=
  match m with Ok _ => true | Crash _ => false end.

Lemma bind_Ok_inv {A B} (m : outcome A) (f : A -> outcome B) b :
  (m ≫= f) = Ok b -> exists a, m = Ok a /\ f a = Ok b.
Proof. destruct m as [a|c]; cbn; [eauto | done]. Qed.

(** ** Reachability *)

Section reach.
Context {S : Type} (init : S -> Prop) (step : S -> S -> Prop) (bound : S -> Prop).

(** The states an execution visits, as long as every visited state
    respects [bound] (a resource limit such as a counter's width). *)
Inductive reach : S -> Prop :=
| reach_init s : init s -> reach s
| reach_step s s' : reach s -> step s s' -> bound s' -> reach s'.

Lemma reach_invariant (I : S -> Prop) :
  (forall s, init s -> I s) ->
  (forall s s', I s -> step s s' -> bound s' -> I s') ->
  forall s, reach s -> I s.
Proof. intros Hi Hs s Hr. induction Hr; eauto. Qed.
End reach.

(** ** Lists indexed by thread or slot number *)

Section list_sum.
Context {A : Type} (f : A -> Z).

Fixpoint zsum (l : list A) : Z :=
  match l with
  | [] => 0
  | x :: l' => f x + zsum l'
  end.

Lemma zsum_app l1 l2 : zsum (l1 ++ l2) = zsum l1 + zsum l2.
Proof. induction l1 as [|x l1 IH]; cbn; [done | rewrite IH; lia]. Qed.

Lemma zsum_insert (l : list A) (i : nat) x y :
  l !! i = Some x -> zsum (<[i := y]> l) = zsum l - f x + f y.
Proof.
  revert i. induction l as [|z l IH]; intros [|i] H; [done|done| |].
  - cbn in *; simplify_eq. lia.
  - change (<[S i := y]> (z :: l)) with (z :: <[i := y]> l). cbn [zsum].
    rewrite (IH i H). lia.
Qed.

Lemma zsum_nonneg l : (forall x, x ∈ l -> 0 <= f x) -> 0 <= zsum l.
Proof.
  induction l as [|x l IH]; cbn; intros H; [lia|].
  specialize (H x ltac:(set_solver)) as Hx.
  enough (0 <= zsum l) by lia. apply IH. intros y Hy. apply H. set_solver.
Qed.

Lemma zsum_ge (l : list A) (i : nat) x :
  (forall y, y ∈ l -> 0 <= f y) -> l !! i = Some x -> f x <= zsum l.
Proof.
  revert i. induction l as [|y l IH]; intros [|i] H Hi; cbn in *; simplify_eq.
  - assert (0 <= zsum l); [|lia]. apply zsum_nonneg. intros z Hz. apply H. set_solver.
  - assert (0 <= f y) by (apply H; set_solver).
    assert (f x <= zsum l); [|lia]. apply (IH i); [|done]. intros z Hz. apply H. set_solver.
Qed.

Lemma zsum_ge_two (l : list A) (i j : nat) x y :
  (forall z, z ∈ l -> 0 <= f z) -> l !! i = Some x -> l !! j = Some y -> i <> j ->
  f x + f y <= zsum l.
Proof.
  revert i j. induction l as [|z l IH]; intros [|i] [|j] H Hi Hj Hne; try done; cbn in *; simplify_eq.
  - assert (f y <= zsum l); [|lia]. apply (zsum_ge l j); [set_solver|done].
  - assert (f x <= zsum l); [|lia]. apply (zsum_ge l i); [set_solver|done].
  - assert (0 <= f z) by (apply H; set_solver).
    assert (f x + f y <= zsum l); [|lia]. apply (IH i j); [set_solver|done|done|lia].
Qed.

Lemma zsum_zero l : (forall x, x ∈ l -> f x = 0) -> zsum l = 0.
Proof.
  induction l as [|x l IH]; cbn; intros H; [done|].
  rewrite (H x) by set_solver. rewrite IH; [done|]. intros y Hy. apply H. set_solver.
Qed.
End list_sum.

Lemma zsum_ext {A} (f g : A -> Z) l :
  (forall x, x ∈ l -> f x = g x) -> zsum f l = zsum g l.
Proof.
  induction l as [|x l IH]; cbn; intros H; [done|].
  rewrite (H x) by set_solver. rewrite IH; [done|]. intros y Hy. apply H. set_solver.
Qed.

Lemma take_take_app {A} (n : nat) (l k : list A) : take n (take n l ++ k) = take n (l ++ k).
Proof.
  revert l. induction n as [|n IH]; intros [|x l]; cbn; [done..|]. by rewrite IH.
Qed.

(** ** Automation *)

Create HintDb dhnet.
Create Rewrite HintDb dhnet.

(** Destruct the innermost [match] / [if] scrutinee of the goal or of a hypothesis. *)
Ltac case_inner :=
  match goal with
  | |- context [match ?x with _ => _ end] =>
      lazymatch x with context [match _ with _ => _ end] => fail | _ => destruct x eqn:? end
  | H : context [match ?x with _ => _ end] |- _ =>
      lazymatch x with context [match _ with _ => _ end] => fail | _ => destruct x eqn:? end
  end.

(** Turn the boolean comparisons of hypotheses into propositions. *)
Ltac to_prop :=
  repeat match goal with
  | H : (_ =? _) = true |- _ => apply Z.eqb_eq in H
  | H : (_ =? _) = false |- _ => apply Z.eqb_neq in H
  | H : (_ <? _) = true |- _ => apply Z.ltb_lt in H
  | H : (_ <? _) = false |- _ => apply Z.ltb_ge in H
  | H : (_ <=? _) = true |- _ => apply Z.leb_le in H
  | H : (_ <=? _) = false |- _ => apply Z.leb_gt in H
  | H : (_ && _) = true |- _ => apply andb_true_iff in H as [? ?]
  | H : (_ || _) = false |- _ => apply orb_false_iff in H as [? ?]
  | H : negb _ = true |- _ => apply negb_true_iff in H
  | H : negb _ = false |- _ => apply negb_false_iff in H
  end.
