(* ===== verification/Lock.v ===== *)
(** * The reader/writer spin lock and its RAII guards

    src/DhUtil/Lock.h and Lock.cpp, with the thread ids that
    ThreadManager::InitTLS hands out.

    [m_lockFlag] packs the owner's thread id (upper 16 bits) and the number of
    readers (lower 16 bits).  Every access to it is one atomic step here, and
    the threads interleave between any two steps: [exec_action] is one step of
    one thread, [lock_step] the step relation of a set of threads.  A thread
    carries the guards (ReadLockGuard, WriteLockGuard) it has constructed and
    not yet destroyed, youngest first; a destructor always releases the
    youngest, which is what C++ scoping enforces. *)

From S2P Require Import Prelude.

(** ** Data *)

Definition ACQUIRE_TIMEOUT_TICK : Z := 10000.
Definition MAX_SPIN_COUNT : Z := 5000.
Definition WRITE_THREAD_MASK : Z := 0xFFFF0000.
Definition READ_COUNT_MASK : Z := 0x0000FFFF.
Definition EMPTY_FLAG : Z := 0.

Record Lock := mkLock {
  m_lockFlag : Z;      (* std::atomic<uint32> *)
  m_writeCount : Z     (* uint16 *)
}.

Definition Lock_new : Lock := mkLock EMPTY_FLAG 0.

(** The live guard objects of a thread. *)
Inductive guard := ReadLockGuard | WriteLockGuard.

#[global] Instance guard_eq_dec : EqDecision guard.
Proof. solve_decision. Defined.

(** Where a thread stands inside the four methods. *)
Inductive lock_pc :=
| Outside                                    (* in none of the methods *)
| WSpin (spinCount beginTick : Z)            (* WriteLock: next is the CAS *)
| WCount                                     (* WriteLock: next is m_writeCount++ *)
| WUnlock                                    (* WriteUnlock: next is --m_writeCount *)
| WStore (lockCount : Z)                     (* WriteUnlock: next is the test and store *)
| RAdd                                       (* ReadLock by the owner: next is fetch_add *)
| RSpin (spinCount beginTick : Z)            (* ReadLock: next is the load *)
| RCas (spinCount beginTick expected : Z).   (* ReadLock: next is the CAS *)

Record lthread := mkThread {
  LThreadId : Z;
  t_pc : lock_pc;
  t_guards : list guard
}.

Definition with_pc (th : lthread) (p : lock_pc) : lthread :=
  mkThread (LThreadId th) p (t_guards th).

(** ** Operations *)

(** [(m_lockFlag.load() & WRITE_THREAD_MASK) >> 16] *)
Definition lockThreadId (flag : Z) : Z :=
  Z.shiftr (Z.land flag WRITE_THREAD_MASK) 16.

(** [m_lockFlag.load() & READ_COUNT_MASK] *)
Definition readCount (flag : Z) : Z := Z.land flag READ_COUNT_MASK.

(** [const int32 desired = ((LThreadId << 16) & WRITE_THREAD_MASK)], which
    compare_exchange_strong takes as a uint32. *)
Definition desired (tid : Z) : Z :=
  u32 (i32 (Z.land (u32 (Z.shiftl tid 16)) WRITE_THREAD_MASK)).

(** What a thread may do next: call a method, destroy its youngest guard, or
    go on inside a method.  [now] is what ::GetTickCount64() returns there. *)
Inductive lock_action :=
| CallWriteLock (now : Z)
| CallReadLock (now : Z)
| DestroyGuard
| Continue (now : Z).

Definition WriteLock_enter (lk : Lock) (th : lthread) (now : Z) : lthread :=
  if LThreadId th =? lockThreadId (m_lockFlag lk)
  then with_pc th WCount
  else with_pc th (WSpin 0 now).

Definition ReadLock_enter (lk : Lock) (th : lthread) (now : Z) : lthread :=
  if LThreadId th =? lockThreadId (m_lockFlag lk)
  then with_pc th RAdd
  else with_pc th (RSpin 0 now).

Definition WriteUnlock_enter (lk : Lock) (th : lthread) : outcome lthread :=
  if negb (readCount (m_lockFlag lk) =? 0)
  then Crash "INVALID_UNLOCK_ORDER"
  else Ok (with_pc th WUnlock).

Definition ReadUnlock (lk : Lock) (th : lthread) (rest : list guard)
  : outcome (Lock * lthread) :=
  if readCount (m_lockFlag lk) =? 0
  then Crash "MULTIPLE_UNLOCK"
  else Ok (mkLock (u32 (m_lockFlag lk - 1)) (m_writeCount lk),
           mkThread (LThreadId th) Outside rest).

(** One iteration of WriteLock's loop. *)
Definition WriteLock_spin (lk : Lock) (th : lthread) (spinCount beginTick now : Z)
  : outcome (Lock * lthread) :=
  if spinCount <? MAX_SPIN_COUNT then
    if m_lockFlag lk =? EMPTY_FLAG
    then Ok (mkLock (desired (LThreadId th)) (m_writeCount lk), with_pc th WCount)
    else Ok (lk, with_pc th (WSpin (spinCount + 1) beginTick))
  else if u64 (now - beginTick) >=? ACQUIRE_TIMEOUT_TICK
  then Crash "LOCK_TIMEOUT"
  else Ok (lk, with_pc th (WSpin 0 beginTick)).

(** ReadLock's loop: the load of [expected], then the CAS. *)
Definition ReadLock_spin (lk : Lock) (th : lthread) (spinCount beginTick now : Z)
  : outcome (Lock * lthread) :=
  if spinCount <? MAX_SPIN_COUNT
  then Ok (lk, with_pc th (RCas spinCount beginTick (readCount (m_lockFlag lk))))
  else if u64 (now - beginTick) >=? ACQUIRE_TIMEOUT_TICK
  then Crash "LOCK_TIMEOUT"
  else Ok (lk, with_pc th (RSpin 0 beginTick)).

Definition ReadLock_cas (lk : Lock) (th : lthread) (spinCount beginTick expected : Z)
  : Lock * lthread :=
  if m_lockFlag lk =? expected
  then (mkLock (u32 (expected + 1)) (m_writeCount lk),
        mkThread (LThreadId th) Outside (ReadLockGuard :: t_guards th))
  else (lk, with_pc th (RSpin (spinCount + 1) beginTick)).

(** One atomic step of one thread; [None] when the action does not apply. *)
Definition exec_action (a : lock_action) (lk : Lock) (th : lthread)
  : option (outcome (Lock * lthread)) :=
  match t_pc th, a with
  | Outside, CallWriteLock now => Some (Ok (lk, WriteLock_enter lk th now))
  | Outside, CallReadLock now => Some (Ok (lk, ReadLock_enter lk th now))
  | Outside, DestroyGuard =>
      match t_guards th with
      | [] => None
      | WriteLockGuard :: _ =>
          Some (th' ← WriteUnlock_enter lk th; Ok (lk, th'))
      | ReadLockGuard :: rest => Some (ReadUnlock lk th rest)
      end
  | WSpin n b, Continue now => Some (WriteLock_spin lk th n b now)
  | WCount, Continue _ =>
      Some (Ok (mkLock (m_lockFlag lk) (u16 (m_writeCount lk + 1)),
                mkThread (LThreadId th) Outside (WriteLockGuard :: t_guards th)))
  | WUnlock, Continue _ =>
      let lockCount := u16 (m_writeCount lk - 1) in
      Some (Ok (mkLock (m_lockFlag lk) lockCount, with_pc th (WStore lockCount)))
  | WStore lockCount, Continue _ =>
      Some (Ok (if lockCount =? 0 then mkLock EMPTY_FLAG (m_writeCount lk) else lk,
                mkThread (LThreadId th) Outside (tail (t_guards th))))
  | RAdd, Continue _ =>
      Some (Ok (mkLock (u32 (m_lockFlag lk + 1)) (m_writeCount lk),
                mkThread (LThreadId th) Outside (ReadLockGuard :: t_guards th)))
  | RSpin n b, Continue now => Some (ReadLock_spin lk th n b now)
  | RCas n b e, Continue _ => Some (Ok (ReadLock_cas lk th n b e))
  | _, _ => None
  end.

(** ** Threads that share one lock *)

Record lock_world := mkLW { lw_lock : Lock; lw_threads : list lthread }.

Inductive lock_step : lock_world -> lock_world -> Prop :=
| lock_step_intro w i th a lk' th' :
    lw_threads w !! i = Some th ->
    exec_action a (lw_lock w) th = Some (Ok (lk', th')) ->
    lock_step w (mkLW lk' (<[i := th']> (lw_threads w))).

(** ThreadManager::InitTLS: ids count up from 1. *)
Definition SThreadId_init : Z := 1.
Definition InitTLS (SThreadId : Z) : Z * Z := (SThreadId, u32 (SThreadId + 1)).

(** Threads launched one after the other, none of them holding a guard. *)
Fixpoint launch (n : nat) (SThreadId : Z) : list lthread :=
  match n with
  | O => []
  | S n' => let '(tid, next) := InitTLS SThreadId in
            mkThread tid Outside [] :: launch n' next
  end.

(** Every thread that uses the lock has run InitTLS, and no more than 0xFFFF have.
    The program also runs threads that have not (gRPC's, the console handler's): they
    have id 0, are outside these worlds, and are not kept out
    ([uninitialised_thread_breaks_exclusion]). *)
Definition lock_init (w : lock_world) : Prop :=
  lw_lock w = Lock_new /\
  (forall i th, lw_threads w !! i = Some th -> t_pc th = Outside /\ t_guards th = []) /\
  (forall i th, lw_threads w !! i = Some th -> 1 <= LThreadId th <= 0xFFFF) /\
  (forall i j a b, lw_threads w !! i = Some a -> lw_threads w !! j = Some b ->
     LThreadId a = LThreadId b -> i = j).

(** At most 0xFFFF guards are alive at once, the capacity of the two 16-bit
    counters. *)
Definition guards_fit (w : lock_world) : Prop :=
  zsum (fun th => Z.of_nat (length (t_guards th))) (lw_threads w) <= 0xFFFF.

Definition lock_reach : lock_world -> Prop := reach lock_init lock_step guards_fit.

(** A schedule: which thread does what, in order; [None] as soon as a step
    does not apply, crashes, or leaves more guards alive than fit. *)
Fixpoint lock_run (sched : list (nat * lock_action)) (w : lock_world) : option lock_world :=
  match sched with
  | [] => Some w
  | (i, a) :: sched' =>
      match lw_threads w !! i with
      | Some th =>
          match exec_action a (lw_lock w) th with
          | Some (Ok (lk', th')) =>
              let w' := mkLW lk' (<[i := th']> (lw_threads w)) in
              if zsum (fun th => Z.of_nat (length (t_guards th))) (lw_threads w') <=? 0xFFFF
              then lock_run sched' w' else None
          | _ => None
          end
      | None => None
      end
  end.

(** ** Bit-field arithmetic of the flag *)

Lemma readCount_mod flag : readCount flag = flag mod 65536.
Proof.
  unfold readCount. change READ_COUNT_MASK with (Z.ones 16).
  by rewrite Z.land_ones by lia.
Qed.

Lemma lockThreadId_div flag : lockThreadId flag = (flag / 65536) mod 65536.
Proof.
  unfold lockThreadId. rewrite Z.shiftr_land.
  change (Z.shiftr WRITE_THREAD_MASK 16) with (Z.ones 16).
  rewrite Z.land_ones by lia. by rewrite Z.shiftr_div_pow2 by lia.
Qed.

Lemma readCount_pack tid r : 0 <= r < 65536 -> readCount (tid * 65536 + r) = r.
Proof.
  intros Hr. rewrite readCount_mod, Z.add_comm, Z_mod_plus_full.
  by apply Z.mod_small.
Qed.

Lemma lockThreadId_pack tid r :
  0 <= tid < 65536 -> 0 <= r < 65536 -> lockThreadId (tid * 65536 + r) = tid.
Proof.
  intros Ht Hr. rewrite lockThreadId_div, Z.add_comm, Z_div_plus_full by lia.
  rewrite (Z.div_small r) by lia. by apply Z.mod_small.
Qed.

Lemma desired_pack tid : 0 <= tid < 65536 -> desired tid = tid * 65536.
Proof.
  intros Ht. unfold desired.
  rewrite Z.shiftl_mul_pow2 by lia. change (2 ^ 16) with 65536.
  rewrite (wrapU_small 32 (tid * 65536)) by lia.
  replace (Z.land (tid * 65536) WRITE_THREAD_MASK) with (tid * 65536).
  - unfold wrapS, wrapU. change (2 ^ (32 - 1)) with 2147483648. change (2 ^ 32) with 4294967296.
    rewrite Zminus_mod_idemp_l. replace (tid * 65536 + 2147483648 - 2147483648) with (tid * 65536) by lia.
    apply Z.mod_small. lia.
  - change WRITE_THREAD_MASK with (Z.shiftl (Z.ones 16) 16).
    change (tid * 65536) with (tid * 2 ^ 16).
    rewrite <- Z.shiftl_mul_pow2, <- Z.shiftl_land, Z.land_ones by lia.
    by rewrite Z.mod_small by lia.
Qed.

(** ** The invariant *)

Definition is_read (g : guard) : Z := match g with ReadLockGuard => 1 | _ => 0 end.
Definition is_write (g : guard) : Z := match g with WriteLockGuard => 1 | _ => 0 end.
Definition reads (th : lthread) : Z := zsum is_read (t_guards th).
Definition writes (th : lthread) : Z := zsum is_write (t_guards th).

(** Between the methods or in a loop that has not acquired anything yet; the
    value a reader's CAS expects never carries an owner. *)
Definition waiting (p : lock_pc) : Prop :=
  match p with
  | Outside | WSpin _ _ | RSpin _ _ => True
  | RCas _ _ expected => 0 <= expected <= 0xFFFF
  | _ => False
  end.

(** The thread that owns the flag: its write guards are counted in
    [m_writeCount], up to the increment or decrement it is about to do. *)
Definition owner_ok (th : lthread) (lk : Lock) : Prop :=
  match t_pc th with
  | WCount => m_writeCount lk = writes th
  | WUnlock => m_writeCount lk = writes th /\ 0 < writes th /\ reads th = 0 /\
               (exists gs, t_guards th = WriteLockGuard :: gs)
  | WStore c => m_writeCount lk = writes th - 1 /\ c = m_writeCount lk /\ 0 < writes th /\
                reads th = 0 /\ (exists gs, t_guards th = WriteLockGuard :: gs)
  | Outside | RAdd => m_writeCount lk = writes th /\ 0 < writes th
  | _ => False
  end.

Definition ids_ok (ths : list lthread) : Prop :=
  (forall i th, ths !! i = Some th -> 1 <= LThreadId th <= 0xFFFF) /\
  (forall i j a b, ths !! i = Some a -> ths !! j = Some b ->
     LThreadId a = LThreadId b -> i = j).

Definition lock_free (w : lock_world) : Prop :=
  (forall i th, lw_threads w !! i = Some th -> writes th = 0 /\ waiting (t_pc th)) /\
  m_writeCount (lw_lock w) = 0 /\
  m_lockFlag (lw_lock w) = zsum reads (lw_threads w).

Definition lock_held (w : lock_world) (i : nat) : Prop :=
  exists th, lw_threads w !! i = Some th /\
    m_lockFlag (lw_lock w) = LThreadId th * 65536 + reads th /\
    owner_ok th (lw_lock w) /\
    (forall j b, lw_threads w !! j = Some b -> j <> i -> t_guards b = [] /\ waiting (t_pc b)).

Definition lock_inv (w : lock_world) : Prop :=
  ids_ok (lw_threads w) /\ guards_fit w /\ (lock_free w \/ exists i, lock_held w i).

Lemma reads_nonneg th : 0 <= reads th.
Proof. apply zsum_nonneg. by intros []. Qed.

Lemma writes_nonneg th : 0 <= writes th.
Proof. apply zsum_nonneg. by intros []. Qed.

Lemma guards_split th : Z.of_nat (length (t_guards th)) = reads th + writes th.
Proof.
  unfold reads, writes. induction (t_guards th) as [|[] gs IH]; cbn [length zsum is_read is_write]; lia.
Qed.

Lemma guards_nil th : t_guards th = [] -> reads th = 0 /\ writes th = 0.
Proof. unfold reads, writes. intros ->. done. Qed.

Lemma total_reads_fit w : guards_fit w -> zsum reads (lw_threads w) <= 0xFFFF.
Proof.
  unfold guards_fit. intros H. etransitivity; [|exact H].
  induction (lw_threads w) as [|th ths IH]; cbn [zsum]; [done|].
  pose proof (guards_split th). pose proof (writes_nonneg th). pose proof (reads_nonneg th).
  cbn in H. assert (0 <= zsum (fun th => Z.of_nat (length (t_guards th))) ths) by (apply zsum_nonneg; lia).
  enough (zsum reads ths <= zsum (fun th => Z.of_nat (length (t_guards th))) ths) by lia.
  apply IH. lia.
Qed.

Lemma thread_guards_fit w i th :
  guards_fit w -> lw_threads w !! i = Some th -> reads th + writes th <= 0xFFFF.
Proof.
  intros H Hi. rewrite <- guards_split.
  etransitivity; [|exact H].
  apply (zsum_ge (fun th => Z.of_nat (length (t_guards th))) _ i th); [lia | done].
Qed.

Lemma ids_ok_insert ths i th th' :
  ids_ok ths -> ths !! i = Some th -> LThreadId th' = LThreadId th ->
  ids_ok (<[i := th']> ths).
Proof.
  intros [Hr Hi] Hth Hid. split.
  - intros j b Hb. destruct (decide (i = j)) as [->|Hne].
    + rewrite list_lookup_insert_eq in Hb by (by eapply lookup_lt_Some). simplify_eq.
      rewrite Hid. eauto.
    + rewrite list_lookup_insert_ne in Hb by done. eauto.
  - intros j k a b Ha Hb E.
    apply list_lookup_insert_Some in Ha as [(-> & -> & _)|[Hj Ha]];
      apply list_lookup_insert_Some in Hb as [(-> & -> & _)|[Hk Hb]];
      rewrite ?Hid in E; eauto.
Qed.

Lemma exec_action_id a lk th lk' th' :
  exec_action a lk th = Some (Ok (lk', th')) -> LThreadId th' = LThreadId th.
Proof.
  unfold exec_action, WriteLock_enter, ReadLock_enter, WriteUnlock_enter, ReadUnlock,
    WriteLock_spin, ReadLock_spin, ReadLock_cas.
  intros H. repeat (case_inner; cbn in *; simplify_eq; try done).
Qed.

(** A thread's step that keeps its guards and leaves it waiting, or changes
    them, seen from the other threads. *)
Lemma others_insert (P : lthread -> Prop) (ths : list lthread) (i : nat) th' :
  (forall j b, ths !! j = Some b -> j <> i -> P b) ->
  forall j b, <[i := th']> ths !! j = Some b -> j <> i -> P b.
Proof.
  intros H j b Hb Hne. rewrite list_lookup_insert_ne in Hb by done. eauto.
Qed.

Lemma all_insert (P : lthread -> Prop) (ths : list lthread) (i : nat) th' :
  (forall j b, ths !! j = Some b -> P b) -> P th' ->
  forall j b, <[i := th']> ths !! j = Some b -> P b.
Proof.
  intros H Hth j b Hb. destruct (decide (i = j)) as [->|Hne].
  - apply list_lookup_insert_Some in Hb as [(_ & -> & _)|[? ?]]; [done|done].
  - rewrite list_lookup_insert_ne in Hb by done. eauto.
Qed.

Lemma free_update w i th lk' th' :
  lock_free w -> lw_threads w !! i = Some th ->
  writes th' = 0 -> waiting (t_pc th') -> m_writeCount lk' = 0 ->
  m_lockFlag lk' = m_lockFlag (lw_lock w) - reads th + reads th' ->
  lock_free (mkLW lk' (<[i := th']> (lw_threads w))).
Proof.
  intros (Hall & Hwc & Hfl) Hi Hw Hp Hwc' Hfl'. split; [|split]; cbn.
  - by apply (all_insert (fun b => writes b = 0 /\ waiting (t_pc b))).
  - done.
  - rewrite (zsum_insert _ _ _ _ _ Hi). lia.
Qed.

Lemma held_update w i th lk' th' :
  (forall j b, lw_threads w !! j = Some b -> j <> i -> t_guards b = [] /\ waiting (t_pc b)) ->
  lw_threads w !! i = Some th ->
  m_lockFlag lk' = LThreadId th' * 65536 + reads th' -> owner_ok th' lk' ->
  lock_held (mkLW lk' (<[i := th']> (lw_threads w))) i.
Proof.
  intros Ho Hi Hfl How. exists th'. cbn. split_and!.
  - apply list_lookup_insert_eq. by eapply lookup_lt_Some.
  - done.
  - done.
  - by apply (others_insert (fun b => t_guards b = [] /\ waiting (t_pc b))).
Qed.

(** A bystander of the owner keeps its empty guard list and keeps waiting. *)
Lemma held_other w i j b b' :
  lock_held w i -> lw_threads w !! j = Some b -> j <> i ->
  t_guards b' = [] -> waiting (t_pc b') ->
  lock_held (mkLW (lw_lock w) (<[j := b']> (lw_threads w))) i.
Proof.
  intros (th & Hi & Hfl & How & Ho) Hj Hne Hg Hp. exists th. cbn. split_and!; try done.
  - by rewrite list_lookup_insert_ne.
  - intros k c Hc Hk. apply list_lookup_insert_Some in Hc as [(-> & -> & _)|[Hne' Hc]]; eauto.
Qed.

Lemma reads_zero_nil th : reads th = 0 -> writes th = 0 -> t_guards th = [].
Proof.
  intros Hr Hw. pose proof (guards_split th) as H. rewrite Hr, Hw in H.
  apply length_zero_iff_nil. lia.
Qed.

Lemma reads_mk tid p gs : reads (mkThread tid p gs) = zsum is_read gs.
Proof. done. Qed.

Lemma writes_mk tid p gs : writes (mkThread tid p gs) = zsum is_write gs.
Proof. done. Qed.

Lemma free_flag w i th :
  guards_fit w -> lock_free w -> lw_threads w !! i = Some th ->
  lockThreadId (m_lockFlag (lw_lock w)) = 0 /\
  readCount (m_lockFlag (lw_lock w)) = m_lockFlag  (lw_lock w) /\
  0 <= m_lockFlag (lw_lock w) <= 0xFFFF /\
  reads th <= m_lockFlag (lw_lock w).
Proof.
  intros Hfit (Hall & Hwc & Hfl) Hi.
  assert (Hpos : forall x, x ∈ lw_threads w -> 0 <= reads x) by (intros x _; apply reads_nonneg).
  pose proof (zsum_nonneg reads (lw_threads w) Hpos).
  pose proof (total_reads_fit _ Hfit).
  pose proof (zsum_ge reads _ _ _ Hpos Hi).
  pose proof (lockThreadId_pack 0 (m_lockFlag (lw_lock w))).
  pose proof (readCount_pack 0 (m_lockFlag (lw_lock w))).
  rewrite Z.add_0_l in *. split_and!; lia || auto with lia.
Qed.

(** The CAS of WriteLock succeeds only when there is no reader. *)
Lemma free_acquire w i th :
  ids_ok (lw_threads w) -> lock_free w -> lw_threads w !! i = Some th ->
  m_lockFlag (lw_lock w) = EMPTY_FLAG ->
  lock_held (mkLW (mkLock (desired (LThreadId th)) (m_writeCount (lw_lock w)))
               (<[i := with_pc th WCount]> (lw_threads w))) i.
Proof.
  intros [Hids _] (Hall & Hwc & Hfl) Hi H0. pose proof (Hids _ _ Hi) as Hid.
  assert (Hz : forall j b, lw_threads w !! j = Some b -> reads b = 0).
  { intros j b Hb. pose proof (reads_nonneg b). unfold EMPTY_FLAG in H0.
    assert (reads b <= zsum reads (lw_threads w)); [|lia].
    apply (zsum_ge reads _ j); [intros; apply reads_nonneg | done]. }
  apply (held_update w i th); [|done| |].
  - intros j b Hb _. destruct (Hall _ _ Hb) as [Hw Hp]. split; [|done].
    apply reads_zero_nil; eauto.
  - cbn. rewrite desired_pack by lia. pose proof (Hz _ _ Hi) as Hr. unfold reads in *. cbn. lia.
  - destruct (Hall _ _ Hi) as [Hw _]. unfold owner_ok, writes in *. cbn in *. lia.
Qed.

(** While nobody owns the flag: a reader comes or goes, or a writer's CAS
    succeeds. *)
Lemma free_step w i th a lk' th' :
  ids_ok (lw_threads w) -> guards_fit w -> lock_free w ->
  lw_threads w !! i = Some th ->
  exec_action a (lw_lock w) th = Some (Ok (lk', th')) ->
  guards_fit (mkLW lk' (<[i := th']> (lw_threads w))) ->
  lock_free (mkLW lk' (<[i := th']> (lw_threads w))) \/
  lock_held (mkLW lk' (<[i := th']> (lw_threads w))) i.
Proof.
  intros Hids Hfit Hfree Hi Hex Hfit'.
  destruct (free_flag _ _ _ Hfit Hfree Hi) as (Htid & Hrc & Hrange & Hge).
  pose proof Hfree as (Hall & Hwc & Hfl).
  destruct (Hall _ _ Hi) as [Hw Hp]. pose proof (proj1 Hids _ _ Hi) as Hid.
  assert (Hsame : forall p, waiting p ->
    lock_free (mkLW (lw_lock w) (<[i := with_pc th p]> (lw_threads w)))).
  { intros p' Hp'. apply (free_update w i th); unfold reads, writes in *; cbn; done || lia. }
  unfold exec_action, WriteLock_enter, ReadLock_enter, WriteUnlock_enter, ReadUnlock,
    WriteLock_spin, ReadLock_spin, ReadLock_cas in Hex.
  rewrite Htid in Hex. rewrite (proj2 (Z.eqb_neq (LThreadId th) 0)) in Hex by lia.
  destruct (t_pc th) eqn:Epc; try done; destruct a; try done.
  - simplify_eq. by left; apply Hsame.
  - simplify_eq. by left; apply Hsame.
  - destruct (t_guards th) as [|[] gs] eqn:Eg; [done| |]; cbn in Hex.
    + case_inner; [done|]. simplify_eq. left.
      assert (Hr : reads th = 1 + zsum is_read gs) by (unfold reads; by rewrite Eg).
      assert (Hw' : zsum is_write gs = 0) by (unfold writes in Hw; by rewrite Eg in Hw).
      pose proof (reads_nonneg (mkThread 0 Outside gs)) as Hn. rewrite reads_mk in Hn.
      apply (free_update w i th); rewrite ?writes_mk, ?reads_mk; cbn; try done.
      rewrite wrapU_small; lia.
    + pose proof (writes_nonneg (mkThread 0 Outside gs)) as Hn. rewrite writes_mk in Hn.
      unfold writes in Hw. rewrite Eg in Hw. cbn in Hw. lia.
  - repeat case_inner; simplify_eq; to_prop; [right|left; by apply Hsame|left; by apply Hsame].
    by apply free_acquire.
  - repeat case_inner; simplify_eq; left; apply Hsame; cbn; lia || done.
  - left. case_inner; simplify_eq; to_prop; [|by apply Hsame].
    apply total_reads_fit in Hfit'. cbn in Hfit'. rewrite (zsum_insert _ _ _ _ _ Hi), reads_mk in Hfit'.
    apply (free_update w i th); rewrite ?writes_mk, ?reads_mk; cbn in *; try done.
    unfold reads in Hfit' at 2. unfold reads at 1. rewrite wrapU_small; lia.
Qed.

Lemma held_flag w i th j b :
  ids_ok (lw_threads w) -> guards_fit w ->
  lw_threads w !! i = Some th -> m_lockFlag (lw_lock w) = LThreadId th * 65536 + reads th ->
  lw_threads w !! j = Some b ->
  lockThreadId (m_lockFlag (lw_lock w)) = LThreadId th /\
  readCount (m_lockFlag (lw_lock w)) = reads th /\
  0 <= reads th <= 0xFFFF /\ 0 <= writes th /\ reads th + writes th <= 0xFFFF /\
  1 <= LThreadId th <= 0xFFFF /\ (LThreadId b = LThreadId th -> j = i).
Proof.
  intros [Hids Hinj] Hfit Hi Hfl Hj.
  pose proof (Hids _ _ Hi). pose proof (reads_nonneg th). pose proof (writes_nonneg th).
  pose proof (thread_guards_fit _ _ _ Hfit Hi).
  rewrite Hfl, lockThreadId_pack, readCount_pack by lia.
  split_and!; try lia. intros E. eauto.
Qed.

(** A thread other than the owner cannot acquire anything. *)
Lemma held_bystander_step w i j b a lk' b' :
  ids_ok (lw_threads w) -> guards_fit w -> lock_held w i ->
  lw_threads w !! j = Some b -> j <> i ->
  exec_action a (lw_lock w) b = Some (Ok (lk', b')) ->
  lock_held (mkLW lk' (<[j := b']> (lw_threads w))) i.
Proof.
  intros Hids Hfit Hheld Hj Hne Hex.
  pose proof Hheld as (th & Hi & Hfl & How & Ho).
  destruct (Ho _ _ Hj Hne) as [Hg Hp].
  destruct (held_flag _ _ _ _ _ Hids Hfit Hi Hfl Hj) as (Htid & Hrc & Hr & _ & _ & Hid & Hinj).
  assert (Hsame : forall p, waiting p ->
    lock_held (mkLW (lw_lock w) (<[j := with_pc b p]> (lw_threads w))) i).
  { intros p' Hp'. by eapply held_other. }
  unfold exec_action, WriteLock_enter, ReadLock_enter, WriteLock_spin, ReadLock_spin,
    ReadLock_cas in Hex.
  rewrite Htid, Hg in Hex. rewrite (proj2 (Z.eqb_neq (LThreadId b) (LThreadId th))) in Hex by auto.
  destruct (t_pc b) eqn:Epc; try done; destruct a; try done;
    repeat (case_inner; try done); simplify_eq; to_prop;
    try (by apply Hsame); unfold EMPTY_FLAG, waiting in *; try lia.
  apply Hsame. cbn. lia.
Qed.

(** The last write guard goes: nobody is left. *)
Lemma owner_releases w i th gs :
  lw_threads w !! i = Some th -> t_guards th = WriteLockGuard :: gs ->
  (forall j b, lw_threads w !! j = Some b -> j <> i -> t_guards b = [] /\ waiting (t_pc b)) ->
  m_writeCount (lw_lock w) = 0 -> m_writeCount (lw_lock w) = writes th - 1 -> reads th = 0 ->
  lock_free (mkLW (mkLock EMPTY_FLAG (m_writeCount (lw_lock w)))
    (<[i := mkThread (LThreadId th) Outside gs]> (lw_threads w))).
Proof.
  intros Hi Eg Ho Hwc Hw Hr.
  assert (Hw' : zsum is_write gs = 0) by (unfold writes in Hw; rewrite Eg in Hw; cbn in Hw; lia).
  assert (Hr' : zsum is_read gs = 0) by (unfold reads in Hr; by rewrite Eg in Hr).
  assert (Hall : forall j b, <[i := mkThread (LThreadId th) Outside gs]> (lw_threads w) !! j = Some b ->
    reads b = 0 /\ writes b = 0 /\ waiting (t_pc b)).
  { intros j b Hb. apply list_lookup_insert_Some in Hb as [(-> & <- & _)|[Hne Hb]].
    - by rewrite reads_mk, writes_mk.
    - destruct (Ho _ _ Hb ltac:(done)) as [Hg Hp]. apply guards_nil in Hg. tauto. }
  split; [|split]; cbn; [|done|].
  - intros j b Hb. apply Hall in Hb. tauto.
  - symmetry. apply zsum_zero. intros x Hx. apply list_elem_of_lookup in Hx as [j Hj].
    by apply Hall in Hj as [? _].
Qed.

(** The owner may nest guards, release its youngest, or give up the flag. *)
Lemma held_owner_step w i th a lk' th' :
  ids_ok (lw_threads w) -> guards_fit w -> lock_held w i ->
  lw_threads w !! i = Some th ->
  exec_action a (lw_lock w) th = Some (Ok (lk', th')) ->
  guards_fit (mkLW lk' (<[i := th']> (lw_threads w))) ->
  lock_free (mkLW lk' (<[i := th']> (lw_threads w))) \/
  lock_held (mkLW lk' (<[i := th']> (lw_threads w))) i.
Proof.
  intros Hids Hfit (th0 & Hi & Hfl & How & Ho) Hi' Hex Hfit'.
  assert (th0 = th) as -> by congruence.
  destruct (held_flag _ _ _ _ _ Hids Hfit Hi Hfl Hi) as (Htid & Hrc & Hr & Hw & Hrw & Hid & _).
  assert (Hnew : reads th' + writes th' <= 0xFFFF).
  { apply (thread_guards_fit _ i _ Hfit'). apply list_lookup_insert_eq. by eapply lookup_lt_Some. }
  unfold exec_action, WriteLock_enter, ReadLock_enter, WriteUnlock_enter, ReadUnlock,
    WriteLock_spin, ReadLock_spin, ReadLock_cas in Hex.
  rewrite Htid, Hrc, Z.eqb_refl in Hex. unfold owner_ok in How.
  assert (Hheld : forall l b, m_lockFlag l = LThreadId b * 65536 + reads b -> owner_ok b l ->
    lock_held (mkLW l (<[i := b]> (lw_threads w))) i) by (intros; by eapply held_update).
  destruct (t_pc th) eqn:Epc; try done; destruct a; try done.
  - simplify_eq. right. apply Hheld; [done|]. unfold owner_ok. cbn. tauto.
  - simplify_eq. right. apply Hheld; [done|]. unfold owner_ok. cbn. tauto.
  - destruct (t_guards th) as [|[] gs] eqn:Eg; [done| |]; cbn in Hex;
      case_inner; try done; cbn in Hex; simplify_eq; to_prop; right; apply Hheld; cbn; try done.
    + rewrite ?reads_mk. assert (reads th = 1 + zsum is_read gs) by (unfold reads; by rewrite Eg).
      rewrite wrapU_small; lia.
    + assert (writes th = 0 + zsum is_write gs) by (unfold writes; by rewrite Eg).
      unfold owner_ok. cbn. rewrite ?writes_mk. lia.
    + unfold owner_ok. cbn. unfold writes, reads in *. cbn. eauto with lia.
  - simplify_eq. right. apply Hheld; [done|].
    unfold owner_ok. cbn. rewrite !writes_mk, reads_mk in *. cbn in *. unfold writes, reads in *.
    rewrite wrapU_small; lia.
  - simplify_eq. right. apply Hheld; [done|]. destruct How as (Hwc & Hpos & Hr0 & Hg).
    unfold owner_ok. cbn. rewrite wrapU_small by lia. unfold writes, reads in *. cbn. eauto with lia.
  - destruct How as (Hwc & -> & Hpos & Hr0 & gs & Eg). rewrite Eg in Hex. cbn in Hex.
    assert (writes th = 1 + zsum is_write gs) by (unfold writes; by rewrite Eg).
    assert (reads th = zsum is_read gs) by (unfold reads; by rewrite Eg).
    case_inner; simplify_eq; to_prop.
    + left. by apply (owner_releases w i th gs).
    + right. apply Hheld; cbn; rewrite ?reads_mk; [lia|]. unfold owner_ok. cbn. rewrite ?writes_mk.
      pose proof (writes_nonneg (mkThread 0 Outside gs)) as Hn. rewrite writes_mk in Hn. lia.
  - simplify_eq. right. rewrite !writes_mk, reads_mk in *. cbn in *. apply Hheld; cbn.
    + rewrite ?reads_mk. cbn. unfold reads in *. rewrite wrapU_small; lia.
    + unfold owner_ok. cbn. rewrite ?writes_mk. cbn. unfold writes in *. lia.
Qed.

Lemma lock_inv_init w : lock_init w -> lock_inv w.
Proof.
  intros (Hlk & Hth & Hid & Hinj).
  assert (Hz : forall i th, lw_threads w !! i = Some th -> reads th = 0 /\ writes th = 0).
  { intros i th Hi. destruct (Hth _ _ Hi) as [_ E]. by apply guards_nil. }
  split; [done|]. split.
  - unfold guards_fit. rewrite zsum_zero; [lia|]. intros x [i Hi]%list_elem_of_lookup.
    destruct (Hth _ _ Hi) as [_ ->]. done.
  - left. split; [|split].
    + intros i th Hi. destruct (Hth _ _ Hi) as [-> _]. split; [by eapply Hz|done].
    + by rewrite Hlk.
    + rewrite Hlk. cbn. symmetry. apply zsum_zero. intros x [i Hi]%list_elem_of_lookup. by eapply Hz.
Qed.

Lemma lock_inv_step w w' : lock_inv w -> lock_step w w' -> guards_fit w' -> lock_inv w'.
Proof.
  intros Hinv Hstep Hfit'. destruct Hstep as [w i th a lk' th' Hi Hex].
  destruct Hinv as (Hids & Hfit & Hcase).
  split; [|split; [done|]]; cbn.
  { eapply ids_ok_insert; [exact Hids | exact Hi | by eapply exec_action_id]. }
  destruct Hcase as [Hfree|[j Hheld]].
  - destruct (free_step _ _ _ _ _ _ Hids Hfit Hfree Hi Hex Hfit'); eauto.
  - destruct (decide (i = j)) as [<-|Hne].
    + destruct (held_owner_step _ _ _ _ _ _ Hids Hfit Hheld Hi Hex Hfit'); eauto.
    + right. exists j. eapply held_bystander_step; eauto.
Qed.

Lemma lock_reach_inv w : lock_reach w -> lock_inv w.
Proof.
  apply reach_invariant; [apply lock_inv_init|]. intros; by eapply lock_inv_step.
Qed.

Lemma writes_elem th : WriteLockGuard ∈ t_guards th -> 0 < writes th.
Proof.
  intros [k Hk]%list_elem_of_lookup. unfold writes.
  assert (is_write WriteLockGuard <= zsum is_write (t_guards th)); [|cbn in *; lia].
  apply (zsum_ge is_write _ k); [by intros [] | done].
Qed.

Lemma reads_elem th : ReadLockGuard ∈ t_guards th <-> 0 < reads th.
Proof.
  unfold reads. induction (t_guards th) as [|[] gs IH]; cbn.
  - split; [set_solver|lia].
  - pose proof (reads_nonneg (mkThread 0 Outside gs)) as H. rewrite reads_mk in H.
    split; [lia|set_solver].
  - rewrite Z.add_0_l, <- IH. set_solver.
Qed.

Lemma lock_run_reach sched w w' :
  lock_reach w -> lock_run sched w = Some w' -> lock_reach w'.
Proof.
  revert w. induction sched as [|[i a] sched IH]; intros w Hw Hrun; cbn in Hrun; [by simplify_eq|].
  destruct (lw_threads w !! i) as [th|] eqn:Hi; [|done].
  destruct (exec_action a (lw_lock w) th) as [[[lk' th']|]|] eqn:Hex; try done.
  case_inner; [|done]. to_prop.
  apply (IH (mkLW lk' (<[i:=th']> (lw_threads w)))); [|done].
  apply (reach_step _ _ _ w); [done| |exact Heqb]. by eapply lock_step_intro.
Qed.

Lemma launch_lookup n s i th :
  1 <= s -> s + Z.of_nat n <= 65536 ->
  launch n s !! i = Some th -> th = mkThread (s + Z.of_nat i) Outside [] /\ (i < n)%nat.
Proof.
  revert s i. induction n as [|n IH]; intros s i Hs Hb Hi; [done|].
  cbn [launch] in Hi. unfold InitTLS in Hi. rewrite wrapU_small in Hi by lia.
  destruct i as [|i]; cbn in Hi.
  - simplify_eq. rewrite Z.add_0_r. split; [done|lia].
  - apply IH in Hi as [-> ?]; [|lia..]. split; [f_equal; lia|lia].
Qed.

Lemma launched_ok (n : nat) :
  Z.of_nat n <= 0xFFFF -> lock_init (mkLW Lock_new (launch n SThreadId_init)).
Proof.
  intros Hn.
  assert (H : forall i th, launch n SThreadId_init !! i = Some th ->
    th = mkThread (SThreadId_init + Z.of_nat i) Outside [] /\ (i < n)%nat).
  { intros i th. apply launch_lookup; unfold SThreadId_init; lia. }
  unfold SThreadId_init in *. split; [done|]. cbn. split_and!.
  - intros i th Hi. by destruct (H _ _ Hi) as [-> _].
  - intros i th Hi. destruct (H _ _ Hi) as [-> ?]. cbn. lia.
  - intros i j a b Ha Hb. destruct (H _ _ Ha) as [-> _], (H _ _ Hb) as [-> _]. cbn. lia.
Qed.

(** ** Theorems *)

(** C1: mutual exclusion.  With distinct thread ids in 1..0xFFFF, as InitTLS gives
    them, and at most 0xFFFF live guards, whatever way the atomic steps of the threads
    interleave, while one thread has a WriteLockGuard no other thread has any
    guard on the same lock. *)
Theorem write_guard_excludes w i j a b :
  lock_reach w -> i <> j ->
  lw_threads w !! i = Some a -> lw_threads w !! j = Some b ->
  WriteLockGuard ∈ t_guards a -> t_guards b = [].
Proof.
  intros (_ & _ & Hcase)%lock_reach_inv Hne Ha Hb Hw.
  apply writes_elem in Hw. destruct Hcase as [(Hall & _)|[k (th & Hk & _ & _ & Ho)]].
  - destruct (Hall _ _ Ha). lia.
  - destruct (decide (i = k)) as [->|Hik].
    + by destruct (Ho _ _ Hb ltac:(done)).
    + destruct (Ho _ _ Ha Hik) as [Hg _]. apply guards_nil in Hg. lia.
Qed.

(** destroying a guard never reaches CRASH("MULTIPLE_UNLOCK"), and it
    reaches CRASH("INVALID_UNLOCK_ORDER") exactly when a WriteLockGuard is
    destroyed under which the same thread still has a ReadLockGuard (the
    nesting R -> W that Lock.h forbids). *)
Theorem destroy_guard_crash w i th c :
  lock_reach w -> lw_threads w !! i = Some th -> t_pc th = Outside ->
  exec_action DestroyGuard (lw_lock w) th = Some (Crash c) <->
  c = "INVALID_UNLOCK_ORDER"%string /\
  (exists gs, t_guards th = WriteLockGuard :: gs) /\ ReadLockGuard ∈ t_guards th.
Proof.
  intros (Hids & Hfit & Hcase)%lock_reach_inv Hi Hpc.
  unfold exec_action, WriteUnlock_enter, ReadUnlock. rewrite Hpc, reads_elem.
  assert (Hrc : 0 < writes th -> readCount (m_lockFlag (lw_lock w)) = reads th).
  { intros Hw. destruct Hcase as [(Hall & _)|[k (b & Hk & Hfl & _ & Ho)]].
    - destruct (Hall _ _ Hi). lia.
    - destruct (decide (i = k)) as [->|Hne].
      + assert (b = th) as -> by congruence. by destruct (held_flag _ _ _ _ _ Hids Hfit Hi Hfl Hi) as (_ & ? & _).
      + destruct (Ho _ _ Hi Hne) as [Hg _]. apply guards_nil in Hg. lia. }
  assert (Hrr : 0 < reads th -> readCount (m_lockFlag (lw_lock w)) <> 0).
  { intros Hr. destruct Hcase as [Hfree|[k (b & Hk & Hfl & _ & Ho)]].
    - destruct (free_flag _ _ _ Hfit Hfree Hi) as (_ & -> & _ & ?). lia.
    - destruct (decide (i = k)) as [->|Hne].
      + assert (b = th) as -> by congruence. destruct (held_flag _ _ _ _ _ Hids Hfit Hi Hfl Hi) as (_ & -> & _). lia.
      + destruct (Ho _ _ Hi Hne) as [Hg _]. apply guards_nil in Hg. lia. }
  pose proof (reads_nonneg th).
  destruct (t_guards th) as [|[] gs] eqn:Eg; [naive_solver| |].
  - assert (0 < reads th) by (apply reads_elem; rewrite Eg; set_solver).
    case_inner; to_prop; [by apply Hrr in Heqb|naive_solver].
  - assert (0 < writes th) by (apply writes_elem; rewrite Eg; set_solver).
    rewrite Hrc by done. cbn. case_inner; to_prop; cbn; split; try naive_solver lia.
Qed.

(** when every thread is outside the methods and has destroyed its
    guards, the lock word and the recursion count are back to their initial
    values, so nothing is leaked. *)
Theorem lock_released w :
  lock_reach w ->
  (forall i th, lw_threads w !! i = Some th -> t_pc th = Outside /\ t_guards th = []) ->
  lw_lock w = Lock_new.
Proof.
  intros (_ & _ & Hcase)%lock_reach_inv Hq.
  destruct Hcase as [(_ & Hwc & Hfl)|[k (th & Hk & _ & How & _)]].
  - rewrite zsum_zero in Hfl.
    + destruct (lw_lock w). cbn in *. unfold Lock_new, EMPTY_FLAG. congruence.
    + intros x [i Hi]%list_elem_of_lookup. by apply guards_nil, (Hq _ _ Hi).
  - destruct (Hq _ _ Hk) as [Hpc Hg]. unfold owner_ok in How. rewrite Hpc in How.
    apply guards_nil in Hg. lia.
Qed.

(** a thread that never ran InitTLS has LThreadId 0, which is the owner
    field of a free lock: its WriteLock takes the recursive path and leaves
    the flag empty, so another thread's WriteLock succeeds while the first
    still holds its guard. *)
Theorem uninitialised_thread_breaks_exclusion :
  exists sched w,
    lock_run sched (mkLW Lock_new (mkThread 0 Outside [] :: launch 1 SThreadId_init)) = Some w /\
    Forall (fun th => t_guards th = [WriteLockGuard]) (lw_threads w).
Proof.
  exists [(0%nat, CallWriteLock 0); (0%nat, Continue 0);
          (1%nat, CallWriteLock 0); (1%nat, Continue 0); (1%nat, Continue 0)].
  eexists. split; [vm_compute; reflexivity|]. repeat constructor.
Qed.

(** ** Witnesses *)

(** Two launched threads: the first nests W -> R, releases the read guard,
    and the second spins meanwhile. *)
Definition demo_sched : list (nat * lock_action) :=
  [(0%nat, CallWriteLock 0); (0%nat, Continue 0); (1%nat, CallWriteLock 0); (0%nat, Continue 0);
   (1%nat, Continue 0); (0%nat, CallReadLock 0); (0%nat, Continue 0); (1%nat, Continue 0)].

Definition demo_start : lock_world := mkLW Lock_new (launch 2 SThreadId_init).

Definition demo_world : lock_world :=
  mkLW (mkLock 65537 1)
    [mkThread 1 Outside [ReadLockGuard; WriteLockGuard]; mkThread 2 (WSpin 2 0) []].

Lemma demo_reach : lock_reach demo_world.
Proof.
  apply (lock_run_reach demo_sched demo_start).
  - apply reach_init. apply launched_ok. lia.
  - vm_compute. reflexivity.
Qed.

Lemma write_guard_excludes_witness :
  lock_reach demo_world /\ t_guards (mkThread 2 (WSpin 2 0) []) = [].
Proof.
  split; [exact demo_reach|].
  apply (write_guard_excludes demo_world 0 1
           (mkThread 1 Outside [ReadLockGuard; WriteLockGuard]) (mkThread 2 (WSpin 2 0) []));
    [exact demo_reach | lia | reflexivity | reflexivity | set_solver].
Defined.

Lemma destroy_guard_crash_witness :
  exec_action DestroyGuard (lw_lock demo_world)
    (mkThread 1 Outside [ReadLockGuard; WriteLockGuard]) <> Some (Crash "MULTIPLE_UNLOCK").
Proof.
  intros H.
  apply (destroy_guard_crash demo_world 0 (mkThread 1 Outside [ReadLockGuard; WriteLockGuard])
    "MULTIPLE_UNLOCK" demo_reach eq_refl eq_refl) in H.
  destruct H as [H _]. discriminate H.
Defined.

Lemma lock_released_witness : lw_lock demo_start = Lock_new.
Proof.
  apply lock_released.
  - apply reach_init. apply launched_ok. lia.
  - intros [|[|[|i]]] th H; cbn in H; simplify_eq; done.
Defined.
