(* ===== verification/JobQueue.v ===== *)
(** * Serialised jobs: LockQueue, JobQueue, GlobalQueue, the worker loop

    src/DhUtil/LockQueue.h, Job.h, JobQueue.h, JobQueue.cpp, GlobalQueue.cpp and
    ThreadManager::DoGlobalQueueWork.

    A [world] is a set of JobQueues, the GlobalQueue and a set of worker
    threads.  Each atomic access (fetch_add, fetch_sub, a LockQueue operation
    under its WRITE_LOCK) is one step of [exec_job_action]; the threads
    interleave freely between them.  Jobs are abstract values; while one runs,
    its thread may call DoAsync on any queue.  The fields [q_pushed] and
    [q_started] record history and are never read by an operation. *)

From S2P Require Import Prelude.

(** ** LockQueue<T> *)

Section lock_queue.
Context {T : Type}.

(** Items are shared pointers: [None] is a null one, which is also what T()
    yields.  The whole method runs under WRITE_LOCK. *)
Definition LockQueue_Push (item : option T) (_items : list (option T)) : list (option T) :=
  _items ++ [item].

Definition LockQueue_Pop (_items : list (option T)) : option T * list (option T) :=
  match _items with
  | [] => (None, [])
  | ret :: rest => (ret, rest)
  end.

(** [while (T item = Pop()) items.push_back(item)]; every turn shortens the
    queue, so its length bounds the number of turns. *)
Fixpoint PopAll_loop (fuel : nat) (_items : list (option T)) (items : list T)
  : list T * list (option T) :=
  match fuel with
  | O => (items, _items)
  | S fuel' =>
      match LockQueue_Pop _items with
      | (Some item, rest) => PopAll_loop fuel' rest (items ++ [item])
      | (None, rest) => (items, rest)
      end
  end.

Definition LockQueue_PopAll (_items : list (option T)) : list T * list (option T) :=
  PopAll_loop (S (length _items)) _items [].

Definition LockQueue_Clear (_items : list (option T)) : list (option T) := [].
End lock_queue.

(** GlobalQueue: a LockQueue of JobQueues. *)
Definition GlobalQueue_Push (_jobQueue : nat) (m_jobQueues : list (option nat)) : list (option nat) :=
  LockQueue_Push (Some _jobQueue) m_jobQueues.
Definition GlobalQueue_Pop (m_jobQueues : list (option nat)) : option nat * list (option nat) :=
  LockQueue_Pop m_jobQueues.

(** ** Job *)

Section job.
Context {W : Type}.

(** How a callback ends: it returns, or throws a std::exception with its text, or
    something else. *)
Inductive ending := Returned | ThrewStd (what : list Z) | ThrewOther.

(** A std::function, possibly empty, on the rest of the program. *)
Definition CallbackType : Type := option (W -> ending * W).

(** [std::cerr]: the text of the exception, None for "Unknown error". *)
Definition Job_Execute (m_callback : CallbackType) (w : W) : list (option (list Z)) * W :=
  match m_callback with
  | None => ([], w)
  | Some callback =>
      match callback w with
      | (Returned, w) => ([], w)
      | (ThrewStd what, w) => ([Some what], w)
      | (ThrewOther, w) => ([None], w)
      end
  end.

(** The [for] over a batch in JobQueue::Execute; nothing reaches its own catch. *)
Fixpoint run_batch (jobs : list CallbackType) (w : W) : list (option (list Z)) * W :=
  match jobs with
  | [] => ([], w)
  | job :: jobs =>
      let '(cerr, w) := Job_Execute job w in
      let '(cerr', w) := run_batch jobs w in (cerr ++ cerr', w)
  end.

(** The program after a callback, however it ended. *)
Definition callback_effect (job : CallbackType) (w : W) : W := match job with Some f => snd (f w) | None => w end.

(** a job that throws does not keep the jobs behind it from running: a batch has
    the effect of all its callbacks in order, and reports at most one line each. *)
Theorem throwing_job_isolated (jobs : list CallbackType) (w : W) :
  snd (run_batch jobs w) = fold_left (fun w job => callback_effect job w) jobs w /\
  (length (fst (run_batch jobs w)) <= length jobs)%nat.
Proof.
  revert w. induction jobs as [|job jobs IH]; intros w; [done|]. cbn [run_batch fold_left].
  assert (exists cerr, Job_Execute job w = (cerr, callback_effect job w) /\ (length cerr <= 1)%nat) as (cerr & -> & Hl).
  { destruct job as [f|]; cbn; [destruct (f w) as [[] w']|]; eexists; (split; [done|cbn; lia]). }
  destruct (IH (callback_effect job w)) as [H1 H2]. destruct (run_batch jobs (callback_effect job w)) as [cerr' w'].
  cbn [fst snd] in *. split; [done|]. rewrite length_app. cbn [length]. lia.
Qed.
End job.

(** ** Queues, threads, worlds *)

Section job_queue.
Context {J : Type}.

Record JobQueue := mkJQ {
  m_jobs : list (option J);
  m_jobCount : Z;            (* std::atomic<int32> *)
  q_pushed : list J;
  q_started : list J
}.

Definition JobQueue_new : JobQueue := mkJQ [] 0 [] [].

(** Inside JobQueue::Execute. *)
Inductive exec_pc :=
| EPopAll                                  (* next: m_jobs.PopAll(jobs) *)
| ELoop (todo : list J) (jobCount : Z)     (* next: jobs[i]->Execute(), or fetch_sub *)
| EJob (todo : list J) (jobCount : Z)      (* running jobs[i] *)
| ETick                                    (* next: the test of ::GetTickCount64() *)
| EYield.                                  (* next: GGlobalQueue->Push(self) *)

(** Inside JobQueue::Push. *)
Inductive push_pc :=
| PCount                                   (* next: m_jobCount.fetch_add(1) *)
| PEnqueue (prevCount : Z)                 (* next: m_jobs.Push(job) *)
| PGlobal.                                 (* next: GGlobalQueue->Push(self) *)

Record jthread := mkJT {
  LCurrentJobQueue : option nat;
  t_exec : option (nat * exec_pc);
  t_push : option (nat * J * push_pc)
}.

Definition jthread_new : jthread := mkJT None None None.

Record jworld := mkJW {
  jw_queues : list JobQueue;
  jw_global : list (option nat);           (* GlobalQueue::m_jobQueues *)
  jw_threads : list jthread
}.

Definition with_queue (w : jworld) (q : nat) (st : JobQueue) : jworld :=
  mkJW (<[q := st]> (jw_queues w)) (jw_global w) (jw_threads w).

(** ** Operations *)

Inductive job_action :=
| CallPush (q : nat) (job : J)             (* DoAsync on queue q *)
| StepPush                                 (* go on inside Push *)
| DoGlobalQueueWork                        (* one turn of the worker's loop *)
| StepExec (now LEndTickCount : Z).        (* go on inside Execute *)

(** Start of Execute: [LCurrentJobQueue = this]. *)
Definition Execute_enter (q : nat) (th : jthread) : jthread :=
  mkJT (Some q) (Some (q, EPopAll)) None.

(** JobQueue::Push, one step at a time. *)
Definition Push_step (w : jworld) (th : jthread) (q : nat) (job : J) (p : push_pc) (st : JobQueue)
  : jworld * jthread :=
  match p with
  | PCount =>
      (with_queue w q (mkJQ (m_jobs st) (i32 (m_jobCount st + 1)) (q_pushed st) (q_started st)),
       mkJT (LCurrentJobQueue th) (t_exec th) (Some (q, job, PEnqueue (m_jobCount st))))
  | PEnqueue prevCount =>
      (with_queue w q (mkJQ (LockQueue_Push (Some job) (m_jobs st)) (m_jobCount st)
                            (q_pushed st ++ [job]) (q_started st)),
       if prevCount =? 0 then
         match LCurrentJobQueue th with
         | Some _ => mkJT (LCurrentJobQueue th) (t_exec th) (Some (q, job, PGlobal))
         | None => Execute_enter q th
         end
       else mkJT (LCurrentJobQueue th) (t_exec th) None)
  | PGlobal =>
      (mkJW (jw_queues w) (GlobalQueue_Push q (jw_global w)) (jw_threads w),
       mkJT (LCurrentJobQueue th) (t_exec th) None)
  end.

(** JobQueue::Execute, one step at a time.  An exception of a job is caught by
    Job::Execute, so a job always finishes. *)
Definition Execute_step (w : jworld) (th : jthread) (q : nat) (p : exec_pc) (st : JobQueue)
    (now LEndTickCount : Z) : jworld * jthread :=
  match p with
  | EPopAll =>
      let '(jobs, rest) := LockQueue_PopAll (m_jobs st) in
      (with_queue w q (mkJQ rest (m_jobCount st) (q_pushed st) (q_started st)),
       mkJT (LCurrentJobQueue th) (Some (q, ELoop jobs (i32 (Z.of_nat (length jobs))))) (t_push th))
  | ELoop (job :: todo) jobCount =>
      (with_queue w q (mkJQ (m_jobs st) (m_jobCount st) (q_pushed st) (q_started st ++ [job])),
       mkJT (LCurrentJobQueue th) (Some (q, EJob todo jobCount)) (t_push th))
  | EJob todo jobCount =>
      (w, mkJT (LCurrentJobQueue th) (Some (q, ELoop todo jobCount)) (t_push th))
  | ELoop [] jobCount =>
      (with_queue w q (mkJQ (m_jobs st) (i32 (m_jobCount st - jobCount)) (q_pushed st) (q_started st)),
       if m_jobCount st =? jobCount
       then mkJT None None (t_push th)
       else mkJT (LCurrentJobQueue th) (Some (q, ETick)) (t_push th))
  | ETick =>
      (w, if now >=? LEndTickCount
          then mkJT None (Some (q, EYield)) (t_push th)
          else mkJT (LCurrentJobQueue th) (Some (q, EPopAll)) (t_push th))
  | EYield =>
      (mkJW (jw_queues w) (GlobalQueue_Push q (jw_global w)) (jw_threads w),
       mkJT (LCurrentJobQueue th) None (t_push th))
  end.

(** A thread may call DoAsync when it is in no JobQueue method, or from the
    job it is running. *)
Definition may_push (th : jthread) : bool :=
  match t_push th, t_exec th with
  | None, None => true
  | None, Some (_, EJob _ _) => true
  | _, _ => false
  end.

Definition exec_job_action (a : job_action) (w : jworld) (th : jthread) : option (jworld * jthread) :=
  match a with
  | CallPush q job =>
      if may_push th
      then _ ← jw_queues w !! q;
           Some (w, mkJT (LCurrentJobQueue th) (t_exec th) (Some (q, job, PCount)))
      else None
  | StepPush =>
      match t_push th with
      | Some (q, job, p) => st ← jw_queues w !! q; Some (Push_step w th q job p st)
      | None => None
      end
  | DoGlobalQueueWork =>
      match t_push th, t_exec th with
      | None, None =>
          match GlobalQueue_Pop (jw_global w) with
          | (Some q, rest) => Some (mkJW (jw_queues w) rest (jw_threads w), Execute_enter q th)
          | (None, rest) => Some (mkJW (jw_queues w) rest (jw_threads w), th)
          end
      | _, _ => None
      end
  | StepExec now LEndTickCount =>
      match t_push th, t_exec th with
      | None, Some (q, p) => st ← jw_queues w !! q; Some (Execute_step w th q p st now LEndTickCount)
      | _, _ => None
      end
  end.

Inductive job_step : jworld -> jworld -> Prop :=
| job_step_intro w i th a w' th' :
    jw_threads w !! i = Some th ->
    exec_job_action a w th = Some (w', th') ->
    job_step w (mkJW (jw_queues w') (jw_global w') (<[i := th']> (jw_threads w'))).

(** ThreadManager::PushGlobalQueue: a fresh JobQueue, DoAsync on it, then
    GGlobalQueue->Push.  The caller's own steps are run without interleaving
    (nobody else knows the queue yet) and the job makes no further call. *)
Fixpoint run_caller (fuel : nat) (w : jworld) (th : jthread) (now LEndTickCount : Z) : jworld * jthread :=
  match fuel with
  | O => (w, th)
  | S fuel' =>
      let a := match t_push th, t_exec th with
               | Some _, _ => Some StepPush
               | None, Some _ => Some (StepExec now LEndTickCount)
               | None, None => None
               end in
      match a with
      | Some a => match exec_job_action a w th with
                  | Some (w', th') => run_caller fuel' w' th' now LEndTickCount
                  | None => (w, th)
                  end
      | None => (w, th)
      end
  end.

(** DoAsync called from outside any job: what the calling thread does until
    DoAsync returns.  A Push takes at most 3 steps and the Execute of a
    one-job batch 4. *)
Definition DoAsync_outside (w : jworld) (q : nat) (job : J) (now LEndTickCount : Z) : jworld * jthread :=
  run_caller 8 w (mkJT None None (Some (q, job, PCount))) now LEndTickCount.

(** DoAsync called from a job of queue [cur]: the Push only. *)
Definition DoAsync_inside (w : jworld) (cur q : nat) (job : J) (now LEndTickCount : Z) : jworld :=
  let th := mkJT (Some cur) None (Some (q, job, PCount)) in
  fst (run_caller 8 w th now LEndTickCount).

Definition PushGlobalQueue (w : jworld) (current : option nat) (job : J) (now LEndTickCount : Z) : jworld :=
  let q := length (jw_queues w) in
  let w1 := mkJW (jw_queues w ++ [JobQueue_new]) (jw_global w) (jw_threads w) in
  let w2 := match current with
            | None => fst (DoAsync_outside w1 q job now LEndTickCount)
            | Some cur => DoAsync_inside w1 cur q job now LEndTickCount
            end in
  mkJW (jw_queues w2) (GlobalQueue_Push q (jw_global w2)) (jw_threads w2).

(** A schedule of thread steps. *)
Fixpoint job_run (sched : list (nat * job_action)) (w : jworld) : option jworld :=
  match sched with
  | [] => Some w
  | (i, a) :: sched' =>
      match jw_threads w !! i with
      | Some th =>
          match exec_job_action a w th with
          | Some (w', th') =>
              job_run sched' (mkJW (jw_queues w') (jw_global w') (<[i := th']> (jw_threads w')))
          | None => None
          end
      | None => None
      end
  end.

(** Empty queues, an empty GlobalQueue, idle threads. *)
Definition job_init (w : jworld) : Prop :=
  Forall (eq JobQueue_new) (jw_queues w) /\ jw_global w = [] /\
  Forall (eq jthread_new) (jw_threads w).

(** ** What a JobQueue promises its users *)

(** A serial queue: pending jobs in order, and the jobs started so far.  A user
    appends jobs; one at a time, the oldest is started. *)
Inductive serial_step : list J * list J -> list J * list J -> Prop :=
| serial_push pendings started job :
    serial_step (pendings, started) (pendings ++ [job], started)
| serial_start pendings started job :
    serial_step (job :: pendings, started) (pendings, started ++ [job]).

(** ** What a thread contributes to a queue *)

(** The right to run the queue's jobs: an Execute on it, or a Push that found
    the count at 0 and has not handed the queue over yet. *)
Definition exec_tok (q : nat) (th : jthread) : Z :=
  match t_exec th with
  | Some (q', _) => if decide (q = q') then 1 else 0
  | None => 0
  end.

Definition push_tok (q : nat) (th : jthread) : Z :=
  match t_push th with
  | Some (q', _, PEnqueue prevCount) => if decide (q = q' /\ prevCount = 0) then 1 else 0
  | Some (q', _, PGlobal) => if decide (q = q') then 1 else 0
  | _ => 0
  end.

Definition glob_tok (q : nat) (o : option nat) : Z :=
  if decide (o = Some q) then 1 else 0.

(** Jobs counted in m_jobCount that are not in m_jobs. *)
Definition exec_pend (q : nat) (th : jthread) : Z :=
  match t_exec th with
  | Some (q', ELoop _ n) | Some (q', EJob _ n) => if decide (q = q') then n else 0
  | _ => 0
  end.

Definition push_pend (q : nat) (th : jthread) : Z :=
  match t_push th with
  | Some (q', _, PEnqueue _) => if decide (q = q') then 1 else 0
  | _ => 0
  end.

(** Jobs popped but not started. *)
Definition exec_todo (q : nat) (th : jthread) : list J :=
  match t_exec th with
  | Some (q', ELoop todo _) | Some (q', EJob todo _) => if decide (q = q') then todo else []
  | _ => []
  end.

Fixpoint todos (q : nat) (ths : list jthread) : list J :=
  match ths with
  | [] => []
  | th :: ths' => exec_todo q th ++ todos q ths'
  end.

Definition tok (q : nat) (th : jthread) : Z := exec_tok q th + push_tok q th.
Definition pend (q : nat) (th : jthread) : Z := exec_pend q th + push_pend q th.

Definition tokens (w : jworld) (q : nat) : Z :=
  zsum (tok q) (jw_threads w) + zsum (glob_tok q) (jw_global w).

(** The count the jobs of a queue add up to. *)
Definition pending (w : jworld) (q : nat) (st : JobQueue) : Z :=
  Z.of_nat (length (m_jobs st)) + zsum (pend q) (jw_threads w).

(** No queue holds 2^31 unfinished jobs, the range of its int32 counter. *)
Definition jobs_fit (w : jworld) : Prop :=
  forall q st, jw_queues w !! q = Some st -> pending w q st <= 2 ^ 31 - 1.

Definition job_reach : jworld -> Prop := reach job_init job_step jobs_fit.

(** ** The invariant *)

Definition queue_inv (w : jworld) (q : nat) (st : JobQueue) : Prop :=
  Forall is_Some (m_jobs st) /\
  m_jobCount st = pending w q st /\
  tokens w q = (if decide (0 < m_jobCount st) then 1 else 0) /\
  q_pushed st = q_started st ++ todos q (jw_threads w) ++ omap id (m_jobs st).

Definition thread_ok (nq : nat) (th : jthread) : Prop :=
  LCurrentJobQueue th =
    match t_exec th with
    | Some (_, EYield) | None => None
    | Some (q, _) => Some q
    end /\
  (t_push th <> None -> t_exec th = None \/ exists q todo n, t_exec th = Some (q, EJob todo n)) /\
  match t_exec th with
  | Some (q, ELoop _ n) | Some (q, EJob _ n) => 0 <= n /\ (q < nq)%nat
  | Some (q, _) => (q < nq)%nat
  | None => True
  end.

Definition job_inv (w : jworld) : Prop :=
  (forall i th, jw_threads w !! i = Some th -> thread_ok (length (jw_queues w)) th) /\
  (forall q, Some q ∈ jw_global w -> (q < length (jw_queues w))%nat) /\
  Forall is_Some (jw_global w) /\
  jobs_fit w /\
  (forall q st, jw_queues w !! q = Some st -> queue_inv w q st).

(** ** LockQueue lemmas *)

Lemma PopAll_loop_all {T} fuel (l : list (option T)) acc :
  Forall is_Some l -> (length l < fuel)%nat ->
  PopAll_loop fuel l acc = (acc ++ omap id l, []).
Proof.
  revert fuel acc. induction l as [|[x|] l IH]; intros [|fuel] acc Hall Hf; cbn in *; try lia.
  - by rewrite app_nil_r.
  - inversion_clear Hall. rewrite IH by (done || lia). by rewrite <- app_assoc.
  - inversion_clear Hall as [|? ? H]. by destruct H.
Qed.

Lemma PopAll_all {T} (l : list (option T)) :
  Forall is_Some l -> LockQueue_PopAll l = (omap id l, []).
Proof. intros H. unfold LockQueue_PopAll. by rewrite PopAll_loop_all by (done || lia). Qed.

Lemma length_omap_id {T} (l : list (option T)) :
  Forall is_Some l -> length (omap id l) = length l.
Proof. induction 1 as [|x l [y ->] _ IH]; cbn; [done|by rewrite IH]. Qed.

(** ** Tokens and contributions under a thread's step *)

Lemma exec_tok_nonneg q th : 0 <= exec_tok q th.
Proof. unfold exec_tok. repeat case_inner; lia. Qed.

Lemma push_tok_nonneg q th : 0 <= push_tok q th.
Proof. unfold push_tok. repeat case_inner; lia. Qed.

Lemma tok_nonneg q th : 0 <= tok q th.
Proof. unfold tok. pose proof (exec_tok_nonneg q th). pose proof (push_tok_nonneg q th). lia. Qed.

Lemma glob_tok_nonneg q o : 0 <= glob_tok q o.
Proof. unfold glob_tok. case_decide; lia. Qed.

Lemma push_pend_nonneg q th : 0 <= push_pend q th.
Proof. unfold push_pend. repeat case_inner; lia. Qed.

Lemma pend_nonneg nq q th : thread_ok nq th -> 0 <= pend q th.
Proof.
  intros (_ & _ & H). unfold pend. pose proof (push_pend_nonneg q th).
  unfold exec_pend. repeat case_inner; lia.
Qed.

Lemma todo_without_tok q th : exec_tok q th = 0 -> exec_todo q th = [].
Proof. unfold exec_tok, exec_todo. repeat case_inner; done || lia. Qed.

Lemma todos_same q (ths : list jthread) i th th' :
  ths !! i = Some th -> exec_todo q th' = exec_todo q th ->
  todos q (<[i := th']> ths) = todos q ths.
Proof.
  revert i. induction ths as [|x ths IH]; intros [|i] Hi E; [done|done| |].
  - cbn in *. simplify_eq. by rewrite E.
  - change (<[S i := th']> (x :: ths)) with (x :: <[i := th']> ths). cbn. by rewrite IH.
Qed.

Lemma todos_none q (ths : list jthread) :
  (forall j b, ths !! j = Some b -> exec_todo q b = []) -> todos q ths = [].
Proof.
  induction ths as [|x ths IH]; intros H; [done|]. cbn.
  rewrite (H 0%nat x) by done. apply IH. intros j b Hb. by apply (H (S j)).
Qed.

Lemma todos_unique q (ths : list jthread) i th :
  ths !! i = Some th -> (forall j b, ths !! j = Some b -> j <> i -> exec_todo q b = []) ->
  todos q ths = exec_todo q th.
Proof.
  revert i. induction ths as [|x ths IH]; intros [|i] Hi H; [done|done| |]; cbn in *.
  - simplify_eq. rewrite todos_none; [by rewrite app_nil_r|].
    intros j b Hb. by apply (H (S j)).
  - rewrite (H 0%nat x) by done. cbn. apply (IH i); [done|].
    intros j b Hb Hne. apply (H (S j)); [done|lia].
Qed.

(** A thread's token is the queue's only one. *)
Lemma other_toks w q i th :
  tokens w q <= 1 -> jw_threads w !! i = Some th -> tok q th = 1 ->
  zsum (glob_tok q) (jw_global w) = 0 /\
  (forall j b, jw_threads w !! j = Some b -> j <> i -> tok q b = 0).
Proof.
  unfold tokens. intros Hle Hi Ht.
  pose proof (zsum_nonneg (glob_tok q) (jw_global w) ltac:(intros; apply glob_tok_nonneg)) as Hg.
  assert (Hpos : forall x, x ∈ jw_threads w -> 0 <= tok q x) by (intros; apply tok_nonneg).
  pose proof (zsum_ge (tok q) _ _ _ Hpos Hi). split; [lia|].
  intros j b Hb Hne. pose proof (tok_nonneg q b).
  assert (tok q th + tok q b <= zsum (tok q) (jw_threads w)); [|lia].
  by apply (zsum_ge_two (tok q) _ i j).
Qed.

(** A queue the step does not touch. *)
Lemma queue_inv_frame w i th q st queues' global' th' :
  jw_threads w !! i = Some th -> queue_inv w q st ->
  tok q th' = tok q th -> pend q th' = pend q th -> exec_todo q th' = exec_todo q th ->
  zsum (glob_tok q) global' = zsum (glob_tok q) (jw_global w) ->
  queue_inv (mkJW queues' global' (<[i := th']> (jw_threads w))) q st.
Proof.
  intros Hi (Hs & Hc & Ht & Hp) Etok Epend Etodo Eg.
  unfold queue_inv, tokens, pending in *. cbn.
  rewrite !(zsum_insert _ _ _ _ _ Hi), (todos_same _ _ _ _ _ Hi Etodo), Etok, Epend, Eg.
  split_and!; try done; [rewrite Hc; lia|]. rewrite <- Ht. lia.
Qed.

(** The touched queue, from what the step adds to its count and tokens. *)
Lemma queue_inv_touch w i th q st queues' global' th' st' :
  jw_threads w !! i = Some th -> queue_inv w q st ->
  Forall is_Some (m_jobs st') ->
  m_jobCount st' - m_jobCount st =
    Z.of_nat (length (m_jobs st')) - Z.of_nat (length (m_jobs st)) + pend q th' - pend q th ->
  tokens w q + tok q th' - tok q th + zsum (glob_tok q) global' - zsum (glob_tok q) (jw_global w)
    = (if decide (0 < m_jobCount st') then 1 else 0) ->
  q_pushed st' = q_started st' ++ todos q (<[i := th']> (jw_threads w)) ++ omap id (m_jobs st') ->
  queue_inv (mkJW queues' global' (<[i := th']> (jw_threads w))) q st'.
Proof.
  intros Hi (Hs & Hc & Ht & Hp) Hs' Hc' Ht' Hp'.
  unfold queue_inv. split_and!; try done.
  - unfold pending in *. cbn. rewrite !(zsum_insert _ _ _ _ _ Hi). lia.
  - rewrite <- Ht'. unfold tokens. cbn. rewrite !(zsum_insert _ _ _ _ _ Hi). lia.
Qed.

(** The thread that executes a queue is the only one with jobs to do for it. *)
Lemma executor_todos w i th q st th' :
  jw_threads w !! i = Some th -> queue_inv w q st -> exec_tok q th = 1 ->
  todos q (<[i := th']> (jw_threads w)) = exec_todo q th' /\
  todos q (jw_threads w) = exec_todo q th /\ 0 < m_jobCount st /\
  push_tok q th = 0 /\ zsum (glob_tok q) (jw_global w) = 0 /\
  zsum (tok q) (jw_threads w) = 1.
Proof.
  intros Hi (_ & _ & Ht & _) He.
  assert (Hle : tokens w q <= 1) by (rewrite Ht; case_decide; lia).
  pose proof (push_tok_nonneg q th) as Hp.
  assert (Hpos : forall x, x ∈ jw_threads w -> 0 <= tok q x) by (intros; apply tok_nonneg).
  pose proof (zsum_ge (tok q) _ _ _ Hpos Hi) as Hge.
  pose proof (zsum_nonneg (glob_tok q) (jw_global w) ltac:(intros; apply glob_tok_nonneg)) as Hg.
  unfold tokens in *.
  assert (tok q th = exec_tok q th + push_tok q th) by done.
  destruct (other_toks w q i th Hle Hi) as [Hg0 Ho]; [lia|].
  assert (Hno : forall j b, jw_threads w !! j = Some b -> j <> i -> exec_todo q b = []).
  { intros j b Hb Hne. specialize (Ho _ _ Hb Hne). apply todo_without_tok.
    pose proof (exec_tok_nonneg q b). pose proof (push_tok_nonneg q b). unfold tok in Ho. lia. }
  case_decide; [|lia]. split_and!; try lia.
  - apply (todos_unique q _ i); [apply list_lookup_insert_eq; by eapply lookup_lt_Some|].
    intros j b Hb Hne. rewrite list_lookup_insert_ne in Hb by done. eauto.
  - by eapply todos_unique.
Qed.

Lemma thread_ok_step nq a w th w' th' :
  nq = length (jw_queues w) ->
  (forall q, Some q ∈ jw_global w -> (q < nq)%nat) ->
  (forall q st, jw_queues w !! q = Some st ->
     Forall is_Some (m_jobs st) /\ Z.of_nat (length (m_jobs st)) <= 2 ^ 31 - 1) ->
  thread_ok nq th -> exec_job_action a w th = Some (w', th') -> thread_ok nq th'.
Proof.
  intros -> Hg Hfit Hok Hex. destruct th as [cur ex pu]. destruct a as [q job| | |now lend]; cbn in Hex.
  - destruct (may_push _) eqn:Hm; [|done]. apply bind_Some in Hex as (st & Hst & Hex). simplify_eq.
    unfold may_push in Hm. cbn in Hm.
    destruct Hok as (Hc & Hp & He). split_and!; cbn in *; [done| |done].
    intros _. repeat case_inner; try done; eauto 10.
  - destruct pu as [[[q job] p]|]; [|done]. apply bind_Some in Hex as (st & Hst & Hex).
    apply lookup_lt_Some in Hst. destruct Hok as (Hc & Hp & He). cbn in *.
    unfold Push_step, Execute_enter in Hex. cbn in Hex.
    repeat case_inner; simplify_eq; split_and!; cbn; naive_solver.
  - destruct pu, ex; try done. destruct Hok as (Hc & Hp & He). cbn in *.
    destruct (jw_global w) as [|[q|] g]; cbn in Hex; simplify_eq; cbn; split_and!; cbn; try done.
    apply Hg. set_solver.
  - destruct pu; [done|]. destruct ex as [[q p]|]; [|done]. apply bind_Some in Hex as (st & Hst & Hex).
    destruct (Hfit _ _ Hst) as [Hsome Hlen]. apply lookup_lt_Some in Hst.
    destruct Hok as (Hc & Hp & He). cbn in *. unfold Execute_step in Hex. rewrite PopAll_all in Hex by done.
    pose proof (length_omap_id _ Hsome) as Hl.
    destruct p as [|[|j todo] n|todo n| |]; cbn in Hex; repeat case_inner; simplify_eq; split_and!; cbn in *;
      try done; try naive_solver.
    rewrite wrapS_small; lia.
Qed.

(** *** One lemma per operation *)

Ltac contrib :=
  unfold tok, pend, exec_tok, push_tok, exec_pend, push_pend, exec_todo; cbn;
  repeat case_decide; destruct_and?; simplify_eq; try done; try lia; try naive_solver lia.

Lemma count_nonneg w q st :
  job_inv w -> jw_queues w !! q = Some st -> 0 <= m_jobCount st.
Proof.
  intros (Hth & _ & _ & _ & Hq) Hst. destruct (Hq _ _ Hst) as (_ & -> & _).
  unfold pending. assert (0 <= zsum (pend q) (jw_threads w)); [|lia].
  apply zsum_nonneg. intros x [j Hj]%list_elem_of_lookup. eapply pend_nonneg; eauto.
Qed.

(** [m_jobCount.fetch_add(1)]: finding 0 creates the token. *)
Lemma fetch_add_inv w i th q job st :
  job_inv w -> jw_threads w !! i = Some th -> t_push th = Some (q, job, PCount) ->
  jw_queues w !! q = Some st ->
  let st' := mkJQ (m_jobs st) (i32 (m_jobCount st + 1)) (q_pushed st) (q_started st) in
  let th' := mkJT (LCurrentJobQueue th) (t_exec th) (Some (q, job, PEnqueue (m_jobCount st))) in
  jobs_fit (mkJW (<[q := st']> (jw_queues w)) (jw_global w) (<[i := th']> (jw_threads w))) ->
  queue_inv (mkJW (<[q := st']> (jw_queues w)) (jw_global w) (<[i := th']> (jw_threads w))) q st'.
Proof.
  intros Hjob Hi Hpu Hst st' th' Hfit'. pose proof (count_nonneg _ _ _ Hjob Hst) as Hc0.
  destruct Hjob as (Hth & _ & _ & _ & Hq). pose proof (Hq _ _ Hst) as Hinv.
  destruct th as [cur ex pu]. cbn in Hpu. subst pu.
  specialize (Hfit' q st'). cbn in Hfit'. rewrite list_lookup_insert_eq in Hfit' by (by eapply lookup_lt_Some).
  specialize (Hfit' eq_refl). unfold pending in Hfit'. cbn in Hfit'.
  rewrite (zsum_insert _ _ _ _ _ Hi) in Hfit'.
  destruct Hinv as (Hs & Hc & Ht & Hp) eqn:E. clear E. pose proof Hc as Hc'. unfold pending in Hc'.
  assert (Hsmall : i32 (m_jobCount st + 1) = m_jobCount st + 1).
  { apply wrapS_small; [lia|]. revert Hfit'. unfold pend at 2 3, exec_pend, push_pend. cbn.
    rewrite decide_True by done. change (2 ^ (32 - 1)) with 2147483648. lia. }
  apply (queue_inv_touch w i _ _ st _ _ _ _ Hi (Hq _ _ Hst)); cbn; rewrite ?Hsmall; try done.
  - contrib.
  - rewrite Ht. contrib.
  - rewrite (todos_same _ _ _ _ _ Hi); done.
Qed.

(** [m_jobs.Push(job)], then hand the queue over when the count was 0. *)
Lemma enqueue_inv w i th q job prev st queues' th' :
  job_inv w -> jw_threads w !! i = Some th -> t_push th = Some (q, job, PEnqueue prev) ->
  jw_queues w !! q = Some st ->
  th' = (if prev =? 0 then
           match LCurrentJobQueue th with
           | Some _ => mkJT (LCurrentJobQueue th) (t_exec th) (Some (q, job, PGlobal))
           | None => Execute_enter q th
           end
         else mkJT (LCurrentJobQueue th) (t_exec th) None) ->
  queue_inv (mkJW queues' (jw_global w) (<[i := th']> (jw_threads w))) q
    (mkJQ (LockQueue_Push (Some job) (m_jobs st)) (m_jobCount st) (q_pushed st ++ [job]) (q_started st)).
Proof.
  intros (Hth & _ & _ & _ & Hq) Hi Hpu Hst Hth'. pose proof (Hth _ _ Hi) as (Hcur & Hwf & _).
  destruct th as [cur ex pu]. cbn in *. subst pu.
  assert (Hex : cur = None -> ex = None).
  { intros ->. destruct Hwf as [->|(? & ? & ? & ->)]; done. }
  pose proof (Hq _ _ Hst) as (Hs & Hc & Ht & Hp).
  apply (queue_inv_touch w i _ _ st _ _ _ _ Hi (Hq _ _ Hst)); cbn; unfold LockQueue_Push.
  - apply Forall_app. eauto.
  - rewrite length_app. cbn. subst th'. unfold Execute_enter.
    repeat case_inner; to_prop; rewrite ?(Hex eq_refl); contrib.
  - rewrite Ht. subst th'. unfold Execute_enter.
    repeat case_inner; to_prop; rewrite ?(Hex eq_refl); contrib.
  - rewrite (todos_same _ _ _ _ _ Hi).
    + rewrite Hp, omap_app, !app_assoc. done.
    + subst th'. unfold Execute_enter. repeat case_inner; rewrite ?(Hex eq_refl); done.
Qed.

(** [m_jobs.PopAll(jobs)] moves every queued job into the batch. *)
Lemma pop_all_inv w i cur q st queues' :
  job_inv w -> jw_threads w !! i = Some (mkJT cur (Some (q, EPopAll)) None) ->
  jw_queues w !! q = Some st ->
  queue_inv (mkJW queues' (jw_global w)
    (<[i := mkJT cur (Some (q, ELoop (omap id (m_jobs st))
                                     (i32 (Z.of_nat (length (omap id (m_jobs st))))))) None]> (jw_threads w))) q
    (mkJQ [] (m_jobCount st) (q_pushed st) (q_started st)).
Proof.
  intros (Hth & _ & _ & Hfit & Hq) Hi Hst. pose proof (Hq _ _ Hst) as Hinv.
  destruct (executor_todos w i _ q st
    (mkJT cur (Some (q, ELoop (omap id (m_jobs st)) (i32 (Z.of_nat (length (omap id (m_jobs st))))))) None) Hi Hinv)
    as (E1 & E2 & _); [contrib|].
  destruct Hinv as (Hs & Hc & Ht & Hp). rewrite length_omap_id in * by done.
  assert (Hlen : i32 (Z.of_nat (length (m_jobs st))) = Z.of_nat (length (m_jobs st))).
  { specialize (Hfit _ _ Hst). unfold pending in Hfit. apply wrapS_small; [lia|].
    assert (0 <= zsum (pend q) (jw_threads w)).
    { apply zsum_nonneg. intros x [j Hj]%list_elem_of_lookup. eapply pend_nonneg; eauto. }
    change (2 ^ (32 - 1)) with 2147483648. lia. }
  apply (queue_inv_touch w i _ _ st _ _ _ _ Hi (Hq _ _ Hst)); cbn; rewrite ?Hlen in *.
  - constructor.
  - contrib.
  - rewrite Ht. contrib.
  - rewrite Hp, E1, E2. unfold exec_todo. cbn. rewrite !decide_True by done. by rewrite app_nil_r.
Qed.

(** [jobs[i]->Execute()] starts the oldest job of the batch. *)
Lemma start_job_inv w i cur q st queues' job todo n :
  job_inv w -> jw_threads w !! i = Some (mkJT cur (Some (q, ELoop (job :: todo) n)) None) ->
  jw_queues w !! q = Some st ->
  queue_inv (mkJW queues' (jw_global w) (<[i := mkJT cur (Some (q, EJob todo n)) None]> (jw_threads w))) q
    (mkJQ (m_jobs st) (m_jobCount st) (q_pushed st) (q_started st ++ [job])).
Proof.
  intros (_ & _ & _ & _ & Hq) Hi Hst. pose proof (Hq _ _ Hst) as Hinv.
  destruct (executor_todos w i _ q st (mkJT cur (Some (q, EJob todo n)) None) Hi Hinv) as (E1 & E2 & _);
    [contrib|].
  destruct Hinv as (Hs & Hc & Ht & Hp).
  apply (queue_inv_touch w i _ _ st _ _ _ _ Hi (Hq _ _ Hst)); cbn.
  - done.
  - contrib.
  - rewrite Ht. contrib.
  - rewrite Hp, E1, E2. unfold exec_todo. cbn. rewrite !decide_True by done. by rewrite <- !app_assoc.
Qed.

(** [m_jobCount.fetch_sub(jobCount)]: the token goes exactly when the count
    reaches 0. *)
Lemma fetch_sub_inv w i cur q st queues' n :
  job_inv w -> jw_threads w !! i = Some (mkJT cur (Some (q, ELoop [] n)) None) ->
  jw_queues w !! q = Some st ->
  queue_inv (mkJW queues' (jw_global w)
    (<[i := if m_jobCount st =? n then mkJT None None None else mkJT cur (Some (q, ETick)) None]> (jw_threads w))) q
    (mkJQ (m_jobs st) (i32 (m_jobCount st - n)) (q_pushed st) (q_started st)).
Proof.
  intros Hjob Hi Hst. pose proof Hjob as (Hth & _ & _ & Hfit & Hq). pose proof (Hq _ _ Hst) as Hinv.
  destruct (executor_todos w i _ q st
    (if m_jobCount st =? n then mkJT None None None else mkJT cur (Some (q, ETick)) None) Hi Hinv)
    as (E1 & E2 & Hpos & _); [contrib|].
  destruct Hinv as (Hs & Hc & Ht & Hp). destruct (Hth _ _ Hi) as (_ & _ & Hn & _).
  assert (Hge : n <= zsum (pend q) (jw_threads w)).
  { replace n with (pend q (mkJT cur (Some (q, ELoop [] n)) None)) by contrib.
    apply (zsum_ge (pend q) _ i); [|done].
    intros x [j Hj]%list_elem_of_lookup. eapply pend_nonneg; eauto. }
  pose proof (Hfit _ _ Hst) as Hb. rewrite <- Hc in Hb. unfold pending in Hc.
  assert (Hlen : i32 (m_jobCount st - n) = m_jobCount st - n).
  { apply wrapS_small; [lia|]. change (2 ^ (32 - 1)) with 2147483648. lia. }
  rewrite Hlen. destruct (m_jobCount st =? n) eqn:En; to_prop;
    apply (queue_inv_touch w i _ _ st _ _ _ _ Hi (Hq _ _ Hst)); cbn; try done; try rewrite Ht; try contrib;
    rewrite Hp, E1, E2; f_equal; unfold exec_todo; cbn; by rewrite ?decide_True.
Qed.

(** A step that only moves the token, from the Execute of a thread to the
    GlobalQueue or back, or along Execute. *)
Lemma token_move_inv w i th q st queues' global' th' :
  jw_threads w !! i = Some th -> queue_inv w q st ->
  pend q th' = pend q th -> exec_todo q th' = exec_todo q th ->
  tok q th' + zsum (glob_tok q) global' = tok q th + zsum (glob_tok q) (jw_global w) ->
  queue_inv (mkJW queues' global' (<[i := th']> (jw_threads w))) q st.
Proof.
  intros Hi Hinv Ep Et Etok. pose proof Hinv as (Hs & Hc & Ht & Hp).
  apply (queue_inv_touch w i _ _ st _ _ _ _ Hi Hinv); try done; try lia.
  by rewrite (todos_same _ _ _ _ _ Hi Et).
Qed.

Lemma glob_tok_push q q' (g : list (option nat)) :
  zsum (glob_tok q) (GlobalQueue_Push q' g) = zsum (glob_tok q) g + (if decide (q = q') then 1 else 0).
Proof.
  unfold GlobalQueue_Push, LockQueue_Push. rewrite zsum_app. cbn. unfold glob_tok at 2.
  repeat case_decide; simplify_eq; lia || done.
Qed.

(** *** The invariant is preserved *)

Lemma queues_inv_step w i th a w' th' q st' :
  job_inv w -> jw_threads w !! i = Some th -> exec_job_action a w th = Some (w', th') ->
  jobs_fit (mkJW (jw_queues w') (jw_global w') (<[i := th']> (jw_threads w'))) ->
  jw_queues w' !! q = Some st' ->
  queue_inv (mkJW (jw_queues w') (jw_global w') (<[i := th']> (jw_threads w'))) q st'.
Proof.
  intros Hjob Hi Hex Hfit' Hst'. pose proof Hjob as (Hth & _ & Hgs & _ & Hq).
  pose proof (Hth _ _ Hi) as Hok. destruct th as [cur ex pu].
  destruct a as [q0 job| | |now lend]; cbn in Hex.
  - destruct (may_push _) eqn:Hm; [|done]. apply bind_Some in Hex as (st & Hst & Hex). simplify_eq.
    eapply queue_inv_frame; eauto; unfold may_push in Hm; cbn in Hm; destruct pu; try done; contrib.
  - destruct pu as [[[q0 job] p]|] eqn:Hpu; [|done]. apply bind_Some in Hex as (st & Hst & Hex).
    destruct p as [|prev|]; cbn in Hex; simplify_eq; cbn in *.
    + apply list_lookup_insert_Some in Hst' as [(-> & <- & _)|[Hne Hst']].
      * eapply (fetch_add_inv w i (mkJT cur ex (Some (q, job, PCount)))); eauto.
      * eapply queue_inv_frame; eauto; contrib.
    + apply list_lookup_insert_Some in Hst' as [(-> & <- & _)|[Hne Hst']].
      * by eapply (enqueue_inv w i (mkJT cur ex (Some (q, job, PEnqueue prev)))).
      * destruct Hok as (Hcur & Hwf & _). cbn in *.
        assert (Hex : cur = None -> ex = None).
        { intros ->. destruct Hwf as [->|(? & ? & ? & ->)]; done. }
        unfold Execute_enter.
        eapply queue_inv_frame; eauto; repeat case_inner; rewrite ?(Hex eq_refl); contrib.
    + eapply token_move_inv; eauto; rewrite ?glob_tok_push; contrib.
  - destruct pu, ex; try done.
    destruct (jw_global w) as [|[q0|] g] eqn:Eg; cbn in Hex; simplify_eq; cbn in *.
    + eapply token_move_inv; eauto; rewrite ?Eg; contrib.
    + eapply token_move_inv; eauto; rewrite ?Eg; cbn; unfold glob_tok; contrib.
    + inversion Hgs as [|? ? H]. by destruct H.
  - destruct pu; [done|]. destruct ex as [[q0 p]|]; [|done]. apply bind_Some in Hex as (st & Hst & Hex).
    pose proof (Hq _ _ Hst) as (Hs & _).
    destruct p as [|[|job todo] n|todo n| |]; unfold Execute_step in Hex; rewrite ?PopAll_all in Hex by done;
      cbn in Hex; simplify_eq; cbn in *;
      try (apply list_lookup_insert_Some in Hst' as [(-> & <- & _)|[Hne Hst']]);
      try (by eapply pop_all_inv); try (by eapply start_job_inv); try (by eapply fetch_sub_inv);
      try (eapply token_move_inv; eauto; rewrite ?glob_tok_push; repeat case_inner; by contrib).
Qed.

Lemma job_inv_init w : job_init w -> job_inv w.
Proof.
  intros (Hq & Hg & Ht).
  assert (Hth : forall i th, jw_threads w !! i = Some th -> th = jthread_new).
  { intros i th Hi. rewrite Forall_forall in Ht. symmetry. apply Ht. by eapply list_elem_of_lookup_2. }
  assert (Hqs : forall q st, jw_queues w !! q = Some st -> st = JobQueue_new).
  { intros q st Hst. rewrite Forall_forall in Hq. symmetry. apply Hq. by eapply list_elem_of_lookup_2. }
  assert (Hz : forall f : jthread -> Z, f jthread_new = 0 -> zsum f (jw_threads w) = 0).
  { intros f Hf. apply zsum_zero. intros x [j Hj]%list_elem_of_lookup. by rewrite (Hth _ _ Hj). }
  split_and!.
  - intros i th Hi. by rewrite (Hth _ _ Hi).
  - rewrite Hg. set_solver.
  - by rewrite Hg.
  - intros q st Hst. rewrite (Hqs _ _ Hst). unfold pending. rewrite Hz by done. cbn. lia.
  - intros q st Hst. rewrite (Hqs _ _ Hst).
    unfold queue_inv, pending, tokens. rewrite !Hz, Hg by done. cbn. split_and!; try done.
    rewrite todos_none; [done|]. intros j b Hb. by rewrite (Hth _ _ Hb).
Qed.

Lemma exec_job_action_shape a w th w' th' :
  exec_job_action a w th = Some (w', th') ->
  length (jw_queues w') = length (jw_queues w) /\ jw_threads w' = jw_threads w.
Proof.
  destruct th as [cur ex pu]. destruct a; cbn; intros H;
    repeat (case_inner; try done); try (apply bind_Some in H as (st & Hst & H)); simplify_eq; try done.
  - unfold Push_step, with_queue in H. repeat case_inner; simplify_eq; cbn; by rewrite ?length_insert.
  - unfold Execute_step, with_queue in H. repeat case_inner; simplify_eq; cbn; by rewrite ?length_insert.
Qed.

Lemma global_step a w th w' th' nq :
  nq = length (jw_queues w) -> thread_ok nq th ->
  (forall q, Some q ∈ jw_global w -> (q < nq)%nat) -> Forall is_Some (jw_global w) ->
  exec_job_action a w th = Some (w', th') ->
  (forall q, Some q ∈ jw_global w' -> (q < nq)%nat) /\ Forall is_Some (jw_global w').
Proof.
  intros -> (_ & _ & He) Hlt Hs Hex. destruct th as [cur ex pu].
  assert (Hpush : forall q, (q < length (jw_queues w))%nat ->
    (forall q', Some q' ∈ GlobalQueue_Push q (jw_global w) -> (q' < length (jw_queues w))%nat) /\
    Forall is_Some (GlobalQueue_Push q (jw_global w))).
  { intros q Hq. unfold GlobalQueue_Push, LockQueue_Push. split; [|apply Forall_app; eauto].
    intros q' [H|H]%elem_of_app; [eauto|]. apply list_elem_of_singleton in H. by simplify_eq. }
  destruct a; cbn in *.
  - case_inner; [|done]. apply bind_Some in Hex as (st & _ & Hex). by simplify_eq.
  - destruct pu as [[[q job] p]|]; [|done]. apply bind_Some in Hex as (st & Hst & Hex).
    apply lookup_lt_Some in Hst. destruct p; cbn in Hex; repeat case_inner; simplify_eq; cbn; eauto.
  - destruct pu, ex; try done. destruct (jw_global w) as [|[q|] g]; cbn in Hex; simplify_eq; cbn;
      try done; inversion_clear Hs; split; try done; set_solver.
  - destruct pu; [done|]. destruct ex as [[q p]|]; [|done]. apply bind_Some in Hex as (st & Hst & Hex).
    apply lookup_lt_Some in Hst. unfold Execute_step, with_queue in Hex.
    repeat case_inner; simplify_eq; cbn; eauto.
Qed.

Lemma job_inv_step w w' : job_inv w -> job_step w w' -> jobs_fit w' -> job_inv w'.
Proof.
  intros Hinv Hstep Hfit'. destruct Hstep as [w i th a w' th' Hi Hex].
  destruct (exec_job_action_shape _ _ _ _ _ Hex) as [El Et].
  pose proof Hinv as (Hth & Hlt & Hgs & Hfit & Hq).
  destruct (global_step _ _ _ _ _ _ eq_refl (Hth _ _ Hi) Hlt Hgs Hex) as [Hlt' Hgs'].
  split_and!; cbn; rewrite ?El; try done.
  - intros j b Hb. rewrite Et in Hb. apply list_lookup_insert_Some in Hb as [(-> & <- & _)|[_ Hb]]; [|eauto].
    eapply thread_ok_step; eauto. intros q st Hst. destruct (Hq _ _ Hst) as (Hs & _).
    split; [done|]. specialize (Hfit _ _ Hst). unfold pending in Hfit.
    assert (0 <= zsum (pend q) (jw_threads w)); [|lia].
    apply zsum_nonneg. intros x [k Hk]%list_elem_of_lookup. eapply pend_nonneg; eauto.
  - intros q st Hst. by eapply queues_inv_step.
Qed.

Lemma job_reach_inv w : job_reach w -> job_inv w.
Proof. apply reach_invariant; [apply job_inv_init|]. intros; by eapply job_inv_step. Qed.

(** Small worlds fit: a schedule of fewer than 2^31 - 1 steps cannot exceed the
    counter. *)
Lemma job_run_reach sched w w' :
  job_reach w -> job_run sched w = Some w' ->
  (forall k w'', job_run (take k sched) w = Some w'' -> jobs_fit w'') ->
  job_reach w'.
Proof.
  revert w. induction sched as [|[i a] sched IH]; intros w Hw Hrun Hfit; cbn in Hrun; [by simplify_eq|].
  destruct (jw_threads w !! i) as [th|] eqn:Hi; [|done].
  destruct (exec_job_action a w th) as [[w1 th1]|] eqn:Hex; [|done].
  apply (IH (mkJW (jw_queues w1) (jw_global w1) (<[i:=th1]> (jw_threads w1)))); [|done|].
  - apply (reach_step _ _ _ w); [done|by eapply job_step_intro|].
    apply (Hfit 1%nat). cbn. by rewrite Hi, Hex.
  - intros k w'' H. apply (Hfit (S k)). cbn. by rewrite Hi, Hex.
Qed.

Definition jobs_fit_bool (w : jworld) : bool :=
  forallb (fun '(q, st) => pending w q st <=? 2 ^ 31 - 1) (imap pair (jw_queues w)).

Lemma jobs_fit_bool_sound w : jobs_fit_bool w = true -> jobs_fit w.
Proof.
  unfold jobs_fit_bool. intros H q st Hst. rewrite forallb_forall in H.
  specialize (H (q, st)). cbn in H. apply Z.leb_le. apply H.
  apply list_elem_of_In, list_elem_of_lookup. exists q. by rewrite list_lookup_imap, Hst.
Qed.

Fixpoint job_run_fits (sched : list (nat * job_action)) (w : jworld) : bool :=
  jobs_fit_bool w &&
  match sched with
  | [] => true
  | (i, a) :: sched' =>
      match jw_threads w !! i with
      | Some th =>
          match exec_job_action a w th with
          | Some (w', th') =>
              job_run_fits sched' (mkJW (jw_queues w') (jw_global w') (<[i := th']> (jw_threads w')))
          | None => true
          end
      | None => true
      end
  end.

Lemma job_run_fits_sound sched w k w'' :
  job_run_fits sched w = true -> job_run (take k sched) w = Some w'' -> jobs_fit w''.
Proof.
  revert w k. induction sched as [|[i a] sched IH]; intros w k Hf Hrun;
    cbn in Hf; apply andb_true_iff in Hf as [Hb Hf].
  - rewrite take_nil in Hrun. cbn in Hrun. simplify_eq. by apply jobs_fit_bool_sound.
  - destruct k as [|k]; cbn in Hrun; [simplify_eq; by apply jobs_fit_bool_sound|].
    repeat (case_inner; try done). eauto.
Qed.

(** ** Theorems *)

(** at most one thread at a time is inside Execute of a queue, so the
    jobs of a Lobby or a Room never run concurrently. *)
Theorem execute_exclusive w i j a b q p p' :
  job_reach w ->
  jw_threads w !! i = Some a -> jw_threads w !! j = Some b ->
  t_exec a = Some (q, p) -> t_exec b = Some (q, p') -> i = j.
Proof.
  intros (Hth & _ & _ & _ & Hq)%job_reach_inv Ha Hb Ea Eb.
  destruct (decide (i = j)) as [|Hne]; [done|].
  assert (Hta : exec_tok q a = 1) by (unfold exec_tok; by rewrite Ea, decide_True).
  assert (Htb : exec_tok q b = 1) by (unfold exec_tok; by rewrite Eb, decide_True).
  assert (Hlt : (q < length (jw_queues w))%nat).
  { destruct (Hth _ _ Ha) as (_ & _ & H). rewrite Ea in H. destruct p; destruct_and?; done. }
  apply lookup_lt_is_Some_2 in Hlt as [st Hst].
  destruct (executor_todos w i a q st a Ha (Hq _ _ Hst) Hta) as (_ & _ & _ & Hp & _ & Hsum).
  pose proof (zsum_ge_two (tok q) (jw_threads w) i j a b ltac:(intros; apply tok_nonneg) Ha Hb Hne) as Hge.
  pose proof (push_tok_nonneg q a). pose proof (push_tok_nonneg q b). unfold tok in Hge, Hsum. lia.
Qed.

(** exactly once, in order.  The jobs a queue has started are the oldest
    of those pushed to it, in the order of m_jobs.Push, each once; the rest
    are, in order, the current batch and m_jobs. *)
Theorem jobs_fifo w q st :
  job_reach w -> jw_queues w !! q = Some st ->
  q_pushed st = q_started st ++ todos q (jw_threads w) ++ omap id (m_jobs st).
Proof. intros (_ & _ & _ & _ & Hq)%job_reach_inv Hst. by destruct (Hq _ _ Hst) as (_ & _ & _ & ?). Qed.

(** C16: no lost wake-up.  When no thread is inside Push or Execute and the
    GlobalQueue is empty, every queue is drained: each job pushed has been
    started, and the count is 0. *)
Theorem no_job_left_behind w q st :
  job_reach w ->
  (forall i th, jw_threads w !! i = Some th -> t_exec th = None /\ t_push th = None) ->
  jw_global w = [] -> jw_queues w !! q = Some st ->
  q_started st = q_pushed st /\ m_jobs st = [] /\ m_jobCount st = 0.
Proof.
  intros Hr Hidle Hg Hst. pose proof (job_reach_inv _ Hr) as Hinv.
  pose proof (count_nonneg _ _ _ Hinv Hst) as Hc0.
  destruct Hinv as (_ & _ & _ & _ & Hq). destruct (Hq _ _ Hst) as (Hs & Hc & Ht & Hp).
  assert (Hz : forall f : jthread -> Z, (forall c, f (mkJT c None None) = 0) -> zsum f (jw_threads w) = 0).
  { intros f Hf. apply zsum_zero. intros [c e p] [j Hj]%list_elem_of_lookup.
    destruct (Hidle _ _ Hj) as [E1 E2]. cbn in *. subst. apply Hf. }
  unfold tokens, pending in *. rewrite Hz, Hg in Ht by done. cbn in Ht. rewrite Hz in Hc by done.
  case_decide; [lia|]. assert (E : m_jobs st = []) by (apply length_zero_iff_nil; lia).
  rewrite E, todos_none in Hp.
  - rewrite app_nil_r in Hp. split_and!; [done|done|lia].
  - intros j [c e p] Hb. destruct (Hidle _ _ Hb) as [E1 _]. cbn in *. by subst.
Qed.

(** The serial queue that a concrete queue stands for. *)
Definition abs_queue (w : jworld) (q : nat) (st : JobQueue) : list J * list J :=
  (todos q (jw_threads w) ++ omap id (m_jobs st), q_started st).

Lemma history_step w i th a w' th' q st st' :
  jw_threads w !! i = Some th -> exec_job_action a w th = Some (w', th') ->
  jw_queues w !! q = Some st -> jw_queues w' !! q = Some st' ->
  (q_pushed st' = q_pushed st /\ q_started st' = q_started st) \/
  (exists job, q_pushed st' = q_pushed st ++ [job] /\ q_started st' = q_started st) \/
  (exists job, q_pushed st' = q_pushed st /\ q_started st' = q_started st ++ [job]).
Proof.
  intros Hi Hex Hst Hst'. destruct th as [cur ex pu]. destruct a; cbn in Hex.
  - case_inner; [|done]. apply bind_Some in Hex as (? & _ & Hex). simplify_eq. eauto.
  - destruct pu as [[[q0 job] p]|]; [|done]. apply bind_Some in Hex as (st0 & Hst0 & Hex).
    destruct p; cbn in Hex; simplify_eq; cbn in *;
      try (apply list_lookup_insert_Some in Hst' as [(-> & <- & _)|[_ Hst']]); simplify_eq; cbn; eauto 10.
  - repeat (case_inner; try done); simplify_eq; cbn in *; simplify_eq; eauto.
  - destruct pu; [done|]. destruct ex as [[q0 p]|]; [|done]. apply bind_Some in Hex as (st0 & Hst0 & Hex).
    unfold Execute_step, with_queue in Hex. repeat case_inner; simplify_eq; cbn in *;
      try (apply list_lookup_insert_Some in Hst' as [(-> & <- & _)|[_ Hst']]); simplify_eq; cbn; eauto 10.
Qed.

(** C2: refinement.  Every atomic step of every thread is, for each queue, a
    step of the serial queue it stands for, or leaves that queue unchanged. *)
Theorem job_queue_refines_serial w w' q st st' :
  job_reach w -> job_step w w' -> jobs_fit w' ->
  jw_queues w !! q = Some st -> jw_queues w' !! q = Some st' ->
  abs_queue w' q st' = abs_queue w q st \/ serial_step (abs_queue w q st) (abs_queue w' q st').
Proof.
  intros Hr Hstep Hfit Hst Hst'.
  pose proof (job_reach_inv _ Hr) as Hinv. pose proof (job_inv_step _ _ Hinv Hstep Hfit) as Hinv'.
  destruct Hinv as (_ & _ & _ & _ & Hq), Hinv' as (_ & _ & _ & _ & Hq').
  destruct (Hq _ _ Hst) as (_ & _ & _ & Hp), (Hq' _ _ Hst') as (_ & _ & _ & Hp').
  unfold abs_queue. destruct Hstep as [w i th a w' th' Hi Hex]. cbn in *.
  destruct (history_step _ _ _ _ _ _ _ _ _ Hi Hex Hst Hst') as [[E1 E2]|[[job [E1 E2]]|[job [E1 E2]]]];
    rewrite E1, E2 in *; rewrite Hp in Hp'; rewrite <- ?app_assoc in Hp'; apply app_inv_head in Hp'.
  - left. by rewrite <- Hp'.
  - right. rewrite <- Hp'. rewrite !app_assoc. constructor.
  - right. rewrite Hp'. constructor.
Qed.

Lemma lookup_new (l : list JobQueue) : (l ++ [JobQueue_new]) !! length l = Some JobQueue_new.
Proof. by rewrite list_lookup_middle. Qed.

Lemma insert_new (l : list JobQueue) x y : <[length l := y]> (l ++ [x]) = l ++ [y].
Proof. by rewrite insert_app_r_alt, Nat.sub_diag by lia. Qed.

(** PushGlobalQueue called outside any job (a DB worker, a gRPC thread)
    has run the job on the calling thread by the time it returns: DoAsync finds
    LCurrentJobQueue null and executes inline, and what is then pushed to the
    GlobalQueue is an empty queue.  Called from inside a job, it runs nothing
    and pushes the queue to the GlobalQueue twice. *)
Theorem PushGlobalQueue_runs_inline w job now lend :
  let q := length (jw_queues w) in
  PushGlobalQueue w None job now lend =
    mkJW (jw_queues w ++ [mkJQ [] 0 [job] [job]]) (jw_global w ++ [Some q]) (jw_threads w) /\
  forall cur, PushGlobalQueue w (Some cur) job now lend =
    mkJW (jw_queues w ++ [mkJQ [Some job] 1 [job] []]) (jw_global w ++ [Some q; Some q]) (jw_threads w).
Proof.
  cbn zeta. unfold PushGlobalQueue, DoAsync_outside, DoAsync_inside. split; [|intros cur];
    repeat (cbn -[wrapS]; change (i32 (0 + 1)) with 1; change (i32 (Z.of_nat 1)) with 1; change (i32 (1 - 1)) with 0;
            rewrite ?lookup_new, ?list_lookup_middle by done; rewrite ?insert_new).
  all: unfold GlobalQueue_Push, LockQueue_Push; by rewrite <- ?app_assoc.
Qed.

End job_queue.

(** ** Witnesses *)

(** Two workers, one queue.  Worker 0 pushes job 1 and executes inline; while
    it runs, worker 1 pushes job 2; worker 0 runs out of time, yields the queue
    to the GlobalQueue, and worker 1 picks it up. *)
Definition jdemo_start : jworld (J := nat) :=
  mkJW [JobQueue_new] [] [jthread_new; jthread_new].

Definition jdemo_sched : list (nat * job_action (J := nat)) :=
  [(0%nat, CallPush 0 1%nat); (0%nat, StepPush); (0%nat, StepPush);   (* enqueue, enter Execute *)
   (0%nat, StepExec 0 9); (0%nat, StepExec 0 9);                       (* PopAll, start job 1 *)
   (1%nat, CallPush 0 2%nat); (1%nat, StepPush); (1%nat, StepPush);    (* count 1 -> 2, enqueue *)
   (0%nat, StepExec 0 9); (0%nat, StepExec 0 9);                       (* finish, fetch_sub *)
   (0%nat, StepExec 9 9); (0%nat, StepExec 9 9);                       (* tick, yield *)
   (1%nat, DoGlobalQueueWork); (1%nat, StepExec 0 9); (1%nat, StepExec 0 9)].

Definition jdemo_world : jworld (J := nat) :=
  mkJW [mkJQ [] 1 [1%nat; 2%nat] [1%nat; 2%nat]] []
       [mkJT None None None; mkJT (Some 0%nat) (Some (0%nat, EJob [] 1)) None].

Lemma jdemo_init : job_init jdemo_start.
Proof. split; [|split]; [by constructor | done | by repeat constructor]. Qed.

Lemma jdemo_reach : job_reach jdemo_world.
Proof.
  apply (job_run_reach jdemo_sched jdemo_start).
  - apply reach_init. apply jdemo_init.
  - vm_compute. reflexivity.
  - intros k w'. apply job_run_fits_sound. vm_compute. reflexivity.
Qed.

Definition jdemo_done : jworld (J := nat) :=
  mkJW [mkJQ [] 0 [1%nat; 2%nat] [1%nat; 2%nat]] [] [mkJT None None None; mkJT None None None].

Lemma jdemo_done_reach : job_reach jdemo_done.
Proof.
  apply (job_run_reach (jdemo_sched ++ [(1%nat, StepExec 0 9); (1%nat, StepExec 0 9)]) jdemo_start).
  - apply reach_init. apply jdemo_init.
  - vm_compute. reflexivity.
  - intros k w'. apply job_run_fits_sound. vm_compute. reflexivity.
Qed.

Lemma execute_exclusive_witness : (1 = 1)%nat.
Proof.
  apply (execute_exclusive jdemo_world 1 1
    (mkJT (Some 0%nat) (Some (0%nat, EJob [] 1)) None) (mkJT (Some 0%nat) (Some (0%nat, EJob [] 1)) None)
    0 (EJob [] 1) (EJob [] 1)); [exact jdemo_reach | reflexivity..].
Defined.

Lemma jobs_fifo_witness :
  [1%nat; 2%nat] = q_started (mkJQ [] 1 [1%nat; 2%nat] [1%nat; 2%nat]) ++
    todos 0 (jw_threads jdemo_world) ++ omap id [].
Proof.
  apply (jobs_fifo jdemo_world 0 (mkJQ [] 1 [1%nat; 2%nat] [1%nat; 2%nat])); [exact jdemo_reach | reflexivity].
Defined.

Lemma no_job_left_behind_witness :
  q_started (mkJQ [] 0 [1%nat; 2%nat] [1%nat; 2%nat]) = [1%nat; 2%nat].
Proof.
  apply (no_job_left_behind jdemo_done 0 (mkJQ [] 0 [1%nat; 2%nat] [1%nat; 2%nat]));
    [exact jdemo_done_reach | | reflexivity | reflexivity].
  intros [|[|[|i]]] th H; cbn in H; simplify_eq; done.
Defined.

Lemma job_queue_refines_serial_witness :
  abs_queue jdemo_world 0 (mkJQ [] 1 [1%nat; 2%nat] [1%nat; 2%nat]) =
  abs_queue jdemo_world 0 (mkJQ [] 1 [1%nat; 2%nat] [1%nat; 2%nat]) /\
  exists w st, job_step jdemo_world w /\ jw_queues w !! 0%nat = Some st /\
    (abs_queue w 0 st = abs_queue jdemo_world 0 (mkJQ [] 1 [1%nat; 2%nat] [1%nat; 2%nat]) \/
     serial_step (abs_queue jdemo_world 0 (mkJQ [] 1 [1%nat; 2%nat] [1%nat; 2%nat])) (abs_queue w 0 st)).
Proof.
  split; [reflexivity|].
  exists (mkJW [mkJQ [] 1 [1%nat; 2%nat] [1%nat; 2%nat]] []
           [mkJT None None None; mkJT (Some 0%nat) (Some (0%nat, ELoop [] 1)) None]).
  exists (mkJQ [] 1 [1%nat; 2%nat] [1%nat; 2%nat]).
  assert (Hs : job_step jdemo_world
    (mkJW [mkJQ [] 1 [1%nat; 2%nat] [1%nat; 2%nat]] []
       [mkJT None None None; mkJT (Some 0%nat) (Some (0%nat, ELoop [] 1)) None])).
  { exact (job_step_intro jdemo_world 1 (mkJT (Some 0%nat) (Some (0%nat, EJob [] 1)) None) (StepExec 0 9)
             jdemo_world (mkJT (Some 0%nat) (Some (0%nat, ELoop [] 1)) None) eq_refl eq_refl). }
  split; [exact Hs|]. split; [reflexivity|].
  apply (job_queue_refines_serial jdemo_world _ 0 _ _ jdemo_reach Hs); [|reflexivity|reflexivity].
  apply jobs_fit_bool_sound. vm_compute. reflexivity.
Defined.
