(* ===== verification/ObjectPool.v ===== *)
(** * ObjectPool<Type>: recycled objects behind shared pointers

    src/DhUtil/ObjectPool.h.  Memory is a set of addresses; [p_objs] counts, per
    address, constructor calls minus destructor calls.  Each operation runs
    under the pool's write lock (GetMemory and the tail of Push), and the
    constructor and destructor run outside it on memory no one else holds, so
    an operation is one step. *)

From S2P Require Import Prelude.

(** ** Data *)

Record ObjectPool := mkPool {
  m_queue : list nat;        (* std::queue<Type*> *)
  m_usedSize : Z;            (* int *)
  m_poolSize : Z;            (* int *)
  p_next : nat;              (* the address operator new returns next *)
  p_objs : gmap nat Z        (* constructions minus destructions *)
}.

Definition ObjectPool_new : ObjectPool := mkPool [] 0 0 0 ∅.

(** Run a constructor (+1) or a destructor (-1) on an address. *)
Definition count_obj (p : nat) (d : Z) (objs : gmap nat Z) : gmap nat Z :=
  <[p := default 0 (objs !! p) + d]> objs.

(** ** Operations *)

Definition GetMemory (P : ObjectPool) : nat * ObjectPool :=
  match m_queue P with
  | memory :: rest =>
      (memory, mkPool rest (i32 (m_usedSize P + 1)) (m_poolSize P) (p_next P) (p_objs P))
  | [] =>
      (* memory = new Type: allocates and default-constructs *)
      let memory := p_next P in
      (memory, mkPool [] (i32 (m_usedSize P + 1)) (i32 (m_poolSize P + 1)) (S memory)
                      (count_obj memory 1 (p_objs P)))
  end.

(** The deleter of the shared pointers. *)
Definition Push (obj : nat) (P : ObjectPool) : ObjectPool :=
  mkPool (m_queue P ++ [obj]) (i32 (m_usedSize P - 1)) (m_poolSize P) (p_next P)
         (count_obj obj (-1) (p_objs P)).

(** [Pop]: placement-new on the memory; [throws] says whether that constructor
    throws, in which case the memory is pushed back and the exception goes on. *)
Definition Pop (throws : bool) (P : ObjectPool) : option nat * ObjectPool :=
  let '(memory, P1) := GetMemory P in
  if throws then (None, Push memory P1)
  else (Some memory, mkPool (m_queue P1) (m_usedSize P1) (m_poolSize P1) (p_next P1)
                            (count_obj memory 1 (p_objs P1))).

Definition MakeShared (throws : bool) (P : ObjectPool) : option nat * ObjectPool := Pop throws P.

Definition GetPoolSize (P : ObjectPool) : Z := m_poolSize P.
Definition GetUsedSize (P : ObjectPool) : Z := m_usedSize P.

(** ** Clients: the addresses some shared pointer owns *)

Record pool_world := mkPW { pw_pool : ObjectPool; pw_live : list nat }.

Inductive pool_step : pool_world -> pool_world -> Prop :=
| pool_make w p P' :
    MakeShared false (pw_pool w) = (Some p, P') ->
    pool_step w (mkPW P' (p :: pw_live w))
| pool_make_throws w P' :
    MakeShared true (pw_pool w) = (None, P') ->
    pool_step w (mkPW P' (pw_live w))
| pool_drop w l1 p l2 :
    pw_live w = l1 ++ p :: l2 ->
    pool_step w (mkPW (Push p (pw_pool w)) (l1 ++ l2)).

(** As [pool_step], for a Type whose constructor does not throw. *)
Inductive pool_step_nothrow : pool_world -> pool_world -> Prop :=
| nothrow_make w p P' :
    MakeShared false (pw_pool w) = (Some p, P') ->
    pool_step_nothrow w (mkPW P' (p :: pw_live w))
| nothrow_drop w l1 p l2 :
    pw_live w = l1 ++ p :: l2 ->
    pool_step_nothrow w (mkPW (Push p (pw_pool w)) (l1 ++ l2)).

Definition pool_init (w : pool_world) : Prop := w = mkPW ObjectPool_new [].

(** Fewer than 2^31 objects were ever allocated, the range of the counters. *)
Definition pool_fits (w : pool_world) : Prop := Z.of_nat (p_next (pw_pool w)) <= 2 ^ 31 - 1.

Definition pool_reach : pool_world -> Prop := reach pool_init pool_step pool_fits.
Definition pool_reach_nothrow : pool_world -> Prop := reach pool_init pool_step_nothrow pool_fits.

(** ** The invariant *)

(** The addresses handed out and those in the queue are all the addresses
    ever allocated, each exactly once. *)
Definition pool_inv (w : pool_world) : Prop :=
  let P := pw_pool w in
  m_queue P ++ pw_live w ≡ₚ seq 0 (p_next P) /\
  m_usedSize P = Z.of_nat (length (pw_live w)) /\
  m_poolSize P = Z.of_nat (p_next P) /\
  pool_fits w.

Lemma pool_inv_sizes w :
  pool_inv w -> (length (m_queue (pw_pool w)) + length (pw_live w) = p_next (pw_pool w))%nat.
Proof.
  intros (H & _). apply Permutation_length in H. by rewrite length_app, length_seq in H.
Qed.

Lemma seq_snoc n : seq 0 (S n) = seq 0 n ++ [n].
Proof. by rewrite seq_S. Qed.

Lemma pool_make_inv w p P' :
  pool_inv w -> MakeShared false (pw_pool w) = (Some p, P') -> pool_fits (mkPW P' (p :: pw_live w)) ->
  pool_inv (mkPW P' (p :: pw_live w)).
Proof.
  intros Hinv Hmk Hfit. pose proof (pool_inv_sizes _ Hinv) as Hsz.
  destruct Hinv as (Hperm & Hu & Hp & Hf). unfold pool_fits, MakeShared, Pop, GetMemory in *.
  destruct (m_queue (pw_pool w)) as [|m rest] eqn:Eq; simplify_eq; unfold pool_inv, pool_fits; cbn in *;
    rewrite ?wrapS_small by (change (2 ^ (32 - 1)) with 2147483648; lia); split_and!; try lia.
  - change (0%nat :: seq 1 (p_next (pw_pool w))) with (seq 0 (S (p_next (pw_pool w)))).
    rewrite seq_snoc, Hperm. by rewrite Permutation_app_comm.
  - rewrite <- Hperm. by rewrite Permutation_middle.
Qed.

Lemma pool_drop_inv w l1 p l2 :
  pool_inv w -> pw_live w = l1 ++ p :: l2 -> pool_inv (mkPW (Push p (pw_pool w)) (l1 ++ l2)).
Proof.
  intros Hinv E. pose proof (pool_inv_sizes _ Hinv) as Hsz.
  destruct Hinv as (Hperm & Hu & Hp & Hf). unfold pool_fits in *. rewrite E in *.
  rewrite length_app in *. cbn in Hsz, Hu.
  unfold pool_inv, pool_fits, Push; cbn. rewrite length_app.
  rewrite wrapS_small by (change (2 ^ (32 - 1)) with 2147483648; lia).
  split_and!; try lia. rewrite <- Hperm, <- app_assoc. cbn. by rewrite Permutation_middle.
Qed.

Lemma pool_throw_inv w P' :
  pool_inv w -> MakeShared true (pw_pool w) = (None, P') -> pool_fits (mkPW P' (pw_live w)) ->
  pool_inv (mkPW P' (pw_live w)).
Proof.
  intros Hinv Hmk Hfit. unfold MakeShared, Pop in Hmk.
  destruct (GetMemory (pw_pool w)) as [m P1] eqn:Eg. simplify_eq.
  set (P2 := mkPool (m_queue P1) (m_usedSize P1) (m_poolSize P1) (p_next P1) (count_obj m 1 (p_objs P1))).
  assert (H2 : pool_inv (mkPW P2 (m :: pw_live w))).
  { apply pool_make_inv; [done| |done]. unfold MakeShared, Pop. by rewrite Eg. }
  apply (pool_drop_inv _ [] m (pw_live w)) in H2; [|done]. exact H2.
Qed.

Lemma pool_reach_inv w : pool_reach w -> pool_inv w.
Proof.
  apply reach_invariant.
  - intros s ->. unfold pool_inv, pool_fits. cbn. split_and!; done || lia.
  - intros s s' Hinv Hstep Hfit. destruct Hstep; eauto using pool_make_inv, pool_drop_inv, pool_throw_inv.
Qed.

(** ** Theorems *)

(** no aliasing.  Whatever sequence of MakeShared (throwing or not) and
    releases, an object is never owned twice, never both owned and free, and
    the two counters are the number of owned objects and of objects ever
    allocated. *)
Theorem pool_no_aliasing w :
  pool_reach w ->
  NoDup (m_queue (pw_pool w) ++ pw_live w) /\
  GetUsedSize (pw_pool w) = Z.of_nat (length (pw_live w)) /\
  GetPoolSize (pw_pool w) = Z.of_nat (length (m_queue (pw_pool w)) + length (pw_live w)).
Proof.
  intros Hr. apply pool_reach_inv in Hr. pose proof (pool_inv_sizes _ Hr) as Hs.
  destruct Hr as (Hperm & Hu & Hp & _). split_and!.
  - rewrite Hperm. apply NoDup_seq.
  - done.
  - unfold GetPoolSize. rewrite Hp, Hs. done.
Qed.

Lemma count_obj_eq p d objs : count_obj p d objs !! p = Some (default 0 (objs !! p) + d).
Proof. apply lookup_insert_eq. Qed.

Lemma count_obj_ne p q d objs : p <> q -> count_obj p d objs !! q = objs !! q.
Proof. apply lookup_insert_ne. Qed.

(** The construction count of every address, when no constructor throws. *)
Definition balance_inv (w : pool_world) : Prop :=
  pool_inv w /\
  (forall p, p ∈ pw_live w -> p_objs (pw_pool w) !! p = Some 2) /\
  (forall p, p ∈ m_queue (pw_pool w) -> p_objs (pw_pool w) !! p = Some 1) /\
  (forall p, (p_next (pw_pool w) <= p)%nat -> p_objs (pw_pool w) !! p = None).

Lemma balance_make w p P' :
  balance_inv w -> MakeShared false (pw_pool w) = (Some p, P') -> pool_fits (mkPW P' (p :: pw_live w)) ->
  balance_inv (mkPW P' (p :: pw_live w)).
Proof.
  intros (Hinv & Hl & Hq & Hn) Hmk Hfit.
  split; [by apply pool_make_inv|]. destruct Hinv as (Hperm & _).
  assert (Hlt : forall x, x ∈ m_queue (pw_pool w) ++ pw_live w -> (x < p_next (pw_pool w))%nat).
  { intros x Hx. rewrite Hperm in Hx. apply elem_of_seq in Hx. lia. }
  assert (Hnd : NoDup (m_queue (pw_pool w) ++ pw_live w)) by (rewrite Hperm; apply NoDup_seq).
  unfold MakeShared, Pop, GetMemory in Hmk.
  destruct (m_queue (pw_pool w)) as [|m rest] eqn:Eq; simplify_eq; cbn in *.
  - split_and!; [|set_solver|].
    + intros x [->|Hx]%elem_of_cons.
      * rewrite !count_obj_eq, Hn by lia. done.
      * specialize (Hlt x Hx). rewrite !count_obj_ne by lia. auto.
    + intros x Hx. rewrite !count_obj_ne by lia. apply Hn. lia.
  - inversion Hnd as [|? ? Hni Hnd']; subst.
    split_and!.
    + intros x [->|Hx]%elem_of_cons.
      * rewrite count_obj_eq, Hq by set_solver. done.
      * rewrite count_obj_ne by set_solver. auto.
    + intros x Hx. rewrite count_obj_ne by set_solver. apply Hq. set_solver.
    + intros x Hx. rewrite count_obj_ne; [auto|]. specialize (Hlt p ltac:(set_solver)). lia.
Qed.

Lemma balance_drop w l1 p l2 :
  balance_inv w -> pw_live w = l1 ++ p :: l2 -> balance_inv (mkPW (Push p (pw_pool w)) (l1 ++ l2)).
Proof.
  intros (Hinv & Hl & Hq & Hn) E. split; [by apply pool_drop_inv|]. destruct Hinv as (Hperm & _).
  assert (Hnd : NoDup (m_queue (pw_pool w) ++ pw_live w)) by (rewrite Hperm; apply NoDup_seq).
  assert (Hp : (p < p_next (pw_pool w))%nat).
  { assert (Hin : p ∈ m_queue (pw_pool w) ++ pw_live w) by (rewrite E; set_solver).
    rewrite Hperm in Hin. apply elem_of_seq in Hin. lia. }
  rewrite E in *. assert (Hp' : p ∉ m_queue (pw_pool w) ++ l1 ++ l2).
  { rewrite <- Permutation_middle, Permutation_app_comm in Hnd. cbn in Hnd.
    apply NoDup_cons in Hnd as [Hni _]. set_solver. }
  unfold Push; cbn. split_and!.
  - intros x Hx. rewrite count_obj_ne by set_solver. apply Hl. set_solver.
  - intros x [Hx| ->%list_elem_of_singleton]%elem_of_app.
    + rewrite count_obj_ne by set_solver. auto.
    + rewrite count_obj_eq, (Hl p) by set_solver. done.
  - intros x Hx. rewrite count_obj_ne by lia. auto.
Qed.

(** constructor leak.  [new Type] in GetMemory already constructs, and Pop
    constructs again in place: with a constructor that does not throw, an
    object in use has been constructed twice more than destroyed, and an object
    in the pool once more, so what the first constructor acquired is never
    released. *)
Theorem pool_constructs_twice w p :
  pool_reach_nothrow w ->
  (p ∈ pw_live w -> p_objs (pw_pool w) !! p = Some 2) /\
  (p ∈ m_queue (pw_pool w) -> p_objs (pw_pool w) !! p = Some 1).
Proof.
  intros Hr. assert (Hb : balance_inv w).
  { revert w Hr. apply reach_invariant.
    - intros s ->. split; [|cbn; set_solver]. unfold pool_inv, pool_fits. cbn. split_and!; done || lia.
    - intros s s' Hinv Hstep Hfit. destruct Hstep; eauto using balance_make, balance_drop. }
  destruct Hb as (_ & Hl & Hq & _). auto.
Qed.

(** ** Witnesses *)

(** Two objects made, the first released. *)
Definition pdemo : pool_world :=
  let P1 := snd (MakeShared false ObjectPool_new) in
  let P2 := snd (MakeShared false P1) in
  mkPW (Push 0 P2) [1%nat].

Lemma pdemo_reach : pool_reach pdemo.
Proof.
  unfold pdemo. apply (reach_step _ _ _ (mkPW (snd (MakeShared false (snd (MakeShared false ObjectPool_new)))) [1; 0]%nat)).
  - apply (reach_step _ _ _ (mkPW (snd (MakeShared false ObjectPool_new)) [0]%nat)).
    + apply (reach_step _ _ _ (mkPW ObjectPool_new [])); [by constructor| |vm_compute; discriminate].
      by apply pool_make.
    + by apply pool_make.
    + vm_compute. discriminate.
  - by apply (pool_drop (mkPW (snd (MakeShared false (snd (MakeShared false ObjectPool_new)))) [1; 0]%nat) [1%nat] 0 []).
  - vm_compute. discriminate.
Qed.

Lemma pool_no_aliasing_witness : NoDup (m_queue (pw_pool pdemo) ++ pw_live pdemo).
Proof. apply (pool_no_aliasing pdemo pdemo_reach). Defined.

Lemma pool_constructs_twice_witness :
  p_objs (snd (MakeShared false ObjectPool_new)) !! 0%nat = Some 2.
Proof.
  apply (pool_constructs_twice (mkPW (snd (MakeShared false ObjectPool_new)) [0%nat]) 0).
  - apply (reach_step _ _ _ (mkPW ObjectPool_new [])); [by constructor| |vm_compute; discriminate].
    by apply nothrow_make.
  - set_solver.
Defined.
