(* ===== verification/Bytes.v ===== *)
(** * Raw memory: little-endian integers, field access, C strings

    What the sources do with memory through reinterpret_cast, memcpy, memset and
    strncpy_s (MSVC).  Memory is a list of byte values; a packed struct is a
    range of it. *)

From S2P Require Import Prelude.

Definition is_byte (b : Z) : Prop := 0 <= b < 256.

(** ** Ranges *)

Definition read_bytes (off n : nat) (buf : list Z) : list Z := take n (drop off buf).

Definition write_bytes (off : nat) (src buf : list Z) : list Z :=
  take off buf ++ src ++ drop (off + length src) buf.

(** ** Little-endian integers *)

Fixpoint le_encode (n : nat) (z : Z) : list Z :=
  match n with
  | O => []
  | S n' => z mod 256 :: le_encode n' (z / 256)
  end.

Fixpoint le_decode (bs : list Z) : Z :=
  match bs with
  | [] => 0
  | b :: bs' => b + 256 * le_decode bs'
  end.

Definition rd_u16 (off : nat) (buf : list Z) : Z := le_decode (read_bytes off 2 buf).
Definition rd_u64 (off : nat) (buf : list Z) : Z := le_decode (read_bytes off 8 buf).
Definition rd_i32 (off : nat) (buf : list Z) : Z := i32 (le_decode (read_bytes off 4 buf)).
Definition rd_u8 (off : nat) (buf : list Z) : Z := le_decode (read_bytes off 1 buf).

Definition wr_u16 (off : nat) (v : Z) (buf : list Z) : list Z := write_bytes off (le_encode 2 v) buf.
Definition wr_u64 (off : nat) (v : Z) (buf : list Z) : list Z := write_bytes off (le_encode 8 v) buf.
Definition wr_i32 (off : nat) (v : Z) (buf : list Z) : list Z := write_bytes off (le_encode 4 v) buf.
Definition wr_u8 (off : nat) (v : Z) (buf : list Z) : list Z := write_bytes off (le_encode 1 v) buf.

Definition memset (off : nat) (v : Z) (n : nat) (buf : list Z) : list Z :=
  write_bytes off (replicate n v) buf.

(** ** C strings *)

(** At most [n] characters, up to the first NUL. *)
Fixpoint cprefix (n : nat) (src : list Z) : list Z :=
  match n, src with
  | S n', b :: src' => if b =? 0 then [] else b :: cprefix n' src'
  | _, _ => []
  end.

(** [std::string(const char* )]: the characters up to the first NUL; [None] when
    the memory ends before one is found, so that the read runs past it. *)
Fixpoint c_string (src : list Z) : option (list Z) :=
  match src with
  | [] => None
  | b :: src' => if b =? 0 then Some [] else (b ::.) <$> c_string src'
  end.

(** [std::string::c_str()] *)
Definition c_str (s : list Z) : list Z := s ++ [0].

(** strncpy_s(dest, src, count) on a char array [dest]: the copied characters
    and a NUL, the rest of [dest] untouched; the invalid-parameter handler ends
    the process when they do not fit. *)
Definition strncpy_s (src : list Z) (count : nat) (dest : list Z) : outcome (list Z) :=
  let s := cprefix count src in
  if Z.of_nat (length s) <? Z.of_nat (length dest)
  then Ok (s ++ [0] ++ drop (S (length s)) dest)
  else Crash "strncpy_s: invalid parameter".

(** [strncpy_s(f, src, sizeof(f) - 1); f[sizeof(f) - 1] = 0] on the field of
    [n] bytes at [off]. *)
Definition set_string (off n : nat) (src : list Z) (buf : list Z) : outcome (list Z) :=
  f ← strncpy_s src (n - 1) (read_bytes off n buf);
  Ok (wr_u8 (off + (n - 1)) 0 (write_bytes off f buf)).

(** ** Lemmas *)

Lemma length_read off n buf : (off + n <= length buf)%nat -> length (read_bytes off n buf) = n.
Proof. intros H. unfold read_bytes. rewrite length_take, length_drop. lia. Qed.

Lemma length_write off src buf :
  (off + length src <= length buf)%nat -> length (write_bytes off src buf) = length buf.
Proof.
  intros H. unfold write_bytes. rewrite !length_app, length_take, length_drop. lia.
Qed.

Lemma length_le_encode n z : length (le_encode n z) = n.
Proof. revert z. induction n as [|n IH]; intros z; cbn; [done|by rewrite IH]. Qed.

Lemma read_write_same off src buf :
  (off + length src <= length buf)%nat -> read_bytes off (length src) (write_bytes off src buf) = src.
Proof.
  intros H. unfold read_bytes, write_bytes.
  rewrite drop_app_length' by (rewrite length_take; lia). by rewrite take_app_length.
Qed.

Lemma read_write_same' off n src buf :
  n = length src -> (off + length src <= length buf)%nat ->
  read_bytes off n (write_bytes off src buf) = src.
Proof. intros ->. apply read_write_same. Qed.

Lemma read_write_before off n off' src buf :
  (off + n <= off')%nat -> (off' + length src <= length buf)%nat ->
  read_bytes off n (write_bytes off' src buf) = read_bytes off n buf.
Proof.
  intros H1 H2. unfold read_bytes, write_bytes.
  rewrite drop_app_le by (rewrite length_take; lia).
  rewrite take_app_le by (rewrite length_drop, length_take; lia).
  rewrite skipn_firstn_comm, take_take. f_equal. lia.
Qed.

Lemma read_write_after off n off' src buf :
  (off' + length src <= off)%nat -> (off' + length src <= length buf)%nat ->
  read_bytes off n (write_bytes off' src buf) = read_bytes off n buf.
Proof.
  intros H1 H2. unfold read_bytes, write_bytes.
  rewrite drop_app_ge by (rewrite length_take; lia). rewrite length_take.
  rewrite drop_app_ge by lia. rewrite drop_drop. do 2 f_equal. lia.
Qed.

Lemma le_decode_encode n z : le_decode (le_encode n z) = z mod 256 ^ Z.of_nat n.
Proof.
  revert z. induction n as [|n IH]; intros z; [by rewrite Z.mod_1_r|].
  cbn [le_encode le_decode]. rewrite IH, Nat2Z.inj_succ, Z.pow_succ_r by lia.
  pose proof (Z.pow_pos_nonneg 256 (Z.of_nat n) ltac:(lia) ltac:(lia)).
  rewrite Z.rem_mul_r by lia. done.
Qed.

Lemma le_encode_bytes n z : Forall is_byte (le_encode n z).
Proof.
  revert z. induction n as [|n IH]; intros z; cbn; constructor; [|done].
  apply Z.mod_pos_bound. lia.
Qed.

Lemma le_decode_range bs : Forall is_byte bs -> 0 <= le_decode bs < 256 ^ Z.of_nat (length bs).
Proof.
  induction 1 as [|b bs Hb _ IH]; [cbn; lia|].
  cbn [le_decode length]. rewrite Nat2Z.inj_succ, Z.pow_succ_r by lia. unfold is_byte in Hb. lia.
Qed.

Lemma length_cprefix n src : (length (cprefix n src) <= n)%nat.
Proof.
  revert src. induction n as [|n IH]; intros [|b src]; cbn; try lia.
  case_inner; cbn; [lia|]. specialize (IH src). lia.
Qed.

Lemma cprefix_app_nul n src rest :
  c_string (cprefix n src ++ 0 :: rest) = Some (cprefix n src).
Proof.
  revert src. induction n as [|n IH]; intros [|b src]; cbn; try done.
  destruct (b =? 0) eqn:E; cbn; [done|]. rewrite E, IH. done.
Qed.

Lemma cprefix_idem n m src : (n <= m)%nat -> cprefix m (cprefix n src ++ [0]) = cprefix n src.
Proof.
  revert m src. induction n as [|n IH]; intros [|m] [|b src] H; cbn; try done; try lia.
  destruct (b =? 0) eqn:E; cbn; [done|]. rewrite E, IH by lia. done.
Qed.

Lemma strncpy_s_ok src count dest :
  (count < length dest)%nat ->
  strncpy_s src count dest =
    Ok (cprefix count src ++ 0 :: drop (S (length (cprefix count src))) dest).
Proof.
  intros H. unfold strncpy_s. pose proof (length_cprefix count src).
  rewrite (proj2 (Z.ltb_lt _ _)) by lia. done.
Qed.

(** Writing a string field keeps the buffer's size and the bytes outside the
    field, and the field reads back as the truncated string. *)
Lemma set_string_ok off n src buf :
  (0 < n)%nat -> (off + n <= length buf)%nat ->
  exists f, set_string off n src buf = Ok (write_bytes off f buf) /\ length f = n /\
            c_string f = Some (cprefix (n - 1) src).
Proof.
  intros Hn Hlen. unfold set_string.
  rewrite strncpy_s_ok by (rewrite length_read; lia).
  set (s := cprefix (n - 1) src). pose proof (length_cprefix (n - 1) src) as Hs. fold s in Hs.
  set (f := s ++ 0 :: drop (S (length s)) (read_bytes off n buf)). cbn.
  assert (Hf : length f = n).
  { unfold f. rewrite length_app. cbn. rewrite length_drop, length_read by lia. lia. }
  exists (take (n - 1) f ++ [0]). split_and!.
  - f_equal. unfold wr_u8, write_bytes. cbn [le_encode length]. rewrite Hf.
    change (0 mod 256) with 0.
    rewrite length_app, length_take. cbn [length]. replace (n - 1 `min` length f + 1)%nat with n by lia.
    rewrite take_app_ge by (rewrite length_take; lia). rewrite length_take.
    replace (off + (n - 1) - off `min` length buf)%nat with (n - 1)%nat by lia.
    rewrite take_app_le by lia. rewrite <- !app_assoc. do 3 f_equal.
    rewrite drop_app_ge by (rewrite length_take; lia). rewrite length_take.
    rewrite drop_app_ge by lia. rewrite drop_drop. f_equal. lia.
  - rewrite length_app, length_take. cbn. lia.
  - unfold f. destruct (decide (length s = n - 1)%nat) as [E|E].
    + rewrite <- E at 1. rewrite take_app_length. apply cprefix_app_nul.
    + rewrite take_app_ge by lia. rewrite <- app_assoc.
      destruct (n - 1 - length s)%nat as [|k] eqn:Ek; [lia|]. cbn. apply cprefix_app_nul.
Qed.

Lemma length_set_string off n src buf buf' :
  (0 < n)%nat -> (off + n <= length buf)%nat -> set_string off n src buf = Ok buf' ->
  length buf' = length buf.
Proof.
  intros Hn Hl H. destruct (set_string_ok off n src buf Hn Hl) as (f & E & Hf & _).
  rewrite E in H. simplify_eq. apply length_write. lia.
Qed.

Lemma read_take off k n (l : list Z) : (off + k <= n)%nat -> read_bytes off k (take n l) = read_bytes off k l.
Proof. intros Hk. unfold read_bytes. rewrite skipn_firstn_comm, take_take. f_equal. lia. Qed.

Lemma read_app_l off k (l l' : list Z) :
  (off + k <= length l)%nat -> read_bytes off k (l ++ l') = read_bytes off k l.
Proof.
  intros Hk. unfold read_bytes. rewrite drop_app_le by lia.
  rewrite take_app_le; [done|]. rewrite length_drop. lia.
Qed.

Lemma drop_write n off src buf :
  (off + length src <= n)%nat -> (off + length src <= length buf)%nat ->
  drop n (write_bytes off src buf) = drop n buf.
Proof.
  intros H1 H2. unfold write_bytes.
  rewrite drop_app_ge by (rewrite length_take; lia). rewrite length_take.
  rewrite drop_app_ge by lia. rewrite drop_drop. f_equal. lia.
Qed.

Lemma length_c_string src s : c_string src = Some s -> (length s < length src)%nat.
Proof.
  revert s. induction src as [|b src IH]; intros s H; cbn in *; [done|].
  destruct (b =? 0); simplify_eq; cbn; [lia|].
  destruct (c_string src) as [s'|]; cbn in H; simplify_eq. cbn. specialize (IH s' eq_refl). lia.
Qed.

(** Lengths and reads of memory after writes; the side conditions are linear. *)
Ltac mem_side :=
  repeat first [rewrite length_write | rewrite length_le_encode | rewrite length_replicate];
  cbn [length] in *; lia.

Ltac mem_simpl :=
  repeat first
  [ rewrite length_le_encode
  | rewrite length_replicate
  | rewrite length_write by mem_side
  | rewrite drop_write by mem_side
  | rewrite read_write_same' by mem_side
  | rewrite read_write_before by mem_side
  | rewrite read_write_after by mem_side ].
