(* ===== verification/Packets.v ===== *)
(** * The wire protocol: packed packets over raw memory

    src/DhNet_Server/ServerCore/PacketHeader.h,
    src/DhNet_Server/DhNet_Protocol/PacketEnum.h and PacketList.h.

    The packet classes are #pragma pack(1) structs that the code overlays on a
    chunk of the send pool and fills with their Init methods; the bytes a method
    does not write keep what the chunk held before.  A class is its list of
    field sizes after the header; each Init below is a function on the chunk's
    bytes, and [Get_*] reads what the handlers read through the cast pointer. *)

From S2P Require Import Prelude Bytes.

(** ** Packet numbers *)

Inductive PacketEnum :=
| Test | Req_KeyExchange | Res_KeyExchange | Encrypted
| Req_Login | Res_Login | Res_LoginFailed
| Res_LobbyEnter | Noti_LobbyPlayerEnter | Noti_LobbyPlayerExit | Req_LobbyChat | Noti_LobbyChat
| Req_RoomList | Res_RoomList
| Req_RoomEnter | Res_RoomEnter | Noti_RoomEnter | Req_RoomChat | Noti_RoomChat
| Req_RoomExit | Res_RoomExit | Noti_RoomExit.

#[global] Instance PacketEnum_eq_dec : EqDecision PacketEnum.
Proof. solve_decision. Defined.

Definition packet_num (e : PacketEnum) : Z :=
  match e with
  | Test => 0 | Req_KeyExchange => 1 | Res_KeyExchange => 2 | Encrypted => 3
  | Req_Login => 10 | Res_Login => 11 | Res_LoginFailed => 12
  | Res_LobbyEnter => 30 | Noti_LobbyPlayerEnter => 31 | Noti_LobbyPlayerExit => 32
  | Req_LobbyChat => 33 | Noti_LobbyChat => 34 | Req_RoomList => 35 | Res_RoomList => 36
  | Req_RoomEnter => 60 | Res_RoomEnter => 61 | Noti_RoomEnter => 62
  | Req_RoomChat => 63 | Noti_RoomChat => 64
  | Req_RoomExit => 65 | Res_RoomExit => 66 | Noti_RoomExit => 67
  end.

Definition all_packets : list PacketEnum :=
  [Test; Req_KeyExchange; Res_KeyExchange; Encrypted; Req_Login; Res_Login; Res_LoginFailed;
   Res_LobbyEnter; Noti_LobbyPlayerEnter; Noti_LobbyPlayerExit; Req_LobbyChat; Noti_LobbyChat;
   Req_RoomList; Res_RoomList; Req_RoomEnter; Res_RoomEnter; Noti_RoomEnter; Req_RoomChat;
   Noti_RoomChat; Req_RoomExit; Res_RoomExit; Noti_RoomExit].

(** ** Layout *)

Definition sizeof_PacketHeader : nat := 4.
Definition MAX_PLAIN_PACKET_SIZE : Z := 1280.
Definition MAX_LOBBY_PLAYER : Z := 50.
Definition MAX_ROOM_INFO : Z := 20.
Definition sizeof_PlayerInfo : nat := 24.   (* m_playerId 8, m_playerName[16] *)
Definition sizeof_RoomInfo : nat := 12.     (* three int32 *)

(** Sizes of the fields after the header, in declaration order. *)
Definition fields (e : PacketEnum) : list nat :=
  match e with
  | Test => [256%nat]                                  (* m_test *)
  | Req_KeyExchange | Res_KeyExchange => [65%nat]      (* public key *)
  | Encrypted => [1308%nat]                            (* payload: MAX_PLAIN_PACKET_SIZE + 28 *)
  | Req_Login => [16; 64]%nat                          (* m_username, m_password *)
  | Res_Login => [8; 16]%nat                           (* m_playerId, m_playerName *)
  | Res_LoginFailed => []
  | Res_LobbyEnter => [4; 4; 1200]%nat                 (* m_lobbyIndex, m_playerCount, m_players[50] *)
  | Noti_LobbyPlayerEnter | Noti_LobbyPlayerExit => [8; 16]%nat
  | Req_LobbyChat => [256%nat]                         (* m_message *)
  | Noti_LobbyChat => [8; 16; 256]%nat                 (* m_playerId, m_playerName, m_message *)
  | Req_RoomList => []
  | Res_RoomList => [4; 240]%nat                       (* m_roomCount, m_rooms[20] *)
  | Req_RoomEnter => []
  | Res_RoomEnter => [1%nat]                           (* m_isSuccess *)
  | Noti_RoomEnter => [8; 16]%nat
  | Req_RoomChat => [256%nat]
  | Noti_RoomChat => [8; 16; 256]%nat
  | Req_RoomExit => []
  | Res_RoomExit => [1%nat]
  | Noti_RoomExit => [8; 16]%nat
  end.

Definition sizeof (e : PacketEnum) : nat := sizeof_PacketHeader + sum_list (fields e).

Definition off_m_playerId : nat := 4.
Definition off_m_playerName : nat := 12.
Definition off_m_noti_message : nat := 28.
Definition off_m_message : nat := 4.
Definition off_m_username : nat := 4.
Definition off_m_password : nat := 20.
Definition off_m_lobbyIndex : nat := 4.
Definition off_m_playerCount : nat := 8.
Definition off_m_players : nat := 12.
Definition off_m_roomCount : nat := 4.
Definition off_m_rooms : nat := 8.
Definition off_pubKey : nat := 4.
Definition off_payload : nat := 4.
Definition off_m_isSuccess : nat := 4.

(** ** Header *)

Definition PacketHeader_Init (num : Z) (size : Z) (buf : list Z) : list Z :=
  wr_u16 2 (u16 size) (wr_u16 0 (u16 num) buf).

Definition m_packetNum (buf : list Z) : Z := rd_u16 0 buf.
Definition m_dataSize (buf : list Z) : Z := rd_u16 2 buf.

(** [PacketHeader::Init(PacketEnum::X, sizeof( *this))] *)
Definition Init_header (e : PacketEnum) (buf : list Z) : list Z :=
  PacketHeader_Init (packet_num e) (Z.of_nat (sizeof e)) buf.

(** ** Init methods *)

Definition ReqKeyExchange_Init (buf : list Z) : list Z := Init_header Req_KeyExchange buf.
Definition ResKeyExchange_Init (buf : list Z) : list Z := Init_header Res_KeyExchange buf.

Definition ReqLogin_Init (username password : list Z) (buf : list Z) : outcome (list Z) :=
  let buf := Init_header Req_Login buf in
  buf ← set_string off_m_username 16 username buf;
  set_string off_m_password 64 password buf.

Definition ResLoginFailed_Init (buf : list Z) : list Z := Init_header Res_LoginFailed buf.

(** ResLogin, NotiRoomEnter, NotiRoomExit, NotiLobbyPlayerEnter and
    NotiLobbyPlayerExit have the same two fields and the same Init body. *)
Definition Init_id_name (e : PacketEnum) (_playerId : Z) (_name : list Z) (buf : list Z) : outcome (list Z) :=
  let buf := Init_header e buf in
  let buf := wr_u64 off_m_playerId _playerId buf in
  set_string off_m_playerName 16 (c_str _name) buf.

Definition ResLogin_Init := Init_id_name Res_Login.
Definition NotiRoomEnter_Init := Init_id_name Noti_RoomEnter.
Definition NotiRoomExit_Init := Init_id_name Noti_RoomExit.
Definition NotiLobbyPlayerEnter_Init := Init_id_name Noti_LobbyPlayerEnter.
Definition NotiLobbyPlayerExit_Init := Init_id_name Noti_LobbyPlayerExit.

Definition ReqRoomEnter_Init (buf : list Z) : list Z := Init_header Req_RoomEnter buf.

Definition ResRoomEnter_Init (_isSuccess : bool) (buf : list Z) : list Z :=
  wr_u8 off_m_isSuccess (if _isSuccess then 1 else 0) (Init_header Res_RoomEnter buf).

Definition ResRoomExit_Init (_isSuccess : bool) (buf : list Z) : list Z :=
  wr_u8 off_m_isSuccess (if _isSuccess then 1 else 0) (Init_header Res_RoomExit buf).

(** ReqRoomChat and ReqLobbyChat; [message] is a const char*. *)
Definition Init_message (e : PacketEnum) (message : list Z) (buf : list Z) : outcome (list Z) :=
  set_string off_m_message 256 message (Init_header e buf).

Definition ReqRoomChat_Init := Init_message Req_RoomChat.
Definition ReqLobbyChat_Init := Init_message Req_LobbyChat.

(** NotiRoomChat and NotiLobbyChat. *)
Definition Init_chat (e : PacketEnum) (_playerId : Z) (_name _message : list Z) (buf : list Z)
  : outcome (list Z) :=
  let buf := Init_header e buf in
  let buf := wr_u64 off_m_playerId _playerId buf in
  buf ← set_string off_m_playerName 16 (c_str _name) buf;
  set_string off_m_noti_message 256 _message buf.

Definition NotiRoomChat_Init := Init_chat Noti_RoomChat.
Definition NotiLobbyChat_Init := Init_chat Noti_LobbyChat.

Definition ResLobbyEnter_Init (_lobbyIndex : Z) (buf : list Z) : list Z :=
  memset off_m_players 0 1200
    (wr_i32 off_m_playerCount 0 (wr_i32 off_m_lobbyIndex _lobbyIndex (Init_header Res_LobbyEnter buf))).

Definition ResLobbyEnter_AddPlayer (_playerId : Z) (_playerName : list Z) (buf : list Z) : outcome (list Z) :=
  let m_playerCount := rd_i32 off_m_playerCount buf in
  if m_playerCount >=? MAX_LOBBY_PLAYER then Ok buf
  else
    let off := (off_m_players + Z.to_nat m_playerCount * sizeof_PlayerInfo)%nat in
    let buf := wr_u64 off _playerId buf in
    buf ← set_string (off + 8) 16 _playerName buf;
    Ok (wr_i32 off_m_playerCount (m_playerCount + 1) buf).

Definition ResRoomList_Init (buf : list Z) : list Z :=
  memset off_m_rooms 0 240 (wr_i32 off_m_roomCount 0 (Init_header Res_RoomList buf)).

Definition ResRoomList_AddRoom (_roomIndex _playerCount _maxPlayers : Z) (buf : list Z) : list Z :=
  let m_roomCount := rd_i32 off_m_roomCount buf in
  if m_roomCount >=? MAX_ROOM_INFO then buf
  else
    let off := (off_m_rooms + Z.to_nat m_roomCount * sizeof_RoomInfo)%nat in
    wr_i32 off_m_roomCount (m_roomCount + 1)
      (wr_i32 (off + 8) _maxPlayers (wr_i32 (off + 4) _playerCount (wr_i32 off _roomIndex buf))).

(** ** Field reads *)

Definition Get_playerId (buf : list Z) : Z := rd_u64 off_m_playerId buf.
Definition Get_string (off n : nat) (buf : list Z) : option (list Z) := c_string (read_bytes off n buf).
Definition Get_playerName (buf : list Z) : option (list Z) := Get_string off_m_playerName 16 buf.

(** ** Packets by content, and the buffers that carry them *)

(** What a sender puts into a packet; the names follow the classes. *)
Inductive packet :=
| ReqLogin (username password : list Z)
| ResLoginFailed
| ResLogin (playerId : Z) (name : list Z)
| ReqRoomEnter
| ResRoomEnter (isSuccess : bool)
| NotiRoomEnter (playerId : Z) (name : list Z)
| ReqRoomChat (message : list Z)
| NotiRoomChat (playerId : Z) (name message : list Z)
| ReqRoomExit
| ResRoomExit (isSuccess : bool)
| NotiRoomExit (playerId : Z) (name : list Z)
| ResLobbyEnter (lobbyIndex : Z) (players : list (Z * list Z))
| NotiLobbyPlayerEnter (playerId : Z) (name : list Z)
| NotiLobbyPlayerExit (playerId : Z) (name : list Z)
| ReqLobbyChat (message : list Z)
| NotiLobbyChat (playerId : Z) (name message : list Z)
| ReqRoomList
| ResRoomList (rooms : list (Z * Z * Z))
| TestPacket (text : list Z).

Definition packet_enum (p : packet) : PacketEnum :=
  match p with
  | ReqLogin _ _ => Req_Login | ResLoginFailed => Res_LoginFailed | ResLogin _ _ => Res_Login
  | ReqRoomEnter => Req_RoomEnter | ResRoomEnter _ => Res_RoomEnter | NotiRoomEnter _ _ => Noti_RoomEnter
  | ReqRoomChat _ => Req_RoomChat | NotiRoomChat _ _ _ => Noti_RoomChat
  | ReqRoomExit => Req_RoomExit | ResRoomExit _ => Res_RoomExit | NotiRoomExit _ _ => Noti_RoomExit
  | ResLobbyEnter _ _ => Res_LobbyEnter | NotiLobbyPlayerEnter _ _ => Noti_LobbyPlayerEnter
  | NotiLobbyPlayerExit _ _ => Noti_LobbyPlayerExit | ReqLobbyChat _ => Req_LobbyChat
  | NotiLobbyChat _ _ _ => Noti_LobbyChat | ReqRoomList => Req_RoomList | ResRoomList _ => Res_RoomList
  | TestPacket _ => Test
  end.

Fixpoint add_players (ps : list (Z * list Z)) (buf : list Z) : outcome (list Z) :=
  match ps with
  | [] => Ok buf
  | (pid, name) :: ps' =>
      buf ← ResLobbyEnter_AddPlayer pid (c_str name) buf;
      add_players ps' buf
  end.

Definition add_rooms (rs : list (Z * Z * Z)) (buf : list Z) : list Z :=
  fold_left (fun buf '(i, c, m) => ResRoomList_AddRoom i c m buf) rs buf.

(** Fill a chunk for a packet, with the calls the senders make. *)
Definition encode (p : packet) (buf : list Z) : outcome (list Z) :=
  match p with
  | ReqLogin u pw => ReqLogin_Init (c_str u) (c_str pw) buf
  | ResLoginFailed => Ok (ResLoginFailed_Init buf)
  | ResLogin i n => ResLogin_Init i n buf
  | ReqRoomEnter => Ok (ReqRoomEnter_Init buf)
  | ResRoomEnter b => Ok (ResRoomEnter_Init b buf)
  | NotiRoomEnter i n => NotiRoomEnter_Init i n buf
  | ReqRoomChat m => ReqRoomChat_Init (c_str m) buf
  | NotiRoomChat i n m => NotiRoomChat_Init i n (c_str m) buf
  | ReqRoomExit => Ok (Init_header Req_RoomExit buf)
  | ResRoomExit b => Ok (ResRoomExit_Init b buf)
  | NotiRoomExit i n => NotiRoomExit_Init i n buf
  | ResLobbyEnter l ps => add_players ps (ResLobbyEnter_Init l buf)
  | NotiLobbyPlayerEnter i n => NotiLobbyPlayerEnter_Init i n buf
  | NotiLobbyPlayerExit i n => NotiLobbyPlayerExit_Init i n buf
  | ReqLobbyChat m => ReqLobbyChat_Init (c_str m) buf
  | NotiLobbyChat i n m => NotiLobbyChat_Init i n (c_str m) buf
  | ReqRoomList => Ok (Init_header Req_RoomList buf)
  | ResRoomList rs => Ok (add_rooms rs (ResRoomList_Init buf))
  | TestPacket t => f ← strncpy_s (c_str t) (S (length t)) (read_bytes off_m_message 256 (Init_header Test buf));
                    Ok (write_bytes off_m_message f (Init_header Test buf))
  end.

Fixpoint get_players (n : nat) (off : nat) (buf : list Z) : option (list (Z * list Z)) :=
  match n with
  | O => Some []
  | S n' =>
      name ← Get_string (off + 8) 16 buf;
      rest ← get_players n' (off + sizeof_PlayerInfo) buf;
      Some ((rd_u64 off buf, name) :: rest)
  end.

Fixpoint get_rooms (n : nat) (off : nat) (buf : list Z) : list (Z * Z * Z) :=
  match n with
  | O => []
  | S n' => (rd_i32 off buf, rd_i32 (off + 4) buf, rd_i32 (off + 8) buf)
            :: get_rooms n' (off + sizeof_RoomInfo) buf
  end.

(** What a receiver reads back, by packet number. *)
Definition decode (buf : list Z) : option packet :=
  e ← find (fun e => packet_num e =? m_packetNum buf) all_packets;
  match e with
  | Req_Login => u ← Get_string off_m_username 16 buf; p ← Get_string off_m_password 64 buf; Some (ReqLogin u p)
  | Res_LoginFailed => Some ResLoginFailed
  | Res_Login => n ← Get_playerName buf; Some (ResLogin (Get_playerId buf) n)
  | Req_RoomEnter => Some ReqRoomEnter
  | Res_RoomEnter => Some (ResRoomEnter (negb (rd_u8 off_m_isSuccess buf =? 0)))
  | Noti_RoomEnter => n ← Get_playerName buf; Some (NotiRoomEnter (Get_playerId buf) n)
  | Req_RoomChat => m ← Get_string off_m_message 256 buf; Some (ReqRoomChat m)
  | Noti_RoomChat => n ← Get_playerName buf; m ← Get_string off_m_noti_message 256 buf;
                     Some (NotiRoomChat (Get_playerId buf) n m)
  | Req_RoomExit => Some ReqRoomExit
  | Res_RoomExit => Some (ResRoomExit (negb (rd_u8 off_m_isSuccess buf =? 0)))
  | Noti_RoomExit => n ← Get_playerName buf; Some (NotiRoomExit (Get_playerId buf) n)
  | Res_LobbyEnter => ps ← get_players (Z.to_nat (rd_i32 off_m_playerCount buf)) off_m_players buf;
                      Some (ResLobbyEnter (rd_i32 off_m_lobbyIndex buf) ps)
  | Noti_LobbyPlayerEnter => n ← Get_playerName buf; Some (NotiLobbyPlayerEnter (Get_playerId buf) n)
  | Noti_LobbyPlayerExit => n ← Get_playerName buf; Some (NotiLobbyPlayerExit (Get_playerId buf) n)
  | Req_LobbyChat => m ← Get_string off_m_message 256 buf; Some (ReqLobbyChat m)
  | Noti_LobbyChat => n ← Get_playerName buf; m ← Get_string off_m_noti_message 256 buf;
                      Some (NotiLobbyChat (Get_playerId buf) n m)
  | Req_RoomList => Some ReqRoomList
  | Res_RoomList => Some (ResRoomList (get_rooms (Z.to_nat (rd_i32 off_m_roomCount buf)) off_m_rooms buf))
  | Test => t ← Get_string off_m_message 256 buf; Some (TestPacket t)
  | Req_KeyExchange | Res_KeyExchange | Encrypted => None
  end.

(** The content a receiver sees: strings cut at their field's size minus one
    and at the first NUL, ids modulo 2^64, at most 50 players and 20 rooms. *)
Definition cut (n : nat) (s : list Z) : list Z := cprefix (n - 1) (c_str s).

Definition wire_view (p : packet) : packet :=
  match p with
  | ReqLogin u pw => ReqLogin (cut 16 u) (cut 64 pw)
  | ResLogin i n => ResLogin (u64 i) (cut 16 n)
  | NotiRoomEnter i n => NotiRoomEnter (u64 i) (cut 16 n)
  | ReqRoomChat m => ReqRoomChat (cut 256 m)
  | NotiRoomChat i n m => NotiRoomChat (u64 i) (cut 16 n) (cut 256 m)
  | NotiRoomExit i n => NotiRoomExit (u64 i) (cut 16 n)
  | ResLobbyEnter l ps =>
      ResLobbyEnter (i32 l) (map (fun '(i, n) => (u64 i, cut 16 n)) (take 50 ps))
  | NotiLobbyPlayerEnter i n => NotiLobbyPlayerEnter (u64 i) (cut 16 n)
  | NotiLobbyPlayerExit i n => NotiLobbyPlayerExit (u64 i) (cut 16 n)
  | ReqLobbyChat m => ReqLobbyChat (cut 256 m)
  | NotiLobbyChat i n m => NotiLobbyChat (u64 i) (cut 16 n) (cut 256 m)
  | ResRoomList rs => ResRoomList (map (fun '(i, c, m) => (i32 i, i32 c, i32 m)) (take 20 rs))
  | TestPacket t => TestPacket (cprefix (length t) t)
  | _ => p
  end.

(** ** Lemmas *)

(** What every Init leaves behind on a chunk [buf]: the header of [e], and
    nothing changed after the packet's own bytes. *)
Definition filled (e : PacketEnum) (buf buf' : list Z) : Prop :=
  length buf' = length buf /\ drop (sizeof e) buf' = drop (sizeof e) buf /\
  m_packetNum buf' = packet_num e /\ m_dataSize buf' = Z.of_nat (sizeof e).

Lemma sizeof_eq (e : PacketEnum) : exists n, sizeof e = (4 + n)%nat.
Proof. by eexists. Qed.

Lemma Init_header_filled e buf : (sizeof e <= length buf)%nat -> filled e buf (Init_header e buf).
Proof.
  intros H. destruct (sizeof_eq e) as [n En].
  assert (packet_num e = u16 (packet_num e)) as E1 by (by destruct e).
  assert (Z.of_nat (sizeof e) = u16 (Z.of_nat (sizeof e))) as E2 by (by destruct e).
  unfold filled, m_packetNum, m_dataSize, Init_header, PacketHeader_Init, rd_u16, wr_u16.
  split_and!; mem_simpl; try done.
  - rewrite le_decode_encode. change (256 ^ Z.of_nat 2) with (2 ^ 16). by rewrite <- E1, Z.mod_small by (by destruct e).
  - rewrite le_decode_encode. change (256 ^ Z.of_nat 2) with (2 ^ 16). by rewrite <- E2, Z.mod_small by (by destruct e).
Qed.

(** A field written inside the packet, after the header, keeps that. *)
Lemma filled_write e buf buf' off src :
  filled e buf buf' -> (4 <= off)%nat -> (off + length src <= sizeof e)%nat ->
  (sizeof e <= length buf)%nat -> filled e buf (write_bytes off src buf').
Proof.
  intros (Hl & Hd & Hn & Hs) H1 H2 H3.
  unfold filled, m_packetNum, m_dataSize, rd_u16 in *. split_and!; mem_simpl; done.
Qed.

Lemma filled_set_string e buf buf' off n src :
  filled e buf buf' -> (4 <= off)%nat -> (0 < n)%nat -> (off + n <= sizeof e)%nat ->
  (sizeof e <= length buf)%nat ->
  exists f, set_string off n src buf' = Ok (write_bytes off f buf') /\ length f = n /\
            c_string f = Some (cprefix (n - 1) src) /\ filled e buf (write_bytes off f buf').
Proof.
  intros Hf H1 H2 H3 H4. destruct (set_string_ok off n src buf') as (f & E & Hl & Hc); [done| |].
  { destruct Hf as (-> & _). lia. }
  exists f. split_and!; [done..|]. apply filled_write; [done..| |done]. lia.
Qed.

Lemma Get_string_write off n f buf :
  length f = n -> (off + n <= length buf)%nat ->
  Get_string off n (write_bytes off f buf) = c_string f.
Proof. intros <- H. unfold Get_string. by mem_simpl. Qed.

Lemma rd_u64_write off z buf :
  (off + 8 <= length buf)%nat -> rd_u64 off (wr_u64 off z buf) = u64 z.
Proof.
  intros H. unfold rd_u64, wr_u64. mem_simpl. rewrite le_decode_encode. done.
Qed.

Lemma i32_u32 z : i32 (z mod 256 ^ Z.of_nat 4) = i32 z.
Proof.
  change (256 ^ Z.of_nat 4) with (2 ^ 32). unfold wrapS.
  rewrite Zplus_mod_idemp_l. done.
Qed.

Lemma rd_i32_write off z buf :
  (off + 4 <= length buf)%nat -> rd_i32 off (wr_i32 off z buf) = i32 z.
Proof.
  intros H. unfold rd_i32, wr_i32. mem_simpl. rewrite le_decode_encode. apply i32_u32.
Qed.

(** Field offsets and accessors as plain memory reads and writes. *)
Ltac unfold_fields :=
  unfold Get_playerName, Get_playerId, off_m_playerId, off_m_playerName, off_m_noti_message, off_m_message,
    off_m_username, off_m_password, off_m_lobbyIndex, off_m_playerCount, off_m_players,
    off_m_roomCount, off_m_rooms, off_m_isSuccess, sizeof_PlayerInfo, sizeof_RoomInfo in *.

(** *** The lists of ResLobbyEnter and ResRoomList *)

Lemma get_players_write n off off' src buf :
  (off + n * 24 <= off' \/ off' + length src <= off)%nat ->
  (off' + length src <= length buf)%nat ->
  get_players n off (write_bytes off' src buf) = get_players n off buf.
Proof.
  revert off. induction n as [|n IH]; intros off H Hl; [done|].
  cbn [get_players]. unfold Get_string, rd_u64, sizeof_PlayerInfo.
  rewrite IH by lia. destruct H; by mem_simpl.
Qed.

Lemma get_players_snoc n off buf :
  get_players (S n) off buf =
    (ps ← get_players n off buf;
     name ← Get_string (off + n * 24 + 8) 16 buf;
     Some (ps ++ [(rd_u64 (off + n * 24) buf, name)])).
Proof.
  revert off. induction n as [|n IH]; intros off.
  - cbn. rewrite !Nat.add_0_r. by destruct (Get_string (off + 8) 16 buf).
  - cbn [get_players] in IH |- *. destruct (Get_string (off + 8) 16 buf) as [nm|]; [|done].
    cbn [mbind option_bind]. rewrite IH. unfold sizeof_PlayerInfo.
    replace (off + 24 + n * 24)%nat with (off + S n * 24)%nat by lia.
    by destruct (get_players n _ buf), (Get_string (off + S n * 24 + 8) 16 buf).
Qed.

Lemma get_rooms_write n off off' src buf :
  (off + n * 12 <= off' \/ off' + length src <= off)%nat ->
  (off' + length src <= length buf)%nat ->
  get_rooms n off (write_bytes off' src buf) = get_rooms n off buf.
Proof.
  revert off. induction n as [|n IH]; intros off H Hl; [done|].
  cbn [get_rooms]. unfold rd_i32, sizeof_RoomInfo.
  rewrite IH by lia. destruct H; by mem_simpl.
Qed.

Lemma get_rooms_snoc n off buf :
  get_rooms (S n) off buf =
    get_rooms n off buf ++
      [(rd_i32 (off + n * 12) buf, rd_i32 (off + n * 12 + 4) buf, rd_i32 (off + n * 12 + 8) buf)].
Proof.
  revert off. induction n as [|n IH]; intros off.
  - cbn. by rewrite !Nat.add_0_r.
  - cbn [get_rooms] in IH |- *. cbn [app]. rewrite IH. unfold sizeof_RoomInfo.
    by replace (off + 12 + n * 12)%nat with (off + S n * 12)%nat by lia.
Qed.

(** A ResLobbyEnter chunk that holds [l] and the players [ps]. *)
Definition lobby_filled (buf buf' : list Z) (l : Z) (ps : list (Z * list Z)) : Prop :=
  filled Res_LobbyEnter buf buf' /\ rd_i32 off_m_lobbyIndex buf' = l /\
  rd_i32 off_m_playerCount buf' = Z.of_nat (length ps) /\
  get_players (length ps) off_m_players buf' = Some ps /\ (length ps <= 50)%nat.

Lemma i32_small z : 0 <= z < 2147483648 -> i32 z = z.
Proof. intros H. apply wrapS_small; [done|]. change (2 ^ (32 - 1)) with 2147483648. lia. Qed.

Lemma AddPlayer_ok buf buf' l ps pid name :
  (sizeof Res_LobbyEnter <= length buf)%nat -> lobby_filled buf buf' l ps ->
  exists buf'', ResLobbyEnter_AddPlayer pid (c_str name) buf' = Ok buf'' /\
    lobby_filled buf buf'' l (take 50 (ps ++ [(u64 pid, cut 16 name)])).
Proof.
  intros Hb (Hf & Hl & Hc & Hg & Hn). unfold ResLobbyEnter_AddPlayer. rewrite Hc.
  change (sizeof Res_LobbyEnter) with 1212%nat in *.
  destruct (Z.geb_spec (Z.of_nat (length ps)) MAX_LOBBY_PLAYER) as [E|E];
    unfold MAX_LOBBY_PLAYER in E.
  { exists buf'. split; [done|]. rewrite take_app_le, take_ge by lia. by split_and!. }
  rewrite (take_ge (ps ++ _)) by (rewrite length_app; cbn; lia).
  rewrite Nat2Z.id. unfold lobby_filled. unfold_fields.
  set (off := (12 + length ps * 24)%nat).
  assert (Hlen : length buf' = length buf) by apply Hf.
  assert (filled Res_LobbyEnter buf (wr_u64 off pid buf')) as Hf1.
  { apply filled_write; [done|lia| |done]. rewrite length_le_encode. change (sizeof Res_LobbyEnter) with 1212%nat. lia. }
  destruct (filled_set_string Res_LobbyEnter buf _ (off + 8) 16 (c_str name) Hf1)
    as (f & -> & Hlf & Hcf & Hf2); [lia|lia| |done|].
  { change (sizeof Res_LobbyEnter) with 1212%nat. lia. }
  eexists. split; [reflexivity|]. split_and!.
  - apply filled_write; [done|lia| |done]. rewrite length_le_encode. change (sizeof Res_LobbyEnter) with 1212%nat. lia.
  - unfold rd_i32, wr_i32, wr_u64 in *. by mem_simpl.
  - rewrite rd_i32_write by (unfold wr_u64; mem_side). rewrite length_app. cbn. rewrite i32_small; lia.
  - rewrite length_app, Nat.add_1_r, get_players_snoc. fold off. unfold wr_i32, wr_u64.
    rewrite 3!get_players_write by mem_side. rewrite Hg. unfold Get_string, rd_u64. cbn [mbind option_bind].
    mem_simpl. rewrite Hcf, le_decode_encode. done.
  - rewrite length_app. cbn. lia.
Qed.

Lemma add_players_ok buf buf' l ps qs :
  (sizeof Res_LobbyEnter <= length buf)%nat -> lobby_filled buf buf' l ps ->
  exists buf'', add_players qs buf' = Ok buf'' /\
    lobby_filled buf buf'' l (take 50 (ps ++ map (fun '(i, n) => (u64 i, cut 16 n)) qs)).
Proof.
  revert buf' ps. induction qs as [|[i n] qs IH]; intros buf' ps Hb Hf.
  - exists buf'. split; [done|]. cbn. rewrite app_nil_r, take_ge; [done|apply Hf].
  - cbn [add_players]. destruct (AddPlayer_ok buf buf' l ps i n Hb Hf) as (b1 & -> & H1).
    cbn. destruct (IH b1 _ Hb H1) as (b2 & -> & H2). exists b2. split; [done|].
    rewrite take_take_app, <- app_assoc in H2. done.
Qed.

(** A ResRoomList chunk that holds the rooms [rs]. *)
Definition rooms_filled (buf buf' : list Z) (rs : list (Z * Z * Z)) : Prop :=
  filled Res_RoomList buf buf' /\
  rd_i32 off_m_roomCount buf' = Z.of_nat (length rs) /\
  get_rooms (length rs) off_m_rooms buf' = rs /\ (length rs <= 20)%nat.

Lemma AddRoom_ok buf buf' rs i c m :
  (sizeof Res_RoomList <= length buf)%nat -> rooms_filled buf buf' rs ->
  rooms_filled buf (ResRoomList_AddRoom i c m buf') (take 20 (rs ++ [(i32 i, i32 c, i32 m)])).
Proof.
  intros Hb (Hf & Hc & Hg & Hn). unfold ResRoomList_AddRoom. rewrite Hc.
  change (sizeof Res_RoomList) with 248%nat in *.
  destruct (Z.geb_spec (Z.of_nat (length rs)) MAX_ROOM_INFO) as [E|E]; unfold MAX_ROOM_INFO in E.
  { rewrite take_app_le, take_ge by lia. by split_and!. }
  rewrite (take_ge (rs ++ _)) by (rewrite length_app; cbn; lia).
  rewrite Nat2Z.id. unfold rooms_filled. unfold_fields.
  set (off := (8 + length rs * 12)%nat).
  assert (Hlen : length buf' = length buf) by apply Hf.
  split_and!.
  - repeat (apply filled_write; [|lia|rewrite length_le_encode; change (sizeof Res_RoomList) with 248%nat; lia|done]).
    done.
  - rewrite rd_i32_write by (unfold wr_i32; mem_side). rewrite length_app. cbn. rewrite i32_small; lia.
  - rewrite length_app, Nat.add_1_r, get_rooms_snoc. fold off. unfold wr_i32.
    rewrite 4!get_rooms_write by mem_side. rewrite Hg. unfold rd_i32. mem_simpl.
    rewrite !le_decode_encode, !i32_u32. done.
  - rewrite length_app. cbn. lia.
Qed.

Lemma add_rooms_ok buf buf' rs qs :
  (sizeof Res_RoomList <= length buf)%nat -> rooms_filled buf buf' rs ->
  rooms_filled buf (add_rooms qs buf') (take 20 (rs ++ map (fun '(i, c, m) => (i32 i, i32 c, i32 m)) qs)).
Proof.
  revert buf' rs. induction qs as [|[[i c] m] qs IH]; intros buf' rs Hb Hf.
  - cbn. rewrite app_nil_r, take_ge; [done|apply Hf].
  - pose proof (IH _ _ Hb (AddRoom_ok buf buf' rs i c m Hb Hf)) as H2.
    rewrite take_take_app, <- app_assoc in H2. done.
Qed.

Lemma ResLobbyEnter_Init_ok l buf :
  (sizeof Res_LobbyEnter <= length buf)%nat ->
  lobby_filled buf (ResLobbyEnter_Init l buf) (i32 l) [].
Proof.
  intros Hb. pose proof (Init_header_filled _ _ Hb) as Hf.
  change (sizeof Res_LobbyEnter) with 1212%nat in *. assert (Hlen := proj1 Hf).
  unfold ResLobbyEnter_Init, lobby_filled, memset, wr_i32. unfold_fields. split_and!.
  - repeat (apply filled_write; [|lia|first [rewrite length_le_encode|rewrite length_replicate];
      change (sizeof Res_LobbyEnter) with 1212%nat; lia|done]). done.
  - unfold rd_i32. mem_simpl. by rewrite le_decode_encode, i32_u32.
  - unfold rd_i32. mem_simpl. by rewrite le_decode_encode, i32_u32.
  - done.
  - cbn. lia.
Qed.

Lemma ResRoomList_Init_ok buf :
  (sizeof Res_RoomList <= length buf)%nat -> rooms_filled buf (ResRoomList_Init buf) [].
Proof.
  intros Hb. pose proof (Init_header_filled _ _ Hb) as Hf.
  change (sizeof Res_RoomList) with 248%nat in *. assert (Hlen := proj1 Hf).
  unfold ResRoomList_Init, rooms_filled, memset, wr_i32. unfold_fields. split_and!.
  - repeat (apply filled_write; [|lia|first [rewrite length_le_encode|rewrite length_replicate];
      change (sizeof Res_RoomList) with 248%nat; lia|done]). done.
  - unfold rd_i32. mem_simpl. by rewrite le_decode_encode, i32_u32.
  - done.
  - cbn. lia.
Qed.

(** *** Round trip *)

Definition carries (p : packet) (buf buf' : list Z) : Prop :=
  filled (packet_enum p) buf buf' /\ decode buf' = Some (wire_view p).

Lemma packet_of_header e buf buf' :
  filled e buf buf' -> find (fun e => packet_num e =? m_packetNum buf') all_packets = Some e.
Proof. intros (_ & _ & -> & _). by destruct e. Qed.

Lemma Init_id_name_ok e i n buf :
  fields e = [8; 16]%nat -> (28 <= length buf)%nat ->
  exists buf', Init_id_name e i n buf = Ok buf' /\ filled e buf buf' /\
    Get_playerId buf' = u64 i /\ Get_playerName buf' = Some (cut 16 n).
Proof.
  intros He Hb. assert (sizeof e = 28%nat) as Hs by (unfold sizeof; by rewrite He).
  assert (filled e buf (Init_header e buf)) as Hf by (apply Init_header_filled; lia).
  assert (filled e buf (wr_u64 4 i (Init_header e buf))) as Hf1.
  { apply filled_write; [done|lia| |lia]. rewrite length_le_encode. lia. }
  unfold Init_id_name. unfold_fields.
  destruct (filled_set_string e buf _ 12 16 (c_str n) Hf1) as (f & -> & Hlf & Hcf & Hf2); [lia..|].
  assert (Hlen := proj1 Hf). eexists. split_and!; [done|done|..].
  - unfold rd_u64, wr_u64. mem_simpl. by rewrite le_decode_encode.
  - rewrite Get_string_write; [by rewrite Hcf|lia|]. unfold wr_u64. mem_side.
Qed.

Lemma Init_chat_ok e i n m buf :
  fields e = [8; 16; 256]%nat -> (284 <= length buf)%nat ->
  exists buf', Init_chat e i n (c_str m) buf = Ok buf' /\ filled e buf buf' /\
    Get_playerId buf' = u64 i /\ Get_playerName buf' = Some (cut 16 n) /\
    Get_string off_m_noti_message 256 buf' = Some (cut 256 m).
Proof.
  intros He Hb. assert (sizeof e = 284%nat) as Hs by (unfold sizeof; by rewrite He).
  assert (filled e buf (Init_header e buf)) as Hf by (apply Init_header_filled; lia).
  assert (filled e buf (wr_u64 4 i (Init_header e buf))) as Hf1.
  { apply filled_write; [done|lia| |lia]. rewrite length_le_encode. lia. }
  unfold Init_chat. unfold_fields.
  destruct (filled_set_string e buf _ 12 16 (c_str n) Hf1) as (f & -> & Hlf & Hcf & Hf2); [lia..|].
  cbn [mbind outcome_bind].
  destruct (filled_set_string e buf _ 28 256 (c_str m) Hf2) as (g & -> & Hlg & Hcg & Hf3); [lia..|].
  assert (Hlen := proj1 Hf). unfold wr_u64 in *. eexists. split_and!; [done|done|..].
  - unfold rd_u64. mem_simpl. by rewrite le_decode_encode.
  - unfold Get_string. mem_simpl. by rewrite Hcf.
  - unfold Get_string. mem_simpl. by rewrite Hcg.
Qed.

Lemma Init_message_ok e m buf :
  fields e = [256]%nat -> (260 <= length buf)%nat ->
  exists buf', Init_message e (c_str m) buf = Ok buf' /\ filled e buf buf' /\
    Get_string off_m_message 256 buf' = Some (cut 256 m).
Proof.
  intros He Hb. assert (sizeof e = 260%nat) as Hs by (unfold sizeof; by rewrite He).
  assert (filled e buf (Init_header e buf)) as Hf by (apply Init_header_filled; lia).
  unfold Init_message. unfold_fields.
  destruct (filled_set_string e buf _ 4 256 (c_str m) Hf) as (f & -> & Hlf & Hcf & Hf2); [lia..|].
  assert (Hlen := proj1 Hf). eexists. split_and!; [done|done|..].
  rewrite Get_string_write; [by rewrite Hcf|lia|lia].
Qed.

Lemma ReqLogin_Init_ok u pw buf :
  (84 <= length buf)%nat ->
  exists buf', ReqLogin_Init (c_str u) (c_str pw) buf = Ok buf' /\ filled Req_Login buf buf' /\
    Get_string off_m_username 16 buf' = Some (cut 16 u) /\
    Get_string off_m_password 64 buf' = Some (cut 64 pw).
Proof.
  intros Hb. assert (sizeof Req_Login = 84%nat) as Hs by done.
  assert (filled Req_Login buf (Init_header Req_Login buf)) as Hf by (apply Init_header_filled; lia).
  unfold ReqLogin_Init. unfold_fields.
  destruct (filled_set_string Req_Login buf _ 4 16 (c_str u) Hf) as (f & -> & Hlf & Hcf & Hf2); [lia..|].
  cbn [mbind outcome_bind].
  destruct (filled_set_string Req_Login buf _ 20 64 (c_str pw) Hf2) as (g & -> & Hlg & Hcg & Hf3); [lia..|].
  assert (Hlen := proj1 Hf). eexists. split_and!; [done|done|..]; unfold Get_string; mem_simpl;
    [by rewrite Hcf|by rewrite Hcg].
Qed.

Lemma flag_ok e (b : bool) buf :
  fields e = [1]%nat -> (5 <= length buf)%nat ->
  filled e buf (wr_u8 off_m_isSuccess (if b then 1 else 0) (Init_header e buf)) /\
  negb (rd_u8 off_m_isSuccess (wr_u8 off_m_isSuccess (if b then 1 else 0) (Init_header e buf)) =? 0) = b.
Proof.
  unfold_fields.
  intros He Hb. assert (sizeof e = 5%nat) as Hs by (unfold sizeof; by rewrite He).
  assert (filled e buf (Init_header e buf)) as Hf by (apply Init_header_filled; lia).
  assert (Hlen := proj1 Hf). split.
  - apply filled_write; [done|lia| |lia]. rewrite length_le_encode. lia.
  - unfold rd_u8, wr_u8. mem_simpl. by destruct b.
Qed.

Lemma cprefix_c_str t : cprefix (S (length t)) (c_str t) = cprefix (length t) t.
Proof.
  unfold c_str. induction t as [|b t IH]; [done|]. cbn [length app cprefix] in *.
  destruct (b =? 0); [done|]. by rewrite <- IH.
Qed.

Lemma Test_ok t buf :
  (length t < 256)%nat -> (260 <= length buf)%nat ->
  exists buf', encode (TestPacket t) buf = Ok buf' /\ filled Test buf buf' /\
    Get_string off_m_message 256 buf' = Some (cprefix (length t) t).
Proof.
  intros Ht Hb. assert (filled Test buf (Init_header Test buf)) as Hf by (by apply Init_header_filled).
  assert (Hlen := proj1 Hf). cbn [encode]. unfold_fields.
  unfold strncpy_s. rewrite cprefix_c_str.
  pose proof (length_cprefix (length t) t) as Hc.
  rewrite (proj2 (Z.ltb_lt _ _)) by (rewrite length_read; lia).
  set (f := _ ++ _). assert (length f = 256%nat) as Hlf.
  { unfold f. rewrite !length_app, length_drop, length_read by lia. cbn. lia. }
  eexists. split_and!; [done|..].
  - apply filled_write; [done|lia| |done]. change (sizeof Test) with 260%nat. lia.
  - rewrite Get_string_write by lia. apply cprefix_app_nul.
Qed.

(** A test packet's text must leave room for its NUL. *)
Definition text_fits (p : packet) : Prop :=
  match p with TestPacket t => (length t < 256)%nat | _ => True end.


Ltac by_lemma L :=
  let b := fresh "b" in let E := fresh "E" in let F := fresh "F" in
  destruct L as (b & E & F & ?); [done || lia..|]; exists b;
  split; [exact E|split; [exact F|]]; unfold decode; rewrite (packet_of_header _ _ _ F);
  destruct_and?; cbn [mbind option_bind];
  repeat match goal with H : _ = Some _ |- _ => rewrite H; clear H; cbn [mbind option_bind] end;
  repeat match goal with H : Get_playerId _ = _ |- _ => rewrite H; clear H end; reflexivity.

Lemma encode_carries (p : packet) (buf : list Z) :
  text_fits p -> (sizeof (packet_enum p) <= length buf)%nat ->
  exists buf', encode p buf = Ok buf' /\ carries p buf buf'.
Proof.
  intros Ht Hb. unfold carries.
  destruct p as [u pw| |i n| |b|i n|m|i n m| |b|i n|l ps|i n|i n|m|i n m| |rs|t];
    cbn [packet_enum encode text_fits wire_view] in *;
    unfold ResLoginFailed_Init, ReqRoomEnter_Init, ResRoomEnter_Init, ResRoomExit_Init;
    try (eexists; split; [reflexivity|]; split; [apply Init_header_filled, Hb|];
         unfold decode; by rewrite (packet_of_header _ _ _ (Init_header_filled _ _ Hb))).
  - by_lemma (ReqLogin_Init_ok u pw buf).
  - by_lemma (Init_id_name_ok Res_Login i n buf).
  - destruct (flag_ok Res_RoomEnter b buf) as [F E]; [done|done|].
    eexists. split_and!; [reflexivity|exact F|]. unfold decode. rewrite (packet_of_header _ _ _ F).
    cbn [mbind option_bind]. by rewrite E.
  - by_lemma (Init_id_name_ok Noti_RoomEnter i n buf).
  - by_lemma (Init_message_ok Req_RoomChat m buf).
  - by_lemma (Init_chat_ok Noti_RoomChat i n m buf).
  - destruct (flag_ok Res_RoomExit b buf) as [F E]; [done|done|].
    eexists. split_and!; [reflexivity|exact F|]. unfold decode. rewrite (packet_of_header _ _ _ F).
    cbn [mbind option_bind]. by rewrite E.
  - by_lemma (Init_id_name_ok Noti_RoomExit i n buf).
  - destruct (add_players_ok buf _ _ [] ps Hb (ResLobbyEnter_Init_ok l buf Hb)) as (b & E & F & Hl & Hc & Hg & _).
    exists b. split_and!; [exact E|exact F|]. unfold decode. rewrite (packet_of_header _ _ _ F).
    cbn [mbind option_bind]. rewrite Hc, Nat2Z.id, Hg. cbn [mbind option_bind]. rewrite Hl. cbn [app].
    cbn [app]. by rewrite <- firstn_map.
  - by_lemma (Init_id_name_ok Noti_LobbyPlayerEnter i n buf).
  - by_lemma (Init_id_name_ok Noti_LobbyPlayerExit i n buf).
  - by_lemma (Init_message_ok Req_LobbyChat m buf).
  - by_lemma (Init_chat_ok Noti_LobbyChat i n m buf).
  - destruct (add_rooms_ok buf _ [] rs Hb (ResRoomList_Init_ok buf Hb)) as (F & Hc & Hg & _).
    eexists. split_and!; [reflexivity|exact F|]. unfold decode. rewrite (packet_of_header _ _ _ F).
    cbn [mbind option_bind]. rewrite Hc, Nat2Z.id, Hg. cbn [app]. by rewrite <- firstn_map.
  - by_lemma (Test_ok t buf).
Qed.

(** A message its packet has room for: strings without NUL and shorter than their
    field, ids and numbers of their width, no more rows than the list holds. *)
Definition text_ok (n : nat) (s : list Z) : Prop := (length s < n)%nat /\ Forall (fun b => b <> 0) s.
Definition id_ok (i : Z) : Prop := 0 <= i < 2 ^ 64.
Definition int_ok (i : Z) : Prop := - 2 ^ 31 <= i < 2 ^ 31.

Definition packet_fits (p : packet) : Prop :=
  match p with
  | ReqLogin u pw => text_ok 16 u /\ text_ok 64 pw
  | ResLogin i n | NotiRoomEnter i n | NotiRoomExit i n | NotiLobbyPlayerEnter i n | NotiLobbyPlayerExit i n =>
      id_ok i /\ text_ok 16 n
  | ReqRoomChat m | ReqLobbyChat m => text_ok 256 m
  | NotiRoomChat i n m | NotiLobbyChat i n m => id_ok i /\ text_ok 16 n /\ text_ok 256 m
  | ResLobbyEnter l ps => int_ok l /\ (length ps <= 50)%nat /\ Forall (fun '(i, n) => id_ok i /\ text_ok 16 n) ps
  | ResRoomList rs => (length rs <= 20)%nat /\ Forall (fun '(i, c, m) => int_ok i /\ int_ok c /\ int_ok m) rs
  | TestPacket t => text_ok 256 t
  | _ => True
  end.

Lemma cprefix_exact n s rest : (length s <= n)%nat -> Forall (fun b => b <> 0) s -> rest = [] \/ (exists r, rest = 0 :: r) ->
  cprefix n (s ++ rest) = s.
Proof.
  intros Hl Hs Hr. revert n Hl. induction Hs as [|b s Hb Hs IH]; intros [|n] Hl; cbn in *; try lia; try done.
  - by destruct Hr as [->|[r ->]].
  - rewrite (proj2 (Z.eqb_neq _ _)) by done. rewrite IH by lia. done.
Qed.

Lemma cut_exact n s : text_ok n s -> cut n s = s.
Proof. intros [Hl Hs]. apply cprefix_exact; [lia|done|right; by eexists]. Qed.

Lemma id_exact i : id_ok i -> u64 i = i.
Proof. apply wrapU_small. Qed.

Lemma int_exact i : int_ok i -> i32 i = i.
Proof. unfold int_ok. intros H. by apply wrapS_small. Qed.

Lemma map_exact {A} (f : A -> A) l : Forall (fun x => f x = x) l -> map f l = l.
Proof. induction 1; cbn; congruence. Qed.

Lemma wire_view_exact p : packet_fits p -> wire_view p = p.
Proof.
  destruct p; cbn [wire_view packet_fits]; intros H; destruct_and?; f_equal;
    try (by apply id_exact); try (by apply int_exact); try (by apply cut_exact).
  - rewrite take_ge by lia. apply map_exact. eapply Forall_impl; [eassumption|].
    intros [i n] [Hi Hn]. by rewrite id_exact, cut_exact.
  - rewrite take_ge by lia. apply map_exact. eapply Forall_impl; [eassumption|].
    intros [[i c] m] (? & ? & ?). by rewrite !int_exact.
  - destruct H as [_ Hs]. rewrite <- (app_nil_r text) at 2. apply cprefix_exact; [done|done|by left].
Qed.

(** C17: for every message a component sends (the key exchange and the encrypted
    envelope are in Crypto.v) and every chunk large enough for its class, whatever
    the chunk held before, filling the chunk succeeds, stays inside the packet, stamps
    the right number and size, and the receiver's casts read back the message as its
    packet has room for it: strings cut to their field, lists capped at 50 players and
    20 rooms, the text of a TestPacket below 256 characters; a message that fits its
    packet is read back as it was. *)
Theorem packet_roundtrip (p : packet) (buf : list Z) :
  text_fits p -> (sizeof (packet_enum p) <= length buf)%nat ->
  exists buf', encode p buf = Ok buf' /\ carries p buf buf' /\ (packet_fits p -> decode buf' = Some p).
Proof.
  intros Ht Hb. destruct (encode_carries p buf Ht Hb) as (buf' & He & Hc). exists buf'. split_and!; [done|done|].
  intros Hp. destruct Hc as [_ ->]. by rewrite wire_view_exact.
Qed.

(** A chat of a player, and one of 300 characters that is cut. *)
Definition long_chat : packet := ReqRoomChat (replicate 300 65).

Lemma packet_roundtrip_witness :
  (exists buf', encode (NotiRoomChat 7 [66; 111; 98] [104; 105]) (replicate 1024 170) = Ok buf' /\
    decode buf' = Some (NotiRoomChat 7 [66; 111; 98] [104; 105])) /\
  (exists buf', encode long_chat (replicate 1024 170) = Ok buf' /\ carries long_chat (replicate 1024 170) buf').
Proof.
  destruct (packet_roundtrip (NotiRoomChat 7 [66; 111; 98] [104; 105]) (replicate 1024 170)) as (b1 & H1 & _ & D1);
    [done|rewrite length_replicate; by apply Nat.leb_le|].
  destruct (packet_roundtrip long_chat (replicate 1024 170)) as (b2 & H2 & C2 & _);
    [done|rewrite length_replicate; by apply Nat.leb_le|].
  split; [exists b1; split; [done|apply D1]|by exists b2].
  split; [done|]. split; split; cbn; try lia; by repeat constructor.
Defined.

(** Packet numbers identify their class, every class but the encrypted
    envelope fits the plaintext limit of the envelope, the envelope fits two
    chunks of the send pool, and every size fits the 16-bit size field. *)
Theorem packet_sizes :
  (forall e e', packet_num e = packet_num e' -> e = e') /\
  (forall e, e <> Encrypted -> Z.of_nat (sizeof e) <= MAX_PLAIN_PACKET_SIZE) /\
  Z.of_nat (sizeof Encrypted) <= 2 * 1024 /\
  (forall e, (4 <= Z.of_nat (sizeof e)) /\ u16 (Z.of_nat (sizeof e)) = Z.of_nat (sizeof e)).
Proof.
  split_and!.
  - by intros [] [].
  - by intros [].
  - done.
  - by intros [].
Qed.
