(* ===== verification/RecvBuffer.v ===== *)
(** * The receive buffer and the packet reassembly loop

    src/DhNet_Server/ServerCore/RecvBuffer.h, RecvBuffer.cpp and
    [Session::ProcessRecv] / [Session::RegisterRecv] of Session.cpp.

    [RecvBuffer] keeps its four int32 members and its vector.  The kernel writes
    a chunk at [WritePos] and completes the receive with the chunk's length; the
    parse loop hands every complete packet to the session's [OnRecv] and
    compacts the buffer.  The reference is [stream_run], which consumes the byte
    stream with no buffer and no chunk boundaries. *)

From S2P Require Import Prelude Bytes Packets.

(** ** RecvBuffer *)

Definition BUFFER_COUNT : Z := 10.

Record RecvBuffer := mkRecvBuffer {
  m_capacity : Z;
  m_bufferSize : Z;
  m_readPos : Z;
  m_writePos : Z;
  m_buffer : list Z;
}.

(** vector::resize value-initialises the bytes. *)
Definition RecvBuffer_new (_bufferSize : Z) : RecvBuffer :=
  let m_capacity := i32 (_bufferSize * BUFFER_COUNT) in
  mkRecvBuffer m_capacity _bufferSize 0 0 (replicate (Z.to_nat m_capacity) 0).

Definition DataSize (rb : RecvBuffer) : Z := i32 (m_writePos rb - m_readPos rb).
Definition FreeSize (rb : RecvBuffer) : Z := i32 (m_capacity rb - m_writePos rb).

(** [&m_buffer[pos]]: the index must be inside the vector. *)
Definition vec_at (pos : Z) (rb : RecvBuffer) : outcome nat :=
  if (0 <=? pos) && (pos <? Z.of_nat (length (m_buffer rb))) then Ok (Z.to_nat pos)
  else Crash "vector subscript out of range".

Definition ReadPos (rb : RecvBuffer) : outcome nat := vec_at (m_readPos rb) rb.
Definition WritePos (rb : RecvBuffer) : outcome nat := vec_at (m_writePos rb) rb.

(** memcpy inside one array; overlapping ranges are undefined behaviour. *)
Definition memcpy_within (dst src n : nat) (buf : list Z) : outcome (list Z) :=
  if ((src + n <=? length buf) && (dst + n <=? length buf) &&
      ((n =? 0) || (dst + n <=? src) || (src + n <=? dst)))%nat
  then Ok (write_bytes dst (read_bytes src n buf) buf)
  else Crash "memcpy: overlapping or out of range".

Definition Clean (rb : RecvBuffer) : outcome RecvBuffer :=
  let dataSize := DataSize rb in
  if dataSize =? 0 then
    Ok (mkRecvBuffer (m_capacity rb) (m_bufferSize rb) 0 0 (m_buffer rb))
  else if FreeSize rb <? m_bufferSize rb then
    dst ← vec_at 0 rb;
    src ← vec_at (m_readPos rb) rb;
    b ← memcpy_within dst src (Z.to_nat dataSize) (m_buffer rb);
    Ok (mkRecvBuffer (m_capacity rb) (m_bufferSize rb) 0 dataSize b)
  else Ok rb.

Definition OnRead (_numOfBytes : Z) (rb : RecvBuffer) : bool * RecvBuffer :=
  if _numOfBytes >? DataSize rb then (false, rb)
  else (true, mkRecvBuffer (m_capacity rb) (m_bufferSize rb)
                (i32 (m_readPos rb + _numOfBytes)) (m_writePos rb) (m_buffer rb)).

Definition OnWrite (_numOfBytes : Z) (rb : RecvBuffer) : bool * RecvBuffer :=
  if _numOfBytes >? FreeSize rb then (false, rb)
  else (true, mkRecvBuffer (m_capacity rb) (m_bufferSize rb)
                (m_readPos rb) (i32 (m_writePos rb + _numOfBytes)) (m_buffer rb)).

(** The bytes received and not yet read. *)
Definition data (rb : RecvBuffer) : list Z :=
  read_bytes (Z.to_nat (m_readPos rb)) (Z.to_nat (m_writePos rb - m_readPos rb)) (m_buffer rb).

(** ** The session the loop belongs to *)

(** Session::BUFFER_SIZE *)
Definition BUFFER_SIZE : Z := 65536.

(** What the loop asks of the session's state apart from its buffer: the
    virtual [OnRecv], given the memory from the packet's first byte on,
    [Disconnect] and [IsConnected]. *)
Class SessionOps (S : Type) := {
  OnRecv : S -> list Z -> bool * S;
  Disconnect : string -> S -> S;
  IsConnected : S -> bool;
}.

(** A session's view of one receive: its state, its buffer, and the length of
    the posted WSARecv ([None] when no receive is posted). *)
Record conn (S : Type) := mkConn { c_state : S; c_buf : RecvBuffer; c_posted : option Z }.
Arguments mkConn {S} _ _ _.
Arguments c_state {S} _.
Arguments c_buf {S} _.
Arguments c_posted {S} _.

Section recv.
Context {S : Type} `{SessionOps S}.

(** How the [while (true)] of ProcessRecv ends: a break, or a Disconnect and a
    return.  [Loop_fuel] is not an end of the loop; [recv_loop_terminates]
    shows that the fuel ProcessRecv gives is never used up. *)
Inductive loop_end :=
| Loop_break (s : S) (rb : RecvBuffer)
| Loop_return (s : S) (rb : RecvBuffer)
| Loop_fuel.

Fixpoint recv_loop (fuel : nat) (s : S) (rb : RecvBuffer) : outcome loop_end :=
  match fuel with
  | O => Ok Loop_fuel
  | Datatypes.S fuel' =>
      (* int32 against size_t: compared as unsigned *)
      if u64 (DataSize rb) <? Z.of_nat sizeof_PacketHeader then Ok (Loop_break s rb)
      else
        pos ← ReadPos rb;
        let packet := drop pos (m_buffer rb) in
        if m_dataSize packet <? Z.of_nat sizeof_PacketHeader
        then Ok (Loop_return (Disconnect "Invalid Packet Size" s) rb)
        else if DataSize rb <? m_dataSize packet then Ok (Loop_break s rb)
        else
          let '(handled, s) := OnRecv s packet in
          if negb handled then Ok (Loop_return (Disconnect "OnRead Error" s) rb)
          else
            let '(read, rb) := OnRead (m_dataSize packet) rb in
            if negb read then Ok (Loop_return (Disconnect "OnRead Overflow" s) rb)
            else recv_loop fuel' s rb
  end.

(** RegisterRecv up to the WSARecv call: the buffer offered to the kernel. *)
Definition RegisterRecv (s : S) (rb : RecvBuffer) : outcome (conn S) :=
  if IsConnected s then
    _ ← WritePos rb;
    Ok (mkConn s rb (Some (FreeSize rb)))
  else Ok (mkConn s rb None).

Definition ProcessRecv (_numOfBytes : Z) (s : S) (rb : RecvBuffer) : outcome (conn S) :=
  if _numOfBytes =? 0 then Ok (mkConn (Disconnect "Recv 0" s) rb None)
  else
    let '(ok, rb) := OnWrite _numOfBytes rb in
    if negb ok then Ok (mkConn (Disconnect "OnWrite Overflow" s) rb None)
    else
      e ← recv_loop (Datatypes.S (Z.to_nat (DataSize rb))) s rb;
      match e with
      | Loop_return s rb => Ok (mkConn s rb None)
      | Loop_break s rb => rb ← Clean rb; RegisterRecv s rb
      | Loop_fuel => Crash "fuel"
      end.

(** The kernel fills the posted buffer and completes the receive. *)
Definition on_chunk (chunk : list Z) (c : conn S) : outcome (conn S) :=
  let rb := c_buf c in
  pos ← WritePos rb;
  ProcessRecv (Z.of_nat (length chunk)) (c_state c)
    (mkRecvBuffer (m_capacity rb) (m_bufferSize rb) (m_readPos rb) (m_writePos rb)
       (write_bytes pos chunk (m_buffer rb))).

(** Receives completing one after the other; WSARecv transfers at least one
    byte and at most the posted length. *)
Inductive recv_steps : conn S -> list (list Z) -> conn S -> Prop :=
| recv_done c : recv_steps c [] c
| recv_cons c n chunk c1 chunks c2 :
    c_posted c = Some n -> 0 < Z.of_nat (length chunk) <= n ->
    on_chunk chunk c = Ok c1 -> recv_steps c1 chunks c2 ->
    recv_steps c (chunk :: chunks) c2.

(** ** The reference: a stream of bytes cut into packets *)

Inductive stream_end :=
| Rest (s : S) (bs : list Z)   (* incomplete packet left over *)
| Stop (s : S).                (* disconnected *)

Fixpoint stream_loop (fuel : nat) (s : S) (bs : list Z) : stream_end :=
  match fuel with
  | O => Rest s bs
  | Datatypes.S fuel' =>
      if (length bs <? 4)%nat then Rest s bs
      else
        let n := Z.to_nat (m_dataSize bs) in
        if (n <? 4)%nat then Stop (Disconnect "Invalid Packet Size" s)
        else if (length bs <? n)%nat then Rest s bs
        else match OnRecv s (take n bs) with
             | (false, s') => Stop (Disconnect "OnRead Error" s')
             | (true, s') => stream_loop fuel' s' (drop n bs)
             end
  end.

Definition stream_run (s : S) (bs : list Z) : stream_end := stream_loop (length bs) s bs.

(** The packets of a stream. *)
Fixpoint frames_loop (fuel : nat) (bs : list Z) : list (list Z) :=
  match fuel with
  | O => []
  | Datatypes.S fuel' =>
      let n := Z.to_nat (m_dataSize bs) in
      if (length bs <? 4)%nat || (n <? 4)%nat || (length bs <? n)%nat then []
      else take n bs :: frames_loop fuel' (drop n bs)
  end.

Definition frames (bs : list Z) : list (list Z) := frames_loop (length bs) bs.

End recv.
Arguments loop_end : clear implicits.
Arguments stream_end : clear implicits.

(** ** The buffer's invariant *)

Ltac rb_cbn := cbn [m_capacity m_bufferSize m_readPos m_writePos m_buffer] in *.

Definition CAPACITY : Z := 655360.

Definition rb_wf (rb : RecvBuffer) : Prop :=
  m_capacity rb = CAPACITY /\ m_bufferSize rb = BUFFER_SIZE /\
  length (m_buffer rb) = Z.to_nat CAPACITY /\
  0 <= m_readPos rb <= m_writePos rb /\ m_writePos rb <= CAPACITY /\
  Forall is_byte (m_buffer rb).

Lemma i32_pos z : 0 <= z <= CAPACITY -> i32 z = z.
Proof. unfold CAPACITY. intros Hz. apply i32_small. lia. Qed.

Lemma RecvBuffer_new_wf : rb_wf (RecvBuffer_new BUFFER_SIZE).
Proof.
  change (RecvBuffer_new BUFFER_SIZE) with (mkRecvBuffer CAPACITY BUFFER_SIZE 0 0 (replicate (Z.to_nat CAPACITY) 0)).
  unfold rb_wf. cbn [m_capacity m_bufferSize m_buffer m_readPos m_writePos].
  rewrite length_replicate. unfold CAPACITY. split_and!; [done..|lia|lia|lia|].
  apply Forall_replicate. unfold is_byte. lia.
Qed.

Lemma DataSize_eq rb : rb_wf rb -> DataSize rb = m_writePos rb - m_readPos rb.
Proof. intros (_ & _ & _ & H1 & H2 & _). apply i32_pos. lia. Qed.

Lemma FreeSize_eq rb : rb_wf rb -> FreeSize rb = CAPACITY - m_writePos rb.
Proof. intros (Hc & _ & _ & H1 & H2 & _). unfold FreeSize. rewrite Hc. apply i32_pos. lia. Qed.

Lemma length_data rb : rb_wf rb -> length (data rb) = Z.to_nat (m_writePos rb - m_readPos rb).
Proof. intros (_ & _ & Hl & H1 & H2 & _). apply length_read. lia. Qed.

Lemma Forall_read (P : Z -> Prop) off n buf : Forall P buf -> Forall P (read_bytes off n buf).
Proof. intros HP. by apply Forall_take, Forall_drop. Qed.

Lemma m_dataSize_range bs : Forall is_byte bs -> (4 <= length bs)%nat -> 0 <= m_dataSize bs < 65536.
Proof.
  intros HP Hl. pose proof (le_decode_range (read_bytes 2 2 bs) (Forall_read _ 2 2 bs HP)) as Hr.
  rewrite length_read in Hr by lia. done.
Qed.

(** The reader's cursor moved past a packet. *)
Definition advance (n : nat) (rb : RecvBuffer) : RecvBuffer :=
  mkRecvBuffer (m_capacity rb) (m_bufferSize rb) (m_readPos rb + Z.of_nat n) (m_writePos rb) (m_buffer rb).

Lemma advance_wf n rb : rb_wf rb -> (n <= length (data rb))%nat -> rb_wf (advance n rb).
Proof.
  intros Hw Hn. rewrite (length_data _ Hw) in Hn. destruct Hw as (? & ? & ? & ? & ? & ?).
  unfold rb_wf. cbn. split_and!; try done; lia.
Qed.

Lemma advance_data n rb : rb_wf rb -> (n <= length (data rb))%nat -> data (advance n rb) = drop n (data rb).
Proof.
  intros Hw Hn. rewrite (length_data _ Hw) in Hn. destruct Hw as (? & ? & ? & ? & ? & ?).
  unfold data, read_bytes. cbn. rewrite skipn_firstn_comm, drop_drop. do 2 f_equal; lia.
Qed.

(** Clean keeps the unread bytes; when little enough is left over it never
    overlaps and leaves room for another BUFFER_SIZE bytes. *)
Lemma Clean_ok rb :
  rb_wf rb -> Z.of_nat (length (data rb)) < BUFFER_SIZE ->
  exists rb', Clean rb = Ok rb' /\ rb_wf rb' /\ data rb' = data rb /\ BUFFER_SIZE <= FreeSize rb'.
Proof.
  intros Hw Hd. rewrite (length_data _ Hw) in Hd.
  assert (Hw' := Hw). destruct Hw' as (Hc & Hs & Hl & H1 & H2 & Hb).
  unfold Clean. rewrite (DataSize_eq _ Hw), (FreeSize_eq _ Hw), Hs.
  unfold BUFFER_SIZE, CAPACITY in *.
  destruct (m_writePos rb - m_readPos rb =? 0) eqn:E0; to_prop.
  { eexists. split; [done|]. split_and!; cbn; try done; try lia.
    - unfold data. cbn. rewrite E0. done.
    - unfold FreeSize. cbn. rewrite Hc. done. }
  destruct (655360 - m_writePos rb <? 65536) eqn:E1; to_prop.
  2:{ exists rb. rewrite (FreeSize_eq _ Hw). unfold CAPACITY. split_and!; done. }
  unfold vec_at. rewrite Hl.
  rewrite (proj2 (Z.leb_le 0 (m_readPos rb))), (proj2 (Z.ltb_lt (m_readPos rb) _)) by lia.
  change (0 <? Z.of_nat (Z.to_nat 655360)) with true. cbn [mbind outcome_bind andb Z.leb Z.compare].
  unfold memcpy_within. rewrite Hl.
  set (n := Z.to_nat (m_writePos rb - m_readPos rb)) in *. set (r := Z.to_nat (m_readPos rb)) in *.
  change (Z.to_nat 0) with 0%nat.
  rewrite (proj2 (Nat.leb_le (r + n) _)), (proj2 (Nat.leb_le (0 + n) (Z.to_nat 655360))),
    (proj2 (Nat.leb_le (0 + n) r)) by lia.
  rewrite orb_true_r. cbn [andb orb mbind outcome_bind].
  assert (Hln : length (read_bytes r n (m_buffer rb)) = n) by (apply length_read; lia).
  eexists. split; [done|]. unfold rb_wf, CAPACITY. split_and!; rb_cbn; try done; try lia.
  - rewrite length_write; [done|]. rewrite Hln. lia.
  - unfold write_bytes. apply Forall_app. split; [by apply Forall_take|].
    apply Forall_app. split; [by apply Forall_read|by apply Forall_drop].
  - unfold data at 1. rb_cbn. rewrite Z.sub_0_r. fold n. rewrite read_write_same'; [done|lia|lia].
  - unfold FreeSize. cbn. rewrite Hc. rewrite i32_pos; unfold CAPACITY; lia.
Qed.

(** ** The parse loop *)

Section recv_correct.
Context {S : Type} `{SessionOps S}.

(** One turn of the loop, on the unread bytes. *)
Lemma recv_loop_step fuel (s : S) rb :
  rb_wf rb ->
  let bs := data rb in
  let n := Z.to_nat (m_dataSize bs) in
  recv_loop (Datatypes.S fuel) s rb =
    if (length bs <? 4)%nat then Ok (Loop_break s rb)
    else if (n <? 4)%nat then Ok (Loop_return (Disconnect "Invalid Packet Size" s) rb)
    else if (length bs <? n)%nat then Ok (Loop_break s rb)
    else match OnRecv s (drop (Z.to_nat (m_readPos rb)) (m_buffer rb)) with
         | (false, s') => Ok (Loop_return (Disconnect "OnRead Error" s') rb)
         | (true, s') => recv_loop fuel s' (advance n rb)
         end.
Proof.
  intros Hw bs n. assert (Hlen := length_data _ Hw). fold bs in Hlen.
  assert (Hw' := Hw). destruct Hw' as (Hc & Hs & Hl & H1 & H2 & Hb). unfold CAPACITY in *.
  cbn [recv_loop]. rewrite (DataSize_eq _ Hw). unfold sizeof_PacketHeader.
  rewrite wrapU_small by lia.
  destruct (Nat.ltb_spec (length bs) 4) as [E|E].
  { rewrite (proj2 (Z.ltb_lt _ _)) by lia. done. }
  rewrite (proj2 (Z.ltb_ge _ _)) by lia.
  unfold ReadPos, vec_at. rewrite Hl.
  rewrite (proj2 (Z.leb_le 0 (m_readPos rb))), (proj2 (Z.ltb_lt (m_readPos rb) _)) by lia.
  cbn [andb mbind outcome_bind].
  set (mem := drop (Z.to_nat (m_readPos rb)) (m_buffer rb)).
  assert (m_dataSize mem = m_dataSize bs) as Hm.
  { change bs with (take (Z.to_nat (m_writePos rb - m_readPos rb)) mem).
    unfold m_dataSize, rd_u16. by rewrite read_take by lia. }
  rewrite Hm.
  assert (0 <= m_dataSize bs < 65536) as Hr.
  { apply m_dataSize_range; [|done]. by apply Forall_read. }
  unfold n. destruct (Nat.ltb_spec (Z.to_nat (m_dataSize bs)) 4) as [E1|E1].
  { rewrite (proj2 (Z.ltb_lt (m_dataSize bs) _)) by lia. done. }
  rewrite (proj2 (Z.ltb_ge (m_dataSize bs) _)) by lia.
  destruct (Nat.ltb_spec (length bs) (Z.to_nat (m_dataSize bs))) as [E2|E2].
  { rewrite (proj2 (Z.ltb_lt _ (m_dataSize bs))) by lia. done. }
  rewrite (proj2 (Z.ltb_ge _ (m_dataSize bs))) by lia.
  destruct (OnRecv s mem) as [[] s']; cbn [negb]; [|done].
  unfold OnRead. rewrite (DataSize_eq _ Hw).
  destruct (Z.gtb_spec (m_dataSize bs) (m_writePos rb - m_readPos rb)); [lia|].
  cbn [negb]. unfold advance. rewrite Z2Nat.id, i32_pos by (unfold CAPACITY; lia). done.
Qed.

(** For any handler, the loop ends within the fuel, without an out-of-range
    access, and a break leaves less than one packet unread. *)
Lemma recv_loop_ok fuel (s : S) rb :
  rb_wf rb -> (length (data rb) < fuel)%nat ->
  exists e, recv_loop fuel s rb = Ok e /\
    match e with
    | Loop_break _ rb' => rb_wf rb' /\ Z.of_nat (length (data rb')) < BUFFER_SIZE
    | Loop_return _ rb' => rb_wf rb'
    | Loop_fuel => False
    end.
Proof.
  revert s rb. induction fuel as [|fuel IH]; intros s rb Hw Hf; [lia|].
  rewrite (recv_loop_step _ _ _ Hw).
  destruct (Nat.ltb_spec (length (data rb)) 4) as [E|E].
  { eexists. split; [done|]. cbn. unfold BUFFER_SIZE. split; [done|lia]. }
  destruct (Nat.ltb_spec (Z.to_nat (m_dataSize (data rb))) 4) as [E1|E1]; [by eexists|].
  destruct (Nat.ltb_spec (length (data rb)) (Z.to_nat (m_dataSize (data rb)))) as [E2|E2].
  { eexists. split; [done|]. cbn. split; [done|].
    assert (0 <= m_dataSize (data rb) < 65536); [|unfold BUFFER_SIZE; lia].
    apply m_dataSize_range; [|done]. apply Forall_read, Hw. }
  destruct (OnRecv s _) as [[] s']; [|by eexists].
  apply IH; [by apply advance_wf|]. rewrite advance_data by done. rewrite length_drop. lia.
Qed.

(** *** Facts of the reference *)

Lemma stream_loop_fuel f1 f2 (s : S) bs :
  (length bs <= f1)%nat -> (length bs <= f2)%nat -> stream_loop f1 s bs = stream_loop f2 s bs.
Proof.
  revert f2 s bs. induction f1 as [|f1 IH]; intros f2 s bs H1 H2.
  - destruct bs; [|cbn in *; lia]. by destruct f2.
  - destruct f2 as [|f2]; [destruct bs; [done|cbn in *; lia]|]. cbn [stream_loop].
    destruct (Nat.ltb_spec (length bs) 4); [done|].
    destruct (Nat.ltb_spec (Z.to_nat (m_dataSize bs)) 4); [done|].
    case_match; [done|]. destruct (OnRecv s _) as [[] s']; [|done].
    apply IH; rewrite length_drop; lia.
Qed.

Lemma frames_loop_fuel f1 f2 bs :
  (length bs <= f1)%nat -> (length bs <= f2)%nat -> frames_loop f1 bs = frames_loop f2 bs.
Proof.
  revert f2 bs. induction f1 as [|f1 IH]; intros f2 bs H1 H2.
  - destruct bs; [|cbn in *; lia]. by destruct f2.
  - destruct f2 as [|f2]; [destruct bs; [done|cbn in *; lia]|]. cbn [frames_loop].
    destruct (Nat.ltb_spec (length bs) 4); [done|].
    destruct (Nat.ltb_spec (Z.to_nat (m_dataSize bs)) 4); [done|].
    cbn. case_match; [done|]. f_equal.
    apply IH; rewrite length_drop; lia.
Qed.

Lemma stream_run_step (s : S) bs :
  stream_run s bs =
    let n := Z.to_nat (m_dataSize bs) in
    if (length bs <? 4)%nat then Rest s bs
    else if (n <? 4)%nat then Stop (Disconnect "Invalid Packet Size" s)
    else if (length bs <? n)%nat then Rest s bs
    else match OnRecv s (take n bs) with
         | (false, s') => Stop (Disconnect "OnRead Error" s')
         | (true, s') => stream_run s' (drop n bs)
         end.
Proof.
  unfold stream_run at 1. rewrite (stream_loop_fuel _ (Datatypes.S (length bs))) by lia.
  cbn [stream_loop]. cbv zeta.
  destruct (Nat.ltb_spec (length bs) 4); [done|].
  destruct (Nat.ltb_spec (Z.to_nat (m_dataSize bs)) 4); [done|].
  case_match; [done|]. destruct (OnRecv s _) as [[] s']; [|done].
  apply stream_loop_fuel; rewrite length_drop; lia.
Qed.

Lemma frames_step bs :
  frames bs =
    let n := Z.to_nat (m_dataSize bs) in
    if (length bs <? 4)%nat || (n <? 4)%nat || (length bs <? n)%nat then []
    else take n bs :: frames (drop n bs).
Proof.
  unfold frames at 1. rewrite (frames_loop_fuel _ (Datatypes.S (length bs))) by lia.
  cbn [frames_loop]. cbv zeta.
  destruct (Nat.ltb_spec (length bs) 4); [done|].
  destruct (Nat.ltb_spec (Z.to_nat (m_dataSize bs)) 4); [done|].
  cbn. case_match; [done|]. f_equal. apply frames_loop_fuel; rewrite length_drop; lia.
Qed.

Lemma m_dataSize_app a b : (4 <= length a)%nat -> m_dataSize (a ++ b) = m_dataSize a.
Proof. intros Ha. unfold m_dataSize, rd_u16. by rewrite read_app_l by lia. Qed.

(** Cutting a stream in two does not change what it does. *)
Lemma stream_run_app (s : S) a b :
  stream_run s (a ++ b) =
    match stream_run s a with
    | Rest s' r => stream_run s' (r ++ b)
    | Stop s' => Stop s'
    end.
Proof.
  remember (length a) as k eqn:Hk. revert s a Hk.
  induction (lt_wf k) as [k _ IH]. intros s a ->.
  rewrite (stream_run_step s a). cbv zeta.
  destruct (Nat.ltb_spec (length a) 4); [done|].
  rewrite stream_run_step, m_dataSize_app by done. cbv zeta. rewrite length_app.
  destruct (Nat.ltb_spec (length a + length b) 4); [lia|].
  destruct (Nat.ltb_spec (Z.to_nat (m_dataSize a)) 4); [done|].
  destruct (Nat.ltb_spec (length a) (Z.to_nat (m_dataSize a))).
  { rewrite (stream_run_step s (a ++ b)), m_dataSize_app by done. cbv zeta. rewrite length_app.
    rewrite (proj2 (Nat.ltb_ge (length a + length b) 4)) by lia.
    by rewrite (proj2 (Nat.ltb_ge (Z.to_nat (m_dataSize a)) 4)) by lia. }
  rewrite (proj2 (Nat.ltb_ge (length a + length b) (Z.to_nat (m_dataSize a)))) by lia.
  rewrite take_app_le by lia. destruct (OnRecv s _) as [[] s']; [|done].
  rewrite drop_app_le by lia. eapply IH; [|done]. rewrite length_drop. lia.
Qed.

Lemma frames_app_l a b : exists l, frames (a ++ b) = frames a ++ l.
Proof.
  remember (length a) as k eqn:Hk. revert a Hk.
  induction (lt_wf k) as [k _ IH]. intros a ->.
  rewrite (frames_step a). cbv zeta.
  destruct (Nat.ltb_spec (length a) 4); [by eexists|].
  destruct (Nat.ltb_spec (Z.to_nat (m_dataSize a)) 4); [by eexists|].
  destruct (Nat.ltb_spec (length a) (Z.to_nat (m_dataSize a))); [by eexists|]. cbn [orb].
  destruct (IH (length (drop (Z.to_nat (m_dataSize a)) a))) with (a := drop (Z.to_nat (m_dataSize a)) a)
    as [l Hl]; [rewrite length_drop; lia|done|].
  exists l. rewrite frames_step, m_dataSize_app by done. cbv zeta. rewrite length_app.
  rewrite (proj2 (Nat.ltb_ge (length a + length b) 4)) by lia.
  rewrite (proj2 (Nat.ltb_ge (Z.to_nat (m_dataSize a)) 4)) by lia.
  rewrite (proj2 (Nat.ltb_ge (length a + length b) (Z.to_nat (m_dataSize a)))) by lia.
  cbn [orb]. rewrite take_app_le, drop_app_le by lia. by rewrite Hl.
Qed.

(** After the packets of [a], the packets of [a ++ b] are those of what [a]
    left over followed by [b]. *)
Lemma frames_rest (s : S) a b s' r :
  stream_run s a = Rest s' r -> exists l, frames (a ++ b) = l ++ frames (r ++ b).
Proof.
  remember (length a) as k eqn:Hk. revert s a Hk.
  induction (lt_wf k) as [k _ IH]. intros s a -> Hr.
  rewrite stream_run_step in Hr. cbv zeta in Hr.
  destruct (Nat.ltb_spec (length a) 4); [simplify_eq; by exists []|].
  destruct (Nat.ltb_spec (Z.to_nat (m_dataSize a)) 4); [done|].
  destruct (Nat.ltb_spec (length a) (Z.to_nat (m_dataSize a))); [simplify_eq; by exists []|].
  destruct (OnRecv s _) as [[] s1]; [|done].
  edestruct IH as [l Hl]; [|reflexivity|exact Hr|]; [rewrite length_drop; lia|].
  rewrite frames_step, m_dataSize_app by done. cbv zeta. rewrite length_app.
  rewrite (proj2 (Nat.ltb_ge (length a + length b) 4)) by lia.
  rewrite (proj2 (Nat.ltb_ge (Z.to_nat (m_dataSize a)) 4)) by lia.
  rewrite (proj2 (Nat.ltb_ge (length a + length b) (Z.to_nat (m_dataSize a)))) by lia.
  cbn [orb]. rewrite take_app_le, drop_app_le by lia. rewrite Hl. by eexists (_ :: l).
Qed.

(** *** Refinement *)

(** The states, kept by [OnRecv], and the packets for which it reads nothing but
    the packet's own bytes. *)
Context (P : S -> Prop) (trusted : list Z -> Prop).
Context (OnRecv_P : forall (s : S) (mem : list Z), P s -> P (snd (OnRecv s mem))).
Context (OnRecv_local : forall (s : S) (mem : list Z),
  let n := Z.to_nat (m_dataSize mem) in
  P s -> (4 <= n <= length mem)%nat -> trusted (take n mem) -> OnRecv s mem = OnRecv s (take n mem)).

Lemma stream_run_P (s : S) bs s' r : P s -> stream_run s bs = Rest s' r -> P s'.
Proof using OnRecv_P.
  remember (length bs) as k eqn:Hk. revert s bs Hk.
  induction (lt_wf k) as [k _ IH]. intros s bs -> Hs Hr.
  rewrite stream_run_step in Hr. cbv zeta in Hr.
  destruct (Nat.ltb_spec (length bs) 4); [by simplify_eq|].
  destruct (Nat.ltb_spec (Z.to_nat (m_dataSize bs)) 4); [done|].
  case_match; [by simplify_eq|].
  pose proof (OnRecv_P s (take (Z.to_nat (m_dataSize bs)) bs) Hs) as Hs1.
  destruct (OnRecv s _) as [[] s1]; [|done].
  eapply IH; [|done|exact Hs1|exact Hr]. rewrite length_drop. lia.
Qed.

Lemma recv_loop_refines fuel (s : S) rb :
  P s -> rb_wf rb -> (length (data rb) < fuel)%nat -> Forall trusted (frames (data rb)) ->
  exists rb', rb_wf rb' /\
    match stream_run s (data rb) with
    | Rest s' r => recv_loop fuel s rb = Ok (Loop_break s' rb') /\ data rb' = r
    | Stop s' => recv_loop fuel s rb = Ok (Loop_return s' rb')
    end.
Proof.
  revert s rb. induction fuel as [|fuel IH]; intros s rb Hs Hw Hf Ht; [lia|].
  rewrite (recv_loop_step _ _ _ Hw), stream_run_step. cbv zeta.
  rewrite frames_step in Ht. cbv zeta in Ht.
  destruct (Nat.ltb_spec (length (data rb)) 4) as [E|E]; [by exists rb|].
  destruct (Nat.ltb_spec (Z.to_nat (m_dataSize (data rb))) 4) as [E1|E1]; [by exists rb|].
  destruct (Nat.ltb_spec (length (data rb)) (Z.to_nat (m_dataSize (data rb)))) as [E2|E2]; [by exists rb|].
  cbn [orb] in Ht. apply Forall_cons in Ht as [Ht Hts].
  set (mem := drop (Z.to_nat (m_readPos rb)) (m_buffer rb)) in *.
  assert (Hd : data rb = take (length (data rb)) mem).
  { rewrite (length_data _ Hw). done. }
  assert (Hm : m_dataSize mem = m_dataSize (data rb)).
  { rewrite Hd. unfold m_dataSize, rd_u16. by rewrite read_take by lia. }
  set (n := Z.to_nat (m_dataSize (data rb))) in *.
  assert (Htk : take n mem = take n (data rb)) by (rewrite Hd, take_take; f_equal; lia).
  assert (OnRecv s mem = OnRecv s (take n (data rb))) as ->.
  { rewrite <- Htk. subst n. rewrite <- Hm. apply OnRecv_local; rewrite ?Hm.
    - done.
    - split; [lia|]. rewrite E2, Hd, length_take. lia.
    - by rewrite Htk. }
  pose proof (OnRecv_P s (take n (data rb)) Hs) as Hs'.
  destruct (OnRecv s (take n (data rb))) as [[] s']; [|by exists rb]. cbn [snd] in Hs'.
  rewrite <- (advance_data n rb Hw E2) in Hts |- *.
  apply IH; [done|by apply advance_wf| |done]. rewrite advance_data by done. rewrite length_drop. lia.
Qed.

(** A connection whose receive is posted: the buffer is well formed and the
    kernel is offered at least BUFFER_SIZE bytes. *)
Definition armed (c : conn S) : Prop :=
  rb_wf (c_buf c) /\ c_posted c = Some (FreeSize (c_buf c)) /\ BUFFER_SIZE <= FreeSize (c_buf c).

(** The bytes the kernel writes extend the unread bytes. *)
Lemma write_chunk_ok rb chunk :
  rb_wf rb -> Forall is_byte chunk -> 0 < Z.of_nat (length chunk) <= FreeSize rb ->
  let rb1 := mkRecvBuffer (m_capacity rb) (m_bufferSize rb) (m_readPos rb)
               (i32 (m_writePos rb + Z.of_nat (length chunk)))
               (write_bytes (Z.to_nat (m_writePos rb)) chunk (m_buffer rb)) in
  WritePos rb = Ok (Z.to_nat (m_writePos rb)) /\ rb_wf rb1 /\ data rb1 = data rb ++ chunk.
Proof.
  intros Hw Hch Hlen rb1. rewrite (FreeSize_eq _ Hw) in Hlen.
  assert (Hw' := Hw). destruct Hw' as (Hc & Hs & Hl & H1 & H2 & Hb). unfold CAPACITY in *.
  subst rb1. rewrite i32_pos by (unfold CAPACITY; lia). split_and!.
  - unfold WritePos, vec_at. rewrite Hl, (proj2 (Z.leb_le 0 _)), (proj2 (Z.ltb_lt _ _)) by lia. done.
  - unfold rb_wf, CAPACITY. rb_cbn. split_and!; try done; try lia.
    + rewrite length_write; lia.
    + unfold write_bytes. apply Forall_app. split; [by apply Forall_take|].
      apply Forall_app. split; [done|by apply Forall_drop].
  - unfold data, read_bytes, write_bytes. rb_cbn.
    rewrite drop_app_le by (rewrite length_take; lia). rewrite skipn_firstn_comm.
    rewrite app_assoc, take_app_le, take_ge; [f_equal; f_equal; lia|..];
      rewrite length_app, length_take, length_drop; lia.
Qed.

(** How ProcessRecv goes on after the loop. *)
Definition after_loop (e : loop_end S) : outcome (conn S) :=
  match e with
  | Loop_return s rb => Ok (mkConn s rb None)
  | Loop_break s rb => rb ← Clean rb; RegisterRecv s rb
  | Loop_fuel => Crash "fuel"
  end.

Lemma on_chunk_loop chunk (c : conn S) :
  armed c -> Forall is_byte chunk -> 0 < Z.of_nat (length chunk) <= FreeSize (c_buf c) ->
  exists fuel rb1, rb_wf rb1 /\ data rb1 = data (c_buf c) ++ chunk /\ (length (data rb1) < fuel)%nat /\
    on_chunk chunk c = (recv_loop fuel (c_state c) rb1 ≫= after_loop).
Proof.
  intros (Hw & _ & _) Hch Hlen. unfold on_chunk, ProcessRecv.
  destruct (write_chunk_ok _ _ Hw Hch Hlen) as (-> & Hw1 & Hd1). cbn [mbind outcome_bind].
  destruct (Z.eqb_spec (Z.of_nat (length chunk)) 0); [lia|].
  unfold OnWrite. change (FreeSize (mkRecvBuffer _ _ _ _ _)) with (FreeSize (c_buf c)).
  destruct (Z.gtb_spec (Z.of_nat (length chunk)) (FreeSize (c_buf c))); [lia|]. rb_cbn.
  set (rb1 := mkRecvBuffer _ _ _ _ _) in *. cbn [negb].
  exists (Datatypes.S (Z.to_nat (DataSize rb1))), rb1. split_and!; [done|done| |done].
  rewrite (DataSize_eq _ Hw1), (length_data _ Hw1). lia.
Qed.

Lemma after_break_ok s rb :
  rb_wf rb -> Z.of_nat (length (data rb)) < BUFFER_SIZE ->
  exists c', after_loop (Loop_break s rb) = Ok c' /\ rb_wf (c_buf c') /\ c_state c' = s /\
    data (c_buf c') = data rb /\ (if IsConnected s then armed c' else c_posted c' = None).
Proof.
  intros Hw Hd. cbn [after_loop].
  destruct (Clean_ok rb Hw Hd) as (rb2 & -> & Hw2 & Hd2 & Hfree). cbn [mbind outcome_bind].
  unfold RegisterRecv. destruct (IsConnected s) eqn:Ec; [|by eexists].
  assert (WritePos rb2 = Ok (Z.to_nat (m_writePos rb2))) as ->.
  { rewrite (FreeSize_eq _ Hw2) in Hfree. destruct Hw2 as (Hc & Hs & Hl & H1 & H2 & Hb).
    unfold WritePos, vec_at. rewrite Hl. unfold BUFFER_SIZE, CAPACITY in *.
    rewrite (proj2 (Z.leb_le 0 _)), (proj2 (Z.ltb_lt _ _)) by lia. done. }
  eexists. split; [done|]. unfold armed. cbn. by split_and!.
Qed.

Lemma on_chunk_ok chunk (c : conn S) :
  armed c -> Forall is_byte chunk -> 0 < Z.of_nat (length chunk) <= FreeSize (c_buf c) ->
  exists c', on_chunk chunk c = Ok c' /\ rb_wf (c_buf c') /\ (c_posted c' = None \/ armed c').
Proof.
  intros Ha Hch Hlen. destruct (on_chunk_loop _ _ Ha Hch Hlen) as (fuel & rb1 & Hw1 & _ & Hfuel & ->).
  destruct (recv_loop_ok fuel (c_state c) rb1 Hw1 Hfuel) as ([s rb|s rb|] & -> & Hend); cbn [mbind outcome_bind].
  - destruct Hend as [Hw Hd]. destruct (after_break_ok s rb Hw Hd) as (c' & -> & Hw' & _ & _ & Hif).
    exists c'. split_and!; [done..|]. destruct (IsConnected s); auto.
  - eexists. split_and!; [done..|by left].
  - done.
Qed.

Lemma on_chunk_refines chunk (c : conn S) :
  P (c_state c) -> armed c -> Forall is_byte chunk -> 0 < Z.of_nat (length chunk) <= FreeSize (c_buf c) ->
  Forall trusted (frames (data (c_buf c) ++ chunk)) ->
  exists c', on_chunk chunk c = Ok c' /\ rb_wf (c_buf c') /\
    match stream_run (c_state c) (data (c_buf c) ++ chunk) with
    | Rest s' r => c_state c' = s' /\ data (c_buf c') = r /\
        (if IsConnected s' then armed c' else c_posted c' = None)
    | Stop s' => c_state c' = s' /\ c_posted c' = None
    end.
Proof.
  intros Hs Ha Hch Hlen Ht. destruct (on_chunk_loop _ _ Ha Hch Hlen) as (fuel & rb1 & Hw1 & Hd1 & Hfuel & ->).
  rewrite <- Hd1 in Ht |- *.
  destruct (recv_loop_refines fuel (c_state c) rb1 Hs Hw1 Hfuel Ht) as (rb' & Hw' & Href).
  destruct (recv_loop_ok fuel (c_state c) rb1 Hw1 Hfuel) as (e & He & Hend).
  destruct (stream_run (c_state c) (data rb1)) as [s' r|s'].
  - destruct Href as [Href Hr]. rewrite Href in He. simplify_eq. cbn in Hend. rewrite Href. cbn [mbind outcome_bind].
    destruct (after_break_ok s' rb' Hw' (proj2 Hend)) as (c' & -> & ? & ? & ? & ?). by exists c'.
  - rewrite Href. by eexists.
Qed.

(** A run of receives and the reference on the concatenated chunks. *)
Lemma recv_steps_refines (c c' : conn S) chunks :
  recv_steps c chunks c' -> P (c_state c) -> armed c \/ chunks = [] -> Forall (Forall is_byte) chunks ->
  Forall trusted (frames (data (c_buf c) ++ concat chunks)) -> chunks <> [] ->
  match stream_run (c_state c) (data (c_buf c) ++ concat chunks) with
  | Rest s' r => c_state c' = s' /\ data (c_buf c') = r /\
      (if IsConnected s' then armed c' else c_posted c' = None)
  | Stop s' => c_state c' = s' /\ c_posted c' = None
  end.
Proof.
  intros Hrun. induction Hrun as [c|c n chunk c1 chunks c2 Hp Hn Hc Hrun IH]; intros Hs Ha Hb Ht Hne; [done|].
  destruct Ha as [Ha|]; [|done]. apply Forall_cons in Hb as [Hb Hbs].
  cbn [concat] in *. rewrite app_assoc in Ht |- *.
  assert (Hn' : 0 < Z.of_nat (length chunk) <= FreeSize (c_buf c)).
  { destruct Ha as (_ & Hp' & _). rewrite Hp in Hp'. by simplify_eq. }
  destruct (frames_app_l (data (c_buf c) ++ chunk) (concat chunks)) as [l Hl].
  assert (Ht1 := Ht). rewrite Hl in Ht1. apply Forall_app in Ht1 as [Ht1 _].
  destruct (on_chunk_refines chunk c Hs Ha Hb Hn' Ht1) as (c1' & Hc1 & Hw1 & Href).
  rewrite Hc in Hc1. injection Hc1 as <-.
  rewrite stream_run_app.
  destruct (stream_run (c_state c) (data (c_buf c) ++ chunk)) as [s' r|s'] eqn:Es.
  - destruct Href as (<- & <- & Hif).
    destruct chunks as [|chunk' chunks].
    { inversion Hrun; subst. cbn [concat]. rewrite app_nil_r.
      (* the leftover is itself incomplete *)
      pose proof (stream_run_app (c_state c) (data (c_buf c) ++ chunk) []) as Hi.
      rewrite app_nil_r, Es, app_nil_r in Hi. rewrite <- Hi. done. }
    assert (IsConnected (c_state c1) = true) as Ec.
    { inversion Hrun; subst. destruct (IsConnected (c_state c1)) eqn:?; [done|]. congruence. }
    rewrite Ec in Hif.
    apply IH; [by eapply stream_run_P|by left|done| |done].
    destruct (frames_rest _ _ (concat (chunk' :: chunks)) _ _ Es) as [l' Hl'].
    rewrite Hl' in Ht. by apply Forall_app in Ht as [_ ?].
  - destruct Href as [<- Hnone]. inversion Hrun; subst; [done|]. congruence.
Qed.
End recv_correct.

(** *** What every handler call keeps, receiving keeps *)

Section recv_keeps.
Context {S : Type} `{SessionOps S} (P : S -> Prop).
Context (OnRecv_keeps : forall s mem, P s -> P (snd (OnRecv s mem))).
Context (Disconnect_keeps : forall cause s, P s -> P (Disconnect cause s)).

Lemma recv_loop_keeps fuel s rb e :
  P s -> recv_loop fuel s rb = Ok e ->
  match e with Loop_break s' _ | Loop_return s' _ => P s' | Loop_fuel => True end.
Proof using OnRecv_keeps Disconnect_keeps.
  revert s rb. induction fuel as [|fuel IH]; intros s rb Hs He; cbn [recv_loop] in He; [by simplify_eq|].
  case_match; [by simplify_eq|]. apply bind_Ok_inv in He as (pos & _ & He).
  case_match; [simplify_eq; by apply Disconnect_keeps|]. case_match; [by simplify_eq|].
  pose proof (OnRecv_keeps s (drop pos (m_buffer rb)) Hs) as Hr.
  destruct (OnRecv s (drop pos (m_buffer rb))) as [[] s']; cbn [negb snd] in *;
    [|simplify_eq; by apply Disconnect_keeps].
  destruct (OnRead _ rb) as [[] rb']; cbn [negb] in He; [by eapply IH|].
  simplify_eq. by apply Disconnect_keeps.
Qed.

Lemma ProcessRecv_keeps n s rb c : P s -> ProcessRecv n s rb = Ok c -> P (c_state c).
Proof using OnRecv_keeps Disconnect_keeps.
  intros Hs Hc. unfold ProcessRecv in Hc. case_match; [simplify_eq; by apply Disconnect_keeps|].
  destruct (OnWrite n rb) as [[] rb1]; cbn [negb] in Hc; [|simplify_eq; by apply Disconnect_keeps].
  apply bind_Ok_inv in Hc as (e & He & Hc). apply (recv_loop_keeps _ _ _ _ Hs) in He.
  destruct e as [s' rb'|s' rb'|]; [|by simplify_eq|done].
  apply bind_Ok_inv in Hc as (rb2 & _ & Hc). unfold RegisterRecv in Hc.
  case_match; [apply bind_Ok_inv in Hc as (? & _ & Hc)|]; by simplify_eq.
Qed.

Lemma recv_steps_keep c chunks c' : recv_steps c chunks c' -> P (c_state c) -> P (c_state c').
Proof using OnRecv_keeps Disconnect_keeps.
  induction 1 as [|c n chunk c1 chunks c2 _ _ Hc _ IH]; [done|]. intros Hs. apply IH.
  unfold on_chunk in Hc. apply bind_Ok_inv in Hc as (pos & _ & Hc). by eapply ProcessRecv_keeps.
Qed.
End recv_keeps.

(** ** Properties *)

(** C3: reassembly does not depend on how the kernel cuts the stream: after any
    sequence of receives on a fresh, connected session, the session's state
    (and whether it is still receiving) is what the reference computes from the
    concatenated bytes, and the buffer holds exactly its unparsed rest.
    Assumed of [OnRecv] is only that it reads nothing past the packet it is
    given, for the packets of this stream. *)
Theorem reassembly_refines_stream {S} `{SessionOps S} (trusted : list Z -> Prop) (s : S)
    (chunks : list (list Z)) (c : conn S) :
  (forall (s : S) (mem : list Z), let n := Z.to_nat (m_dataSize mem) in
     (4 <= n <= length mem)%nat -> trusted (take n mem) -> OnRecv s mem = OnRecv s (take n mem)) ->
  Forall (Forall is_byte) chunks -> chunks <> [] ->
  Forall trusted (frames (concat chunks)) ->
  recv_steps (mkConn s (RecvBuffer_new BUFFER_SIZE) (Some (FreeSize (RecvBuffer_new BUFFER_SIZE)))) chunks c ->
  match stream_run s (concat chunks) with
  | Rest s' r => c_state c = s' /\ data (c_buf c) = r /\
      (c_posted c = if IsConnected s' then Some (FreeSize (c_buf c)) else None)
  | Stop s' => c_state c = s' /\ c_posted c = None
  end.
Proof.
  intros Hlocal Hb Hne Ht Hrun.
  pose proof (recv_steps_refines (fun _ => True) trusted (fun _ _ H => H) (fun s mem _ => Hlocal s mem) _ _ _ Hrun I) as Href.
  change (data (c_buf _)) with (@nil Z) in Href at 1 2. cbn [app c_state] in Href.
  destruct (stream_run s (concat chunks)).
  - destruct Href as (? & ? & Ha); try done.
    { left. split; [apply RecvBuffer_new_wf|]. done. }
    split_and!; [done|done|]. destruct (IsConnected _); [apply Ha|done].
  - apply Href; try done. left. split; [apply RecvBuffer_new_wf|]. done.
Qed.

(** C18: on every chunk a posted receive can deliver, for any handler at all,
    processing it neither crashes (no overlapping memcpy in Clean, no index
    outside the buffer) nor loops forever, and if the session stays connected
    at least BUFFER_SIZE bytes are offered to the next receive. *)
Theorem recv_never_stuck {S} `{SessionOps S} (chunk : list Z) (c : conn S) :
  armed c -> Forall is_byte chunk -> 0 < Z.of_nat (length chunk) <= FreeSize (c_buf c) ->
  exists c', on_chunk chunk c = Ok c' /\ rb_wf (c_buf c') /\ (c_posted c' = None \/ armed c').
Proof.
  apply on_chunk_ok.
Qed.

(** *** A concrete session: it counts packets, and number 99 is refused *)

Module counter.
Record state := mk { seen : list Z; up : bool }.

#[global] Instance ops : SessionOps state := {|
  OnRecv s mem := (negb (Packets.m_packetNum mem =? 99), mk (seen s ++ [Packets.m_packetNum mem]) (up s));
  Disconnect _ s := mk (seen s) false;
  IsConnected := up;
|}.

Definition fresh : conn state :=
  mkConn (mk [] true) (RecvBuffer_new BUFFER_SIZE) (Some (FreeSize (RecvBuffer_new BUFFER_SIZE))).

(** Two packets, the second cut in the middle of its header. *)
Definition chunk1 : list Z := [7; 0; 6; 0; 1; 2; 8; 0; 4].
Definition chunk2 : list Z := [0; 99; 0; 5; 0].
End counter.

Lemma fresh_free : FreeSize (c_buf counter.fresh) = 655360.
Proof. rewrite FreeSize_eq by apply RecvBuffer_new_wf. reflexivity. Qed.

Lemma fresh_armed : armed counter.fresh.
Proof. split; [apply RecvBuffer_new_wf|]. split; [done|]. by rewrite fresh_free. Qed.

Lemma counter_local (s : counter.state) (mem : list Z) :
  let n := Z.to_nat (m_dataSize mem) in
  (4 <= n <= length mem)%nat -> True -> OnRecv s mem = OnRecv s (take n mem).
Proof.
  intros n Hn _. cbn. unfold m_packetNum, rd_u16. by rewrite read_take by lia.
Qed.

Lemma recv_never_stuck_witness :
  exists c', on_chunk counter.chunk1 counter.fresh = Ok c' /\ rb_wf (c_buf c') /\
             (c_posted c' = None \/ armed c').
Proof.
  apply recv_never_stuck; [apply fresh_armed| |rewrite fresh_free; cbn; lia].
  repeat (constructor; [unfold is_byte; lia|]). constructor.
Defined.

Lemma reassembly_refines_stream_witness :
  exists c, c_state c = counter.mk [7; 8] true /\ data (c_buf c) = [99; 0; 5; 0].
Proof.
  assert (Hb1 : Forall is_byte counter.chunk1) by (repeat (constructor; [unfold is_byte; lia|]); constructor).
  assert (Hb2 : Forall is_byte counter.chunk2) by (repeat (constructor; [unfold is_byte; lia|]); constructor).
  assert (HT : forall bs, Forall (fun _ : list Z => True) (frames bs)) by (intros; by apply Forall_true).
  destruct (on_chunk_refines (fun _ => True) _ (fun _ _ H => H) (fun s mem _ => counter_local s mem) counter.chunk1 counter.fresh I fresh_armed Hb1
    ltac:(rewrite fresh_free; cbn; lia) (HT _)) as (c1 & E1 & _ & D1).
  change (data (c_buf counter.fresh)) with (@nil Z) in D1.
  change (stream_run (c_state counter.fresh) ([] ++ counter.chunk1))
    with (Rest (counter.mk [7] true) [8; 0; 4]) in D1. destruct D1 as (_ & D1 & A1).
  destruct (on_chunk_refines (fun _ => True) _ (fun _ _ H => H) (fun s mem _ => counter_local s mem) counter.chunk2 c1 I A1 Hb2
    ltac:(destruct A1 as (_ & _ & F); unfold BUFFER_SIZE in F; cbn; lia) (HT _)) as (c2 & E2 & _ & _).
  exists c2.
  pose proof (reassembly_refines_stream (fun _ => True) (counter.mk [] true)
    [counter.chunk1; counter.chunk2] c2 counter_local) as R.
  assert (stream_run (counter.mk [] true) (concat [counter.chunk1; counter.chunk2]) =
          Rest (counter.mk [7; 8] true) [99; 0; 5; 0]) as E by (vm_compute; reflexivity).
  rewrite E in R. destruct R as (H1 & H2 & _);
    [apply Forall_cons; split; [exact Hb1|apply Forall_singleton; exact Hb2]
    |discriminate|apply HT| |exact (conj H1 H2)].
  eapply recv_cons; [reflexivity|change (FreeSize _) with (FreeSize (c_buf counter.fresh));
    rewrite fresh_free; cbn; lia|exact E1|].
  eapply recv_cons; [apply A1|destruct A1 as (_ & _ & F); unfold BUFFER_SIZE in F; cbn; lia|exact E2|]. constructor.
Defined.
