(* ===== verification/SendPool.v ===== *)
(** * The send pool and its senders

    src/DhNet_Server/ServerCore/SendPool.h, SendPool.cpp, Sender.h, Sender.cpp.

    A sender is a run of 1024-byte chunks taken first-fit from one array; its
    shared_ptr's deleter gives the run back.  [pool_step] interleaves
    allocations with the two halves of [Sender::DeAlloc] (its fields are cleared
    before the pool's lock is taken). *)

From S2P Require Import Prelude Bytes Packets.
From Stdlib Require Import ZifyBool.

Definition sizeof_DataChunk : Z := 1024.

(** [m_tempChunk] is the index of the chunk it points to. *)
Record Sender := mkSender {
  m_tempChunk : option Z;
  m_index : Z;
  m_count : Z;
}.

Definition Sender_new : Sender := mkSender None (-1) 0.

(** [m_chunk] is the array's bytes. *)
Record SendPool := mkSendPool {
  m_chunk : option (list Z);
  m_senderList : list Sender;
  m_useFlag : list bool;
  m_chunkCount : Z;
  m_useSize : Z;
}.

Definition SendPool_new : SendPool := mkSendPool None [] [] 0 0.

(** [fill] is what operator new[] returns: uninitialised bytes, or none when it
    throws. *)
Definition Init (_count : Z) (fill : nat -> option (list Z)) (p : SendPool) : outcome SendPool :=
  _ ← ASSERT_CRASH (match m_chunk p with None => true | Some _ => false end);
  _ ← ASSERT_CRASH (m_useSize p =? 0);
  let n := Z.to_nat _count in
  match fill (1024 * n)%nat with
  | None => Crash "ASSERT_CRASH(0)"
  | Some chunk =>
      Ok (mkSendPool (Some chunk) (m_senderList p ++ replicate n Sender_new)
            (m_useFlag p ++ replicate n false) _count (m_useSize p))
  end.

(** The loop of GetAllocIndex over m_useFlag: (maxCount, allocIndex). *)
Fixpoint GetAllocIndex_loop (_count : Z) (flags : list bool) (maxCount allocIndex flagIndex : Z) : Z * Z :=
  match flags with
  | [] => (maxCount, allocIndex)
  | flag :: flags' =>
      if negb flag then
        let maxCount := maxCount + 1 in
        let allocIndex := if allocIndex =? -1 then flagIndex else allocIndex in
        if maxCount =? _count then (maxCount, allocIndex)
        else GetAllocIndex_loop _count flags' maxCount allocIndex (flagIndex + 1)
      else GetAllocIndex_loop _count flags' 0 (-1) (flagIndex + 1)
  end.

Definition GetAllocIndex (_count : Z) (p : SendPool) : Z :=
  let '(maxCount, allocIndex) := GetAllocIndex_loop _count (m_useFlag p) 0 (-1) 0 in
  if negb (allocIndex =? -1) && negb (maxCount =? _count) then -1 else allocIndex.

(** [for (i = index; i < index + count; ++i) m_useFlag[i] = true] *)
Fixpoint set_flags (n : nat) (i : Z) (flags : list bool) : outcome (list bool) :=
  match n with
  | O => Ok flags
  | S n' =>
      if (0 <=? i) && (i <? Z.of_nat (length flags))
      then set_flags n' (i + 1) (<[Z.to_nat i := true]> flags)
      else Crash "vector<bool> subscript out of range"
  end.

Definition SetSendDataChunk (_chunk : option Z) (_chunkIndex _chunkCount : Z) (s : Sender) : outcome Sender :=
  _ ← ASSERT_CRASH (match _chunk with None => false | Some _ => true end);
  _ ← ASSERT_CRASH (0 <=? _chunkIndex);
  _ ← ASSERT_CRASH (0 <? _chunkCount);
  _ ← ASSERT_CRASH (match m_tempChunk s with None => true | Some _ => false end);
  Ok (mkSender _chunk _chunkIndex _chunkCount).

(** [SendPool::Alloc]: the index of the sender the SenderRef points to, or
    [None] for nullptr. *)
Definition chunk_count (_sendSize : Z) : Z := u16 (_sendSize / sizeof_DataChunk + 1).

Definition Alloc (_sendSize : Z) (p : SendPool) : outcome (option Z * SendPool) :=
  let count := chunk_count _sendSize in
  let index := GetAllocIndex count p in
  if index =? -1 then Ok (None, p)
  else
    match m_senderList p !! Z.to_nat index with
    | None => Crash "vector subscript out of range"
    | Some sender =>
        flags ← set_flags (Z.to_nat count) index (m_useFlag p);
        sender ← SetSendDataChunk (Some index) index count sender;
        Ok (Some index,
            mkSendPool (m_chunk p) (<[Z.to_nat index := sender]> (m_senderList p)) flags
              (m_chunkCount p) (u16 (m_useSize p + count * sizeof_DataChunk)))
    end.

(** The loop of SendPool::DeAlloc; [false] is the early return. *)
Fixpoint DeAlloc_loop (n : nat) (i : Z) (flags : list bool) (useSize : Z) : outcome (bool * list bool * Z) :=
  match n with
  | O => Ok (true, flags, useSize)
  | S n' =>
      if 0 <=? i then
        match flags !! Z.to_nat i with
        | None => Crash "vector<bool> subscript out of range"
        | Some false => Ok (false, flags, useSize)
        | Some true => DeAlloc_loop n' (i + 1) (<[Z.to_nat i := false]> flags) (u16 (useSize - sizeof_DataChunk))
        end
      else Crash "vector<bool> subscript out of range"
  end.

Definition DeAlloc (_index _count : Z) (p : SendPool) : outcome (bool * SendPool) :=
  _ ← ASSERT_CRASH (_count <=? m_chunkCount p);
  _ ← ASSERT_CRASH (_index <? m_chunkCount p);
  r ← DeAlloc_loop (Z.to_nat _count) _index (m_useFlag p) (m_useSize p);
  let '(ok, flags, useSize) := r in
  Ok (ok, mkSendPool (m_chunk p) (m_senderList p) flags (m_chunkCount p) useSize).

Definition GetUsableSize (p : SendPool) : Z := m_useSize p.

(** ** Sender *)

(** [Sender::DeAlloc] up to the call of the pool: the cleared sender and the
    arguments of [SendPool::DeAlloc]; [None] when there is nothing to do. *)
Definition Sender_DeAlloc_begin (s : Sender) : outcome (Sender * option (Z * Z)) :=
  match m_tempChunk s with
  | None => Ok (s, None)
  | Some _ =>
      _ ← ASSERT_CRASH (0 <=? m_index s);
      _ ← ASSERT_CRASH (0 <? m_count s);
      (* const short count; then passed as unsigned short *)
      Ok (mkSender None (-1) 0, Some (m_index s, u16 (i16 (m_count s))))
  end.

(** ... and from the call on. *)
Definition Sender_DeAlloc_end (index count : Z) (p : SendPool) : outcome SendPool :=
  r ← DeAlloc index count p;
  let '(result, p) := r in
  _ ← ASSERT_CRASH result;
  Ok p.

Definition chunk_bytes (p : SendPool) (index : Z) : list Z :=
  match m_chunk p with None => [] | Some b => drop (Z.to_nat (index * sizeof_DataChunk)) b end.

(** [Sender::Alloc<T>()] with [size = sizeof(T)]: allocate and stamp the size. *)
Definition Sender_Alloc (size : Z) (p : SendPool) : outcome (option Z * SendPool) :=
  _ ← ASSERT_CRASH (Z.of_nat sizeof_PacketHeader <=? size);
  r ← Alloc (u16 size) p;
  let '(shared, p) := r in
  match shared, m_chunk p with
  | None, _ => Ok (None, p)
  | Some index, Some b =>
      Ok (Some index, mkSendPool (Some (wr_u16 (Z.to_nat (index * sizeof_DataChunk) + 2) (u16 size) b))
                        (m_senderList p) (m_useFlag p) (m_chunkCount p) (m_useSize p))
  | Some _, None => Crash "null chunk array"
  end.

Definition GetSendSize (s : Sender) (p : SendPool) : Z :=
  match m_tempChunk s with
  | None => 0
  | Some c => let dataSize := m_dataSize (chunk_bytes p c) in if dataSize =? 0 then 0 else dataSize
  end.

(** [Sender::GetSenderAndPacket<T>()]: the sender is dereferenced unchecked. *)
Definition GetSenderAndPacket (size : Z) (p : SendPool) : outcome (Z * SendPool) :=
  r ← Sender_Alloc size p;
  let '(sender, p) := r in
  match sender with
  | None => Crash "null SenderRef dereferenced"
  | Some index => Ok (index, p)
  end.

(** ** Executions *)

(** [live]: the runs owned by a SenderRef; [freeing]: the runs whose deleter is
    between its two halves. *)
Record sp_world := mkSp { sp_pool : SendPool; sp_live : list (Z * Z); sp_freeing : list (Z * Z) }.

Inductive sp_step : sp_world -> sp_world -> Prop :=
| sp_alloc w size index p' :
    0 <= size < 65536 -> Alloc size (sp_pool w) = Ok (Some index, p') ->
    sp_step w (mkSp p' ((index, chunk_count size) :: sp_live w) (sp_freeing w))
| sp_alloc_fail w size p' :
    0 <= size < 65536 -> Alloc size (sp_pool w) = Ok (None, p') ->
    sp_step w (mkSp p' (sp_live w) (sp_freeing w))
| sp_free_begin w l1 index count l2 s s' run :
    sp_live w = l1 ++ (index, count) :: l2 ->
    m_senderList (sp_pool w) !! Z.to_nat index = Some s ->
    Sender_DeAlloc_begin s = Ok (s', Some run) ->
    sp_step w (mkSp (mkSendPool (m_chunk (sp_pool w)) (<[Z.to_nat index := s']> (m_senderList (sp_pool w)))
                       (m_useFlag (sp_pool w)) (m_chunkCount (sp_pool w)) (m_useSize (sp_pool w)))
                 (l1 ++ l2) (run :: sp_freeing w))
| sp_free_end w l1 index count l2 p' :
    sp_freeing w = l1 ++ (index, count) :: l2 ->
    Sender_DeAlloc_end index count (sp_pool w) = Ok p' ->
    sp_step w (mkSp p' (sp_live w) (l1 ++ l2))
(* a packet written into the chunks of a live sender *)
| sp_write w b b' :
    m_chunk (sp_pool w) = Some b -> length b' = length b ->
    sp_step w (mkSp (mkSendPool (Some b') (m_senderList (sp_pool w)) (m_useFlag (sp_pool w))
                       (m_chunkCount (sp_pool w)) (m_useSize (sp_pool w)))
                 (sp_live w) (sp_freeing w)).

Definition sp_init (n : Z) (w : sp_world) : Prop :=
  0 <= n < 65536 /\ exists fill, Init n fill SendPool_new = Ok (sp_pool w) /\ sp_live w = [] /\ sp_freeing w = [].

(** ** First fit *)

Definition free_run (flags : list bool) (i count : nat) : Prop :=
  forall j, (i <= j < i + count)%nat -> flags !! j = Some false.

(** What GetAllocIndex promises: the lowest run of [count] free chunks. *)
Definition first_fit (flags : list bool) (count : nat) (r : Z) : Prop :=
  (r = -1 /\ forall i, ~ free_run flags i count) \/
  (exists i, r = Z.of_nat i /\ free_run flags i count /\ forall i', (i' < i)%nat -> ~ free_run flags i' count).

Lemma GetAllocIndex_loop_ok (pre rest : list bool) (m count : nat) :
  (m < count)%nat -> (m <= length pre)%nat ->
  (forall j, (length pre - m <= j < length pre)%nat -> pre !! j = Some false) ->
  (forall i, (i < length pre - m)%nat -> ~ free_run (pre ++ rest) i count) ->
  let '(mc, ai) := GetAllocIndex_loop (Z.of_nat count) rest (Z.of_nat m)
                     (if (m =? 0)%nat then -1 else Z.of_nat (length pre - m)) (Z.of_nat (length pre)) in
  first_fit (pre ++ rest) count (if negb (ai =? -1) && negb (mc =? Z.of_nat count) then -1 else ai).
Proof.
  revert pre m. induction rest as [|f rest IH]; intros pre m Hm Hle Hrun Hno; cbn [GetAllocIndex_loop].
  - replace (Z.of_nat m =? Z.of_nat count) with false by (symmetry; apply Z.eqb_neq; lia).
    left. split.
    + destruct (m =? 0)%nat; [done|]. replace (Z.of_nat (length pre - m) =? -1) with false by lia. done.
    + intros i Hi. destruct (decide (i < length pre - m)%nat) as [Hlt|]; [by apply (Hno i Hlt)|].
      specialize (Hi (i + count - 1)%nat ltac:(lia)). rewrite app_nil_r in Hi.
      apply lookup_lt_Some in Hi. lia.
  - destruct f; cbn [negb].
    + replace (pre ++ true :: rest) with ((pre ++ [true]) ++ rest) by (by rewrite <- app_assoc).
      specialize (IH (pre ++ [true]) 0%nat). rewrite length_app in IH. cbn [length Nat.eqb] in IH.
      replace (Z.of_nat (length pre) + 1) with (Z.of_nat (length pre + 1)) by lia.
      apply IH; [lia|lia|intros; lia|].
      intros i Hi Hf. rewrite <- app_assoc in Hf.
      destruct (decide (i < length pre - m)%nat) as [Hlt|Hge]; [by apply (Hno i Hlt)|].
      specialize (Hf (length pre) ltac:(lia)). rewrite lookup_app_r, Nat.sub_diag in Hf by lia. done.
    + set (ai := if (if (m =? 0)%nat then _ else _) =? -1 then _ else _).
      assert (ai = Z.of_nat (length pre - m)) as Hai.
      { unfold ai. destruct (Nat.eqb_spec m 0) as [->|]; cbn; [lia|].
        replace (Z.of_nat (length pre - m) =? -1) with false by lia. done. }
      destruct (Z.eqb_spec (Z.of_nat m + 1) (Z.of_nat count)) as [E|E].
      * rewrite Hai. replace (Z.of_nat (length pre - m) =? -1) with false by lia.
        rewrite E, Z.eqb_refl. cbn. right. exists (length pre - m)%nat. split_and!; [done| |done].
        intros j Hj. destruct (decide (j < length pre)%nat).
        -- rewrite lookup_app_l by lia. apply Hrun. lia.
        -- assert (j = length pre) as -> by lia. by rewrite lookup_app_r, Nat.sub_diag by lia.
      * replace (pre ++ false :: rest) with ((pre ++ [false]) ++ rest) by (by rewrite <- app_assoc).
        specialize (IH (pre ++ [false]) (S m)). rewrite length_app in IH. cbn [length Nat.eqb] in IH.
        replace (length pre + 1 - S m)%nat with (length pre - m)%nat in IH by lia.
        replace (Z.of_nat m + 1) with (Z.of_nat (S m)) by lia.
        replace (Z.of_nat (length pre) + 1) with (Z.of_nat (length pre + 1)) by lia.
        rewrite Hai. apply IH; [lia|lia| |].
        -- intros j Hj. destruct (decide (j < length pre)%nat).
           ++ rewrite lookup_app_l by lia. apply Hrun. lia.
           ++ assert (j = length pre) as -> by lia. by rewrite lookup_app_r, Nat.sub_diag by lia.
        -- intros i Hi. rewrite <- app_assoc. by apply Hno.
Qed.

Lemma GetAllocIndex_ok (count : nat) p :
  (0 < count)%nat -> first_fit (m_useFlag p) count (GetAllocIndex (Z.of_nat count) p).
Proof.
  intros Hc. pose proof (GetAllocIndex_loop_ok [] (m_useFlag p) 0 count Hc) as H.
  unfold GetAllocIndex. cbn [app length Nat.eqb Nat.sub] in H.
  destruct (GetAllocIndex_loop _ _ _ _ _). apply H; [lia|intros; lia|intros; lia].
Qed.

(** ** Runs of flags *)

Lemma set_flags_ok n i flags :
  0 <= i -> i + Z.of_nat n <= Z.of_nat (length flags) ->
  exists flags', set_flags n i flags = Ok flags' /\ length flags' = length flags /\
    forall j, (j < length flags)%nat -> flags' !! j =
      if decide (Z.to_nat i <= j < Z.to_nat i + n)%nat then Some true else flags !! j.
Proof.
  revert i flags. induction n as [|n IH]; intros i flags Hi Hle.
  - exists flags. split_and!; [done..|]. intros j Hj. rewrite decide_False by lia. done.
  - cbn [set_flags]. rewrite (proj2 (Z.leb_le _ _)), (proj2 (Z.ltb_lt _ _)) by lia. cbn [andb].
    destruct (IH (i + 1) (<[Z.to_nat i:=true]> flags)) as (fl & -> & Hl & Hv); [lia|rewrite length_insert; lia|].
    rewrite length_insert in *. exists fl. split_and!; [done..|]. intros j Hj. rewrite (Hv j Hj).
    destruct (decide (j = Z.to_nat i)) as [->|Hne].
    + rewrite decide_False, decide_True by lia. apply list_lookup_insert_eq. lia.
    + rewrite list_lookup_insert_ne by done.
      destruct (decide (Z.to_nat (i + 1) <= j < Z.to_nat (i + 1) + n)%nat);
        [rewrite decide_True by lia|rewrite decide_False by lia]; done.
Qed.

Lemma DeAlloc_loop_ok n i flags use :
  0 <= i -> i + Z.of_nat n <= Z.of_nat (length flags) ->
  (forall j, (Z.to_nat i <= j < Z.to_nat i + n)%nat -> flags !! j = Some true) ->
  exists flags', DeAlloc_loop n i flags (u16 use) = Ok (true, flags', u16 (use - Z.of_nat n * sizeof_DataChunk)) /\
    length flags' = length flags /\
    forall j, (j < length flags)%nat -> flags' !! j =
      if decide (Z.to_nat i <= j < Z.to_nat i + n)%nat then Some false else flags !! j.
Proof.
  revert i flags use. induction n as [|n IH]; intros i flags use Hi Hle Ht.
  - exists flags. cbn. rewrite Z.sub_0_r. split_and!; [done..|]. intros j Hj. rewrite decide_False by lia. done.
  - cbn [DeAlloc_loop]. rewrite (proj2 (Z.leb_le _ _)) by lia. rewrite (Ht (Z.to_nat i)) by lia.
    rewrite wrapU_sub.
    destruct (IH (i + 1) (<[Z.to_nat i:=false]> flags) (use - sizeof_DataChunk)) as (fl & -> & Hl & Hv);
      [lia|rewrite length_insert; lia| |].
    { intros j Hj. rewrite list_lookup_insert_ne by lia. apply Ht. lia. }
    rewrite length_insert in *. exists fl. split_and!; [|done|].
    { do 3 f_equal. unfold sizeof_DataChunk. lia. }
    intros j Hj. rewrite (Hv j Hj).
    destruct (decide (j = Z.to_nat i)) as [->|Hne].
    + rewrite decide_False, decide_True by lia. apply list_lookup_insert_eq. lia.
    + rewrite list_lookup_insert_ne by done.
      destruct (decide (Z.to_nat (i + 1) <= j < Z.to_nat (i + 1) + n)%nat);
        [rewrite decide_True by lia|rewrite decide_False by lia]; done.
Qed.

(** ** The pool's invariant *)

(** How many of the runs [l] contain chunk [j]. *)
Definition covers (j : nat) (r : Z * Z) : Z :=
  if decide (fst r <= Z.of_nat j < fst r + snd r) then 1 else 0.
Definition cover (j : nat) (l : list (Z * Z)) : Z := zsum (covers j) l.

Definition run_in (n : Z) (r : Z * Z) : Prop := 0 <= fst r /\ 0 < snd r /\ fst r + snd r <= n.

Record sp_inv (n : Z) (w : sp_world) : Prop := mkInv {
  inv_count : m_chunkCount (sp_pool w) = n /\ 0 <= n < 65536;
  inv_len : length (m_useFlag (sp_pool w)) = Z.to_nat n /\ length (m_senderList (sp_pool w)) = Z.to_nat n;
  inv_runs : Forall (run_in n) (sp_live w ++ sp_freeing w);
  inv_flags : forall j, (j < Z.to_nat n)%nat ->
    m_useFlag (sp_pool w) !! j = Some true /\ cover j (sp_live w ++ sp_freeing w) = 1 \/
    m_useFlag (sp_pool w) !! j = Some false /\ cover j (sp_live w ++ sp_freeing w) = 0;
  inv_senders : forall j s, m_senderList (sp_pool w) !! j = Some s ->
    (exists c, (Z.of_nat j, c) ∈ sp_live w /\ s = mkSender (Some (Z.of_nat j)) (Z.of_nat j) c) \/
    ((forall c, (Z.of_nat j, c) ∉ sp_live w) /\ s = Sender_new);
  inv_use : m_useSize (sp_pool w) = u16 (sizeof_DataChunk * zsum snd (sp_live w ++ sp_freeing w));
  inv_mem : m_chunk (sp_pool w) <> None;
}.

Lemma covers_nonneg j r : 0 <= covers j r.
Proof. unfold covers. case_decide; lia. Qed.

Lemma cover_app j l1 l2 : cover j (l1 ++ l2) = cover j l1 + cover j l2.
Proof. apply zsum_app. Qed.

Lemma cover_nonneg j l : 0 <= cover j l.
Proof. apply zsum_nonneg. intros. apply covers_nonneg. Qed.

Lemma cover_in j l r : r ∈ l -> covers j r <= cover j l.
Proof.
  intros [i Hi]%list_elem_of_lookup. apply (zsum_ge (covers j) l i); [|done].
  intros. apply covers_nonneg.
Qed.

Lemma covers_start i c n : run_in n (Z.of_nat i, c) -> covers i (Z.of_nat i, c) = 1.
Proof. unfold run_in, covers. cbn. intros. rewrite decide_True; lia. Qed.

(** Two different entries of the runs do not overlap. *)
Lemma runs_disjoint n w i j r1 r2 k :
  sp_inv n w -> (sp_live w ++ sp_freeing w) !! i = Some r1 -> (sp_live w ++ sp_freeing w) !! j = Some r2 ->
  i <> j -> (k < Z.to_nat n)%nat -> covers k r1 = 1 -> covers k r2 = 1 -> False.
Proof.
  intros Hinv Hi Hj Hne Hk H1 H2.
  pose proof (zsum_ge_two (covers k) _ i j r1 r2 (fun z _ => covers_nonneg k z) Hi Hj Hne) as Hs.
  destruct (inv_flags _ _ Hinv k Hk) as [[_ Hc]|[_ Hc]]; unfold cover in Hc; lia.
Qed.

Lemma chunk_count_range size : 0 <= size < 65536 -> 1 <= chunk_count size <= 64 /\ size < 1024 * chunk_count size.
Proof.
  intros Hs. unfold chunk_count, sizeof_DataChunk.
  assert (0 <= size / 1024 < 64) by (split; [apply Z.div_pos|apply Z.div_lt_upper_bound]; lia).
  rewrite wrapU_small by (change (2 ^ 16) with 65536; lia).
  pose proof (Z.mod_pos_bound size 1024 ltac:(lia)). pose proof (Z.div_mod size 1024 ltac:(lia)). lia.
Qed.

Lemma sp_init_inv n w : sp_init n w -> sp_inv n w.
Proof.
  intros (Hn & fill & Hi & Hl & Hf). destruct w as [p live fr]. cbn in *. subst.
  unfold Init in Hi. cbn [mbind outcome_bind ASSERT_CRASH SendPool_new m_chunk m_useSize Z.eqb] in Hi.
  destruct (fill _) as [chunk|]; [|done]. cbn in Hi. simplify_eq. split; cbn.
  - done.
  - by rewrite !length_replicate.
  - constructor.
  - intros j Hj. right. rewrite lookup_replicate. done.
  - intros j s Hs. apply lookup_replicate in Hs as [-> _]. right. split; [|done].
    intros c Hc. by apply elem_of_nil in Hc.
  - done.
  - done.
Qed.

(** Allocation never crashes; it takes the lowest free run, or none exists. *)
Lemma Alloc_ok n w size :
  sp_inv n w -> 0 <= size < 65536 ->
  (Alloc size (sp_pool w) = Ok (None, sp_pool w) /\
   forall i, ~ free_run (m_useFlag (sp_pool w)) i (Z.to_nat (chunk_count size))) \/
  (exists i p', Alloc size (sp_pool w) = Ok (Some (Z.of_nat i), p') /\
     free_run (m_useFlag (sp_pool w)) i (Z.to_nat (chunk_count size)) /\
     (forall i', (i' < i)%nat -> ~ free_run (m_useFlag (sp_pool w)) i' (Z.to_nat (chunk_count size))) /\
     sp_inv n (mkSp p' ((Z.of_nat i, chunk_count size) :: sp_live w) (sp_freeing w))).
Proof.
  intros Hinv Hs. destruct (chunk_count_range size Hs) as [Hc _].
  set (c := chunk_count size) in *.
  pose proof (GetAllocIndex_ok (Z.to_nat c) (sp_pool w) ltac:(lia)) as Hff. rewrite Z2Nat.id in Hff by lia.
  unfold Alloc. fold c. destruct Hff as [[-> Hno]|(i & -> & Hfree & Hlow)].
  { left. by split. }
  right. replace (Z.of_nat i =? -1) with false by lia. rewrite Nat2Z.id.
  destruct (inv_len _ _ Hinv) as [Hlf Hls]. destruct (inv_count _ _ Hinv) as [Hcc Hn].
  assert (i + Z.to_nat c <= Z.to_nat n)%nat as Hin.
  { specialize (Hfree (i + Z.to_nat c - 1)%nat ltac:(lia)). apply lookup_lt_Some in Hfree. lia. }
  destruct (m_senderList (sp_pool w) !! i) as [s|] eqn:Es.
  2:{ apply lookup_ge_None in Es. lia. }
  assert (cover i (sp_live w ++ sp_freeing w) = 0) as Hci.
  { destruct (inv_flags _ _ Hinv i ltac:(lia)) as [[Hf _]|[_ Hz]]; [|done].
    rewrite (Hfree i ltac:(lia)) in Hf. done. }
  assert (s = Sender_new /\ forall c', (Z.of_nat i, c') ∉ sp_live w) as [-> Hnl].
  { destruct (inv_senders _ _ Hinv i s Es) as [(c' & Hin' & _)|[Hnl ->]]; [|done].
    assert (Hr := inv_runs _ _ Hinv). rewrite Forall_forall in Hr.
    assert ((Z.of_nat i, c') ∈ sp_live w ++ sp_freeing w) as Hel by (apply elem_of_app; by left).
    pose proof (cover_in i _ _ Hel) as Hge. rewrite (covers_start i c' n (Hr _ Hel)) in Hge. lia. }
  destruct (set_flags_ok (Z.to_nat c) (Z.of_nat i) (m_useFlag (sp_pool w))) as (fl & -> & Hlfl & Hv); [lia|lia|].
  cbn [mbind outcome_bind]. unfold SetSendDataChunk, ASSERT_CRASH.
  replace (0 <=? Z.of_nat i) with true by lia. replace (0 <? c) with true by lia. cbn.
  do 2 eexists. split; [done|]. split; [done|]. split; [done|].
  split; cbn [sp_pool sp_live sp_freeing m_chunk m_senderList m_useFlag m_chunkCount m_useSize].
  - done.
  - rewrite length_insert. lia.
  - cbn. constructor; [|apply Hinv]. unfold run_in. cbn. lia.
  - intros j Hj. rewrite (Hv j) by lia. change ((?x :: ?l) ++ ?k) with ([x] ++ (l ++ k)).
    rewrite cover_app. unfold cover at 1 3, covers. cbn [zsum fst snd].
    destruct (inv_flags _ _ Hinv j Hj) as [[Hf Hcv]|[Hf Hcv]]; rewrite Hf, Hcv;
      repeat case_decide; try lia; auto.
    specialize (Hfree j ltac:(lia)). congruence.
  - intros j s Hj. destruct (decide (j = i)) as [->|Hne].
    + rewrite list_lookup_insert_eq in Hj by lia. simplify_eq. left. exists c. split; [set_solver|done].
    + rewrite list_lookup_insert_ne in Hj by done.
      destruct (inv_senders _ _ Hinv j s Hj) as [(c' & Hin' & ->)|[Hnot ->]].
      * left. exists c'. split; [set_solver|done].
      * right. split; [|done]. intros c' Hc'. apply elem_of_cons in Hc' as [E|Hc']; [|by apply (Hnot c')].
        by simplify_eq.
  - rewrite (inv_use _ _ Hinv), wrapU_add. f_equal. change ((?x :: ?l) ++ ?k) with (x :: (l ++ k)).
    cbn [zsum snd]. unfold sizeof_DataChunk. lia.
  - apply Hinv.
Qed.

(** Moving a run between the lists, or dropping one, in the sums. *)
Lemma zsum_mid (f : Z * Z -> Z) l1 r l2 l3 :
  zsum f ((l1 ++ r :: l2) ++ l3) = zsum f ((l1 ++ l2) ++ l3) + f r.
Proof. rewrite !zsum_app. cbn [zsum]. lia. Qed.

Lemma zsum_mid_r (f : Z * Z -> Z) l0 l1 r l2 :
  zsum f (l0 ++ l1 ++ r :: l2) = zsum f (l0 ++ l1 ++ l2) + f r.
Proof. rewrite !zsum_app. cbn [zsum]. lia. Qed.

Lemma zsum_move (f : Z * Z -> Z) l1 r l2 l3 :
  zsum f ((l1 ++ l2) ++ r :: l3) = zsum f ((l1 ++ r :: l2) ++ l3).
Proof. rewrite !zsum_app. cbn [zsum]. lia. Qed.

(** The first half of the deleter never crashes and hands over its run. *)
Lemma free_begin_ok n w l1 i c l2 :
  sp_inv n w -> sp_live w = l1 ++ (i, c) :: l2 ->
  m_senderList (sp_pool w) !! Z.to_nat i = Some (mkSender (Some i) i c) /\
  Sender_DeAlloc_begin (mkSender (Some i) i c) = Ok (Sender_new, Some (i, c)) /\
  sp_inv n (mkSp (mkSendPool (m_chunk (sp_pool w)) (<[Z.to_nat i := Sender_new]> (m_senderList (sp_pool w)))
                    (m_useFlag (sp_pool w)) (m_chunkCount (sp_pool w)) (m_useSize (sp_pool w)))
              (l1 ++ l2) ((i, c) :: sp_freeing w)).
Proof.
  intros Hinv Hl. destruct (inv_len _ _ Hinv) as [Hlf Hls]. destruct (inv_count _ _ Hinv) as [Hcc Hn].
  assert (Hr := inv_runs _ _ Hinv). rewrite Hl in Hr.
  assert (run_in n (i, c)) as (H1 & H2 & H3).
  { rewrite Forall_forall in Hr. apply Hr. set_solver. }
  cbn in H1, H2, H3.
  (* no other run of [live] starts at i *)
  assert (forall c', (i, c') ∈ l1 ++ l2 -> False) as Hother.
  { intros c' Hin. pose proof (inv_flags _ _ Hinv (Z.to_nat i) ltac:(lia)) as Hf. rewrite Hl in Hf.
    unfold cover in Hf. rewrite zsum_mid in Hf.
    assert (run_in n (i, c')) as Hr'.
    { rewrite Forall_forall in Hr. apply Hr. apply elem_of_app in Hin. set_solver. }
    pose proof (cover_in (Z.to_nat i) ((l1 ++ l2) ++ sp_freeing w) (i, c') ltac:(set_solver)) as Hge.
    unfold cover in Hge. unfold covers at 1 in Hge. unfold covers at 2 4 in Hf. destruct Hr' as (_ & Hr' & _).
    cbn [fst snd] in *. rewrite !decide_True in Hf by lia. rewrite decide_True in Hge by lia. lia. }
  destruct (m_senderList (sp_pool w) !! Z.to_nat i) as [s|] eqn:Es.
  2:{ apply lookup_ge_None in Es. lia. }
  assert (s = mkSender (Some i) i c) as ->.
  { destruct (inv_senders _ _ Hinv _ _ Es) as [(c' & Hin & ->)|[Hnot _]];
      rewrite Z2Nat.id in * by lia.
    - rewrite Hl in Hin. apply elem_of_app in Hin as [Hin|Hin]; [destruct (Hother c'); set_solver|].
      apply elem_of_cons in Hin as [E|Hin]; [by simplify_eq|destruct (Hother c'); set_solver].
    - destruct (Hnot c). rewrite Hl. set_solver. }
  split; [done|]. split.
  { unfold Sender_DeAlloc_begin, ASSERT_CRASH. cbn [m_tempChunk m_index m_count].
    replace (0 <=? i) with true by lia. replace (0 <? c) with true by lia. cbn.
    unfold wrapS, wrapU. change (2 ^ 16) with 65536. change (2 ^ (16 - 1)) with 32768.
    rewrite Zminus_mod_idemp_l. replace (c + 32768 - 32768) with c by lia.
    by rewrite Z.mod_small by lia. }
  split; cbn [sp_pool sp_live sp_freeing m_chunk m_senderList m_useFlag m_chunkCount m_useSize].
  - done.
  - rewrite length_insert. done.
  - rewrite Forall_forall in Hr |- *. intros x Hx. apply Hr. set_solver.
  - intros j Hj. unfold cover. rewrite zsum_move, <- Hl. by apply Hinv.
  - intros j s Hj. destruct (decide (j = Z.to_nat i)) as [->|Hne].
    + rewrite list_lookup_insert_eq in Hj by lia. simplify_eq. right. split; [|done].
      intros c' Hc'. rewrite Z2Nat.id in Hc' by lia. by apply (Hother c').
    + rewrite list_lookup_insert_ne in Hj by done.
      destruct (inv_senders _ _ Hinv j s Hj) as [(c' & Hin & ->)|[Hnot ->]]; rewrite Hl in *.
      * left. exists c'. split; [|done]. apply elem_of_app in Hin as [Hin|Hin]; [set_solver|].
        apply elem_of_cons in Hin as [E|Hin]; [|set_solver]. simplify_eq. lia.
      * right. split; [|done]. intros c' Hc'. apply (Hnot c'). set_solver.
  - rewrite (inv_use _ _ Hinv), Hl. by rewrite zsum_move.
  - apply Hinv.
Qed.

(** The second half finds every flag of its run set, and clears them. *)
Lemma free_end_ok n w l1 i c l2 :
  sp_inv n w -> sp_freeing w = l1 ++ (i, c) :: l2 ->
  exists p', Sender_DeAlloc_end i c (sp_pool w) = Ok p' /\ sp_inv n (mkSp p' (sp_live w) (l1 ++ l2)).
Proof.
  intros Hinv Hl. destruct (inv_len _ _ Hinv) as [Hlf Hls]. destruct (inv_count _ _ Hinv) as [Hcc Hn].
  assert (Hr := inv_runs _ _ Hinv). rewrite Hl in Hr.
  assert (run_in n (i, c)) as (H1 & H2 & H3).
  { rewrite Forall_forall in Hr. apply Hr. set_solver. }
  cbn in H1, H2, H3.
  assert (forall j, (j < Z.to_nat n)%nat -> covers j (i, c) = 1 ->
            m_useFlag (sp_pool w) !! j = Some true /\ cover j (sp_live w ++ l1 ++ l2) = 0) as Hrun.
  { intros j Hj Hcv. pose proof (inv_flags _ _ Hinv j Hj) as Hf. rewrite Hl in Hf.
    unfold cover in *. rewrite zsum_mid_r, Hcv in Hf.
    pose proof (cover_nonneg j (sp_live w ++ l1 ++ l2)). unfold cover in *. destruct Hf as [[-> ?]|[? ?]]; [split; [done|lia]|lia]. }
  destruct (DeAlloc_loop_ok (Z.to_nat c) i (m_useFlag (sp_pool w))
              (sizeof_DataChunk * zsum snd (sp_live w ++ sp_freeing w))) as (fl & Hloop & Hlfl & Hv); [lia|lia| |].
  { intros j Hj. apply Hrun; [lia|]. unfold covers. cbn. rewrite decide_True; lia. }
  unfold Sender_DeAlloc_end, DeAlloc, ASSERT_CRASH. rewrite Hcc.
  replace (c <=? n) with true by lia. replace (i <? n) with true by lia. cbn [mbind outcome_bind].
  rewrite (inv_use _ _ Hinv), Hloop. cbn [mbind outcome_bind].
  eexists. split; [done|].
  split; cbn [sp_pool sp_live sp_freeing m_chunk m_senderList m_useFlag m_chunkCount m_useSize].
  - done.
  - lia.
  - rewrite Forall_forall in Hr |- *. intros x Hx. apply Hr. set_solver.
  - intros j Hj. rewrite (Hv j) by lia. pose proof (inv_flags _ _ Hinv j Hj) as Hf. rewrite Hl in Hf.
    unfold cover in *. rewrite zsum_mid_r in Hf. specialize (Hrun j Hj). unfold covers at 1 in Hrun.
    unfold covers at 2 4 in Hf. cbn [fst snd] in *. unfold cover in Hrun.
    destruct (decide (i <= Z.of_nat j < i + c)).
    + rewrite decide_True by lia. right. split; [done|]. by apply Hrun.
    + rewrite decide_False by lia. rewrite !Z.add_0_r in Hf. done.
  - apply Hinv.
  - rewrite Hl, zsum_mid_r. f_equal. cbn [snd]. unfold sizeof_DataChunk. lia.
  - apply Hinv.
Qed.

Lemma sp_step_inv n w w' : sp_inv n w -> sp_step w w' -> sp_inv n w'.
Proof.
  intros Hinv Hstep. destruct Hstep as [w size i p' Hs Ha|w size p' Hs Ha|w l1 i c l2 s s' run Hl Hsd Hb|w l1 i c l2 p' Hl He|w b b' Hm Hb].
  - destruct (Alloc_ok n w size Hinv Hs) as [[E _]|(j & p & E & _ & _ & Hi)]; rewrite Ha in E; simplify_eq. done.
  - destruct (Alloc_ok n w size Hinv Hs) as [[E _]|(j & p & E & _ & _ & Hi)]; rewrite Ha in E; simplify_eq.
    by destruct w.
  - destruct (free_begin_ok n w l1 i c l2 Hinv Hl) as (E1 & E2 & Hi).
    rewrite Hsd in E1. injection E1 as ->. rewrite E2 in Hb. injection Hb as <- <-. done.
  - destruct (free_end_ok n w l1 i c l2 Hinv Hl) as (p & E & Hi). rewrite He in E. by simplify_eq.
  - destruct Hinv. by split.
Qed.

Definition sp_reach (n : Z) : sp_world -> Prop := reach (sp_init n) sp_step (fun _ => True).

Lemma sp_reach_inv n w : sp_reach n w -> sp_inv n w.
Proof.
  apply reach_invariant; [apply sp_init_inv|]. intros s s' Hi Hs _. by eapply sp_step_inv.
Qed.

(** ** Properties *)

(** C8: in every interleaving of allocations and releases, the buffers of two
    different SenderRefs never share a byte, each lies inside the chunk array,
    and the sender object of a live reference still describes its own run. *)
Theorem senders_disjoint (n : Z) (w : sp_world) (i j : nat) (ix c ix' c' : Z) :
  sp_reach n w -> i <> j ->
  sp_live w !! i = Some (ix, c) -> sp_live w !! j = Some (ix', c') ->
  (ix + c <= ix' \/ ix' + c' <= ix) /\ 0 <= ix /\ ix + c <= n /\
  m_senderList (sp_pool w) !! Z.to_nat ix = Some (mkSender (Some ix) ix c).
Proof.
  intros Hr Hne Hi Hj. apply sp_reach_inv in Hr as Hinv.
  assert (Hruns := inv_runs _ _ Hinv). apply Forall_app in Hruns as [Hruns _].
  destruct (Forall_lookup_1 _ _ _ _ Hruns Hi) as (H1 & H2 & H3).
  destruct (Forall_lookup_1 _ _ _ _ Hruns Hj) as (H4 & H5 & H6). cbn in *.
  assert (Hlive := take_drop_middle _ _ _ Hi).
  destruct (free_begin_ok n w _ ix c _ Hinv (eq_sym Hlive)) as (Hs & _ & _).
  split_and!; [|done|done|done].
  destruct (decide (ix + c <= ix' \/ ix' + c' <= ix)) as [|Hover]; [done|exfalso].
  apply (runs_disjoint n w i j (ix, c) (ix', c') (Z.to_nat (Z.max ix ix')) Hinv).
  - by apply lookup_app_l_Some.
  - by apply lookup_app_l_Some.
  - done.
  - lia.
  - unfold covers. cbn. rewrite decide_True; lia.
  - unfold covers. cbn. rewrite decide_True; lia.
Qed.

(** no reachable pool crashes: an allocation of any packet size yields the
    lowest run of free chunks that holds it, or nullptr when there is none; the
    deleter of any live sender and of any half-released one passes all its
    assertions. *)
Theorem send_pool_total (n : Z) (w : sp_world) (size : Z) :
  sp_reach n w -> 0 <= size < 65536 ->
  (exists r p', Alloc size (sp_pool w) = Ok (r, p') /\
     first_fit (m_useFlag (sp_pool w)) (Z.to_nat (chunk_count size)) (default (-1) r) /\
     size < sizeof_DataChunk * chunk_count size) /\
  (forall ix c, (ix, c) ∈ sp_live w ->
     exists s, m_senderList (sp_pool w) !! Z.to_nat ix = Some s /\
               Sender_DeAlloc_begin s = Ok (Sender_new, Some (ix, c))) /\
  (forall ix c, (ix, c) ∈ sp_freeing w -> exists p', Sender_DeAlloc_end ix c (sp_pool w) = Ok p').
Proof.
  intros Hr Hs. apply sp_reach_inv in Hr as Hinv. split_and!.
  - destruct (chunk_count_range size Hs) as [Hc Hsz].
    destruct (Alloc_ok n w size Hinv Hs) as [[E Hno]|(i & p & E & Hf & Hlow & _)]; do 2 eexists; split_and!; try done.
    + left. done.
    + right. exists i. done.
  - intros ix c (l1 & l2 & E)%list_elem_of_split.
    destruct (free_begin_ok n w l1 ix c l2 Hinv E) as (H1 & H2 & _). eauto.
  - intros ix c (l1 & l2 & E)%list_elem_of_split.
    destruct (free_end_ok n w l1 ix c l2 Hinv E) as (p' & H1 & _). eauto.
Qed.

(** What [GetUsableSize] returns is not the usable size but the used one,
    and only modulo 2^16: 64 allocated chunks count as none. *)
Theorem GetUsableSize_wraps (n : Z) (w : sp_world) :
  sp_reach n w ->
  GetUsableSize (sp_pool w) =
    u16 (sizeof_DataChunk * zsum snd (sp_live w ++ sp_freeing w)) /\
  (zsum snd (sp_live w ++ sp_freeing w) = 64 -> GetUsableSize (sp_pool w) = 0).
Proof.
  intros Hr. apply sp_reach_inv in Hr as Hinv. unfold GetUsableSize. rewrite (inv_use _ _ Hinv).
  split; [done|]. intros ->. done.
Qed.

(** on an exhausted pool [GetSenderAndPacket] dereferences a null
    SenderRef; whenever a free run is left it returns a sender. *)
Theorem GetSenderAndPacket_null (n : Z) (w : sp_world) (size : Z) :
  sp_reach n w -> 4 <= size < 65536 ->
  ((forall i, ~ free_run (m_useFlag (sp_pool w)) i (Z.to_nat (chunk_count size))) ->
   GetSenderAndPacket size (sp_pool w) = Crash "null SenderRef dereferenced") /\
  (forall i, free_run (m_useFlag (sp_pool w)) i (Z.to_nat (chunk_count size)) ->
   exists ix p', GetSenderAndPacket size (sp_pool w) = Ok (ix, p')).
Proof.
  intros Hr Hs. apply sp_reach_inv in Hr as Hinv.
  unfold GetSenderAndPacket, Sender_Alloc, ASSERT_CRASH.
  replace (Z.of_nat sizeof_PacketHeader <=? size) with true by (unfold sizeof_PacketHeader; lia).
  cbn [mbind outcome_bind]. rewrite wrapU_small by (change (2 ^ 16) with 65536; lia).
  destruct (Alloc_ok n w size Hinv ltac:(lia)) as [[-> Hno]|(i & p & -> & Hf & Hlow & Hinv')];
    cbn [mbind outcome_bind]; split.
  - done.
  - intros i Hi. by destruct (Hno i).
  - intros Hno. by destruct (Hno i).
  - intros _ _. destruct (m_chunk p) eqn:Em; [by do 2 eexists|]. by destruct (inv_mem _ _ Hinv').
Qed.

(** *** A concrete pool of 100 chunks with a lobby list and a chat packet in flight *)

Definition fill0 (n : nat) : list Z := replicate n 0.
Definition pool100 : sp_world :=
  mkSp (mkSendPool (Some (fill0 (1024 * 100))) (replicate 100 Sender_new) (replicate 100 false) 100 0) [] [].

Definition after_alloc (size : Z) (w : sp_world) : sp_world :=
  match Alloc size (sp_pool w) with
  | Ok (Some ix, p') => mkSp p' ((ix, chunk_count size) :: sp_live w) (sp_freeing w)
  | _ => w
  end.

Definition pool_busy : sp_world := after_alloc 284 (after_alloc 1312 pool100).

Lemma after_alloc_reach n size w :
  0 <= size < 65536 -> sp_reach n w -> sp_reach n (after_alloc size w).
Proof.
  intros Hs Hr. unfold after_alloc. destruct (Alloc size (sp_pool w)) as [[[ix|] p']|] eqn:E; try done.
  eapply reach_step; [done| |done]. by apply sp_alloc.
Qed.

Lemma pool100_reach : sp_reach 100 pool100.
Proof. apply reach_init. split; [lia|]. exists (fun n => Some (fill0 n)). done. Qed.

Lemma pool_busy_reach : sp_reach 100 pool_busy.
Proof. unfold pool_busy. repeat (apply after_alloc_reach; [lia|]). apply pool100_reach. Qed.

Lemma senders_disjoint_witness :
  (2 + 1 <= 0 \/ 0 + 2 <= 2) /\ 0 <= 2 /\ 2 + 1 <= 100 /\
  m_senderList (sp_pool pool_busy) !! 2%nat = Some (mkSender (Some 2) 2 1).
Proof. apply (senders_disjoint 100 pool_busy 0 1 2 1 0 2 pool_busy_reach); [done|reflexivity|reflexivity]. Defined.

Lemma send_pool_total_witness :
  exists r p', Alloc 69 (sp_pool pool_busy) = Ok (r, p') /\
    first_fit (m_useFlag (sp_pool pool_busy)) 1 (default (-1) r).
Proof.
  destruct (send_pool_total 100 pool_busy 69 pool_busy_reach ltac:(lia)) as ((r & p' & H1 & H2 & _) & _).
  eauto.
Defined.

Lemma GetUsableSize_wraps_witness : GetUsableSize (sp_pool (after_alloc 65535 pool100)) = 0.
Proof.
  apply (GetUsableSize_wraps 100 (after_alloc 65535 pool100)).
  - apply after_alloc_reach; [lia|apply pool100_reach].
  - reflexivity.
Defined.

Lemma GetSenderAndPacket_null_witness :
  exists ix p', GetSenderAndPacket 284 (sp_pool pool_busy) = Ok (ix, p').
Proof.
  apply (proj2 (GetSenderAndPacket_null 100 pool_busy 284 pool_busy_reach ltac:(lia)) 3%nat).
  intros j Hj. assert (j = 3)%nat as -> by (change (Z.to_nat (chunk_count 284)) with 1%nat in Hj; lia).
  reflexivity.
Defined.
