(* ===== verification/Session.v ===== *)
(** * The session's send path and its completion events

    src/DhNet_Server/ServerCore/Session.h and Session.cpp ([Send],
    [RegisterSend], [ProcessSend], [HandleError], [Dispatch]), IocpEvent.h.

    [Send] and the tail of [ProcessSend] run under the session's lock, so each
    is one step; the head of [ProcessSend] runs without it.  Any number of
    threads call [Send] and [Disconnect]; the kernel completes a WSASend at any
    time.  [A] is the type of SenderRefs. *)

From S2P Require Import Prelude.

Inductive EventType := Connect | Disconnect | Accept | Recv | Send.

(** The results of a WSASend call: completed or WSA_IO_PENDING (a completion
    will be queued either way), or another error code. *)
Inductive wsa_result := Posted | Failed (errorCode : Z).

Definition WSAECONNABORTED : Z := 10053.
Definition WSAECONNRESET : Z := 10054.

Section session.
Context {A : Type}.

(** The members the send path uses; [m_sendOwner] is [m_sendEvent.m_owner != nullptr]. *)
Record Session := mkSession {
  m_connected : bool;
  m_sendRegistered : bool;
  m_senderQueue : list A;
  m_sendOwner : bool;
  m_senders : list A;          (* m_sendEvent.m_senders *)
}.

Definition Session_new : Session := mkSession false false [] false [].

(** What is outside the session: the WSASend calls made, oldest first, with
    their results; the posted ones not yet completed; the threads between the
    two halves of ProcessSend; the senders ever given to Send, oldest first. *)
Record net := mkNet {
  submitted : list (list A * wsa_result);
  inflight : list (list A);
  completing : nat;
  accepted : list A;
}.

Definition net_new : net := mkNet [] [] 0 [].

(** [m_connected.exchange(false)]; what follows when it was true is in Service.v. *)
Definition Disconnect_flag (s : Session) : Session :=
  mkSession false (m_sendRegistered s) (m_senderQueue s) (m_sendOwner s) (m_senders s).

Definition HandleError (_errorCode : Z) (s : Session) : Session :=
  if (_errorCode =? WSAECONNRESET) || (_errorCode =? WSAECONNABORTED) then Disconnect_flag s else s.

Definition RegisterSend (res : wsa_result) (s : Session) (w : net) : Session * net :=
  if negb (m_connected s) then (s, w)
  else
    (* the loop moves the whole queue, front first, behind m_sendEvent.m_senders *)
    let s := mkSession (m_connected s) (m_sendRegistered s) [] true (m_senders s ++ m_senderQueue s) in
    let batch := m_senders s in
    let w := mkNet (submitted w ++ [(batch, res)])
               (match res with Posted => inflight w ++ [batch] | Failed _ => inflight w end)
               (completing w) (accepted w) in
    match res with
    | Posted => (s, w)
    | Failed errorCode =>
        let s := HandleError errorCode s in
        (mkSession (m_connected s) false (m_senderQueue s) false [], w)
    end.

Definition Send_ (_sender : A) (res : wsa_result) (s : Session) (w : net) : Session * net :=
  let w := mkNet (submitted w) (inflight w) (completing w) (accepted w ++ [_sender]) in
  let registered := m_sendRegistered s in
  let s := mkSession (m_connected s) true (m_senderQueue s ++ [_sender]) (m_sendOwner s) (m_senders s) in
  if negb registered then RegisterSend res s w else (s, w).

(** ProcessSend before its lock. [true] when it goes on. *)
Definition ProcessSend_head (_numOfBytes : Z) (s : Session) : bool * Session :=
  let s := mkSession (m_connected s) (m_sendRegistered s) (m_senderQueue s) false [] in
  if _numOfBytes =? 0 then (false, Disconnect_flag s) else (true, s).

(** ... and under it. *)
Definition ProcessSend_tail (res : wsa_result) (s : Session) (w : net) : Session * net :=
  match m_senderQueue s with
  | [] => (mkSession (m_connected s) false (m_senderQueue s) (m_sendOwner s) (m_senders s), w)
  | _ :: _ => RegisterSend res s w
  end.

Inductive send_step : Session * net -> Session * net -> Prop :=
| st_send s w x res : send_step (s, w) (Send_ x res s w)
| st_disconnect s w : send_step (s, w) (Disconnect_flag s, w)
| st_complete s w l1 b l2 n :
    inflight w = l1 ++ b :: l2 ->
    send_step (s, w)
      (let '(go, s') := ProcessSend_head n s in
       (s', mkNet (submitted w) (l1 ++ l2) (if go then S (completing w) else completing w) (accepted w)))
| st_process s w res k :
    completing w = S k ->
    send_step (s, w)
      (ProcessSend_tail res s (mkNet (submitted w) (inflight w) k (accepted w))).

(** A session that has just been connected. *)
Definition send_init (st : Session * net) : Prop :=
  st = (mkSession true false [] false [], net_new).

Definition send_reach : Session * net -> Prop := reach send_init send_step (fun _ => True).

(** ** Invariant *)

Definition pending (w : net) : nat := (length (inflight w) + completing w)%nat.

(** [live]: nothing was sent before the session was connected; without it
    everything but the progress clause holds. *)
Record send_inv (live : Prop) (s : Session) (w : net) : Prop := mkSendInv {
  si_fifo : accepted w = concat (map fst (submitted w)) ++ m_senderQueue s;
  si_one : (pending w <= 1)%nat;
  si_reg : m_sendRegistered s = false -> pending w = 0%nat;
  si_live : live -> m_connected s = true ->
    (m_sendRegistered s = true -> pending w = 1%nat) /\ (m_senderQueue s <> [] -> m_sendRegistered s = true);
  si_senders : m_senders s = concat (inflight w);
  si_owner : m_sendOwner s = bool_decide (inflight w <> []);
}.

Lemma RegisterSend_inv (live : Prop) res s w :
  accepted w = concat (map fst (submitted w)) ++ m_senderQueue s ->
  pending w = 0%nat -> m_sendRegistered s = true ->
  m_senders s = [] -> m_sendOwner s = false ->
  let '(s', w') := RegisterSend res s w in send_inv live s' w'.
Proof.
  intros Hf Hp Hr Hs Ho. unfold pending in Hp.
  assert (inflight w = []) as Hi by (destruct (inflight w); [done|cbn in Hp; lia]).
  assert (completing w = 0%nat) as Hc by lia.
  unfold RegisterSend. destruct (m_connected s) eqn:Ec; cbn [negb].
  - cbn [m_senders m_senderQueue m_connected m_sendRegistered]. rewrite Hs. cbn [app].
    destruct res as [|e].
    + rewrite Hi. split; cbn; rewrite ?Hc; try done.
      * by rewrite map_app, concat_app, Hf; cbn; rewrite !app_nil_r.
      * rewrite Hr. done.
      * by rewrite app_nil_r.
    + unfold HandleError. case_match; split; unfold pending; cbn; rewrite ?Hc, ?Hi; try done; try (cbn; lia);
        by rewrite map_app, concat_app, Hf; cbn; rewrite !app_nil_r.
  - split; try done; unfold pending; rewrite ?Hi, ?Hc; try done; cbn; try lia; congruence.
Qed.

Lemma send_step_inv (live : Prop) s w s' w' :
  send_inv live s w -> send_step (s, w) (s', w') -> send_inv live s' w'.
Proof.
  intros Hinv Hstep. inversion Hstep as [? ? x res E1 E2|? ? E1 E2|? ? l1 b l2 n Hi E1 E2|? ? res k Hk E1 E2]; subst.
  - unfold Send_ in E2. destruct (m_sendRegistered s) eqn:Er; cbn [negb] in E2.
    + simplify_eq. destruct Hinv as [Hf Ho Hr Hl Hs Hw]. split; cbn; try done.
      * by rewrite Hf, app_assoc.
      * intros HL Hc. destruct (Hl HL Hc) as [H1 _]. split; [by intros _; apply H1|done].
    + pose proof (si_reg _ _ _ Hinv Er) as Hp0. unfold pending in Hp0.
      assert (inflight w = []) as Hi by (destruct (inflight w); [done|cbn in Hp0; lia]).
      match type of E2 with RegisterSend ?r ?s0 ?w0 = _ =>
        pose proof (RegisterSend_inv live r s0 w0) as HR; rewrite E2 in HR end.
      apply HR; cbn; try done.
      * by rewrite (si_fifo _ _ _ Hinv), app_assoc.
      * by rewrite (si_senders _ _ _ Hinv), Hi.
      * by rewrite (si_owner _ _ _ Hinv), Hi.
  - simplify_eq. destruct Hinv. by split.
  - assert (Ho := si_one _ _ _ Hinv). unfold pending in Ho. rewrite Hi, length_app in Ho. cbn in Ho.
    assert (l1 = []) as -> by (destruct l1; [done|cbn in Ho; lia]).
    assert (l2 = []) as -> by (destruct l2; [done|cbn in Ho; lia]).
    assert (completing w = 0%nat) as Hc by (cbn in Ho; lia).
    assert (m_sendRegistered s = true) as Hr.
    { destruct (m_sendRegistered s) eqn:E; [done|]. pose proof (si_reg _ _ _ Hinv E) as Hp.
      unfold pending in Hp. rewrite Hi in Hp. done. }
    destruct Hinv as [Hf _ _ Hl Hs Hw]. unfold ProcessSend_head in E2.
    destruct (n =? 0); simplify_eq; split; unfold pending; cbn; rewrite ?Hc; try done; try lia; try congruence.
  - assert (Ho := si_one _ _ _ Hinv). unfold pending in Ho. rewrite Hk in Ho.
    assert (inflight w = []) as Hi by (destruct (inflight w); [done|cbn in Ho; lia]).
    assert (k = 0%nat) as -> by lia.
    assert (m_sendRegistered s = true) as Hr.
    { destruct (m_sendRegistered s) eqn:E; [done|]. pose proof (si_reg _ _ _ Hinv E) as Hp.
      unfold pending in Hp. rewrite Hi, Hk in Hp. done. }
    unfold ProcessSend_tail in E2. destruct (m_senderQueue s) as [|q qs] eqn:Eq.
    + simplify_eq. destruct Hinv as [Hf _ _ Hl Hs Hw]. rewrite Hi in Hs, Hw.
      split; unfold pending; cbn; rewrite ?Hi; try done; try (cbn; lia). by rewrite Hf, Eq.
    + match type of E2 with RegisterSend ?r ?s0 ?w0 = _ =>
        pose proof (RegisterSend_inv live r s0 w0) as HR; rewrite E2 in HR end.
      apply HR; cbn; try done.
      * by rewrite (si_fifo _ _ _ Hinv).
      * unfold pending. cbn. rewrite Hi. done.
      * by rewrite (si_senders _ _ _ Hinv), Hi.
      * by rewrite (si_owner _ _ _ Hinv), Hi.
Qed.

Lemma send_reach_inv st : send_reach st -> send_inv True (fst st) (snd st).
Proof.
  intros Hr. induction Hr as [st Hi|st st' _ IH Hs _].
  - rewrite Hi. split; unfold pending; cbn; try done; lia.
  - destruct st as [s w], st' as [s' w']. by eapply send_step_inv.
Qed.
End session.
Arguments Session : clear implicits.
Arguments net : clear implicits.

(** ** Properties *)

(** C12: over every interleaving of senders, completions, send failures and
    disconnects on a connected session: at most one WSASend is outstanding (so
    the shared [m_sendEvent] is never in use twice), the buffers it points to
    are exactly those [m_sendEvent] keeps alive, and the batches given to
    WSASend followed by the queue are the senders in the order Send took them,
    none twice, none skipped. *)
Theorem send_fifo_exclusive {A} (s : Session A) (w : net A) :
  send_reach (s, w) ->
  (length (inflight w) + completing w <= 1)%nat /\
  m_senders s = concat (inflight w) /\
  accepted w = concat (map fst (submitted w)) ++ m_senderQueue s.
Proof. intros H. apply send_reach_inv in H as [Hf Ho _ _ Hs _]. done. Qed.

(** A run of sends, with the result WSASend would return for each. *)
Definition sends {A} (xs : list (A * wsa_result)) (st : Session A * net A) : Session A * net A :=
  fold_left (fun '(s, w) '(x, r) => Send_ x r s w) xs st.

(** [m_connected.store(true)] of ProcessConnect. *)
Definition ProcessConnect_flag {A} (s : Session A) : Session A :=
  mkSession true (m_sendRegistered s) (m_senderQueue s) (m_sendOwner s) (m_senders s).

(** A session that is connected after [before] was sent on it. *)
Definition connected_after {A} (before : list (A * wsa_result)) : Session A * net A :=
  let '(s, w) := sends before (Session_new, net_new) in (ProcessConnect_flag s, w).

Lemma sends_registered {A} (xs : list (A * wsa_result)) s w :
  m_sendRegistered s = true ->
  sends xs (s, w) =
    (mkSession (m_connected s) true (m_senderQueue s ++ map fst xs) (m_sendOwner s) (m_senders s),
     mkNet (submitted w) (inflight w) (completing w) (accepted w ++ map fst xs)).
Proof.
  revert s w. induction xs as [|[x r] xs IH]; intros s w Hr; cbn.
  - rewrite !app_nil_r, <- Hr. by destruct s, w.
  - unfold Send_. rewrite Hr. cbn [negb]. unfold sends in IH. rewrite IH by done. cbn. by rewrite <- !app_assoc.
Qed.

(** Sent too early: registered, with nothing posted. *)
Definition blocked {A} (st : Session A * net A) : Prop :=
  m_sendRegistered (fst st) = true /\ submitted (snd st) = [] /\ pending (snd st) = 0%nat /\
  m_senderQueue (fst st) = accepted (snd st).

Lemma connected_after_blocked {A} (before : list (A * wsa_result)) : before <> [] -> blocked (connected_after before).
Proof.
  intros Hne. destruct before as [|[x r] xs]; [done|]. unfold connected_after.
  change (sends ((x, r) :: xs) (Session_new, net_new)) with (sends xs (Send_ x r Session_new net_new)).
  cbn [Send_ RegisterSend m_connected m_sendRegistered Session_new negb m_senderQueue app].
  rewrite sends_registered by done. by repeat split.
Qed.

Lemma blocked_step {A} (st st' : Session A * net A) : blocked st -> send_step st st' -> blocked st'.
Proof.
  intros (Hr & Hs & Hp & Hq) Hstep. unfold blocked, pending in *.
  destruct Hstep as [s w x res|s w|s w l1 b l2 n Hi|s w res k Hk]; cbn in *; try done.
  - unfold Send_. rewrite Hr. cbn. by rewrite Hq.
  - rewrite Hi, length_app in Hp. cbn in Hp. lia.
  - lia.
Qed.

(** C13: a sender is stranded exactly when something was sent before the session was
    connected.  When nothing was: as long as the session is connected, a non-empty
    queue means that a WSASend is in flight or its completion is being processed, and
    once neither is the case everything accepted was handed to WSASend.  When
    something was, nothing is ever handed to WSASend, and every sender stays queued. *)
Theorem send_not_stranded {A} (before : list (A * wsa_result)) (s : Session A) (w : net A) :
  reach (fun st => st = connected_after before) send_step (fun _ => True) (s, w) -> m_connected s = true ->
  if decide (before = []) then
    (m_senderQueue s <> [] -> (length (inflight w) + completing w = 1)%nat) /\
    ((length (inflight w) + completing w = 0)%nat -> accepted w = concat (map fst (submitted w)))
  else submitted w = [] /\ (length (inflight w) + completing w = 0)%nat /\ m_senderQueue s = accepted w.
Proof.
  intros H Hc. destruct (decide (before = [])) as [->|Hne].
  - apply send_reach_inv in H as [Hf _ _ Hl _ _]. destruct (Hl I Hc) as [H1 H2]. cbn in *.
    split; [intros Hq; by apply H1, H2|].
    intros Hp. destruct (m_senderQueue s) eqn:Eq; [by rewrite app_nil_r in Hf|].
    unfold pending in *. rewrite H1 in Hp by (by apply H2). done.
  - assert (blocked (s, w)) as (_ & H1 & H2 & H3); [|done].
    revert H. apply (reach_invariant _ _ _ blocked).
    + intros st ->. by apply connected_after_blocked.
    + intros. by eapply blocked_step.
Qed.

(** A Send before the session is connected blocks it for good: it sets
    [m_sendRegistered] without posting anything, so no later Send on the
    connected session posts anything either. *)
Theorem send_before_connect_blocks {A} (x : A) (r : wsa_result) (xs : list (A * wsa_result)) :
  let '(s, w) := Send_ x r Session_new net_new in
  let '(s', w') := sends xs (ProcessConnect_flag s, w) in
  m_connected s' = true /\ submitted w' = [] /\ inflight w' = [] /\ m_senderQueue s' = x :: map fst xs.
Proof. cbn. by rewrite sends_registered by done. Qed.

(** *** Three senders, the second and third queued behind the first *)

Definition busy : Session Z * net Z :=
  sends [(1, Posted); (2, Posted); (3, Posted)] (mkSession true false [] false [], net_new).

Lemma busy_reach : send_reach busy.
Proof.
  assert (forall xs st, send_reach st -> send_reach (sends (A := Z) xs st)) as H.
  { intros xs. induction xs as [|[x r] xs IH]; intros [s w] Hr; [done|]. cbn. apply IH.
    eapply reach_step; [done|apply st_send|done]. }
  apply H. by apply reach_init.
Qed.

Lemma send_fifo_exclusive_witness :
  accepted (snd busy) = [1; 2; 3] /\ submitted (snd busy) = [([1], Posted)] /\
  accepted (snd busy) = concat (map fst (submitted (snd busy))) ++ m_senderQueue (fst busy).
Proof. split_and!; [reflexivity|reflexivity|]. apply (send_fifo_exclusive (fst busy) (snd busy) busy_reach). Defined.

(** One sender before the connection, one after it. *)
Definition stuck : Session Z * net Z := sends [(2, Posted)] (connected_after [(1, Posted)]).

Lemma send_not_stranded_witness :
  (m_senderQueue (fst busy) = [2; 3] /\ (length (inflight (snd busy)) + completing (snd busy) = 1)%nat) /\
  (m_senderQueue (fst stuck) = [1; 2] /\ submitted (snd stuck) = []).
Proof.
  split; split; [reflexivity| |reflexivity|].
  - apply (send_not_stranded [] (fst busy) (snd busy) busy_reach eq_refl). discriminate.
  - apply (send_not_stranded [(1, Posted)] (fst stuck) (snd stuck)); [|reflexivity].
    eapply (reach_step _ _ _ (connected_after [(1, Posted)])); [by apply reach_init| |done].
    apply (st_send (fst (connected_after [(1, Posted)])) (snd (connected_after [(1, Posted)])) 2 Posted).
Defined.
