(* ===== verification/Service.v ===== *)
(** * Services: the session registry, connecting, disconnecting, accepting

    src/DhNet_Server/ServerCore/Service.h, Service.cpp, Listener.cpp,
    IocpCore.cpp, NetAddress.h/.cpp and the connection half of Session.cpp
    ([ProcessConnect], [Disconnect], [Dispatch]).

    A SessionRef is a number.  [ProcessConnect] and [Disconnect] take several
    steps that threads interleave: the store, [AddSession], and for Disconnect
    the exchange, the virtual [OnDisconnected] and [ReleaseSession].  The calls
    into Winsock are arguments. *)

From S2P Require Import Prelude Session.

(** ** Service *)

Record Service := mkService {
  m_sessions : gset nat;
  m_sessionCount : Z;
  m_maxSessionCount : Z;
  m_isServerService : bool;
}.

Definition Service_new (isServer : bool) (_maxSessionCount : Z) : Service :=
  mkService ∅ 0 _maxSessionCount isServer.

Definition AddSession (_session : nat) (v : Service) : Service :=
  mkService ({[_session]} ∪ m_sessions v) (i32 (m_sessionCount v + 1))
    (m_maxSessionCount v) (m_isServerService v).

Definition ReleaseSession (_session : nat) (v : Service) : outcome Service :=
  _ ← ASSERT_CRASH (_session ∈? m_sessions v);
  Ok (mkService (m_sessions v ∖ {[_session]}) (i32 (m_sessionCount v - 1))
        (m_maxSessionCount v) (m_isServerService v)).

Definition GetSessions (v : Service) : list nat := elements (m_sessions v).

(** [CreateSession]: the factory's object, or nullptr when the completion port
    refuses it. *)
Definition CreateSession (session : nat) (registered : bool) : option nat :=
  if registered then Some session else None.

(** ** Connecting and disconnecting *)

Inductive conn_phase := Stored | Added.
Inductive disc_pc := Exchanged | Notified.

#[global] Instance disc_pc_eq_dec : EqDecision disc_pc.
Proof. solve_decision. Defined.

(** [sv_sess]: [m_connected] of each session and how far its ProcessConnect
    got; [sv_disc]: the threads inside Disconnect after winning the exchange;
    [sv_log]: the OnDisconnected calls made. *)
Record svc_world := mkSvc {
  sv_service : Service;
  sv_sess : gmap nat (bool * conn_phase);
  sv_disc : list (nat * disc_pc);
  sv_log : list nat;
}.

(** [m_connected.store(true)] *)
Definition ProcessConnect_store (id : nat) (w : svc_world) : svc_world :=
  mkSvc (sv_service w) (<[id := (true, Stored)]> (sv_sess w)) (sv_disc w) (sv_log w).

Definition ProcessConnect_add (id : nat) (b : bool) (w : svc_world) : svc_world :=
  mkSvc (AddSession id (sv_service w)) (<[id := (b, Added)]> (sv_sess w)) (sv_disc w) (sv_log w).

(** [if (m_connected.exchange(false) == false) return;] *)
Definition Disconnect_exchange (id : nat) (b : bool) (w : svc_world) : svc_world :=
  mkSvc (sv_service w) (<[id := (false, Added)]> (sv_sess w))
    (if b then (id, Exchanged) :: sv_disc w else sv_disc w) (sv_log w).

Inductive svc_step : svc_world -> svc_world -> Prop :=
| sv_store w id : sv_sess w !! id = None -> svc_step w (ProcessConnect_store id w)
| sv_add w id b : sv_sess w !! id = Some (b, Stored) -> svc_step w (ProcessConnect_add id b w)
(* others hold the session only from AddSession on: through the service, its
   receives, or what OnConnected registered *)
| sv_exchange w id b : sv_sess w !! id = Some (b, Added) -> svc_step w (Disconnect_exchange id b w)
| sv_notify w l1 id l2 :
    sv_disc w = l1 ++ (id, Exchanged) :: l2 ->
    svc_step w (mkSvc (sv_service w) (sv_sess w) (l1 ++ (id, Notified) :: l2) (sv_log w ++ [id]))
| sv_release w l1 id l2 v' :
    sv_disc w = l1 ++ (id, Notified) :: l2 -> ReleaseSession id (sv_service w) = Ok v' ->
    svc_step w (mkSvc v' (sv_sess w) (l1 ++ l2) (sv_log w)).

(** ** BroadCast *)

Section broadcast.
Context {A : Type}.

(** The sessions' send state, by SessionRef. *)
Abbreviation sess_map := (gmap nat (Session A * net A)).

(** One turn of the range-for: Send under the service's lock, with the WSASend
    result this session would get.  When Send ends in Disconnect, the same
    thread's ReleaseSession erases the element the iterator stands on. *)
Definition broadcast_one (_sender : A) (res : nat -> wsa_result) (id : nat) (m : sess_map)
  : outcome sess_map :=
  match m !! id with
  | None => Crash "dangling SessionRef"
  | Some (s, w) =>
      let '(s', w') := Send_ _sender (res id) s w in
      if m_connected s && negb (m_connected s') then Crash "std::set iterator invalidated"
      else Ok (<[id := (s', w')]> m)
  end.

Fixpoint broadcast_loop (_sender : A) (res : nat -> wsa_result) (ids : list nat) (m : sess_map)
  : outcome sess_map :=
  match ids with
  | [] => Ok m
  | id :: ids' => m ← broadcast_one _sender res id m; broadcast_loop _sender res ids' m
  end.

Definition BroadCast (_sender : A) (res : nat -> wsa_result) (v : Service) (m : sess_map) : outcome sess_map :=
  broadcast_loop _sender res (elements (m_sessions v)) m.
End broadcast.

(** ** ClientService *)

(** [Start]: for each of m_maxSessionCount sessions, [connect i] is what
    CreateSession (nullptr, dereferenced) and Connect give; [Ok b] is the
    value returned. *)
Fixpoint ClientService_Start_loop (n : nat) (i : nat) (connect : nat -> option bool) : outcome bool :=
  match n with
  | O => Ok true
  | S n' =>
      match connect i with
      | None => Crash "null SessionRef dereferenced"
      | Some false => Ok false
      | Some true => ClientService_Start_loop n' (S i) connect
      end
  end.

Definition ClientService_Start (v : Service) (connect : nat -> option bool) : outcome bool :=
  ClientService_Start_loop (Z.to_nat (m_maxSessionCount v)) 0 connect.

(** One thread's whole Disconnect. *)
Definition Disconnect_all (id : nat) (w : svc_world) : outcome svc_world :=
  match sv_sess w !! id with
  | Some (true, ph) =>
      v ← ReleaseSession id (sv_service w);
      Ok (mkSvc v (<[id := (false, ph)]> (sv_sess w)) (sv_disc w) (sv_log w ++ [id]))
  | _ => Ok w
  end.

(** [End]: a copy of the set, then [if (s && s->IsConnected()) s->Disconnect(..)]. *)
Definition ClientService_End (w : svc_world) : outcome svc_world :=
  fold_left (fun acc id => w ← acc;
      match sv_sess w !! id with
      | Some (true, _) => Disconnect_all id w
      | _ => Ok w
      end) (elements (m_sessions (sv_service w))) (Ok w).

(** ** The listener *)

(** The listener's view: how many sessions the factory has made, and the
    session of the posted AcceptEx. *)
Record Listener := mkListener { l_made : nat; l_posted : option nat }.

(** Results of CreateSession's registration and of AcceptEx, one pair for each call
    the thread's stack has room for: RegisterAccept calls itself until AcceptEx is
    posted, and when no call on the stack was, the stack overflows. *)
Fixpoint RegisterAccept (attempts : list (bool * wsa_result)) (l : Listener) : outcome Listener :=
  match attempts with
  | [] => Crash "stack overflow in RegisterAccept"
  | (registered, res) :: attempts' =>
      match CreateSession (l_made l) registered with
      | None => Crash "null SessionRef dereferenced"
      | Some session =>
          let l := mkListener (S (l_made l)) None in
          match res with
          | Posted => Ok (mkListener (l_made l) (Some session))
          | Failed _ => RegisterAccept attempts' l
          end
      end
  end.

(** [ProcessAccept]: SO_UPDATE_ACCEPT_CONTEXT, getpeername, ProcessConnect of
    the accepted session, and the next AcceptEx in every case. *)
Definition ProcessAccept (update peer : bool) (attempts : list (bool * wsa_result))
    (l : Listener) (w : svc_world) : outcome (Listener * svc_world) :=
  match l_posted l with
  | None => Crash "null SessionRef dereferenced"
  | Some session =>
      let w := if update && peer
               then ProcessConnect_add session true (ProcessConnect_store session w) else w in
      l ← RegisterAccept attempts l;
      Ok (l, w)
  end.

Definition Listener_Dispatch (type : EventType) (update peer : bool) (attempts : list (bool * wsa_result))
    (l : Listener) (w : svc_world) : outcome (Listener * svc_world) :=
  _ ← ASSERT_CRASH (match type with Accept => true | _ => false end);
  ProcessAccept update peer attempts l w.

(** ** IocpCore::Dispatch *)

Definition WAIT_TIMEOUT : Z := 258.
Definition ERROR_CONNECTION_REFUSED : Z := 1225.

(** What GetQueuedCompletionStatus reports: the dequeued event (null when it
    dequeued none) and on failure the error code.  The result says which event
    is dispatched to its owner, and what Dispatch returns. *)
Definition IocpCore_Dispatch {E} (event : option E) (error : option Z) : outcome (option E * bool) :=
  match error with
  | None => match event with Some e => Ok (Some e, true) | None => Crash "null IocpEvent dereferenced" end
  | Some errCode =>
      if errCode =? WAIT_TIMEOUT then Ok (None, false)
      else if errCode =? ERROR_CONNECTION_REFUSED then Ok (None, false)
      else match event with Some e => Ok (Some e, true) | None => Crash "null IocpEvent dereferenced" end
  end.

(** ** NetAddress *)

Definition htons (p : Z) : Z := (p mod 256) * 256 + p / 256 mod 256.
Definition ntohs (p : Z) : Z := (p mod 256) * 256 + p / 256 mod 256.

Record NetAddress := mkNetAddress { sin_addr : Z; sin_port : Z }.

(** [Ip2Address] is InetPton, [ip] its result. *)
Definition NetAddress_new (ip : Z) (_port : Z) : NetAddress := mkNetAddress ip (htons _port).
Definition GetPort (a : NetAddress) : Z := ntohs (sin_port a).

(** [inet]: InetPtonW; [junk]: what the uninitialised IN_ADDR holds. *)
Definition Ip2Address (inet : list Z -> option Z) (junk : Z) (_ip : list Z) : Z := default junk (inet _ip).

(** The address BindAnyAddress binds to: INADDR_ANY. *)
Definition any_address (_port : Z) : NetAddress := mkNetAddress 0 (htons _port).

Definition svc_init (w : svc_world) : Prop :=
  exists b n, w = mkSvc (Service_new b n) ∅ [] [].

Definition svc_reach : svc_world -> Prop := reach svc_init svc_step (fun _ => True).

Record svc_inv (w : svc_world) : Prop := mkSvcInv {
  sv_members : forall id, id ∈ m_sessions (sv_service w) <->
    sv_sess w !! id = Some (true, Added) \/ id ∈ (sv_disc w).*1;
  sv_discs : forall id pc, (id, pc) ∈ sv_disc w -> sv_sess w !! id = Some (false, Added);
  sv_nodup : NoDup (sv_disc w).*1;
  sv_count : m_sessionCount (sv_service w) = i32 (Z.of_nat (size (m_sessions (sv_service w))));
  sv_log_nodup : NoDup (sv_log w);
  sv_log_disc : forall id, id ∈ sv_log w -> sv_sess w !! id = Some (false, Added) /\ (id, Exchanged) ∉ sv_disc w;
  sv_stored : forall id b, sv_sess w !! id = Some (b, Stored) -> b = true;
}.

Lemma i32_add_i32 a b : i32 (i32 a + b) = i32 (a + b).
Proof.
  unfold wrapS. change (2 ^ (32 - 1)) with 2147483648. change (2 ^ 32) with 4294967296.
  replace ((a + 2147483648) mod 4294967296 - 2147483648 + b + 2147483648)
    with ((a + 2147483648) mod 4294967296 + b) by lia.
  rewrite Zplus_mod_idemp_l. do 2 f_equal. lia.
Qed.

(** A thread that has notified finds its session still registered. *)
Lemma release_ok w l1 id pc l2 :
  svc_inv w -> sv_disc w = l1 ++ (id, pc) :: l2 ->
  ReleaseSession id (sv_service w) =
    Ok (mkService (m_sessions (sv_service w) ∖ {[id]}) (i32 (m_sessionCount (sv_service w) - 1))
          (m_maxSessionCount (sv_service w)) (m_isServerService (sv_service w))) /\
  id ∈ m_sessions (sv_service w) /\ id ∉ (l1 ++ l2).*1.
Proof.
  intros Hinv Hd. assert (id ∈ m_sessions (sv_service w)) as Hin.
  { apply sv_members; [done|]. right. rewrite Hd, fmap_app, fmap_cons. set_solver. }
  split; [|split; [done|]].
  - unfold ReleaseSession. by rewrite bool_decide_true.
  - pose proof (sv_nodup _ Hinv) as Hn. rewrite Hd, fmap_app, fmap_cons in Hn.
    apply NoDup_app in Hn as (_ & H1 & H2). apply NoDup_cons in H2 as [H2 _].
    rewrite fmap_app, elem_of_app. intros [H|H]; [|done].
    apply (H1 _ H). set_solver.
Qed.

(** ProcessConnect marks a session no one knows yet. *)
Lemma connect_store_inv w id :
  svc_inv w -> sv_sess w !! id = None -> svc_inv (ProcessConnect_store id w).
Proof.
  intros Hinv E. assert (Hinv' := Hinv); destruct Hinv' as [Hm Hd Hn Hc Hln Hld Hst].
  split; cbn; try done.
  - intros i. rewrite Hm. destruct (decide (i = id)) as [->|Hne]; [|by rewrite lookup_insert_ne].
    rewrite lookup_insert_eq, E. naive_solver.
  - intros i pc Hi. rewrite lookup_insert_ne; [by eapply Hd|]. intros <-. rewrite (Hd _ _ Hi) in E. done.
  - intros i Hi. rewrite lookup_insert_ne; [by apply Hld|]. intros <-. destruct (Hld _ Hi). congruence.
  - intros i b. destruct (decide (i = id)) as [->|Hne]; [rewrite lookup_insert_eq; congruence|].
    rewrite lookup_insert_ne by done. apply Hst.
Qed.

(** ... and registers it. *)
Lemma connect_add_inv w id b :
  svc_inv w -> sv_sess w !! id = Some (b, Stored) -> svc_inv (ProcessConnect_add id b w).
Proof.
  intros Hinv E. assert (Hinv' := Hinv); destruct Hinv' as [Hm Hd Hn Hc Hln Hld Hst].
  apply Hst in E as E'. subst b.
  assert (id ∉ (sv_disc w).*1) as Hnd.
  { intros ([i pc] & -> & Hi)%list_elem_of_fmap. apply Hd in Hi. cbn in *. congruence. }
  assert (id ∉ m_sessions (sv_service w)) as Hnot by (rewrite Hm, E; naive_solver).
  split; cbn; try done.
  - intros i. rewrite elem_of_union, elem_of_singleton, Hm.
    destruct (decide (i = id)) as [->|Hne]; [rewrite lookup_insert_eq; naive_solver|].
    rewrite lookup_insert_ne by done. naive_solver.
  - intros i pc Hi. rewrite lookup_insert_ne; [by eapply Hd|]. intros <-. rewrite (Hd _ _ Hi) in E. done.
  - rewrite Hc, i32_add_i32, size_union, size_singleton by set_solver. f_equal. lia.
  - intros i Hi. rewrite lookup_insert_ne; [by apply Hld|]. intros <-. destruct (Hld _ Hi). congruence.
  - intros i b. destruct (decide (i = id)) as [->|Hne]; [rewrite lookup_insert_eq; congruence|].
    rewrite lookup_insert_ne by done. apply Hst.
Qed.

(** The exchange lets one thread per connection into Disconnect. *)
Lemma exchange_inv w id b :
  svc_inv w -> sv_sess w !! id = Some (b, Added) -> svc_inv (Disconnect_exchange id b w).
Proof.
  intros Hinv E. assert (Hinv' := Hinv); destruct Hinv' as [Hm Hd Hn Hc Hln Hld Hst].
  assert (b = true -> id ∉ (sv_disc w).*1) as Hnd.
  { intros -> ([i pc] & -> & Hi)%list_elem_of_fmap. apply Hd in Hi. cbn in *. congruence. }
  assert (Hsess : forall i x, <[id:=(false, Added)]> (sv_sess w) !! i = Some x <->
            i = id /\ x = (false, Added) \/ i <> id /\ sv_sess w !! i = Some x).
  { intros i x. rewrite lookup_insert_Some. naive_solver. }
  split; cbn.
  - intros i. rewrite Hm, Hsess. destruct (decide (i = id)) as [->|Hne].
    + rewrite E. destruct b; cbn; [set_solver|naive_solver].
    + destruct b; cbn; set_solver.
  - intros i pc Hi. rewrite Hsess. destruct (decide (i = id)) as [->|Hne]; [by left|right].
    split; [done|]. apply (Hd i pc). destruct b; [|done]. apply elem_of_cons in Hi as [?|?]; [congruence|done].
  - destruct b; [|done]. cbn. apply NoDup_cons. auto.
  - done.
  - done.
  - intros i Hi. destruct (Hld i Hi) as [H1 H2]. rewrite Hsess.
    split; [destruct (decide (i = id)); naive_solver|].
    destruct b; [|done]. intros [?|?]%elem_of_cons; [|done]. naive_solver.
  - intros i b' Hi. apply Hsess in Hi as [[_ ?]|[_ Hi]]; [congruence|]. by apply (Hst i).
Qed.

(** OnDisconnected has not run for this session before. *)
Lemma notify_inv w l1 id l2 :
  svc_inv w -> sv_disc w = l1 ++ (id, Exchanged) :: l2 -> svc_inv (mkSvc (sv_service w) (sv_sess w) (l1 ++ (id, Notified) :: l2) (sv_log w ++ [id])).
Proof.
  intros Hinv E. assert (Hinv' := Hinv); destruct Hinv' as [Hm Hd Hn Hc Hln Hld Hst].
  assert ((sv_disc w).*1 = (l1 ++ (id, Notified) :: l2).*1) as Ef by (by rewrite E, !fmap_app).
  assert (sv_sess w !! id = Some (false, Added)) as Hid by (apply (Hd id Exchanged); rewrite E; set_solver).
  assert (id ∉ sv_log w) as Hnl.
  { intros Hi. destruct (Hld _ Hi) as [_ Hx]. apply Hx. rewrite E. set_solver. }
  assert (id ∉ (l1 ++ l2).*1) as Hn12 by (by eapply release_ok).
  split; cbn; rewrite <- ?Ef; try done.
  - intros i pc Hi. apply elem_of_app in Hi as [Hi|Hi]; [apply (Hd i pc); rewrite E; set_solver|].
    apply elem_of_cons in Hi as [Hi|Hi]; [by simplify_eq|]. apply (Hd i pc); rewrite E; set_solver.
  - apply NoDup_app. split_and!; [done| |apply NoDup_singleton]. set_solver.
  - intros i Hi. apply elem_of_app in Hi as [Hi|Hi].
    + destruct (Hld i Hi) as [H1 H2]. split; [done|]. rewrite E in H2. set_solver.
    + apply list_elem_of_singleton in Hi as ->. split; [done|].
      rewrite elem_of_app, elem_of_cons. intros [H|[H|H]]; [|done|];
        apply Hn12; rewrite fmap_app, elem_of_app; [left|right]; by apply (list_elem_of_fmap_2 fst) in H.
Qed.

Lemma release_inv w l1 id l2 v' :
  svc_inv w -> sv_disc w = l1 ++ (id, Notified) :: l2 -> ReleaseSession id (sv_service w) = Ok v' -> svc_inv (mkSvc v' (sv_sess w) (l1 ++ l2) (sv_log w)).
Proof.
  intros Hinv E Hr. assert (Hinv' := Hinv); destruct Hinv' as [Hm Hd Hn Hc Hln Hld Hst].
  destruct (release_ok w l1 id Notified l2 Hinv E) as (Er & Hin & Hnot). rewrite Hr in Er. simplify_eq.
  split; cbn; try done.
  - intros i. rewrite elem_of_difference, elem_of_singleton, Hm, E, !fmap_app, fmap_cons.
    rewrite fmap_app in Hnot. cbn.
    assert (sv_sess w !! id = Some (false, Added)) by (apply (Hd id Notified); rewrite E; set_solver).
    split; [|]; intros H'; [set_solver|]. split; [set_solver|]. intros ->.
    destruct H' as [H'|H']; [congruence|done].
  - intros i pc Hi. apply (Hd i pc). rewrite E. set_solver.
  - rewrite E, fmap_app, fmap_cons in Hn. rewrite fmap_app.
    apply NoDup_app in Hn as (? & H1 & [_ H2]%NoDup_cons). apply NoDup_app. split_and!; [done| |done].
    set_solver.
  - rewrite Hc. replace (i32 (Z.of_nat (size (m_sessions (sv_service w)))) - 1)
      with (i32 (Z.of_nat (size (m_sessions (sv_service w)))) + -1) by lia.
    rewrite i32_add_i32, size_difference, size_singleton by set_solver. f_equal.
    assert (size (m_sessions (sv_service w)) <> 0%nat); [|lia].
    intros H0. apply size_empty_inv in H0. set_solver.
  - intros i Hi. destruct (Hld i Hi) as [H1 H2]. split; [done|]. rewrite E in H2. set_solver.
Qed.

Lemma svc_step_inv w w' : svc_inv w -> svc_step w w' -> svc_inv w'.
Proof.
  intros Hinv Hstep. destruct Hstep; eauto using connect_store_inv, connect_add_inv, exchange_inv, notify_inv, release_inv.
Qed.

Lemma svc_reach_inv w : svc_reach w -> svc_inv w.
Proof.
  apply reach_invariant; [|intros; by eapply svc_step_inv].
  intros s (b & n & ->). split; cbn; try done.
  - intros id. set_solver.
  - intros id pc H. set_solver.
  - constructor.
  - constructor.
  - intros id H. set_solver.
Qed.

(** ** Properties *)

(** C31: however many threads disconnect a session at once, [OnDisconnected]
    runs at most once per session, [ReleaseSession] never fails its assertion,
    and the session count is the size of the set: the connected sessions and
    those still being disconnected. *)
Theorem disconnect_once (w : svc_world) :
  svc_reach w ->
  NoDup (sv_log w) /\
  (forall id pc, (id, pc) ∈ sv_disc w -> is_Ok (ReleaseSession id (sv_service w)) = true) /\
  m_sessionCount (sv_service w) = i32 (Z.of_nat (size (m_sessions (sv_service w)))) /\
  (forall id, id ∈ m_sessions (sv_service w) <->
     sv_sess w !! id = Some (true, Added) \/ exists pc, (id, pc) ∈ sv_disc w).
Proof.
  intros Hr. apply svc_reach_inv in Hr as Hinv. split_and!.
  - apply Hinv.
  - intros id pc (l1 & l2 & E)%list_elem_of_split.
    destruct (release_ok w l1 id pc l2 Hinv E) as (-> & _). done.
  - apply Hinv.
  - intros id. rewrite (sv_members _ Hinv), list_elem_of_fmap. split.
    + intros [?|([i pc] & -> & ?)]; eauto.
    + intros [?|[pc ?]]; [by left|right]. by exists (id, pc).
Qed.

(** Two sessions, the first being disconnected by two threads. *)
Definition svc_demo : svc_world :=
  let w := mkSvc (Service_new true 100) ∅ [] [] in
  let w := ProcessConnect_add 0 true (ProcessConnect_store 0 w) in
  let w := ProcessConnect_add 1 true (ProcessConnect_store 1 w) in
  Disconnect_exchange 0 false (Disconnect_exchange 0 true w).

Lemma svc_demo_reach : svc_reach svc_demo.
Proof.
  do 2 (eapply reach_step; [|by apply sv_exchange|done]).
  do 2 (eapply reach_step; [|by apply sv_add|done]; eapply reach_step; [|by apply sv_store|done]).
  apply reach_init. by do 2 eexists.
Qed.

Lemma disconnect_once_witness :
  m_sessionCount (sv_service svc_demo) = 2 /\ is_Ok (ReleaseSession 0 (sv_service svc_demo)) = true.
Proof.
  split; [reflexivity|].
  apply (disconnect_once svc_demo svc_demo_reach) with Exchanged. apply elem_of_cons. by left.
Defined.

Section broadcast_properties.
Context {A : Type}.
Implicit Types (m : gmap nat (Session A * net A)) (x : A).

(** A WSASend result that does not report a reset connection. *)
Definition not_reset (r : wsa_result) : bool :=
  match r with
  | Posted => true
  | Failed e => negb ((e =? WSAECONNRESET) || (e =? WSAECONNABORTED))
  end.

Lemma Send_connected x r (s : Session A) w :
  not_reset r = true -> m_connected (fst (Send_ x r s w)) = m_connected s.
Proof.
  intros Hr. unfold Send_, RegisterSend. destruct (m_sendRegistered s); cbn; [done|].
  destruct (m_connected s) eqn:Ec; cbn; [|done]. destruct r as [|e]; cbn; [done|].
  unfold HandleError. cbn in Hr. rewrite negb_true_iff in Hr. by rewrite Hr.
Qed.

Lemma Send_accepted x r (s : Session A) w : accepted (snd (Send_ x r s w)) = accepted w ++ [x].
Proof.
  unfold Send_, RegisterSend. destruct (m_sendRegistered s); cbn; [done|].
  destruct (m_connected s); cbn; [|done]. by destruct r.
Qed.

Lemma broadcast_loop_ok x res ids m :
  NoDup ids -> (forall id, id ∈ ids -> is_Some (m !! id) /\ not_reset (res id) = true) ->
  exists m', broadcast_loop x res ids m = Ok m' /\
    (forall id, id ∈ ids -> exists s w, m !! id = Some (s, w) /\ m' !! id = Some (Send_ x (res id) s w)) /\
    (forall id, id ∉ ids -> m' !! id = m !! id).
Proof.
  revert m. induction ids as [|i ids IH]; intros m Hn Hin.
  { exists m. split_and!; [done|set_solver|done]. }
  apply NoDup_cons in Hn as [Hi Hn]. cbn [broadcast_loop]. unfold broadcast_one.
  destruct (Hin i ltac:(set_solver)) as [[[s w] Es] Hr]. rewrite Es.
  pose proof (Send_connected x (res i) s w Hr) as Hc.
  destruct (Send_ x (res i) s w) as [s' w'] eqn:E. cbn in Hc. rewrite Hc, andb_negb_r. cbn [mbind outcome_bind].
  destruct (IH (<[i:=(s', w')]> m) Hn) as (m' & -> & H1 & H2).
  { intros j Hj. rewrite lookup_insert_ne by set_solver. apply Hin. set_solver. }
  exists m'. split_and!; [done|..].
  - intros j [->|Hj]%elem_of_cons.
    + exists s, w. split; [done|]. rewrite H2 by done. by rewrite lookup_insert_eq, E.
    + destruct (H1 j Hj) as (s0 & w0 & H3 & H4). exists s0, w0. rewrite lookup_insert_ne in H3 by set_solver. done.
  - intros j Hj. rewrite H2 by set_solver. apply lookup_insert_ne. set_solver.
Qed.
End broadcast_properties.

(** BroadCast hands the sender to every registered session exactly once
    and touches no other, provided no session's WSASend reports a reset
    connection at that moment. *)
Theorem broadcast_reaches_all {A} (x : A) (res : nat -> wsa_result) (v : Service)
    (m : gmap nat (Session A * net A)) :
  (forall id, id ∈ m_sessions v -> is_Some (m !! id) /\ not_reset (res id) = true) ->
  exists m', BroadCast x res v m = Ok m' /\
    (forall id s w, id ∈ m_sessions v -> m !! id = Some (s, w) ->
       exists s' w', m' !! id = Some (s', w') /\ accepted w' = accepted w ++ [x]) /\
    (forall id, id ∉ m_sessions v -> m' !! id = m !! id).
Proof.
  intros H. unfold BroadCast.
  destruct (broadcast_loop_ok x res (elements (m_sessions v)) m) as (m' & -> & H1 & H2).
  { apply NoDup_elements. }
  { intros id Hid. apply H. by apply elem_of_elements. }
  exists m'. split_and!; [done|..].
  - intros id s w Hid E. destruct (H1 id) as (s0 & w0 & E0 & E1); [by apply elem_of_elements|].
    rewrite E in E0. simplify_eq. pose proof (Send_accepted x (res id) s0 w0) as Ha.
    destruct (Send_ x (res id) s0 w0) as [s' w']. eauto.
  - intros id Hid. apply H2. by rewrite elem_of_elements.
Qed.

Definition idle {A} : Session A * net A := (mkSession true false [] false [], net_new).

Lemma broadcast_reaches_all_witness :
  exists m', BroadCast 7 (fun _ => Posted) (mkService {[0%nat; 1%nat]} 2 2 false)
               (<[0%nat := idle]> {[1%nat := idle]}) = Ok m'.
Proof.
  destruct (broadcast_reaches_all 7 (fun _ => Posted) (mkService {[0%nat; 1%nat]} 2 2 false)
    (<[0%nat := idle]> {[1%nat := idle]})) as (m' & H & _); [|by exists m'].
  cbn. intros id Hid. split; [|done]. apply elem_of_union in Hid as [Hid|Hid]; apply elem_of_singleton in Hid as ->; by eexists.
Defined.

(** When a session's WSASend does report one, BroadCast's Send ends in
    ReleaseSession erasing the element under the loop's iterator. *)
Theorem broadcast_reset_invalidates {A} (x : A) (v : Service) (m : gmap nat (Session A * net A)) (s : Session A) w id :
  elements (m_sessions v) = [id] -> m !! id = Some (s, w) ->
  m_connected s = true -> m_sendRegistered s = false ->
  BroadCast x (fun _ => Failed WSAECONNRESET) v m = Crash "std::set iterator invalidated".
Proof.
  intros He Hm Hc Hr. unfold BroadCast. rewrite He. cbn [broadcast_loop]. unfold broadcast_one. rewrite Hm.
  unfold Send_, RegisterSend. rewrite Hr. cbn. rewrite Hc. done.
Qed.

Lemma broadcast_reset_invalidates_witness :
  BroadCast 7 (fun _ => Failed WSAECONNRESET) (mkService {[0%nat]} 1 1 false) {[0%nat := idle]} =
  Crash "std::set iterator invalidated".
Proof.
  apply (broadcast_reset_invalidates 7 _ _ (fst idle) (snd idle) 0%nat);
    [reflexivity|reflexivity|reflexivity|reflexivity].
Defined.

(** After an accept completes, a new session is posted for the next one as
    soon as one AcceptEx call succeeds, and the accepted session is registered
    iff both socket calls succeeded. *)
Lemma RegisterAccept_posts (pre : list Z) l rest :
  RegisterAccept (map (fun e => (true, Failed e)) pre ++ (true, Posted) :: rest) l =
    Ok (mkListener (l_made l + length pre + 1) (Some (l_made l + length pre)%nat)).
Proof.
  revert l. induction pre as [|e pre IH]; intros l; cbn.
  - f_equal. f_equal; [lia|]. f_equal. lia.
  - rewrite IH. cbn. f_equal. f_equal; [lia|]. f_equal. lia.
Qed.

(** RegisterAccept returns exactly when some call was posted before the stack was
    full, and every call up to it had a session. *)
Definition accept_posted (attempts : list (bool * wsa_result)) : Prop :=
  exists errors rest, attempts = map (fun e => (true, Failed e)) errors ++ (true, Posted) :: rest.

Lemma RegisterAccept_Ok attempts l :
  (exists l', RegisterAccept attempts l = Ok l') <-> accept_posted attempts.
Proof.
  split.
  - intros [l' H]. revert l H. induction attempts as [|[[] [|e]] attempts IH]; intros l H; cbn in H; try done.
    + by exists [], attempts.
    + destruct (IH _ H) as (errors & rest & ->). by exists (e :: errors), rest.
  - intros (errors & rest & ->). eexists. apply RegisterAccept_posts.
Qed.

Lemma RegisterAccept_session attempts l l' : RegisterAccept attempts l = Ok l' -> is_Some (l_posted l').
Proof.
  intros H. destruct (proj1 (RegisterAccept_Ok attempts l) (ex_intro _ _ H)) as (errors & rest & ->).
  rewrite RegisterAccept_posts in H. simplify_eq. by eexists.
Qed.

Lemma port_roundtrip ip p : 0 <= p < 65536 -> GetPort (NetAddress_new ip p) = p.
Proof.
  intros Hp. unfold GetPort, NetAddress_new, ntohs, htons. cbn [sin_port].
  rewrite (Z.mod_small (p / 256) 256) by (split; [apply Z.div_pos|apply Z.div_lt_upper_bound]; lia).
  pose proof (Z.mod_pos_bound p 256 ltac:(lia)).
  assert (0 <= p / 256 < 256) by (split; [apply Z.div_pos|apply Z.div_lt_upper_bound]; lia).
  rewrite (Z.add_comm (p mod 256 * 256)), Z_mod_plus_full, Z.div_add by lia.
  rewrite (Z.mod_small (p / 256)), (Z.div_small (p / 256)), Z.add_0_l, Z.mod_mod by lia.
  pose proof (Z.div_mod p 256 ltac:(lia)). lia.
Qed.
