(* ===== verification/Lifetime.v ===== *)
(** * The life of a session: its overlapped events and who keeps it alive

    src/DhNet_Server/ServerCore/Session.cpp ([RegisterConnect],
    [RegisterDisconnect], [RegisterRecv], [ProcessConnect], [ProcessDisconnect],
    [Disconnect], [Dispatch]), IocpEvent.h and IocpCore.cpp ([Dispatch]).

    A session holds one event object per kind of operation; the kernel writes
    into the event while the operation is pending, so the event must not be used
    twice nor be freed.  [m_owner] of the event is a reference to the session: it
    is set before the call into Winsock and cleared when the completion is
    processed.  Here any number of threads run the session's methods, one list of
    remaining actions per thread, next to the send path of Session.v and the
    kernel's completions in any order.  The body of ProcessRecv is in RecvBuffer.v;
    here only whether it goes on or disconnects. *)

From S2P Require Import Prelude Session Service.

(** ** State *)

(** What is left to do in a thread. [LClearRecv] is the line after HandleError in
    RegisterRecv; [LPostRecv] what follows RegisterRecv's check. *)
Inductive lact :=
| LRegisterConnect
| LProcessConnect
| LRegisterRecv
| LPostRecv
| LClearRecv
| LProcessRecv
| LDisconnect
| LRegisterDisconnect
| LProcessDisconnect.

(** The two warnings: a refused connection (IocpCore.cpp), an error HandleError
    does not treat. *)
Inductive warning := WRefused | WHandleError (e : Z).

#[global] Instance warning_eq_dec : EqDecision warning.
Proof. solve_decision. Defined.

Scheme Boolean Equality for lact.

(** How many of the actions left in the threads are [a]. *)
Definition todo1 (a : lact) : list lact -> nat := sum_list_with (fun b => Nat.b2n (lact_beq a b)).
Definition todo (a : lact) : list (list lact) -> nat := sum_list_with (todo1 a).

Lemma todo_at a t1 q t2 : todo a (t1 ++ q :: t2) = (todo a t1 + todo1 a q + todo a t2)%nat.
Proof. unfold todo. rewrite sum_list_with_app. cbn. lia. Qed.

Lemma todo_snoc a t q : todo a (t ++ [q]) = (todo a t + todo1 a q)%nat.
Proof. rewrite todo_at. cbn. lia. Qed.

Lemma todo1_cons a b q : todo1 a (b :: q) = (Nat.b2n (lact_beq a b) + todo1 a q)%nat.
Proof. done. Qed.

(** Refused connections and unhandled errors in the log. *)
Definition refused : list warning -> nat := sum_list_with (fun x => match x with WRefused => 1 | _ => 0 end)%nat.
Definition unhandled : list warning -> nat := sum_list_with (fun x => match x with WRefused => 0 | _ => 1 end)%nat.

Lemma refused_snoc g x : refused (g ++ [x]) = (refused g + match x with WRefused => 1 | _ => 0 end)%nat.
Proof. unfold refused. rewrite sum_list_with_app. cbn. lia. Qed.

Lemma unhandled_snoc g x : unhandled (g ++ [x]) = (unhandled g + match x with WRefused => 0 | _ => 1 end)%nat.
Proof. unfold unhandled. rewrite sum_list_with_app. cbn. lia. Qed.

Section lifetime.
Context {A : Type}.

Record life := mkLife {
  lf_client : bool;                (* the service is a ClientService *)
  lf_sess : Session A;             (* m_connected and the send path *)
  lf_net : net A;
  m_connectOwner : bool;           (* m_connectEvent.m_owner != nullptr *)
  m_recvOwner : bool;
  m_disconnectOwner : bool;
  k_connect : nat;                 (* operations the kernel holds *)
  k_recv : nat;
  k_disconnect : nat;
  lf_thr : list (list lact);
  lf_log : list warning;
}.

Definition set_sess (s : Session A) (w : net A) (l : life) : life :=
  mkLife (lf_client l) s w (m_connectOwner l) (m_recvOwner l) (m_disconnectOwner l)
    (k_connect l) (k_recv l) (k_disconnect l) (lf_thr l) (lf_log l).
Definition set_connect (o : bool) (k : nat) (l : life) : life :=
  mkLife (lf_client l) (lf_sess l) (lf_net l) o (m_recvOwner l) (m_disconnectOwner l)
    k (k_recv l) (k_disconnect l) (lf_thr l) (lf_log l).
Definition set_recv (o : bool) (k : nat) (l : life) : life :=
  mkLife (lf_client l) (lf_sess l) (lf_net l) (m_connectOwner l) o (m_disconnectOwner l)
    (k_connect l) k (k_disconnect l) (lf_thr l) (lf_log l).
Definition set_disconnect (o : bool) (k : nat) (l : life) : life :=
  mkLife (lf_client l) (lf_sess l) (lf_net l) (m_connectOwner l) (m_recvOwner l) o
    (k_connect l) (k_recv l) k (lf_thr l) (lf_log l).
Definition set_thr (t : list (list lact)) (l : life) : life :=
  mkLife (lf_client l) (lf_sess l) (lf_net l) (m_connectOwner l) (m_recvOwner l) (m_disconnectOwner l)
    (k_connect l) (k_recv l) (k_disconnect l) t (lf_log l).
Definition warn (x : warning) (l : life) : life :=
  mkLife (lf_client l) (lf_sess l) (lf_net l) (m_connectOwner l) (m_recvOwner l) (m_disconnectOwner l)
    (k_connect l) (k_recv l) (k_disconnect l) (lf_thr l) (lf_log l ++ [x]).

Definition IsConnected (l : life) : bool := m_connected (lf_sess l).

(** ** The methods *)

(** What the environment answers an action: the socket calls before ConnectEx,
    the overlapped call, and whether ProcessRecv's loop goes on. *)
Record answers := mkAnswers { a_reuse : bool; a_bind : bool; a_res : wsa_result; a_go : bool }.

Definition RegisterConnect (x : answers) (l : life) : bool * life :=
  if IsConnected l then (false, l)
  else if negb (lf_client l) then (false, l)
  else if negb (a_reuse x) then (false, l)
  else if negb (a_bind x) then (false, l)
  else
    let l := set_connect true (k_connect l) l in
    match a_res x with
    | Posted => (true, set_connect (m_connectOwner l) (S (k_connect l)) l)
    | Failed _ => (false, set_connect false (k_connect l) l)
    end.

Definition RegisterDisconnect (x : answers) (l : life) : bool * life :=
  let l := set_disconnect true (k_disconnect l) l in
  match a_res x with
  | Posted => (true, set_disconnect (m_disconnectOwner l) (S (k_disconnect l)) l)
  | Failed _ => (false, set_disconnect false (k_disconnect l) l)
  end.

(** [if (IsConnected() == false) return;] of RegisterRecv. *)
Definition RegisterRecv_check (l : life) : list lact := if IsConnected l then [LPostRecv] else [].

(** HandleError as a call inside another method. *)
Definition HandleError_acts (e : Z) (l : life) : life * list lact :=
  if (e =? WSAECONNRESET) || (e =? WSAECONNABORTED) then (l, [LDisconnect]) else (warn (WHandleError e) l, []).

Definition RegisterRecv_post (x : answers) (l : life) : life * list lact :=
  let l := set_recv true (k_recv l) l in
  match a_res x with
  | Posted => (set_recv (m_recvOwner l) (S (k_recv l)) l, [])
  | Failed e => let '(l, acts) := HandleError_acts e l in (l, acts ++ [LClearRecv])
  end.

(** The exchange, and what is left for the thread that wins it: OnDisconnected and
    ReleaseSession (Service.v), then RegisterDisconnect. *)
Definition Disconnect_call (l : life) : life * list lact :=
  if IsConnected l
  then (set_sess (Disconnect_flag (lf_sess l)) (lf_net l) l, [LRegisterDisconnect])
  else (l, []).

(** The owner is released, m_connected stored; AddSession is in Service.v, what
    OnConnected does are other threads' steps; then RegisterRecv. *)
Definition ProcessConnect_call (l : life) : life * list lact :=
  let l := set_connect false (k_connect l) l in
  (set_sess (ProcessConnect_flag (lf_sess l)) (lf_net l) l, [LRegisterRecv]).

Definition ProcessDisconnect_call (l : life) : life := set_disconnect false (k_disconnect l) l.

Definition ProcessRecv_call (x : answers) (l : life) : life * list lact :=
  (set_recv false (k_recv l) l, if a_go x then [LRegisterRecv] else [LDisconnect]).

Definition exec_lact (a : lact) (x : answers) (l : life) : life * list lact :=
  match a with
  | LRegisterConnect => (snd (RegisterConnect x l), [])
  | LProcessConnect => ProcessConnect_call l
  | LRegisterRecv => (l, RegisterRecv_check l)
  | LPostRecv => RegisterRecv_post x l
  | LClearRecv => (set_recv false (k_recv l) l, [])
  | LProcessRecv => ProcessRecv_call x l
  | LDisconnect => Disconnect_call l
  | LRegisterDisconnect => (snd (RegisterDisconnect x l), [])
  | LProcessDisconnect => (ProcessDisconnect_call l, [])
  end.

(** [Session::Dispatch]; the send event's ProcessSend is in Session.v. *)
Definition Session_Dispatch (type : EventType) : list lact :=
  match type with
  | Connect => [LProcessConnect]
  | Disconnect => [LProcessDisconnect]
  | Recv => [LProcessRecv]
  | Send | Accept => []
  end.

(** The kernel gives back an event it holds. *)
Definition kernel_take (e : EventType) (l : life) : option life :=
  match e, k_connect l, k_recv l, k_disconnect l with
  | Connect, S n, _, _ => Some (set_connect (m_connectOwner l) n l)
  | Recv, _, S n, _ => Some (set_recv (m_recvOwner l) n l)
  | Disconnect, _, _, S n => Some (set_disconnect (m_disconnectOwner l) n l)
  | _, _, _, _ => None
  end.

(** A worker's IocpCore::Dispatch of that event. *)
Definition completed (e : EventType) (err : option Z) (l : life) : life :=
  match IocpCore_Dispatch (Some e) err with
  | Ok (Some e, _) => set_thr (lf_thr l ++ [Session_Dispatch e]) l
  | Ok (None, _) => warn WRefused l
  | Crash _ => l
  end.

(** GetQueuedCompletionStatus reports WAIT_TIMEOUT only without an event, and
    only a connect is refused. *)
Definition may_report (e : EventType) (err : option Z) : Prop :=
  err <> Some WAIT_TIMEOUT /\ (e <> Connect -> err <> Some ERROR_CONNECTION_REFUSED).

(** A step of the send path; a thread whose send ended in Disconnect goes on with
    RegisterDisconnect. *)
Definition after_send (s : Session A) (w : net A) (l : life) : life :=
  set_thr (if IsConnected l && negb (m_connected s) then lf_thr l ++ [[LRegisterDisconnect]] else lf_thr l)
    (set_sess s w l).

Inductive life_step : life -> life -> Prop :=
| ls_run l t1 a k t2 x :
    lf_thr l = t1 ++ (a :: k) :: t2 ->
    life_step l (let '(l', acts) := exec_lact a x l in set_thr (t1 ++ (acts ++ k) :: t2) l')
| ls_complete l e err l' :
    kernel_take e l = Some l' -> may_report e err -> life_step l (completed e err l')
| ls_send l s w : send_step (lf_sess l, lf_net l) (s, w) -> life_step l (after_send s w l)
| ls_call l : life_step l (set_thr (lf_thr l ++ [[LDisconnect]]) l).

(** A session is made by a ClientService, which calls Connect, or by the listener,
    which calls ProcessConnect when it was accepted. *)
Definition life_start (client : bool) : life :=
  mkLife client Session_new net_new false false false 0 0 0
    [[if client then LRegisterConnect else LProcessConnect]] [].

Definition life_init (l : life) : Prop := exists client, l = life_start client.
Definition life_reach : life -> Prop := reach life_init life_step (fun _ => True).

(** The references the session's events hold to it, and the operations the
    kernel has pending on them. *)
Definition self_refs (l : life) : nat :=
  Nat.b2n (m_connectOwner l) + Nat.b2n (m_recvOwner l) + Nat.b2n (m_disconnectOwner l) +
  Nat.b2n (m_sendOwner (lf_sess l)).
Definition kernel_ops (l : life) : nat :=
  k_connect l + k_recv l + k_disconnect l + length (inflight (lf_net l)).

(** ** Invariant *)

(** Who has yet to bring the connection up, and who carries on the receive loop:
    a thread or the kernel. *)
Definition connecting (l : life) : nat :=
  todo LRegisterConnect (lf_thr l) + todo LProcessConnect (lf_thr l) + k_connect l.
Definition receiving (l : life) : nat :=
  todo LRegisterRecv (lf_thr l) + todo LPostRecv (lf_thr l) + todo LClearRecv (lf_thr l) +
  todo LProcessRecv (lf_thr l) + k_recv l.
Definition disconnecting (l : life) : nat :=
  todo LRegisterDisconnect (lf_thr l) + todo LProcessDisconnect (lf_thr l) + k_disconnect l.

Record life_inv (l : life) : Prop := mkLifeInv {
  li_token : (connecting l + receiving l + refused (lf_log l) <= 1)%nat;
  li_disc : (connecting l + Nat.b2n (IsConnected l) + disconnecting l <= 1)%nat;
  li_connectOwner : Nat.b2n (m_connectOwner l) =
    (refused (lf_log l) + k_connect l + if lf_client l then todo LProcessConnect (lf_thr l) else 0)%nat;
  li_server : lf_client l = false -> k_connect l = 0%nat;
  li_recvOwner : Nat.b2n (m_recvOwner l) =
    (k_recv l + todo LProcessRecv (lf_thr l) + todo LClearRecv (lf_thr l))%nat;
  li_disconnectOwner : Nat.b2n (m_disconnectOwner l) =
    (k_disconnect l + todo LProcessDisconnect (lf_thr l))%nat;
  li_send : send_inv False (lf_sess l) (lf_net l);
  li_armed : IsConnected l = true ->
    (1 <= receiving l + todo LDisconnect (lf_thr l) + unhandled (lf_log l))%nat;
  li_clear : IsConnected l = true ->
    (todo LClearRecv (lf_thr l) <= todo LDisconnect (lf_thr l) + unhandled (lf_log l))%nat;
}.

Lemma send_step_flag (s s' : Session A) (w w' : net A) :
  send_step (s, w) (s', w') -> m_connected s = false -> m_connected s' = false.
Proof.
  intros H Hc.
  inversion H as [? ? x res E1 E2|? ? E1 E2|? ? l1 b l2 n Hi E1 E2|? ? res k Hk E1 E2]; subst.
  - unfold Send_, RegisterSend in E2. cbn in E2. rewrite Hc in E2. cbn in E2. case_match; by simplify_eq.
  - by simplify_eq.
  - unfold ProcessSend_head in E2. repeat case_match; by simplify_eq.
  - unfold ProcessSend_tail, RegisterSend in E2. rewrite Hc in E2. cbn in E2. case_match; by simplify_eq.
Qed.

Lemma send_inv_flag (s : Session A) w b :
  send_inv False s w ->
  send_inv False (mkSession b (m_sendRegistered s) (m_senderQueue s) (m_sendOwner s) (m_senders s)) w.
Proof. intros []. by split. Qed.

#[local] Hint Resolve send_inv_flag : core.

Ltac life_unfold :=
  unfold after_send, connecting, receiving, disconnecting, IsConnected, warn, set_thr, set_sess,
    set_connect, set_recv, set_disconnect, Disconnect_flag, ProcessConnect_flag in *;
  cbn [lf_client lf_sess lf_net m_connectOwner m_recvOwner m_disconnectOwner k_connect k_recv
    k_disconnect lf_thr lf_log m_connected a_res a_go a_reuse a_bind snd fst app Nat.b2n] in *.

Ltac life_count :=
  rewrite ?todo_snoc, ?todo_at, ?refused_snoc, ?unhandled_snoc, ?todo1_cons in *;
  cbn [lact_beq Nat.b2n todo1 sum_list_with app] in *.

Ltac life_close :=
  cbn [negb andb app] in *; life_unfold; split; life_unfold; life_count; auto; intros; try discriminate; try lia;
  try match goal with H : send_inv _ _ _ |- _ => eapply (send_inv_flag _ _) in H; exact H end.

Lemma life_run_inv l t1 a k t2 x :
  life_inv l -> lf_thr l = t1 ++ (a :: k) :: t2 ->
  life_inv (let '(l', acts) := exec_lact a x l in set_thr (t1 ++ (acts ++ k) :: t2) l').
Proof.
  intros Hinv Hthr. destruct l as [cl s w co ro do kc kr kd thr lg], x as [re bi res go]. life_unfold. subst thr.
  destruct Hinv as [H1 H2 H3 H4 H5 H6 H7 H8 H9]. destruct s as [c sr sq so ss]. life_unfold. life_count.
  destruct a; cbn [exec_lact];
    unfold RegisterConnect, ProcessConnect_call, RegisterRecv_check, RegisterRecv_post, HandleError_acts,
      ProcessRecv_call, Disconnect_call, RegisterDisconnect, ProcessDisconnect_call; life_unfold.
  - destruct c, cl, re, bi, res; life_close.
  - destruct c, cl; life_close.
  - destruct c; life_close.
  - destruct res as [|e]; [|destruct ((e =? WSAECONNRESET) || (e =? WSAECONNABORTED))]; life_close.
  - destruct c; life_close.
  - destruct go; life_close.
  - destruct c; life_close.
  - destruct res; life_close.
  - life_close.
Qed.

Lemma life_complete_inv l e err l' :
  life_inv l -> kernel_take e l = Some l' -> may_report e err -> life_inv (completed e err l').
Proof.
  intros Hinv Hk [Ht Hr]. destruct l as [cl s w co ro do kc kr kd thr lg].
  destruct Hinv as [H1 H2 H3 H4 H5 H6 H7 H8 H9]. destruct s as [c sr sq so ss]. life_unfold.
  assert (e = Connect /\ (exists n, kc = S n) \/ e = Recv /\ (exists n, kr = S n) \/
          e = Disconnect /\ (exists n, kd = S n)) as Hcase
    by (unfold kernel_take in Hk; destruct e, kc, kr, kd; cbn in Hk; naive_solver).
  assert (IocpCore_Dispatch (Some e) err = Ok (Some e, true) \/
          e = Connect /\ IocpCore_Dispatch (Some e) err = Ok (None, false)) as Hd.
  { unfold IocpCore_Dispatch. destruct err as [er|]; [|by left].
    destruct (Z.eqb_spec er WAIT_TIMEOUT) as [->|]; [done|].
    destruct (Z.eqb_spec er ERROR_CONNECTION_REFUSED) as [->|]; [|by left].
    right. split; [|done]. destruct e; try done; exfalso; by apply Hr. }
  unfold completed.
  destruct Hcase as [[-> [n ->]]|[[-> [n ->]]|[-> [n ->]]]]; destruct Hd as [->|[? ->]]; try done;
    unfold kernel_take in Hk; life_unfold; simplify_eq; cbn [Session_Dispatch]; destruct cl, c; life_close;
    match goal with H : false = false -> _ |- _ => specialize (H eq_refl) end; lia.
Qed.

Lemma life_send_inv l s w :
  life_inv l -> send_step (lf_sess l, lf_net l) (s, w) -> life_inv (after_send s w l).
Proof.
  intros Hinv Hs. pose proof (send_step_flag _ _ _ _ Hs) as Hc.
  pose proof (send_step_inv _ _ _ _ _ (li_send _ Hinv) Hs) as HS.
  destruct l as [cl [c0 sr0 sq0 so0 ss0] w0 co ro do kc kr kd thr lg], s as [c sr sq so ss].
  destruct Hinv as [H1 H2 H3 H4 H5 H6 H7 H8 H9]. life_unfold.
  destruct c0, c, cl; try (specialize (Hc eq_refl); done); life_close.
Qed.

Lemma life_reach_inv l : life_reach l -> life_inv l.
Proof.
  intros Hr. induction Hr as [l [cl ->]|l l' _ IH Hs _].
  - assert (send_inv False (@Session_new A) net_new) by (split; unfold pending; cbn; try done; lia).
    destruct cl; split; cbn; try done; lia.
  - destruct Hs.
    + by apply life_run_inv.
    + by eapply life_complete_inv.
    + by apply life_send_inv.
    + destruct IH as [H1 H2 H3 H4 H5 H6 H7 H8 H9]. life_unfold. destruct (lf_client l) eqn:?; life_close.
Qed.
End lifetime.
Arguments life : clear implicits.

(** ** Properties *)

(** C14: whatever threads and kernel do, each of the session's four OVERLAPPED
    events has at most one pending operation, and every pending operation has
    its event's [m_owner] set: the kernel never holds an event of a destroyed
    session, and the worker that dequeues it never dereferences a null owner. *)
Theorem overlapped_events_owned {A} (l : life A) :
  life_reach l ->
  (k_connect l <= Nat.b2n (m_connectOwner l) /\ k_recv l <= Nat.b2n (m_recvOwner l) /\
   k_disconnect l <= Nat.b2n (m_disconnectOwner l) /\
   length (inflight (lf_net l)) <= Nat.b2n (m_sendOwner (lf_sess l)))%nat.
Proof.
  intros H. apply life_reach_inv in H as [H1 H2 H3 H4 H5 H6 H7 _ _].
  split_and!; try lia.
  pose proof (si_one _ _ _ H7) as Ho. rewrite (si_owner _ _ _ H7). unfold pending in Ho.
  destruct (inflight (lf_net l)) as [|b bs]; [cbn; lia|]. rewrite bool_decide_true by done. cbn in *. lia.
Qed.

(** C32: no leak: once the threads are done with the session and the kernel holds
    none of its events, its events no longer refer to it, unless its connection
    was refused; with the registry's and the threads' references gone it is
    destroyed. *)
Theorem quiescent_session_released {A} (l : life A) :
  life_reach l -> concat (lf_thr l) = [] -> kernel_ops l = 0%nat -> WRefused ∉ lf_log l -> self_refs l = 0%nat.
Proof.
  intros H Ht Hk Hr. apply life_reach_inv in H as [H1 H2 H3 H4 H5 H6 H7 _ _].
  assert (forall a, todo a (lf_thr l) = 0%nat) as Hz.
  { intros a. clear -Ht. induction (lf_thr l) as [|q t IH]; [done|]. cbn in Ht.
    apply app_eq_nil in Ht as [-> Ht]. unfold todo in *. cbn. by apply IH. }
  assert (refused (lf_log l) = 0%nat) as Hr0.
  { clear -Hr. induction (lf_log l) as [|x g IH]; [done|]. destruct x; [set_solver|]. cbn. apply IH. set_solver. }
  rewrite !Hz, Hr0 in *. unfold kernel_ops in Hk. unfold self_refs.
  pose proof (si_owner _ _ _ H7) as Ho. destruct (inflight (lf_net l)); [|cbn in Hk; lia].
  rewrite Ho, bool_decide_false by congruence. destruct (lf_client l); cbn; lia.
Qed.

(** a refused connection leaks its session: from the refusal on, in every
    further state, [m_connectEvent.m_owner] keeps the session alive and nothing
    will clear it. *)
Theorem refused_session_leaks {A} (l : life A) :
  life_reach l -> WRefused ∈ lf_log l ->
  m_connectOwner l = true /\ kernel_ops l = (k_disconnect l + length (inflight (lf_net l)))%nat /\
  connecting l = 0%nat /\ receiving l = 0%nat.
Proof.
  intros H Hr. apply life_reach_inv in H as [H1 H2 H3 H4 H5 H6 H7 _ _].
  assert (1 <= refused (lf_log l))%nat as Hr1.
  { clear -Hr. induction (lf_log l) as [|x g IH]; [set_solver|]. destruct x; cbn; [lia|].
    apply elem_of_cons in Hr as [?|Hr]; [done|]. by apply IH. }
  destruct (m_connectOwner l); cbn in H3; [|lia].
  unfold kernel_ops, receiving, connecting in *. split_and!; [done|lia..].
Qed.

(** C15: the receive loop is never lost: a connected session has a receive posted,
    or a thread that is handling one or about to post or undo one, or a thread
    about to disconnect it - unless WSARecv failed with a code HandleError only
    logs. *)
Theorem connected_session_receives {A} (l : life A) :
  life_reach l -> IsConnected l = true ->
  (receiving l = 1 \/ 0 < todo LDisconnect (lf_thr l))%nat \/ exists e, WHandleError e ∈ lf_log l.
Proof.
  intros H Hc. apply life_reach_inv in H as [H1 _ _ _ _ _ _ H8 _]. specialize (H8 Hc).
  destruct (decide (unhandled (lf_log l) = 0%nat)) as [E|E]; [left; lia|right].
  clear -E. induction (lf_log l) as [|x g IH]; [done|]. destruct x; [|set_solver].
  destruct IH as [e He]; [done|]. set_solver.
Qed.

(** A receive loop that has ended is not restarted: with nothing connecting or
    receiving left, no step posts a receive again. *)
Lemma receiving_stays_zero {A} (l l' : life A) :
  life_step l l' -> connecting l = 0%nat -> receiving l = 0%nat -> connecting l' = 0%nat /\ receiving l' = 0%nat.
Proof.
  intros Hs Hc Hr. unfold connecting, receiving in *.
  destruct Hs as [l t1 a k t2 x Ht|l e err l' Hk _|l s w _|l].
  - rewrite Ht in Hc, Hr. rewrite !todo_at, !todo1_cons in Hc; rewrite !todo_at, !todo1_cons in Hr.
    destruct a; cbn [lact_beq Nat.b2n] in Hc, Hr; try lia; cbn [exec_lact];
      unfold Disconnect_call, RegisterDisconnect; destruct (IsConnected l), (a_res x); cbn;
      rewrite !todo_at; cbn [app]; rewrite ?todo1_cons; cbn [lact_beq Nat.b2n]; lia.
  - unfold kernel_take in Hk. destruct e, (k_connect l) eqn:E1, (k_recv l) eqn:E2, (k_disconnect l) eqn:E3; try lia;
      simplify_eq; unfold completed; repeat case_inner; cbn; rewrite ?E1, ?E2; try done;
      destruct e; rewrite ?todo_snoc; cbn; try lia.
    all: unfold IocpCore_Dispatch in *; repeat case_match; simplify_eq.
  - unfold after_send. case_match; cbn; rewrite ?todo_snoc; cbn; lia.
  - cbn. rewrite !todo_snoc. cbn. lia.
Qed.

(** a receive that fails with a code other than the two resets leaves the
    session deaf: its loop is over though it may still be connected, and no later
    step, whatever is sent or completed, posts another receive. *)
Theorem ended_receive_loop_stays_ended {A} (l l' : life A) :
  connecting l = 0%nat -> receiving l = 0%nat -> rtc life_step l l' -> receiving l' = 0%nat /\ k_recv l' = 0%nat.
Proof.
  intros Hc Hr Hs. enough (connecting l' = 0%nat /\ receiving l' = 0%nat) as [_ H]
    by (unfold receiving in *; lia).
  induction Hs as [l|l l1 l2 H1 _ IH]; [done|].
  destruct (receiving_stays_zero _ _ H1 Hc Hr). by apply IH.
Qed.

(** A ConnectEx that failed with a code other than ERROR_CONNECTION_REFUSED is
    dispatched like a successful one, and ProcessConnect marks the session as
    connected. *)
Theorem failed_connect_is_connected {A} (l l' : life A) (err : Z) (x : answers) :
  kernel_take Connect l = Some l' -> err <> WAIT_TIMEOUT -> err <> ERROR_CONNECTION_REFUSED ->
  lf_thr (completed Connect (Some err) l') = lf_thr l' ++ [[LProcessConnect]] /\
  IsConnected (fst (exec_lact LProcessConnect x (completed Connect (Some err) l'))) = true.
Proof.
  intros _ Ht Hr. unfold completed, IocpCore_Dispatch.
  apply Z.eqb_neq in Ht as ->. apply Z.eqb_neq in Hr as ->. done.
Qed.

(** *** Scripted runs *)

(** A move: thread [i] takes its next step, the kernel completes an operation. *)
Inductive move := MRun (i : nat) (x : answers) | MDone (e : EventType) (err : option Z).

Definition may_reportb (e : EventType) (err : option Z) : bool :=
  match err with
  | None => true
  | Some c => negb (c =? WAIT_TIMEOUT) &&
              (match e with Connect => true | _ => negb (c =? ERROR_CONNECTION_REFUSED) end)
  end.

Definition play1 {A} (m : move) (l : life A) : option (life A) :=
  match m with
  | MRun i x =>
      match lf_thr l !! i with
      | Some (a :: k) =>
          let '(l', acts) := exec_lact a x l in
          Some (set_thr (take i (lf_thr l) ++ (acts ++ k) :: drop (S i) (lf_thr l)) l')
      | _ => None
      end
  | MDone e err => if may_reportb e err then completed e err <$> kernel_take e l else None
  end.

Fixpoint play {A} (ms : list move) (l : life A) : option (life A) :=
  match ms with
  | [] => Some l
  | m :: ms => l ← play1 m l; play ms l
  end.

Lemma play1_sound {A} (m : move) (l l' : life A) : play1 m l = Some l' -> life_step l l'.
Proof.
  destruct m as [i x|e err]; cbn.
  - destruct (lf_thr l !! i) as [[|a k]|] eqn:E; try done. intros H.
    pose proof (take_drop_middle _ _ _ E) as Hm.
    pose proof (ls_run l _ a k _ x (eq_sym Hm)) as Hs. destruct (exec_lact a x l). by simplify_eq.
  - destruct (may_reportb e err) eqn:Er; [|done].
    destruct (kernel_take e l) as [l0|] eqn:Ek; [|done]. intros [= <-]. eapply ls_complete; [done|].
    unfold may_reportb in Er. destruct err as [c|]; [|done]. apply andb_true_iff in Er as [E1 E2].
    apply negb_true_iff, Z.eqb_neq in E1. split; [congruence|]. intros He. destruct e; try done;
      apply negb_true_iff, Z.eqb_neq in E2; congruence.
Qed.

Lemma play_sound {A} (ms : list move) (l l' : life A) : life_reach l -> play ms l = Some l' -> life_reach l'.
Proof.
  revert l. induction ms as [|m ms IH]; intros l Hr Hp; [by simplify_eq/=|]. cbn in Hp.
  destruct (play1 m l) as [l1|] eqn:E; [|done]. apply (IH l1); [|done].
  eapply reach_step; [done|by eapply play1_sound|done].
Qed.

Definition yes : answers := mkAnswers true true Posted true.
Definition fails (e : Z) : answers := mkAnswers true true (Failed e) true.

(** A client's session up to its first posted receive; then with data received,
    the loop going round once, and the peer closing (a receive of 0 bytes). *)
Definition up_moves : list move :=
  [MRun 0 yes; MDone Connect None; MRun 1 yes; MRun 1 yes; MRun 1 yes].
Definition down_moves : list move :=
  [MDone Recv None; MRun 2 yes; MRun 2 yes; MRun 2 yes;
   MDone Recv None; MRun 3 (mkAnswers true true Posted false); MRun 3 yes; MRun 3 yes;
   MDone Disconnect None; MRun 4 yes].

Definition played (ms : list move) (client : bool) : life Z :=
  default (life_start client) (play ms (life_start client)).

Lemma played_reach ms client : life_reach (played ms client).
Proof.
  unfold played. destruct (play ms (life_start client)) as [l|] eqn:E; cbn.
  - eapply play_sound; [|done]. by apply reach_init; exists client.
  - by apply reach_init; exists client.
Qed.

Lemma overlapped_events_owned_witness :
  k_recv (played up_moves true) = 1%nat /\ (1 <= Nat.b2n (m_recvOwner (played up_moves true)))%nat.
Proof.
  split; [reflexivity|]. apply (overlapped_events_owned (played up_moves true) (played_reach _ _)).
Defined.

Lemma up_moves_connected : IsConnected (played up_moves true) = true.
Proof. vm_compute. reflexivity. Qed.

Definition over : life Z := played (up_moves ++ down_moves) true.

Lemma over_quiet : concat (lf_thr over) = [] /\ kernel_ops over = 0%nat /\ lf_log over = [].
Proof. vm_compute. done. Qed.

Lemma over_log : WRefused ∉ lf_log over.
Proof. destruct over_quiet as (_ & _ & ->). apply not_elem_of_nil. Qed.

Lemma quiescent_session_released_witness : self_refs over = 0%nat.
Proof.
  apply (quiescent_session_released over (played_reach _ _) (proj1 over_quiet)
    (proj1 (proj2 over_quiet)) over_log).
Defined.

Definition refused_moves : list move := [MRun 0 yes; MDone Connect (Some ERROR_CONNECTION_REFUSED)].

Lemma refused_logged : WRefused ∈ lf_log (played refused_moves true).
Proof. replace (lf_log _) with [WRefused] by (vm_compute; done). by apply list_elem_of_here. Qed.

Lemma refused_session_leaks_witness : m_connectOwner (played refused_moves true) = true.
Proof.
  apply (refused_session_leaks (played refused_moves true) (played_reach _ _) refused_logged).
Defined.

Lemma connected_session_receives_witness :
  (receiving (played up_moves true) = 1 \/ 0 < todo LDisconnect (lf_thr (played up_moves true)))%nat \/
  exists e, WHandleError e ∈ lf_log (played up_moves true).
Proof. exact (connected_session_receives (played up_moves true) (played_reach _ _) up_moves_connected). Defined.

(** The receive after a message fails with WSAENOBUFS (10055): connected and deaf. *)
Definition deaf_moves : list move :=
  up_moves ++ [MDone Recv None; MRun 2 yes; MRun 2 yes; MRun 2 (fails 10055); MRun 2 yes].

Definition deaf : life Z := played deaf_moves true.

Lemma deaf_state : IsConnected deaf = true /\ connecting deaf = 0%nat /\ receiving deaf = 0%nat.
Proof. vm_compute. done. Qed.

Lemma ended_receive_loop_stays_ended_witness :
  IsConnected deaf = true /\ forall l', rtc life_step deaf l' -> receiving l' = 0%nat /\ k_recv l' = 0%nat.
Proof.
  split; [exact (proj1 deaf_state)|]. intros l'.
  exact (ended_receive_loop_stays_ended deaf l' (proj1 (proj2 deaf_state)) (proj2 (proj2 deaf_state))).
Defined.
