(* ===== verification/Systems.v ===== *)
(** * Small systems: failing fast, the logger, threads, ids, the session set

    src/DhUtil/Macro.h ([CRASH]; the variants of Tools/diagnostics/watchdog_test/
    test_main.cpp), Logger.h/.cpp, ThreadManager.h/.cpp,
    src/DhNet_Server/DhNet_Server/UniqueIdGenerationSystem.h/.cpp and
    GameSessionSystem.h/.cpp.

    spdlog is a parameter: an asynchronous logger with a bounded queue that blocks
    a full enqueue, and a worker that may hang. *)

From S2P Require Import Prelude Lock Session Service.
#[local] Open Scope Z_scope.

(** ** CRASH *)

Module FailFast.

(** What is left of the macro after its watchdog thread has been started. *)
Inductive crash_pc := PLog | PFlush | PWrite.

(** [x_watchdog]: when the watchdog writes through its null pointer, if the thread
    could be created; [x_clock]: milliseconds since the macro was entered. *)
Record crashing := mkCrashing {
  x_pc : crash_pc;
  x_queue : Z;
  x_watchdog : option Z;
  x_clock : Z;
  x_dead : bool;
}.

(** [spdlog::init_thread_pool(8192, 1)] *)
Definition QUEUE_SIZE : Z := 8192.

Definition fires (o : option Z) (clock : Z) : bool :=
  match o with Some d => d <=? clock | None => false end.

(** The macro's entry: the watchdog sleeps 500 ms; an exception of std::thread is
    swallowed. *)
Definition CRASH_enter (created : bool) (queue : Z) : crashing :=
  mkCrashing PLog queue (if created then Some 500 else None) 0 false.

(** The two variants the watchdog test compares. *)
Definition NEW_CRASH : Z -> crashing := CRASH_enter true.
Definition OLD_CRASH : Z -> crashing := CRASH_enter false.

(** Time, the logger's worker unless it hangs, and the crashing thread: the two
    enqueues wait for room in the queue, then the write ends the process. *)
Inductive crash_step (hung : bool) : crashing -> crashing -> Prop :=
| cs_tick s :
    crash_step hung s
      (mkCrashing (x_pc s) (x_queue s) (x_watchdog s) (x_clock s + 1) (x_dead s || fires (x_watchdog s) (x_clock s + 1)))
| cs_drain s :
    hung = false -> 0 < x_queue s ->
    crash_step hung s (mkCrashing (x_pc s) (x_queue s - 1) (x_watchdog s) (x_clock s) (x_dead s))
| cs_log s :
    x_pc s = PLog -> x_queue s < QUEUE_SIZE ->
    crash_step hung s (mkCrashing PFlush (x_queue s + 1) (x_watchdog s) (x_clock s) (x_dead s))
| cs_flush s :
    x_pc s = PFlush -> x_queue s < QUEUE_SIZE ->
    crash_step hung s (mkCrashing PWrite (x_queue s + 1) (x_watchdog s) (x_clock s) (x_dead s))
| cs_write s :
    x_pc s = PWrite -> crash_step hung s (mkCrashing PWrite (x_queue s) (x_watchdog s) (x_clock s) true).

Definition crash_reach (hung : bool) (start : crashing) : crashing -> Prop :=
  reach (fun s => s = start) (crash_step hung) (fun _ => True).

Lemma crash_reach_inv hung created queue s :
  crash_reach hung (CRASH_enter created queue) s ->
  x_watchdog s = (if created then Some 500 else None) /\
  (fires (x_watchdog s) (x_clock s) = true -> x_dead s = true) /\
  (hung = true -> queue = QUEUE_SIZE -> created = false ->
     x_pc s = PLog /\ x_queue s = QUEUE_SIZE /\ x_dead s = false).
Proof.
  intros Hr. induction Hr as [s ->|s s' _ (H1 & H2 & H3) Hs _].
  - cbn. split_and!; [done|by destruct created|naive_solver].
  - destruct Hs as [s|s Hh Hq|s Hp Hq|s Hp Hq|s Hp]; cbn in *; rewrite ?H1 in *; split_and!; try done.
    + intros ->. apply orb_true_r.
    + intros -> -> ->. cbn. rewrite orb_false_r. by apply H3.
    + by intros ->.
    + intros -> -> ->. destruct (H3 eq_refl eq_refl eq_refl) as (_ & E & _). lia.
    + intros -> -> ->. destruct (H3 eq_refl eq_refl eq_refl) as (_ & E & _). lia.
    + intros -> -> ->. destruct (H3 eq_refl eq_refl eq_refl) as (E & _). congruence.
Qed.

(** CRASH fails fast: once its watchdog thread exists the process has ended
    500 ms later, whatever the logger does - its queue full, its worker hung. *)
Theorem crash_within_500ms (hung : bool) (queue : Z) (s : crashing) :
  crash_reach hung (NEW_CRASH queue) s -> 500 <= x_clock s -> x_dead s = true.
Proof.
  intros Hr Hc. destruct (crash_reach_inv hung true queue s Hr) as (E & H & _). apply H. rewrite E.
  apply Z.leb_le. lia.
Qed.

(** Without the watchdog, as before it was added or when its thread could not be
    created, a full queue and a hung worker keep the process alive for ever. *)
Theorem crash_without_watchdog_hangs (s : crashing) :
  crash_reach true (OLD_CRASH QUEUE_SIZE) s -> x_dead s = false.
Proof. intros Hr. by destruct (crash_reach_inv true false QUEUE_SIZE s Hr) as (_ & _ & H); apply H. Qed.

(** The test program: the filler thread has [n] tries to log before CRASH; the sink
    hangs on the first line it gets, so the worker takes one line and no more. *)
Fixpoint filler (n : nat) (taken : bool) (queue : Z) : Z :=
  match n with
  | O => queue
  | S n =>
      if QUEUE_SIZE <=? queue then queue
      else filler n true (if taken then queue + 1 else queue)
  end.

(** An exit code, or the state in which one of the two macros was entered. *)
Definition watchdog_main (argc : Z) (mode : string) (n : nat) : Z + crashing :=
  if argc <? 2 then inl 1
  else
    let queue := filler n false 0 in
    inr (if String.eqb mode "old"%string then OLD_CRASH queue else NEW_CRASH queue).

Lemma filler_full n (taken : bool) queue :
  0 <= queue <= QUEUE_SIZE -> QUEUE_SIZE - queue + (if taken then 0 else 1) <= Z.of_nat n ->
  filler n taken queue = QUEUE_SIZE.
Proof.
  revert taken queue. induction n as [|n IH]; intros taken queue Hq Hn; cbn [filler].
  - destruct taken; lia.
  - destruct (Z.leb_spec QUEUE_SIZE queue); [lia|]. apply IH; destruct taken; lia.
Qed.

(** the watchdog test decides: once the filler has had time for 8193 lines the
    old macro never ends the process, and the new one does within 500 ms. *)
Theorem watchdog_test_verdict (argc : Z) (mode : string) (n : nat) (s : crashing) :
  2 <= argc -> 8193 <= Z.of_nat n ->
  exists start, watchdog_main argc mode n = inr start /\
  (crash_reach true start s ->
   if String.eqb mode "old"%string then x_dead s = false else 500 <= x_clock s -> x_dead s = true).
Proof.
  intros Ha Hn. unfold watchdog_main. rewrite (proj2 (Z.ltb_ge _ _)) by lia.
  rewrite filler_full by (unfold QUEUE_SIZE; lia). eexists; split; [reflexivity|]. intros Hr.
  destruct (String.eqb mode "old"%string).
  - by destruct (crash_reach_inv true false QUEUE_SIZE s Hr) as (_ & _ & H); apply H.
  - intros Hc. destruct (crash_reach_inv true true QUEUE_SIZE s Hr) as (E & H & _). apply H. rewrite E.
    apply Z.leb_le. lia.
Qed.

Definition ticked (n : nat) (s : crashing) : crashing :=
  Nat.iter n (fun s => mkCrashing (x_pc s) (x_queue s) (x_watchdog s) (x_clock s + 1)
                         (x_dead s || fires (x_watchdog s) (x_clock s + 1))) s.

Lemma ticked_reach hung start n : crash_reach hung start (ticked n start).
Proof.
  induction n as [|n IH]; [by apply reach_init|]. eapply reach_step; [exact IH|apply cs_tick|done].
Qed.

Lemma ticked_clock n s : x_clock (ticked n s) = x_clock s + Z.of_nat n.
Proof. induction n as [|n IH]; [cbn; lia|]. rewrite Nat2Z.inj_succ.
  change (x_clock (ticked n s) + 1 = x_clock s + Z.succ (Z.of_nat n)). rewrite IH. lia. Qed.

Lemma crash_within_500ms_witness : x_dead (ticked 500 (NEW_CRASH QUEUE_SIZE)) = true.
Proof.
  apply (crash_within_500ms true QUEUE_SIZE _ (ticked_reach true (NEW_CRASH QUEUE_SIZE) 500)).
  rewrite ticked_clock. cbn. lia.
Defined.

End FailFast.

(** ** Logger *)

Module Log.

(** [g_name]: LogFileNameRef(); [g_created]: LoggerCreatedFlag(); [g_file]: the
    file of the logger the singleton holds; [g_lines]: what was logged, where. *)
Record logging := mkLogging {
  g_name : string;
  g_created : bool;
  g_file : option string;
  g_lines : list (string * string);
}.

Definition logging_new : logging := mkLogging "dhnet-server.log" false None [].

(** [Logger::Get]: the first call creates the logger. *)
Definition Get (g : logging) : string * logging :=
  match g_file g with
  | Some f => (f, g)
  | None => (g_name g, mkLogging (g_name g) true (Some (g_name g)) (g_lines g))
  end.

(** LOG_INFO and the other levels that pass the logger's level. *)
Definition LOG (line : string) (g : logging) : logging :=
  let '(f, g) := Get g in mkLogging (g_name g) (g_created g) (g_file g) (g_lines g ++ [(f, line)]).

Definition SetLogFileName (_name : string) (g : logging) : logging :=
  if g_created g then LOG "SetLogFileName called after logger already created" g
  else mkLogging _name (g_created g) (g_file g) (g_lines g).

Inductive log_call := CLOG (line : string) | CSetName (name : string).

Definition log_run (cs : list log_call) (g : logging) : logging :=
  fold_left (fun g c => match c with CLOG l => LOG l g | CSetName n => SetLogFileName n g end) cs g.

(** The last name set before the first line, or the initial one. *)
Fixpoint chosen_name (cs : list log_call) (name : string) : string :=
  match cs with
  | CSetName n :: cs => chosen_name cs n
  | _ => name
  end.

Lemma log_run_created cs g f :
  g_created g = true -> g_file g = Some f -> Forall (fun l => fst l = f) (g_lines g) ->
  Forall (fun l => fst l = f) (g_lines (log_run cs g)).
Proof.
  revert g. induction cs as [|c cs IH]; intros g Hc Hf Hl; [done|]. cbn.
  apply IH; destruct c as [l|n]; unfold SetLogFileName; rewrite ?Hc; unfold LOG, Get; rewrite ?Hf; cbn; try done;
    apply Forall_app; by repeat constructor.
Qed.

(** One process writes one log file: every line, in any sequence of calls, goes
    to the file named by the last SetLogFileName before the first line. *)
Theorem one_log_file (cs : list log_call) :
  Forall (fun l => fst l = chosen_name cs (g_name logging_new)) (g_lines (log_run cs logging_new)).
Proof.
  enough (forall g, g_created g = false -> g_file g = None -> g_lines g = [] ->
    Forall (fun l => fst l = chosen_name cs (g_name g)) (g_lines (log_run cs g))) as H by (by apply H).
  induction cs as [|[l|n] cs IH]; intros g Hc Hf Hl; cbn.
  - by rewrite Hl.
  - apply log_run_created; unfold LOG, Get; rewrite Hf; cbn; try done. rewrite Hl. by repeat constructor.
  - assert (SetLogFileName n g = mkLogging n false (g_file g) (g_lines g)) as E
      by (unfold SetLogFileName; by rewrite Hc).
    rewrite E. by apply (IH (mkLogging n false (g_file g) (g_lines g))).
Qed.

End Log.

(** ** ThreadManager *)

Module Threads.

(** [m_threads] holds the thread ids; [SThreadId] is InitTLS's counter. *)
Record ThreadManager := mkTM { m_threads : list Z; SThreadId : Z; t_self : Z }.

(** The constructor gives the main thread its id. *)
Definition ThreadManager_new : ThreadManager :=
  let '(tid, next) := InitTLS SThreadId_init in mkTM [] next tid.

(** A launched thread takes its id before it runs the callback. *)
Definition Launch (tm : ThreadManager) : ThreadManager :=
  let '(tid, next) := InitTLS (SThreadId tm) in mkTM (m_threads tm ++ [tid]) next (t_self tm).

(** [Join] returns when every thread has; [returns] says which callbacks do. *)
Definition Join (returns : Z -> bool) (tm : ThreadManager) : option ThreadManager :=
  if forallb returns (m_threads tm) then Some (mkTM [] (SThreadId tm) (t_self tm)) else None.

Definition launched (n : nat) : ThreadManager := Nat.iter n Launch ThreadManager_new.

Lemma launched_ids n :
  Z.of_nat n < 2 ^ 32 - 2 ->
  launched n = mkTM (map (fun i => Z.of_nat i + 2) (seq 0 n)) (Z.of_nat n + 2) 1.
Proof.
  intros Hn. induction n as [|n IH]; [done|].
  change (launched (S n)) with (Launch (launched n)). rewrite IH by lia.
  unfold Launch, InitTLS. cbn [SThreadId m_threads t_self]. rewrite seq_S, map_app. cbn [map Nat.add].
  rewrite wrapU_small by lia. f_equal. lia.
Qed.

(** The main thread and the workers have different ids, none of them 0, and up to
    65534 workers they fit the lock's 16-bit owner field. *)
Theorem thread_ids_distinct (n : nat) :
  Z.of_nat n <= 65534 ->
  NoDup (t_self (launched n) :: m_threads (launched n)) /\
  Forall (fun t => 1 <= t <= 0xFFFF) (t_self (launched n) :: m_threads (launched n)).
Proof.
  intros Hn. rewrite launched_ids by lia. cbn [t_self m_threads]. split.
  - apply NoDup_cons. split.
    + intros (i & E & _)%list_elem_of_fmap. lia.
    + apply NoDup_fmap_2; [intros x y; lia|apply NoDup_seq].
  - constructor; [lia|]. apply Forall_forall. intros t (i & -> & Hi)%list_elem_of_fmap.
    apply elem_of_seq in Hi. lia.
Qed.

End Threads.

(** ** UniqueIdGenerationSystem *)

(** [fetch_add(1)] on a uint64. *)
Definition GenerateUniqueId (idGenerator : Z) : Z * Z := (idGenerator, u64 (idGenerator + 1)).

Fixpoint generate (n : nat) (idGenerator : Z) : list Z :=
  match n with
  | O => []
  | S n => let '(id, next) := GenerateUniqueId idGenerator in id :: generate n next
  end.

(** No id is given twice in the first 2^64 calls, by whichever threads. *)
Theorem unique_ids (n : nat) : Z.of_nat n <= 2 ^ 64 -> NoDup (generate n 0).
Proof.
  intros Hn. enough (forall k, 0 <= k < 2 ^ 64 -> k + Z.of_nat n <= 2 ^ 64 ->
    generate n k = map (fun i => k + Z.of_nat i) (seq 0 n)) as E.
  { destruct n as [|n]; [constructor|]. rewrite (E 0) by lia.
    apply NoDup_fmap_2; [intros x y; lia|apply NoDup_seq]. }
  clear Hn. induction n as [|n IH]; intros k Hk Hn; [done|]. cbn [generate GenerateUniqueId].
  rewrite <- cons_seq, <- fmap_S_seq. cbn [map]. f_equal; [lia|].
  destruct n as [|n]; [done|]. rewrite wrapU_small by lia. rewrite IH by lia. change (fmap S) with (map S).
  rewrite map_map. apply map_ext. intros i. lia.
Qed.

(** ** GameSessionSystem *)

Module SessionSet.

(** Add and Remove of the set of shared_ptrs; GameSession::OnConnected and
    OnDisconnected call them. *)
Definition Add (_session : nat) (m_sessions : gset nat) : gset nat := {[_session]} ∪ m_sessions.
Definition Remove (_session : nat) (m_sessions : gset nat) : gset nat := m_sessions ∖ {[_session]}.

Section broadcast.
Context {A : Type}.

(** The second loop of Broadcast, over the snapshot, without the lock: [Send] may
    end in Disconnect and Remove, but the vector does not change. *)
Fixpoint send_all (_sender : A) (res : nat -> wsa_result) (snapshot : list nat) (m : gmap nat (Session A * net A))
  : outcome (gmap nat (Session A * net A)) :=
  match snapshot with
  | [] => Ok m
  | id :: snapshot =>
      match m !! id with
      | None => Crash "dangling GameSession"
      | Some (s, w) => send_all _sender res snapshot (<[id := Send_ _sender (res id) s w]> m)
      end
  end.

Definition Broadcast (_sender : A) (res : nat -> wsa_result) (m_sessions : gset nat)
    (m : gmap nat (Session A * net A)) : outcome (gmap nat (Session A * net A)) :=
  send_all _sender res (elements m_sessions) m.

Lemma send_all_ok x res ids (m : gmap nat (Session A * net A)) :
  NoDup ids -> (forall id, id ∈ ids -> is_Some (m !! id)) ->
  exists m', send_all x res ids m = Ok m' /\
    (forall id s w, id ∈ ids -> m !! id = Some (s, w) -> m' !! id = Some (Send_ x (res id) s w)) /\
    (forall id, id ∉ ids -> m' !! id = m !! id).
Proof.
  revert m. induction ids as [|i ids IH]; intros m Hn Hin.
  { exists m. split_and!; [done|set_solver|done]. }
  apply NoDup_cons in Hn as [Hi Hn]. cbn. destruct (Hin i ltac:(set_solver)) as [[s w] Es]. rewrite Es.
  destruct (IH (<[i := Send_ x (res i) s w]> m) Hn) as (m' & -> & H1 & H2).
  { intros j Hj. rewrite lookup_insert_ne by set_solver. apply Hin. set_solver. }
  exists m'. split_and!; [done|..].
  - intros j s0 w0 [->|Hj]%elem_of_cons E.
    + rewrite H2 by done. rewrite lookup_insert_eq. congruence.
    + apply H1; [done|]. by rewrite lookup_insert_ne by set_solver.
  - intros j Hj. rewrite H2 by set_solver. apply lookup_insert_ne. set_solver.
Qed.
End broadcast.

(** Broadcast over the snapshot reaches every session exactly once, also when
    sessions are reset and removed on the way - where Service::BroadCast, which
    iterates the set itself, does not survive (Service.v). *)
Theorem snapshot_broadcast_reaches_all {A} (x : A) (res : nat -> wsa_result) (sessions : gset nat)
    (m : gmap nat (Session A * net A)) :
  (forall id, id ∈ sessions -> is_Some (m !! id)) ->
  exists m', Broadcast x res sessions m = Ok m' /\
    (forall id s w, id ∈ sessions -> m !! id = Some (s, w) ->
       exists s' w', m' !! id = Some (s', w') /\ accepted w' = accepted w ++ [x]) /\
    (forall id, id ∉ sessions -> m' !! id = m !! id).
Proof.
  intros H. destruct (send_all_ok x res (elements sessions) m (NoDup_elements _)) as (m' & E & H1 & H2).
  { intros id Hid. apply H. by apply elem_of_elements. }
  exists m'. split_and!; [exact E|..].
  - intros id s w Hid Em. specialize (H1 id s w). rewrite elem_of_elements in H1. specialize (H1 Hid Em).
    pose proof (Send_accepted x (res id) s w) as Ha. destruct (Send_ x (res id) s w) as [s' w']. eauto.
  - intros id Hid. apply H2. by rewrite elem_of_elements.
Qed.

(** The destructor disconnects the sessions while it iterates the set; the
    disconnect of a connected session removes it, and the iterator is gone. *)
Fixpoint dtor_loop (connected : nat -> bool) (order : list nat) (m_sessions : gset nat) : outcome (gset nat) :=
  match order with
  | [] => Ok ∅
  | id :: order =>
      if connected id then Crash "unordered_set iterator invalidated" else dtor_loop connected order m_sessions
  end.

Definition GameSessionSystem_dtor (connected : nat -> bool) (m_sessions : gset nat) : outcome (gset nat) :=
  dtor_loop connected (elements m_sessions) m_sessions.

Theorem session_set_dtor_invalidates (connected : nat -> bool) (m_sessions : gset nat) :
  is_Ok (GameSessionSystem_dtor connected m_sessions) = true <->
  forall id, id ∈ m_sessions -> connected id = false.
Proof.
  unfold GameSessionSystem_dtor. setoid_rewrite <- elem_of_elements.
  induction (elements m_sessions) as [|i ids IH]; cbn; [set_solver|].
  destruct (connected i) eqn:E; cbn; [|rewrite IH; set_solver].
  split; [done|]. intros H. rewrite H in E by set_solver. done.
Qed.

End SessionSet.
