(* ===== verification/Crypto.v ===== *)
(** * Key exchange and the encrypted channel

    src/DhNet_Server/DhNet_Server/AesGcm.h, EcdhKeyExchange.h, the channel half
    of GameSession.cpp ([OnRecv], [Send], [HandleKeyExchange], [SendEncrypted])
    and its mirror in src/DhNet_Client/DhNet_Client/ServerSession.cpp.

    OpenSSL is the parameter [OpenSSL]; what its documentation promises is the
    class [OpenSSL_ok].  The random bytes, the generated key pair and the chunk
    the send pool hands out are arguments; an uninitialised buffer is an
    arbitrary byte list. *)

From S2P Require Import Prelude Bytes Packets.

Class OpenSSL := {
  EVP_PKEY : Type;
  (** EVP_PKEY_get_octet_string_param(OSSL_PKEY_PARAM_PUB_KEY) *)
  EVP_PKEY_pub : EVP_PKEY -> option (list Z);
  (** EVP_PKEY_fromdata on a P-256 public point *)
  EVP_PKEY_fromdata : list Z -> option EVP_PKEY;
  EVP_PKEY_derive : EVP_PKEY -> EVP_PKEY -> option (list Z);
  EVP_sha256 : list Z -> option (list Z);
  (** AES-128-GCM: key, nonce, plaintext to ciphertext and tag, and back *)
  GCM_seal : list Z -> list Z -> list Z -> option (list Z * list Z);
  GCM_open : list Z -> list Z -> list Z -> list Z -> option (list Z);
  (** PKCS5_PBKDF2_HMAC with SHA-256 and 100000 iterations *)
  PBKDF2 : list Z -> list Z -> option (list Z);
}.

Class OpenSSL_ok (O : OpenSSL) := {
  ecdh_commutes : forall a b pa pb A B,
    EVP_PKEY_pub a = Some pa -> EVP_PKEY_pub b = Some pb ->
    EVP_PKEY_fromdata pa = Some A -> EVP_PKEY_fromdata pb = Some B ->
    EVP_PKEY_derive a B = EVP_PKEY_derive b A;
  gcm_lengths : forall k n p c t, GCM_seal k n p = Some (c, t) -> length c = length p /\ length t = 16%nat;
  gcm_decrypts : forall k n p c t, GCM_seal k n p = Some (c, t) -> GCM_open k n c t = Some p;
  (** the tag is checked: what opens is what sealing yields *)
  gcm_authentic : forall k n c t p, GCM_open k n c t = Some p -> GCM_seal k n p = Some (c, t);
  pbkdf2_shape : forall pw salt h, PBKDF2 pw salt = Some h -> length h = 32%nat /\ Forall is_byte h;
}.

Section crypto.
Context {O : OpenSSL}.

(** ** EcdhKeyExchange *)

Definition GetPublicKeyBytes (pkey : EVP_PKEY) : option (list Z) :=
  match EVP_PKEY_pub pkey with
  | Some out => if (length out =? 65)%nat then Some out else None
  | None => None
  end.

Definition ImportPeerKey (pub65 : list Z) : option EVP_PKEY := EVP_PKEY_fromdata pub65.

Definition DeriveSharedSecret (myPriv : EVP_PKEY) (peerPub65 : list Z) : option (list Z) :=
  match ImportPeerKey peerPub65 with
  | None => None
  | Some peerKey =>
      match EVP_PKEY_derive myPriv peerKey with
      | Some secret => if (length secret =? 32)%nat then Some secret else None
      | None => None
      end
  end.

(** "DhNet-session-key" *)
Definition label : list Z :=
  [68; 104; 78; 101; 116; 45; 115; 101; 115; 115; 105; 111; 110; 45; 107; 101; 121].

(** The status and the 16 bytes of keyOut16. *)
Definition DeriveSessionKey (secret32 : list Z) : bool * list Z :=
  match EVP_sha256 (label ++ secret32) with
  | Some hash => if (length hash =? 32)%nat then (true, take 16 hash) else (false, replicate 16 0)
  | None => (false, replicate 16 0)
  end.

(** ** AesGcm *)

(** [out] points at offset [base] of [buf]; [rand] is what RAND_bytes writes
    ([None] when it fails: its status is not looked at). *)
Definition Encrypt (rand : option (list Z)) (m_key plain : list Z) (plainLen : Z) (base : nat) (buf : list Z)
  : bool * list Z * Z :=
  let buf := match rand with Some nonce => write_bytes base nonce buf | None => buf end in
  match GCM_seal m_key (read_bytes base 12 buf) (take (Z.to_nat plainLen) plain) with
  | None => (false, buf, 0)
  | Some (ciphertext, tag) =>
      let buf := write_bytes (base + 12) ciphertext buf in
      let buf := write_bytes (base + 12 + Z.to_nat plainLen) tag buf in
      (true, buf, 12 + plainLen + 16)
  end.

Definition Decrypt (m_key : list Z) (base : nat) (mem : list Z) (inLen : Z) (out : list Z) : bool * list Z * Z :=
  if inLen <? 28 then (false, out, 0)
  else
    let nonce := read_bytes base 12 mem in
    let cipherLen := inLen - 28 in
    let ciphertext := read_bytes (base + 12) (Z.to_nat cipherLen) mem in
    let tag := read_bytes (base + 12 + Z.to_nat cipherLen) 16 mem in
    match GCM_open m_key nonce ciphertext tag with
    | None => (false, out, 0)
    | Some plain => (true, write_bytes 0 plain out, cipherLen)
    end.

(** ** The channel's state *)

(** The members of GameSession / ServerSession the channel uses; [gs_sent] are
    the packets given to Session::Send, oldest first. *)
Record gsession := mkGs {
  m_connected : bool;
  m_handshakeDone : bool;
  m_cipher : option (list Z);
  m_myPrivKey : option EVP_PKEY;
  gs_sent : list (list Z);
}.

Definition gs_new : gsession := mkGs true false None None [].

Definition Disconnect (s : gsession) : gsession :=
  mkGs false (m_handshakeDone s) (m_cipher s) (m_myPrivKey s) (gs_sent s).

(** What WSASend transmits of a chunk: its first GetSendSize bytes. *)
Definition packet_bytes (buf : list Z) : list Z := take (Z.to_nat (m_dataSize buf)) buf.

Definition Session_Send (buf : list Z) (s : gsession) : gsession :=
  mkGs (m_connected s) (m_handshakeDone s) (m_cipher s) (m_myPrivKey s) (gs_sent s ++ [packet_bytes buf]).

Definition set_key (k : option EVP_PKEY) (s : gsession) : gsession :=
  mkGs (m_connected s) (m_handshakeDone s) (m_cipher s) k (gs_sent s).

(** The key pair freed, the cipher installed, the handshake marked done. *)
Definition establish (sessionKey : list Z) (s : gsession) : gsession :=
  mkGs (m_connected s) true (Some sessionKey) None (gs_sent s).

(** ** GameSession *)

(** [inner]: the bytes of the sender's chunks; [chunk]: what
    GetSenderAndPacket<EncryptedPacket> allocates. *)
Definition SendEncrypted (chunk rand : option (list Z)) (inner : list Z) (s : gsession) : outcome gsession :=
  let innerLen := m_dataSize inner in
  if (innerLen <=? 0) || (innerLen >? MAX_PLAIN_PACKET_SIZE) then Ok s
  else
    match chunk, m_cipher s with
    | None, _ => Crash "null SenderRef dereferenced"
    | _, None => Crash "null cipher dereferenced"
    | Some buf, Some key =>
        let '(ok, buf, payloadLen) := Encrypt rand key inner innerLen off_payload buf in
        if negb ok then Ok s
        else Ok (Session_Send (PacketHeader_Init (packet_num Encrypted)
                                 (u16 (Z.of_nat sizeof_PacketHeader + payloadLen)) buf) s)
    end.

Definition GameSession_Send (chunk rand : option (list Z)) (inner : list Z) (s : gsession) : outcome gsession :=
  if m_handshakeDone s then SendEncrypted chunk rand inner s else Ok (Session_Send inner s).

(** [key]: what EVP_EC_gen returns; [chunk]: the ResKeyExchange chunk. *)
Definition HandleKeyExchange (key : option EVP_PKEY) (chunk : option (list Z)) (_pkt : list Z) (s : gsession)
  : outcome gsession :=
  let s := set_key key s in
  match key with
  | None => Ok (Disconnect s)
  | Some k =>
      match DeriveSharedSecret k (read_bytes off_pubKey 65 _pkt) with
      | None => Ok (Disconnect s)
      | Some secret =>
          let '(derived, sessionKey) := DeriveSessionKey secret in
          if negb derived then Ok (Disconnect s)
          else
            match chunk with
            | None => Crash "null SenderRef dereferenced"
            | Some res =>
                match GetPublicKeyBytes k with
                | None => Ok (Disconnect s)
                | Some pub =>
                    let res := ResKeyExchange_Init (write_bytes off_pubKey pub res) in
                    Ok (Session_Send res (establish sessionKey s))
                end
            end
      end
  end.

(** What OnRecv takes from its surroundings: the generated key, the chunk of
    the answer, and the 1280 bytes of plainBuf before it is written. *)
Record recv_env := mkEnv { e_key : option EVP_PKEY; e_chunk : option (list Z); e_stack : list Z }.

(** [Process]: PacketHandler::Process(packetNum, packet, session), on the session
    and the rest of the program. *)
Context {W : Type} (Process : Z -> list Z -> gsession -> W -> outcome (bool * gsession * W)).

Definition GameSession_OnRecv (env : recv_env) (_packet : list Z) (s : gsession) (w : W)
  : outcome (bool * gsession * W) :=
  if negb (m_handshakeDone s) then
    if m_packetNum _packet =? packet_num Req_KeyExchange then
      s ← HandleKeyExchange (e_key env) (e_chunk env) _packet s;
      Ok (true, s, w)
    else Ok (false, Disconnect s, w)
  else if negb (m_packetNum _packet =? packet_num Encrypted) then Ok (false, Disconnect s, w)
  else
    let payloadLen := m_dataSize _packet - Z.of_nat sizeof_PacketHeader in
    if (payloadLen <? 28) || (payloadLen >? MAX_PLAIN_PACKET_SIZE + 28) then Ok (false, Disconnect s, w)
    else
      match m_cipher s with
      | None => Crash "null cipher dereferenced"
      | Some key =>
          let '(ok, plainBuf, plainLen) := Decrypt key off_payload _packet payloadLen (e_stack env) in
          if negb ok then Ok (false, Disconnect s, w)
          else Process (m_packetNum plainBuf) plainBuf s w
      end.

(** ** ServerSession (the client's end) *)

(** [m_onConnectedExtra]: the callback of SetOnConnectedExtra, which changes the rest
    of the program. *)
Definition ServerSession_OnConnected (m_onConnectedExtra : option (W -> W)) (key : option EVP_PKEY)
    (chunk : option (list Z)) (s : gsession) (w : W) : outcome (gsession * W) :=
  let s := set_key key s in
  match key with
  | None => Ok (Disconnect s, w)
  | Some k =>
      match chunk with
      | None => Crash "null SenderRef dereferenced"
      | Some pkt =>
          match GetPublicKeyBytes k with
          | None => Ok (Disconnect s, w)
          | Some pub =>
              let s := Session_Send (ReqKeyExchange_Init (write_bytes off_pubKey pub pkt)) s in
              Ok (s, match m_onConnectedExtra with Some extra => extra w | None => w end)
          end
      end
  end.

Definition ServerSession_SendEncrypted (chunk rand : option (list Z)) (inner : list Z) (s : gsession)
  : outcome gsession :=
  let innerLen := m_dataSize inner in
  if (innerLen <=? 0) || (innerLen >? MAX_PLAIN_PACKET_SIZE) then Ok s
  else
    match chunk, m_cipher s with
    | None, _ => Crash "null SenderRef dereferenced"
    | _, None => Crash "null cipher dereferenced"
    | Some buf, Some key =>
        let '(ok, buf, payloadLen) := Encrypt rand key inner innerLen off_payload buf in
        if negb ok then Ok s
        else Ok (Session_Send (PacketHeader_Init (packet_num Encrypted)
                                 (u16 (Z.of_nat sizeof_PacketHeader + payloadLen)) buf) s)
    end.

Definition ServerSession_Send (chunk rand : option (list Z)) (inner : list Z) (s : gsession) : outcome gsession :=
  if m_handshakeDone s then ServerSession_SendEncrypted chunk rand inner s else Ok (Session_Send inner s).

(** "testuser", "testpass" *)
Definition testuser : list Z := [116; 101; 115; 116; 117; 115; 101; 114].
Definition testpass : list Z := [116; 101; 115; 116; 112; 97; 115; 115].

(** The chunks of ReqLogin and of its envelope, and the envelope's nonce. *)
Record login_env := mkLoginEnv { le_login : option (list Z); le_chunk : option (list Z); le_rand : option (list Z) }.

Definition HandleResKeyExchange (env : login_env) (_pkt : list Z) (s : gsession) : outcome gsession :=
  match m_myPrivKey s with
  | None => Ok (Disconnect s)   (* EVP_PKEY_CTX_new on a null key fails *)
  | Some k =>
      match DeriveSharedSecret k (read_bytes off_pubKey 65 _pkt) with
      | None => Ok (Disconnect s)
      | Some secret =>
          let '(derived, sessionKey) := DeriveSessionKey secret in
          if negb derived then Ok (Disconnect s)
          else
            let s := establish sessionKey s in
            match le_login env with
            | None => Crash "null SenderRef dereferenced"
            | Some pkt =>
                pkt ← ReqLogin_Init (c_str testuser) (c_str testpass) pkt;
                ServerSession_Send (le_chunk env) (le_rand env) pkt s
            end
      end
  end.

Definition ServerSession_OnRecv (lenv : login_env) (stack : list Z) (_packet : list Z) (s : gsession) (w : W)
  : outcome (bool * gsession * W) :=
  if negb (m_handshakeDone s) then
    if m_packetNum _packet =? packet_num Res_KeyExchange then
      s ← HandleResKeyExchange lenv _packet s;
      Ok (true, s, w)
    else Ok (false, s, w)
  else if negb (m_packetNum _packet =? packet_num Encrypted) then Ok (false, s, w)
  else
    let payloadLen := m_dataSize _packet - Z.of_nat sizeof_PacketHeader in
    if (payloadLen <? 28) || (payloadLen >? MAX_PLAIN_PACKET_SIZE + 28) then Ok (false, s, w)
    else
      match m_cipher s with
      | None => Crash "null cipher dereferenced"
      | Some key =>
          let '(ok, plainBuf, plainLen) := Decrypt key off_payload _packet payloadLen stack in
          if negb ok then Ok (false, s, w)
          else Process (m_packetNum plainBuf) plainBuf s w
      end.

End crypto.

(** ** Lemmas *)

Section crypto_lemmas.
Context {O : OpenSSL} {OK : OpenSSL_ok O}.

(** An encrypted envelope: header, nonce, ciphertext, tag. *)
Definition envelope (wire nonce c t : list Z) : Prop :=
  m_packetNum wire = packet_num Encrypted /\
  m_dataSize wire = Z.of_nat (32 + length c) /\ length wire = (32 + length c)%nat /\
  read_bytes 4 12 wire = nonce /\ read_bytes 16 (length c) wire = c /\
  read_bytes (16 + length c) 16 wire = t.

Lemma Encrypt_envelope key nonce plain n buf c t :
  length nonce = 12%nat -> (4 <= n <= 1280)%nat -> (n <= length plain)%nat ->
  (1312 <= length buf)%nat -> GCM_seal key nonce (take n plain) = Some (c, t) ->
  exists buf1, Encrypt (Some nonce) key plain (Z.of_nat n) off_payload buf = (true, buf1, 28 + Z.of_nat n) /\
    envelope (packet_bytes (PacketHeader_Init (packet_num Encrypted)
                (u16 (Z.of_nat sizeof_PacketHeader + (28 + Z.of_nat n))) buf1)) nonce c t /\
    length c = n.
Proof.
  intros Hn Hln Hpl Hb Hs. destruct (gcm_lengths _ _ _ _ _ Hs) as [Hc Ht].
  rewrite length_take_le in Hc by lia.
  unfold Encrypt, off_payload. rewrite read_write_same' by lia. rewrite Nat2Z.id, Hs.
  replace (12 + Z.of_nat n + 16) with (28 + Z.of_nat n) by lia.
  eexists. split; [reflexivity|]. split; [|done].
  unfold PacketHeader_Init, wr_u16, sizeof_PacketHeader.
  set (sz := u16 (u16 (Z.of_nat 4 + (28 + Z.of_nat n)))).
  assert (sz = Z.of_nat (32 + n)) as Hsz.
  { unfold sz. rewrite !wrapU_small by (rewrite ?wrapU_small; change (2 ^ 16) with 65536; lia). lia. }
  set (B := write_bytes 2 _ _).
  assert (m_dataSize B = Z.of_nat (32 + n)) as HB.
  { unfold m_dataSize, rd_u16, B. mem_simpl. rewrite le_decode_encode, Hsz.
    apply Z.mod_small. change (256 ^ Z.of_nat 2) with 65536. lia. }
  assert (length B = length buf) as HlB by (unfold B; mem_simpl; done).
  unfold envelope, packet_bytes. rewrite HB, Nat2Z.id, Hc.
  unfold m_packetNum, m_dataSize, rd_u16 in *. split_and!.
  - rewrite read_take by lia. unfold B. mem_simpl. done.
  - rewrite read_take by lia. done.
  - rewrite length_take. lia.
  - rewrite read_take by lia. unfold B. mem_simpl. done.
  - rewrite read_take by lia. unfold B. mem_simpl. done.
  - rewrite read_take by lia. unfold B. mem_simpl. done.
Qed.

Lemma Decrypt_envelope key nonce plain c t wire rest out :
  GCM_seal key nonce plain = Some (c, t) -> envelope wire nonce c t ->
  Decrypt key off_payload (wire ++ rest) (m_dataSize (wire ++ rest) - Z.of_nat sizeof_PacketHeader) out =
    (true, write_bytes 0 plain out, Z.of_nat (length plain)) /\
  m_packetNum (wire ++ rest) = packet_num Encrypted /\
  m_dataSize (wire ++ rest) - Z.of_nat sizeof_PacketHeader = Z.of_nat (length plain) + 28.
Proof.
  intros Hs (H1 & H2 & H3 & H4 & H5 & H6). destruct (gcm_lengths _ _ _ _ _ Hs) as [Hc Ht].
  assert (m_dataSize (wire ++ rest) = Z.of_nat (32 + length c)) as Hd.
  { unfold m_dataSize, rd_u16. rewrite read_app_l by lia. exact H2. }
  unfold sizeof_PacketHeader, off_payload. rewrite Hd. split_and!.
  - unfold Decrypt. rewrite (proj2 (Z.ltb_ge _ _)) by lia.
    replace (Z.of_nat (32 + length c) - Z.of_nat 4 - 28) with (Z.of_nat (length c)) by lia.
    rewrite Nat2Z.id, !read_app_l by lia.
    change (4 + 12)%nat with 16%nat. rewrite H4, H5, H6, (gcm_decrypts _ _ _ _ _ Hs).
    do 2 f_equal. lia.
  - unfold m_packetNum, rd_u16. rewrite read_app_l by lia. exact H1.
  - lia.
Qed.

Lemma read_write_0 off k src out :
  (off + k <= length src)%nat -> read_bytes off k (write_bytes 0 src out) = read_bytes off k src.
Proof. intros H. unfold write_bytes. rewrite take_0, app_nil_l. by apply read_app_l. Qed.
End crypto_lemmas.

(** ** Properties *)

Section channel.
Context {O : OpenSSL} {OK : OpenSSL_ok O}.
Context {W : Type} (Process : Z -> list Z -> gsession -> W -> outcome (bool * gsession * W)).

(** One end of an established channel. *)
Definition established (key : list Z) (s : gsession) : Prop :=
  m_handshakeDone s = true /\ m_cipher s = Some key.

Lemma SendEncrypted_envelope key nonce inner buf c t (s : gsession) :
  m_cipher s = Some key -> length nonce = 12%nat -> 4 <= m_dataSize inner <= MAX_PLAIN_PACKET_SIZE ->
  m_dataSize inner <= Z.of_nat (length inner) -> (1312 <= length buf)%nat ->
  GCM_seal key nonce (packet_bytes inner) = Some (c, t) ->
  exists wire, SendEncrypted (Some buf) (Some nonce) inner s =
      Ok (mkGs (m_connected s) (m_handshakeDone s) (m_cipher s) (m_myPrivKey s) (gs_sent s ++ [wire])) /\
    envelope wire nonce c t.
Proof.
  intros Hk Hn Hd Hl Hb Hs. unfold MAX_PLAIN_PACKET_SIZE in *. unfold SendEncrypted, MAX_PLAIN_PACKET_SIZE. rewrite Hk.
  destruct (Z.leb_spec (m_dataSize inner) 0); [lia|].
  destruct (Z.gtb_spec (m_dataSize inner) 1280); [lia|]. cbn [orb].
  set (n := Z.to_nat (m_dataSize inner)).
  replace (m_dataSize inner) with (Z.of_nat n) by lia.
  destruct (Encrypt_envelope key nonce inner n buf c t) as (b1 & -> & He & _); try done; try lia.
  eexists. split; [unfold Session_Send; cbn [negb]; by rewrite Hk|done].
Qed.

(** What either end makes of an envelope under its key. *)
Lemma envelope_opens key nonce plain c t wire rest env lenv stack r w :
  established key r -> (2 <= length plain)%nat -> Z.of_nat (length plain) <= MAX_PLAIN_PACKET_SIZE ->
  GCM_seal key nonce plain = Some (c, t) -> envelope wire nonce c t ->
  ServerSession_OnRecv Process lenv stack (wire ++ rest) r w =
    Process (m_packetNum plain) (write_bytes 0 plain stack) r w /\
  GameSession_OnRecv Process env (wire ++ rest) r w =
    Process (m_packetNum plain) (write_bytes 0 plain (e_stack env)) r w.
Proof.
  intros [Hrd Hrk] Hl2 Hmax Hs He. unfold MAX_PLAIN_PACKET_SIZE in Hmax.
  assert (forall out, m_packetNum (write_bytes 0 plain out) = m_packetNum plain) as Hnum.
  { intros out. unfold m_packetNum, rd_u16. by rewrite read_write_0 by lia. }
  destruct (Decrypt_envelope key nonce _ c t wire rest stack Hs He) as (HD & HN & HP).
  destruct (Decrypt_envelope key nonce _ c t wire rest (e_stack env) Hs He) as (HD' & _).
  unfold ServerSession_OnRecv, GameSession_OnRecv, MAX_PLAIN_PACKET_SIZE.
  rewrite Hrd, HN, Z.eqb_refl, Hrk, HD, HD', HP. cbn [negb].
  rewrite (proj2 (Z.ltb_ge _ _)), Z.gtb_ltb, (proj2 (Z.ltb_ge _ _)) by lia. cbn [orb]. by rewrite !Hnum.
Qed.

(** C9: whatever one end of an established channel sends, the other end's
    packet handler gets: sending a packet of 4 to 1280 bytes puts exactly one
    envelope of 32 more bytes on the wire, and receiving that envelope (with
    any bytes after it in the buffer, any bytes on the stack) passes the
    packet's number and its bytes to [Process], in both directions. *)
Theorem channel_roundtrip (key nonce inner buf c t : list Z) (s r : gsession) (w : W)
    (rest stack : list Z) (env : recv_env) (lenv : login_env) :
  established key s -> established key r ->
  length nonce = 12%nat -> (1312 <= length buf)%nat ->
  4 <= m_dataSize inner <= MAX_PLAIN_PACKET_SIZE -> m_dataSize inner <= Z.of_nat (length inner) ->
  GCM_seal key nonce (packet_bytes inner) = Some (c, t) ->
  exists wire,
    Z.of_nat (length wire) = m_dataSize inner + 32 /\
    GameSession_Send (Some buf) (Some nonce) inner s =
      Ok (mkGs (m_connected s) true (Some key) (m_myPrivKey s) (gs_sent s ++ [wire])) /\
    ServerSession_Send (Some buf) (Some nonce) inner s =
      Ok (mkGs (m_connected s) true (Some key) (m_myPrivKey s) (gs_sent s ++ [wire])) /\
    ServerSession_OnRecv Process lenv stack (wire ++ rest) r w =
      Process (m_packetNum inner) (write_bytes 0 (packet_bytes inner) stack) r w /\
    GameSession_OnRecv Process env (wire ++ rest) r w =
      Process (m_packetNum inner) (write_bytes 0 (packet_bytes inner) (e_stack env)) r w.
Proof.
  intros [Hsd Hsk] Hr Hn Hb Hd Hl Hs.
  destruct (SendEncrypted_envelope key nonce inner buf c t s Hsk Hn Hd Hl Hb Hs) as (wire & Hw & He).
  assert (Hlen : Z.of_nat (length (packet_bytes inner)) = m_dataSize inner).
  { unfold packet_bytes. rewrite length_take. unfold MAX_PLAIN_PACKET_SIZE in Hd. lia. }
  assert (m_packetNum (packet_bytes inner) = m_packetNum inner) as Hnum.
  { unfold m_packetNum, rd_u16, packet_bytes. by rewrite read_take by lia. }
  assert ((2 <= length (packet_bytes inner))%nat /\
    Z.of_nat (length (packet_bytes inner)) <= MAX_PLAIN_PACKET_SIZE) as [Hl2 Hmax] by lia.
  exists wire. rewrite Hsd, Hsk in Hw. split_and!.
  - destruct He as (_ & _ & -> & _). destruct (gcm_lengths _ _ _ _ _ Hs) as [-> _]. lia.
  - unfold GameSession_Send. by rewrite Hsd.
  - unfold ServerSession_Send. by rewrite Hsd.
  - rewrite <- Hnum. by apply (envelope_opens key nonce (packet_bytes inner) c t wire rest env lenv stack r w).
  - rewrite <- Hnum. by apply (envelope_opens key nonce (packet_bytes inner) c t wire rest env lenv stack r w).
Qed.

(** C10: the server's gate.  Before the handshake only a key exchange gets past
    OnRecv; after it the handler is reached only by an Encrypted packet whose
    payload is the sealing, under this session's key, of the bytes handed to
    it.  Everything else disconnects and returns false. *)
Theorem server_accepts_only_sealed (key : list Z) (env : recv_env) (mem : list Z) (s : gsession) (w : W) :
  (m_handshakeDone s = false -> m_packetNum mem <> packet_num Req_KeyExchange ->
     GameSession_OnRecv Process env mem s w = Ok (false, Disconnect s, w)) /\
  (established key s ->
     (exists nonce plain c t,
        nonce = read_bytes 4 12 mem /\
        GCM_seal key nonce plain = Some (c, t) /\
        read_bytes 16 (Z.to_nat (m_dataSize mem - 32)) mem = c /\
        read_bytes (16 + Z.to_nat (m_dataSize mem - 32)) 16 mem = t /\
        GameSession_OnRecv Process env mem s w =
          Process (m_packetNum (write_bytes 0 plain (e_stack env)))
            (write_bytes 0 plain (e_stack env)) s w) \/
     GameSession_OnRecv Process env mem s w = Ok (false, Disconnect s, w)).
Proof.
  split.
  - intros Hd Hn. unfold GameSession_OnRecv. rewrite Hd. cbn [negb].
    by rewrite (proj2 (Z.eqb_neq _ _)).
  - intros [Hd Hk]. unfold GameSession_OnRecv. rewrite Hd, Hk. cbn [negb].
    destruct (m_packetNum mem =? packet_num Encrypted); cbn [negb]; [|by right].
    destruct (_ || _) eqn:Er; [by right|]. to_prop. unfold Decrypt, sizeof_PacketHeader, off_payload in *.
    rewrite (proj2 (Z.ltb_ge _ _)) by lia.
    replace (m_dataSize mem - Z.of_nat 4 - 28) with (m_dataSize mem - 32) by lia.
    change (4 + 12)%nat with 16%nat.
    destruct (GCM_open key _ _ _) as [plain|] eqn:Eo; [|by right].
    left. do 4 eexists. split; [done|]. split; [by apply gcm_authentic|]. done.
Qed.

(** A key exchange packet as the peer sees it. *)
Lemma key_packet e pub buf rest :
  fields e = [65%nat] -> length pub = 65%nat -> (69 <= length buf)%nat ->
  let wire := packet_bytes (Init_header e (write_bytes off_pubKey pub buf)) in
  m_packetNum (wire ++ rest) = packet_num e /\ read_bytes off_pubKey 65 (wire ++ rest) = pub.
Proof.
  intros He Hp Hb wire. assert (sizeof e = 69%nat) as Hs by (unfold sizeof; by rewrite He).
  set (b := write_bytes off_pubKey pub buf) in *. unfold off_pubKey in *.
  assert (length b = length buf) as Hlb by (unfold b; mem_simpl; done).
  destruct (Init_header_filled e b ltac:(lia)) as (Hl & _ & Hn & Hd).
  assert (wire = take 69 (Init_header e b)) as ->.
  { unfold wire, packet_bytes. rewrite Hd, Nat2Z.id, Hs. done. }
  unfold m_packetNum, rd_u16 in *. rewrite !read_app_l by (rewrite length_take; lia).
  rewrite !read_take by lia. split; [done|].
  unfold Init_header, PacketHeader_Init, wr_u16. mem_simpl. unfold b. mem_simpl. done.
Qed.

Lemma DeriveSessionKey_ok secret hash :
  EVP_sha256 (label ++ secret) = Some hash -> length hash = 32%nat ->
  DeriveSessionKey secret = (true, take 16 hash).
Proof. intros H1 H2. unfold DeriveSessionKey. by rewrite H1, H2. Qed.

Lemma DeriveSharedSecret_ok k pub peer secret :
  EVP_PKEY_fromdata pub = Some peer -> EVP_PKEY_derive k peer = Some secret -> length secret = 32%nat ->
  DeriveSharedSecret k pub = Some secret.
Proof. intros H1 H2 H3. unfold DeriveSharedSecret, ImportPeerKey. by rewrite H1, H2, H3. Qed.

Definition key_wire (e : PacketEnum) (pub buf : list Z) : list Z :=
  packet_bytes (Init_header e (write_bytes off_pubKey pub buf)).

Lemma client_hello (extra : option (W -> W)) k pub buf w :
  GetPublicKeyBytes k = Some pub ->
  ServerSession_OnConnected extra (Some k) (Some buf) gs_new w =
    Ok (mkGs true false None (Some k) [key_wire Req_KeyExchange pub buf],
        match extra with Some extra => extra w | None => w end).
Proof. intros H. unfold ServerSession_OnConnected. by rewrite H. Qed.

Lemma server_answer k peer pub secret hash buf stack mem w :
  m_packetNum mem = packet_num Req_KeyExchange -> read_bytes off_pubKey 65 mem = peer ->
  DeriveSharedSecret k peer = Some secret -> DeriveSessionKey secret = (true, take 16 hash) ->
  GetPublicKeyBytes k = Some pub ->
  GameSession_OnRecv Process (mkEnv (Some k) (Some buf) stack) mem gs_new w =
    Ok (true, mkGs true true (Some (take 16 hash)) None [key_wire Res_KeyExchange pub buf], w).
Proof.
  intros Hn Hr Hd Hs Hp. unfold GameSession_OnRecv, HandleKeyExchange.
  cbn [m_handshakeDone gs_new negb e_key e_chunk]. rewrite Hn, Z.eqb_refl, Hr, Hd, Hs, Hp. done.
Qed.

(** Encrypted under [key]: a login of the test user. *)
Definition sealed_login (key wire : list Z) : Prop :=
  m_packetNum wire = packet_num Encrypted /\
  forall env rest r w, established key r ->
  exists plainBuf, GameSession_OnRecv Process env (wire ++ rest) r w = Process (packet_num Req_Login) plainBuf r w /\
    Get_string off_m_username 16 plainBuf = Some testuser /\ Get_string off_m_password 64 plainBuf = Some testpass.

Lemma login_opens key nonce lg c t wire :
  (84 <= length lg)%nat -> m_packetNum lg = packet_num Req_Login -> m_dataSize lg = Z.of_nat 84 ->
  Get_string off_m_username 16 lg = Some testuser -> Get_string off_m_password 64 lg = Some testpass ->
  GCM_seal key nonce (packet_bytes lg) = Some (c, t) -> envelope wire nonce c t -> sealed_login key wire.
Proof.
  intros Hl Hn Hd Hu Hp Hs He. split; [apply He|]. intros env rest r w Hr.
  assert (packet_bytes lg = take 84 lg) as Hpb by (unfold packet_bytes; by rewrite Hd, Nat2Z.id).
  assert (length (take 84 lg) = 84%nat) as Hl84 by (rewrite length_take; lia).
  exists (write_bytes 0 (take 84 lg) (e_stack env)). rewrite Hpb in Hs.
  destruct (envelope_opens key nonce (take 84 lg) c t wire rest env (mkLoginEnv None None None) (e_stack env) r w Hr)
    as [_ ->]; [lia|rewrite Hl84; by vm_compute|done|done|].
  unfold m_packetNum, rd_u16, Get_string in *. unfold_fields.
  rewrite !read_write_0, !read_take by (rewrite ?Hl84; lia). by rewrite Hn.
Qed.

Lemma client_finish k peer secret hash lbuf ebuf nonce stack mem sent w :
  m_packetNum mem = packet_num Res_KeyExchange -> read_bytes off_pubKey 65 mem = peer ->
  DeriveSharedSecret k peer = Some secret -> DeriveSessionKey secret = (true, take 16 hash) ->
  (84 <= length lbuf)%nat -> (1312 <= length ebuf)%nat -> length nonce = 12%nat ->
  (forall plain, is_Some (GCM_seal (take 16 hash) nonce plain)) ->
  exists login,
    ServerSession_OnRecv Process (mkLoginEnv (Some lbuf) (Some ebuf) (Some nonce)) stack mem
      (mkGs true false None (Some k) sent) w =
      Ok (true, mkGs true true (Some (take 16 hash)) None (sent ++ [login]), w) /\
    sealed_login (take 16 hash) login.
Proof.
  intros Hn Hr Hd Hs Hlb Heb Hlen Hseal.
  destruct (ReqLogin_Init_ok testuser testpass lbuf Hlb) as (lg & Hlg & (Hlgl & _ & Hlgn & Hlgd) & Hu & Hp).
  change (sizeof Req_Login) with 84%nat in Hlgd.
  destruct (Hseal (packet_bytes lg)) as [[c t] Hct].
  destruct (SendEncrypted_envelope (take 16 hash) nonce lg ebuf c t
              (mkGs true true (Some (take 16 hash)) None sent)) as (wire & Hw & He); try done.
  { rewrite Hlgd. by vm_compute. }
  { rewrite Hlgd, Hlgl. lia. }
  exists wire. split; [|by apply (login_opens _ nonce lg c t); [lia|..]].
  unfold ServerSession_OnRecv, HandleResKeyExchange. cbn [m_handshakeDone m_myPrivKey negb]. rewrite Hn, Z.eqb_refl, Hr, Hd, Hs.
  cbn [negb le_login le_chunk le_rand]. rewrite Hlg. cbn [mbind outcome_bind].
  unfold ServerSession_Send, establish. cbn [m_handshakeDone m_connected gs_sent].
  change (ServerSession_SendEncrypted (Some ebuf)) with (SendEncrypted (Some ebuf)). by rewrite Hw.
Qed.

(** C11: the handshake: when the client connects, its request reaches the
    server and the answer reaches the client, both ends are established with
    the same session key (the first half of SHA-256 over the label and the
    ECDH secret), both still connected; and the first thing the client sends
    encrypted is its login: the server's OnRecv opens it and hands the handler a
    Req_Login with the client's user name and password.  The callback of
    SetOnConnectedExtra, if any, has run once. *)
Theorem handshake_agrees (kc ks PC PS : EVP_PKEY) (pc ps secret hash : list Z)
    (cbuf sbuf lbuf ebuf nonce rest rest' stack : list Z) (extra : option (W -> W)) (w : W) :
  EVP_PKEY_pub kc = Some pc -> length pc = 65%nat -> EVP_PKEY_fromdata pc = Some PC ->
  EVP_PKEY_pub ks = Some ps -> length ps = 65%nat -> EVP_PKEY_fromdata ps = Some PS ->
  EVP_PKEY_derive ks PC = Some secret -> length secret = 32%nat ->
  EVP_sha256 (label ++ secret) = Some hash -> length hash = 32%nat ->
  (69 <= length cbuf)%nat -> (69 <= length sbuf)%nat -> (84 <= length lbuf)%nat ->
  (1312 <= length ebuf)%nat -> length nonce = 12%nat ->
  (forall plain, is_Some (GCM_seal (take 16 hash) nonce plain)) ->
  exists c1 req s1 res c2 login,
    ServerSession_OnConnected extra (Some kc) (Some cbuf) gs_new w =
      Ok (c1, match extra with Some extra => extra w | None => w end) /\ gs_sent c1 = [req] /\
    GameSession_OnRecv Process (mkEnv (Some ks) (Some sbuf) stack) (req ++ rest) gs_new w = Ok (true, s1, w) /\
    gs_sent s1 = [res] /\
    ServerSession_OnRecv Process (mkLoginEnv (Some lbuf) (Some ebuf) (Some nonce)) stack (res ++ rest') c1 w =
      Ok (true, c2, w) /\
    gs_sent c2 = [req; login] /\ sealed_login (take 16 hash) login /\
    established (take 16 hash) s1 /\ established (take 16 hash) c2 /\
    m_connected s1 = true /\ m_connected c2 = true.
Proof.
  intros Hpc Hlc HPC Hps Hls HPS Hsec Hlsec Hh Hlh Hcb Hsb Hlb Heb Hn Hseal.
  assert (Hsec' : EVP_PKEY_derive kc PS = Some secret).
  { rewrite <- Hsec. by apply (ecdh_commutes kc ks pc ps PC PS). }
  assert (GetPublicKeyBytes kc = Some pc /\ GetPublicKeyBytes ks = Some ps) as [HGc HGs].
  { unfold GetPublicKeyBytes. by rewrite Hpc, Hps, Hlc, Hls. }
  destruct (key_packet Req_KeyExchange pc cbuf rest eq_refl Hlc Hcb) as [Hn1 Hr1].
  destruct (key_packet Res_KeyExchange ps sbuf rest' eq_refl Hls Hsb) as [Hn2 Hr2].
  pose proof (DeriveSessionKey_ok secret hash Hh Hlh) as Hk.
  destruct (client_finish kc ps secret hash lbuf ebuf nonce stack _ [key_wire Req_KeyExchange pc cbuf] w
              Hn2 Hr2 (DeriveSharedSecret_ok kc ps PS secret HPS Hsec' Hlsec) Hk Hlb Heb Hn Hseal)
    as (login & Hfin & Henc).
  do 6 eexists. split_and!;
    [by apply client_hello|reflexivity
    |by apply (server_answer ks pc ps secret hash); [..|apply (DeriveSharedSecret_ok ks pc PC)| |]
    |reflexivity|exact Hfin|reflexivity|exact Henc|done..].
Qed.
End channel.

(** *** A concrete instance: a toy algebra with the laws above *)

Module toy.
Definition M65 : Z := 256 ^ 65.

#[local] Instance ssl : OpenSSL := {|
  EVP_PKEY := Z;
  EVP_PKEY_pub k := Some (le_encode 65 k);
  EVP_PKEY_fromdata b := Some (le_decode b);
  EVP_PKEY_derive a b := Some (le_encode 32 ((a + b) mod M65));
  EVP_sha256 l := Some (take 32 (l ++ replicate 32 0));
  GCM_seal k n p := Some (p, replicate 16 7);
  GCM_open k n c t := if decide (t = replicate 16 7) then Some c else None;
  PBKDF2 pw salt := Some (take 32 (map (fun z => z mod 256) (pw ++ salt) ++ replicate 32 0));
|}.

#[local] Instance ssl_ok : OpenSSL_ok ssl.
Proof.
  split; cbn [EVP_PKEY EVP_PKEY_pub EVP_PKEY_fromdata EVP_PKEY_derive GCM_seal GCM_open PBKDF2 ssl].
  - intros a b pa pb A B H1 H2 H3 H4.
    apply (inj Some) in H1 as <-, H2 as <-, H3 as <-, H4 as <-. rewrite !le_decode_encode.
    change (256 ^ Z.of_nat 65) with M65. rewrite !Zplus_mod_idemp_r. by rewrite Z.add_comm.
  - intros. by simplify_eq.
  - intros. simplify_eq. by rewrite decide_True.
  - intros k n c t p. case_decide; intros; by simplify_eq.
  - intros pw salt h E. simplify_eq. split.
    + rewrite length_take, length_app, length_replicate. lia.
    + apply Forall_take, Forall_app. split; [|by apply Forall_replicate].
      apply Forall_forall. intros x (y & -> & _)%list_elem_of_fmap. apply Z.mod_pos_bound. lia.
Qed.
End toy.

Definition toy_key : list Z := replicate 16 9.
Definition toy_end : @gsession toy.ssl := @mkGs toy.ssl true true (Some toy_key) None [].
Definition toy_nonce : list Z := replicate 12 3.
Definition toy_inner : list Z := [63; 0; 6; 0; 104; 105].

(** Counts the packets. *)
Definition toy_process (_num : Z) (_buf : list Z) (s : @gsession toy.ssl) (w : nat)
  : outcome (bool * @gsession toy.ssl * nat) := Ok (true, s, S w).

Lemma channel_roundtrip_witness :
  exists wire, Z.of_nat (length wire) = 38 /\
    @ServerSession_OnRecv toy.ssl nat toy_process (mkLoginEnv None None None) (replicate 1280 1)
      (wire ++ [1; 2; 3]) toy_end 0%nat = Ok (true, toy_end, 1%nat).
Proof.
  destruct (@channel_roundtrip toy.ssl toy.ssl_ok nat toy_process toy_key toy_nonce toy_inner
    (replicate 2048 0) (packet_bytes toy_inner) (replicate 16 7) toy_end toy_end 0%nat [1; 2; 3] (replicate 1280 1)
    (@mkEnv toy.ssl None None (replicate 1280 1)) (mkLoginEnv None None None)) as (wire & H1 & _ & _ & H4 & _);
    [done|done|reflexivity|rewrite length_replicate; lia|vm_compute; split; congruence|vm_compute; congruence|reflexivity|].
  exists wire. split; [exact H1|exact H4].
Defined.

Lemma server_accepts_only_sealed_witness :
  @GameSession_OnRecv toy.ssl nat toy_process (@mkEnv toy.ssl None None (replicate 1280 1))
    [10; 0; 4; 0] (@gs_new toy.ssl) 0%nat = Ok (false, @Disconnect toy.ssl (@gs_new toy.ssl), 0%nat).
Proof.
  apply (@server_accepts_only_sealed toy.ssl toy.ssl_ok nat toy_process toy_key); [reflexivity|].
  vm_compute. congruence.
Defined.

Lemma handshake_agrees_witness :
  exists (s1 c2 : @gsession toy.ssl) key req login, m_cipher s1 = Some key /\ m_cipher c2 = Some key /\
    gs_sent c2 = [req; login] /\ sealed_login toy_process key login.
Proof.
  set (sec := le_encode 32 ((5 + 11) mod toy.M65)).
  destruct (@handshake_agrees toy.ssl toy.ssl_ok nat toy_process 11 5 11 5
    (le_encode 65 11) (le_encode 65 5) sec (take 32 ((label ++ sec) ++ replicate 32 0))
    (replicate 1024 1) (replicate 1024 2) (replicate 1024 3) (replicate 2048 4) toy_nonce [] [] (replicate 1280 0) (Some S) 0%nat)
    as (c1 & req & s1 & res & c2 & login & _ & _ & _ & _ & _ & Hsent & Hlogin & [H1 H2] & [H3 H4] & _).
  1-10: vm_compute; reflexivity.
  1-4: rewrite length_replicate; lia.
  - reflexivity.
  - intros plain. by eexists.
  - exists s1, c2. eexists. exists req, login. done.
Defined.
