(* ===== verification/Auth.v ===== *)
(** * Password hashing, account lookup and the login request

    src/DhNet_Server/DhNet_Server/CryptoUtil.cpp, AccountRepository.cpp and
    LoginController.cpp.

    Characters and bytes are [Z]; std::strings are lists.  PBKDF2 and the random
    salt are the OpenSSL parameter of Crypto.v; the MySQL client is the record
    [mysql], one field per call whose result the code looks at. *)

From S2P Require Import Prelude Bytes Packets Crypto.

(** ** Hex *)

Definition HEX_CHARS (d : Z) : Z := if d <? 10 then 48 + d else 97 + (d - 10).

Fixpoint BytesToHex (data : list Z) : list Z :=
  match data with
  | [] => []
  | b :: data' =>
      HEX_CHARS (Z.land (Z.shiftr b 4) 15) :: HEX_CHARS (Z.land b 15) :: BytesToHex data'
  end.

Definition hexVal (c : Z) : Z :=
  if (48 <=? c) && (c <=? 57) then c - 48
  else if (97 <=? c) && (c <=? 102) then c - 97 + 10
  else if (65 <=? c) && (c <=? 70) then c - 65 + 10
  else -1.

Fixpoint hex_loop (hex : list Z) : option (list Z) :=
  match hex with
  | h :: l :: hex' =>
      let hi := hexVal h in
      let lo := hexVal l in
      if (hi <? 0) || (lo <? 0) then None
      else (u8 (Z.lor (Z.shiftl hi 4) lo) ::.) <$> hex_loop hex'
  | _ => Some []
  end.

Definition HexToBytes (hex : list Z) : option (list Z) :=
  if negb (Nat.eqb (length hex mod 2) 0) then None else hex_loop hex.

Section auth.
Context {O : OpenSSL}.

Definition HASH_BYTES : nat := 32.
Definition SALT_BYTES : nat := 16.

(** [rand]: what RAND_bytes puts into the salt, [None] when it fails. *)
Definition HashPassword (rand : option (list Z)) (password : list Z) : option (list Z * list Z) :=
  match rand with
  | None => None
  | Some salt =>
      match PBKDF2 password salt with
      | None => None
      | Some hash => Some (BytesToHex hash, BytesToHex salt)
      end
  end.

Definition VerifyPassword (password storedHashHex storedSaltHex : list Z) : bool :=
  match HexToBytes storedSaltHex with
  | None => false
  | Some salt =>
      if negb (Nat.eqb (length salt) SALT_BYTES) then false
      else
        match PBKDF2 password salt with
        | None => false
        | Some computed =>
            match HexToBytes storedHashHex with
            | None => false
            | Some storedHash =>
                if negb (Nat.eqb (length storedHash) HASH_BYTES) then false
                else bool_decide (computed = storedHash)   (* CRYPTO_memcmp *)
            end
        end
  end.

(** ** AccountRepository *)

(** One connection: which calls succeed, and the row [mysql_stmt_fetch] puts
    into the result buffers for a username (id, password_hash, salt); [None]
    stands for every non-zero result. *)
Record mysql := mkMysql {
  stmt_init : bool;
  stmt_prepare : bool;
  stmt_bind_param : bool;
  stmt_execute : bool;
  stmt_bind_result : bool;
  stmt_fetch : list Z -> option (Z * list Z * list Z);
}.

(** hashBuf[hashLen] = 0, then read as a C string. *)
Definition buf_string (n : nat) (column : list Z) : list Z := cprefix n (c_str column).

Definition Authenticate (dummy : list Z * list Z) (conn : option mysql) (username password : list Z)
  : option (Z * list Z) :=
  match conn with
  | None => None
  | Some db =>
      if negb (stmt_init db) then None
      else if negb (stmt_prepare db) then None
      else if negb (stmt_bind_param db) then None
      else if negb (stmt_execute db) then None
      else if negb (stmt_bind_result db) then None
      else
        match stmt_fetch db username with
        | None => let _ := VerifyPassword password (fst dummy) (snd dummy) in None
        | Some (id, hash, salt) =>
            if VerifyPassword password (buf_string 64 hash) (buf_string 32 salt)
            then Some (u64 id, username) else None
        end
  end.

(** Every call but the fetch succeeds. *)
Definition db_answers (db : mysql) : bool :=
  stmt_init db && stmt_prepare db && stmt_bind_param db && stmt_execute db && stmt_bind_result db.

(** ** LoginController *)

(** What HandleReqLoginPacket does: answer ResLoginFailed at once, or queue the
    authentication of a username and password. *)
Inductive login_action := RejectNow | Queue (username password : list Z).

Definition read_credentials (_header : list Z) : outcome (list Z * list Z) :=
  u ← strncpy_s (drop off_m_username _header) 16 (replicate 17 0);
  p ← strncpy_s (drop off_m_password _header) 64 (replicate 65 0);
  match c_string u, c_string p with
  | Some usernameStr, Some passwordStr => Ok (usernameStr, passwordStr)
  | _, _ => Crash "unterminated string"
  end.

Definition HandleReqLoginPacket (hasDbSystem : bool) (_header : list Z) : outcome login_action :=
  c ← read_credentials _header;
  let '(usernameStr, passwordStr) := c in
  let uLen := Z.of_nat (length usernameStr) in
  let pLen := Z.of_nat (length passwordStr) in
  if (uLen <? 4) || (uLen >? 16) || (pLen <? 8) || (pLen >? 64) then Ok RejectNow
  else if negb hasDbSystem then Ok RejectNow
  else Ok (Queue usernameStr passwordStr).

(** The task run on a DB worker, up to what it hands to OnLoginResult. *)
Definition login_task (dummy : list Z * list Z) (conn : option mysql) (username password : list Z)
  : bool * Z * list Z :=
  match conn with
  | None => (false, 0, [])
  | Some _ =>
      match Authenticate dummy conn username password with
      | Some (id, name) => (true, id, name)
      | None => (false, 0, [])
      end
  end.

(** An account, and the salt and password it was stored with. *)
Record account := mkAccount { a_id : Z; a_salt : list Z; a_password : list Z }.

(** The statement fetches, for a username, the row HashPassword made for the
    account its WHERE clause finds, and no row when there is none. *)
Definition db_holds (db : mysql) (accounts : gmap (list Z) account) : Prop :=
  forall u, match accounts !! u with
  | Some a => exists h s, length (a_salt a) = SALT_BYTES /\ Forall is_byte (a_salt a) /\
      HashPassword (Some (a_salt a)) (a_password a) = Some (h, s) /\ stmt_fetch db u = Some (a_id a, h, s)
  | None => stmt_fetch db u = None
  end.
End auth.

(** ** Lemmas *)

Lemma hexVal_HEX d : 0 <= d < 16 -> hexVal (HEX_CHARS d) = d.
Proof.
  intros H. assert (d = 0 \/ d = 1 \/ d = 2 \/ d = 3 \/ d = 4 \/ d = 5 \/ d = 6 \/ d = 7 \/ d = 8 \/ d = 9 \/
    d = 10 \/ d = 11 \/ d = 12 \/ d = 13 \/ d = 14 \/ d = 15) as Hd by lia.
  by repeat (destruct Hd as [->|Hd]; [done|]); subst.
Qed.

Lemma nibbles b : is_byte b ->
  0 <= Z.land (Z.shiftr b 4) 15 < 16 /\ 0 <= Z.land b 15 < 16 /\
  u8 (Z.lor (Z.shiftl (Z.land (Z.shiftr b 4) 15) 4) (Z.land b 15)) = b.
Proof.
  unfold is_byte. intros Hb. change 15 with (Z.ones 4). rewrite !Z.land_ones by lia.
  rewrite Z.shiftr_div_pow2, Z.shiftl_mul_pow2 by lia. change (2 ^ 4) with 16.
  assert (0 <= b / 16 < 16) by (split; [apply Z.div_pos|apply Z.div_lt_upper_bound]; lia).
  rewrite (Z.mod_small (b / 16)) by lia. pose proof (Z.mod_pos_bound b 16 ltac:(lia)).
  split_and!; try lia.
  assert (Z.lor (b / 16 * 16) (b mod 16) = b / 16 * 16 + b mod 16) as ->.
  { rewrite <- Z.lxor_lor, <- Z.add_nocarry_lxor; try done.
    all: change 16 with (2 ^ 4) at 1 2 3 || idtac.
    all: apply Z.bits_inj'; intros n Hn; rewrite Z.land_spec, Z.bits_0;
      change 16 with (2 ^ 4); rewrite <- Z.shiftl_mul_pow2, <- Z.land_ones by lia;
      destruct (Z.lt_ge_cases n 4);
      [rewrite Z.shiftl_spec_low by done; done
      |rewrite Z.land_spec, Z.ones_spec_high by lia; by rewrite !andb_false_r]. }
  pose proof (Z.div_mod b 16 ltac:(lia)).
  rewrite wrapU_small by (change (2 ^ 8) with 256; lia). lia.
Qed.

Lemma length_hex data : length (BytesToHex data) = (2 * length data)%nat.
Proof. induction data as [|b data IH]; cbn; [done|]. rewrite IH. lia. Qed.

Lemma hex_roundtrip data : Forall is_byte data -> HexToBytes (BytesToHex data) = Some data.
Proof.
  intros H. unfold HexToBytes. rewrite length_hex.
  replace (2 * length data)%nat with (length data * 2)%nat by lia. rewrite Nat.Div0.mod_mul. cbn [Nat.eqb negb].
  induction H as [|b data Hb _ IH]; [done|]. cbn [BytesToHex hex_loop].
  destruct (nibbles b Hb) as (H1 & H2 & H3). rewrite !hexVal_HEX by done.
  rewrite (proj2 (Z.ltb_ge _ _)), (proj2 (Z.ltb_ge _ _)) by lia. cbn [orb]. rewrite IH, H3. done.
Qed.

Lemma HEX_CHARS_nonzero d : 0 <= d -> HEX_CHARS d <> 0.
Proof. intros H. unfold HEX_CHARS. case_match; to_prop; lia. Qed.

Lemma cprefix_full n s : Forall (fun c => c <> 0) s -> (length s <= n)%nat -> cprefix n (c_str s) = s.
Proof.
  revert n. induction s as [|c s IH]; intros n Hs Hn.
  - by destruct n.
  - destruct n; [cbn in Hn; lia|]. apply Forall_cons in Hs as [Hc Hs]. cbn.
    rewrite (proj2 (Z.eqb_neq _ _)) by done. f_equal. apply IH; [done|cbn in Hn; lia].
Qed.

Lemma hex_nonzero data : Forall is_byte data -> Forall (fun c => c <> 0) (BytesToHex data).
Proof.
  induction 1 as [|b data Hb _ IH]; cbn; [done|]. destruct (nibbles b Hb) as (H1 & H2 & _).
  repeat constructor; try apply HEX_CHARS_nonzero; try lia. done.
Qed.

Section auth_properties.
Context {O : OpenSSL} {OK : OpenSSL_ok O}.

Lemma HashPassword_inv salt pw h s :
  HashPassword (Some salt) pw = Some (h, s) ->
  exists hash, PBKDF2 pw salt = Some hash /\ h = BytesToHex hash /\ s = BytesToHex salt /\
    length hash = HASH_BYTES /\ Forall is_byte hash.
Proof.
  cbn. destruct (PBKDF2 pw salt) as [hash|] eqn:E; [|done]. intros. simplify_eq.
  destruct (pbkdf2_shape _ _ _ E). eauto 10.
Qed.

Lemma Verify_hashed salt pw pw' h s :
  length salt = SALT_BYTES -> Forall is_byte salt -> HashPassword (Some salt) pw = Some (h, s) ->
  VerifyPassword pw' h s = bool_decide (PBKDF2 pw' salt = PBKDF2 pw salt).
Proof.
  intros Hl Hb H. destruct (HashPassword_inv _ _ _ _ H) as (hash & E & -> & -> & Hlh & Hbh).
  unfold VerifyPassword. rewrite hex_roundtrip by done. rewrite Hl. cbn [Nat.eqb SALT_BYTES negb].
  rewrite hex_roundtrip by done. rewrite E, Hlh. cbn [Nat.eqb HASH_BYTES negb].
  destruct (PBKDF2 pw' salt) as [c|]; [|by rewrite bool_decide_false].
  apply bool_decide_ext. split; congruence.
Qed.

(** C33: a password hashed by HashPassword verifies, and VerifyPassword accepts
    exactly the passwords whose PBKDF2 image under the stored salt is the
    stored one. *)
Theorem password_roundtrip (salt pw pw' h s : list Z) :
  length salt = SALT_BYTES -> Forall is_byte salt -> HashPassword (Some salt) pw = Some (h, s) ->
  VerifyPassword pw h s = true /\
  (VerifyPassword pw' h s = true <-> PBKDF2 pw' salt = PBKDF2 pw salt).
Proof.
  intros Hl Hb H. rewrite !(Verify_hashed salt pw _ h s Hl Hb H). split.
  - by apply bool_decide_true.
  - by rewrite bool_decide_eq_true.
Qed.

Lemma Authenticate_stored dummy db username password rid hash salt rnd pw :
  stmt_fetch db username = Some (rid, hash, salt) ->
  length rnd = SALT_BYTES -> Forall is_byte rnd -> HashPassword (Some rnd) pw = Some (hash, salt) ->
  Authenticate dummy (Some db) username password =
    if db_answers db && bool_decide (PBKDF2 password rnd = PBKDF2 pw rnd) then Some (u64 rid, username) else None.
Proof.
  intros Hf Hl Hb Hh. assert (HE := HashPassword_inv _ _ _ _ Hh). destruct HE as (hb & _ & -> & -> & Hlh & Hbh).
  unfold Authenticate, db_answers. rewrite Hf. unfold buf_string.
  rewrite !cprefix_full by (rewrite ?length_hex, ?Hlh, ?Hl; try done; by apply hex_nonzero).
  rewrite (Verify_hashed rnd pw password _ _ Hl Hb Hh).
  by destruct (stmt_init db), (stmt_prepare db), (stmt_bind_param db), (stmt_execute db), (stmt_bind_result db).
Qed.

Lemma Authenticate_unknown dummy db username password :
  stmt_fetch db username = None -> Authenticate dummy (Some db) username password = None.
Proof. intros Hf. unfold Authenticate. rewrite Hf. by repeat case_match. Qed.
End auth_properties.

Lemma c_string_strncpy src n m :
  (n < m)%nat -> exists f, strncpy_s src n (replicate m 0) = Ok f /\ c_string f = Some (cprefix n src).
Proof.
  intros H. rewrite strncpy_s_ok by (rewrite length_replicate; lia).
  eexists. split; [done|]. apply cprefix_app_nul.
Qed.

Lemma read_credentials_ok mem :
  read_credentials mem = Ok (cprefix 16 (drop off_m_username mem), cprefix 64 (drop off_m_password mem)).
Proof.
  unfold read_credentials.
  destruct (c_string_strncpy (drop off_m_username mem) 16 17 ltac:(lia)) as (u & -> & Hu).
  destruct (c_string_strncpy (drop off_m_password mem) 64 65 ltac:(lia)) as (p & -> & Hp).
  cbn [mbind outcome_bind]. by rewrite Hu, Hp.
Qed.

(** C39: logging in.  Whatever bytes arrive as a login packet, the authentication
    of its username (cut at 16) and password (cut at 64) is queued exactly when
    there is a database and the lengths are 4 to 16 and 8 to 64, and else refused
    at once; the task answers with the account's id and the username exactly when
    it has a connection whose calls succeed, the statement finds an account under
    the username, and the password has the PBKDF2 image of the account's own under
    the account's salt. *)
Theorem login_exact {O : OpenSSL} {OK : OpenSSL_ok O} (hasDb : bool) (mem : list Z) (dummy : list Z * list Z)
    (accounts : gmap (list Z) account) (conn : option mysql) :
  (forall db, conn = Some db -> db_holds db accounts) ->
  let u := cprefix 16 (drop off_m_username mem) in
  let p := cprefix 64 (drop off_m_password mem) in
  HandleReqLoginPacket hasDb mem =
    Ok (if decide (hasDb = true /\ (4 <= length u <= 16)%nat /\ (8 <= length p <= 64)%nat) then Queue u p else RejectNow) /\
  login_task dummy conn u p =
    match conn, accounts !! u with
    | Some db, Some a =>
        if db_answers db && bool_decide (PBKDF2 p (a_salt a) = PBKDF2 (a_password a) (a_salt a))
        then (true, u64 (a_id a), u) else (false, 0, [])
    | _, _ => (false, 0, [])
    end.
Proof.
  intros Hdb u p. split.
  - unfold HandleReqLoginPacket. rewrite read_credentials_ok. cbn [mbind outcome_bind]. fold u p.
    rewrite !Z.gtb_ltb. destruct (_ || _) eqn:E.
    + rewrite decide_False; [done|]. rewrite !orb_true_iff in E. intros (_ & Hu & Hp).
      destruct E as [[[E|E]|E]|E]; to_prop; lia.
    + to_prop. destruct hasDb; cbn [negb]; [rewrite decide_True; [done|]|rewrite decide_False; [done|naive_solver]].
      split_and!; [done|lia..].
  - unfold login_task. destruct conn as [db|]; [|done]. specialize (Hdb db eq_refl u).
    destruct (accounts !! u) as [a|].
    + destruct Hdb as (h & s & Hl & Hb & Hh & Hf).
      rewrite (Authenticate_stored dummy db u p _ _ _ _ _ Hf Hl Hb Hh). by destruct (_ && _).
    + by rewrite Authenticate_unknown.
Qed.

(** whatever bytes arrive as a login packet, reading them never overruns
    the two local buffers, and a login is queued only with a username of 4 to 16
    and a password of 8 to 64 characters. *)
Theorem login_request_bounds (hasDb : bool) (mem : list Z) :
  exists a, HandleReqLoginPacket hasDb mem = Ok a /\
    match a with
    | Queue u p => hasDb = true /\ (4 <= length u <= 16)%nat /\ (8 <= length p <= 64)%nat /\
        u = cprefix 16 (drop off_m_username mem) /\ p = cprefix 64 (drop off_m_password mem)
    | RejectNow => True
    end.
Proof.
  unfold HandleReqLoginPacket. rewrite read_credentials_ok. cbn [mbind outcome_bind].
  destruct (_ || _) eqn:E; [by eexists|]. destruct hasDb; cbn [negb]; [|by eexists].
  eexists. split; [done|]. to_prop. split_and!; try done; try lia.
  all: rewrite ?Z.gtb_ltb in *; to_prop; lia.
Qed.

(** *** A stored account of the toy algebra *)

Definition demo_salt : list Z := replicate 16 200.
Definition demo_pw : list Z := [112; 97; 115; 115; 119; 111; 114; 100].
Definition demo_row : list Z * list Z :=
  default ([], []) (@HashPassword toy.ssl (Some demo_salt) demo_pw).
Lemma demo_salt_bytes : Forall is_byte demo_salt.
Proof. apply Forall_replicate. unfold is_byte. lia. Qed.

Lemma password_roundtrip_witness : @VerifyPassword toy.ssl demo_pw (fst demo_row) (snd demo_row) = true.
Proof.
  apply (proj1 (@password_roundtrip toy.ssl toy.ssl_ok demo_salt demo_pw demo_pw _ _
    eq_refl demo_salt_bytes eq_refl)).
Defined.

(** One account, bobby, and a login packet of his. *)
Definition bobby : list Z := [98; 111; 98; 98; 121].
Definition demo_accounts : gmap (list Z) account := {[ bobby := mkAccount 42 demo_salt demo_pw ]}.
Definition bobby_db : mysql :=
  mkMysql true true true true true
    (fun u => if decide (u = bobby) then Some (42, fst demo_row, snd demo_row) else None).
Definition bobby_login : list Z :=
  match encode (ReqLogin bobby demo_pw) (replicate 84 7) with Ok b => b | Crash _ => [] end.

Lemma bobby_holds : @db_holds toy.ssl bobby_db demo_accounts.
Proof.
  intros u. unfold demo_accounts. cbn [stmt_fetch bobby_db]. destruct (decide (u = bobby)) as [->|Hu].
  - rewrite lookup_singleton_eq. exists (fst demo_row), (snd demo_row). cbn [a_salt a_password a_id].
    split; [reflexivity|]. split; [apply demo_salt_bytes|]. split; [|reflexivity]. vm_compute. reflexivity.
  - by rewrite lookup_singleton_ne by congruence.
Qed.

Lemma login_exact_witness :
  HandleReqLoginPacket true bobby_login = Ok (Queue bobby demo_pw) /\
  @login_task toy.ssl demo_row (Some bobby_db) bobby demo_pw = (true, 42, bobby).
Proof.
  destruct (@login_exact toy.ssl toy.ssl_ok true bobby_login demo_row demo_accounts (Some bobby_db)) as [H1 H2].
  { intros db [= <-]. exact bobby_holds. }
  replace (cprefix 16 (drop off_m_username bobby_login)) with bobby in H1, H2 by (vm_compute; reflexivity).
  replace (cprefix 64 (drop off_m_password bobby_login)) with demo_pw in H1, H2 by (vm_compute; reflexivity).
  split; [exact H1|]. rewrite H2. vm_compute. reflexivity.
Defined.
