(* ===== verification/Db.v ===== *)
(** * The database worker pool

    src/DhNet_Server/DhNet_Server/DbConnectionPool.cpp, DbConnection.cpp and
    DbSystem.cpp.

    MYSQL handles and tasks are numbers.  Every queue operation runs under its
    lock, so it is one step; [db_step] interleaves the clients of [Execute], the
    workers and the thread that shuts the system down. *)

From S2P Require Import Prelude.

(** ** DbConnectionPool *)

Record DbConnectionPool := mkPool { _connections : list nat; _poolSize : Z }.

Definition DbConnectionPool_new : DbConnectionPool := mkPool [] 0.

(** The inner retry loop: [mysql_real_connect] is tried at most three times. *)
Definition connects (tries : list bool) : bool := existsb id (take 3 tries).

(** One turn of Init's loop: mysql_init's result and the connect attempts. *)
Definition Init_one (conn : nat) (attempt : bool * list bool) (p : DbConnectionPool) : DbConnectionPool :=
  let '(inited, tries) := attempt in
  if negb inited then p
  else if negb (connects tries) then p
  else mkPool (_connections p ++ [conn]) (_poolSize p + 1).

Fixpoint Init_loop (i : nat) (attempts : list (bool * list bool)) (p : DbConnectionPool) : DbConnectionPool :=
  match attempts with
  | [] => p
  | a :: attempts' => Init_loop (S i) attempts' (Init_one i a p)
  end.

(** [attempts] has one entry per requested connection (poolSize). *)
Definition Pool_Init (attempts : list (bool * list bool)) (p : DbConnectionPool) : bool * DbConnectionPool :=
  let p := Init_loop 0 attempts p in
  (0 <? _poolSize p, p).

Definition Acquire (p : DbConnectionPool) : option nat * DbConnectionPool :=
  match _connections p with
  | [] => (None, p)
  | conn :: rest => (Some conn, mkPool rest (_poolSize p))
  end.

Definition Release (conn : option nat) (p : DbConnectionPool) : DbConnectionPool :=
  match conn with
  | None => p
  | Some c => mkPool (_connections p ++ [c]) (_poolSize p)
  end.

Definition Pool_Shutdown (p : DbConnectionPool) : DbConnectionPool := mkPool [] 0.
Definition IsReady (p : DbConnectionPool) : bool := 0 <? _poolSize p.

(** ** DbSystem *)

(** A worker: at its wait, holding a popped task, inside the task with its
    DbConnection, or returned. *)
Inductive worker :=
| W_wait
| W_popped (task : nat)
| W_task (task : nat) (conn : option nat)
| W_exit.

#[global] Instance worker_eq_dec : EqDecision worker.
Proof. solve_decision. Defined.

Record DbSystem := mkDb {
  _pool : DbConnectionPool;
  _threads : list worker;
  _tasks : list nat;
  _running : bool;
  db_accepted : list nat;   (* tasks Execute queued, oldest first *)
  db_started : list nat;    (* tasks popped, oldest first *)
}.

Definition DbSystem_new : DbSystem := mkDb DbConnectionPool_new [] [] false [] [].

(** [GetDbPoolSize()] is the number of attempts. *)
Definition DbSystem_Init (attempts : list (bool * list bool)) (d : DbSystem) : bool * DbSystem :=
  let '(poolReady, p) := Pool_Init attempts (_pool d) in
  let threadCount := if IsReady p then length attempts else 0%nat in
  (poolReady, mkDb p (_threads d ++ replicate threadCount W_wait) (_tasks d) true
                (db_accepted d) (db_started d)).

Definition Execute (task : nat) (d : DbSystem) : DbSystem :=
  if negb (_running d) then d
  else mkDb (_pool d) (_threads d) (_tasks d ++ [task]) (_running d)
         (db_accepted d ++ [task]) (db_started d).

Definition set_worker (k : nat) (w : worker) (d : DbSystem) : DbSystem :=
  mkDb (_pool d) (<[k := w]> (_threads d)) (_tasks d) (_running d) (db_accepted d) (db_started d).

(** The critical section of WorkerThread; [None] while the wait's predicate is false. *)
Definition WorkerThread_pop (k : nat) (d : DbSystem) : option DbSystem :=
  match _tasks d with
  | [] => if negb (_running d) then Some (set_worker k W_exit d) else None
  | t :: ts =>
      Some (mkDb (_pool d) (<[k := W_popped t]> (_threads d)) ts (_running d)
              (db_accepted d) (db_started d ++ [t]))
  end.

Inductive db_step : DbSystem -> DbSystem -> Prop :=
| db_execute d t : db_step d (Execute t d)
| db_pop d k d' :
    _threads d !! k = Some W_wait -> WorkerThread_pop k d = Some d' -> db_step d d'
| db_acquire d k t conn p :
    _threads d !! k = Some (W_popped t) -> Acquire (_pool d) = (conn, p) ->
    db_step d (mkDb p (<[k := W_task t conn]> (_threads d)) (_tasks d) (_running d)
                 (db_accepted d) (db_started d))
| db_release d k t conn :
    _threads d !! k = Some (W_task t conn) ->
    db_step d (mkDb (Release conn (_pool d)) (<[k := W_wait]> (_threads d)) (_tasks d) (_running d)
                 (db_accepted d) (db_started d))
| db_stop d :
    db_step d (mkDb (_pool d) (_threads d) (_tasks d) false (db_accepted d) (db_started d)).

Definition db_init (attempts : list (bool * list bool)) (d : DbSystem) : Prop :=
  d = snd (DbSystem_Init attempts DbSystem_new).

Definition db_reach attempts : DbSystem -> Prop := reach (db_init attempts) db_step (fun _ => True).

(** ** Invariant *)

Definition held (w : worker) : list nat :=
  match w with W_task _ (Some c) => [c] | _ => [] end.

Definition all_held (d : DbSystem) : list nat := concat (map held (_threads d)).

Record db_inv (n : nat) (d : DbSystem) : Prop := mkDbInv {
  di_conns : NoDup (_connections (_pool d) ++ all_held d);
  di_fifo : db_accepted d = db_started d ++ _tasks d;
  di_exit : W_exit ∈ _threads d -> _running d = false /\ _tasks d = [];
  di_threads : length (_threads d) = n;
}.

Lemma held_insert (l : list worker) k w w' :
  l !! k = Some w ->
  exists l1 l2, concat (map held l) = l1 ++ held w ++ l2 /\
                concat (map held (<[k := w']> l)) = l1 ++ held w' ++ l2.
Proof.
  intros H. exists (concat (map held (take k l))), (concat (map held (drop (S k) l))).
  rewrite insert_take_drop by (by eapply lookup_lt_Some).
  rewrite <- (take_drop_middle l k w H) at 1. by rewrite !map_app, !concat_app.
Qed.

Lemma Init_loop_fresh attempts : forall i p,
  NoDup (_connections p) -> (forall c, c ∈ _connections p -> (c < i)%nat) ->
  NoDup (_connections (Init_loop i attempts p)).
Proof.
  induction attempts as [|[a tr] attempts IH]; intros i p Hn Hlt; cbn; [done|].
  apply IH; unfold Init_one; repeat case_match; try done; cbn.
  - apply NoDup_app. split_and!; [done| |apply NoDup_singleton].
    intros c Hc Hc'. apply list_elem_of_singleton in Hc' as ->. apply Hlt in Hc. lia.
  - intros c Hc. apply Hlt in Hc. lia.
  - intros c Hc. apply Hlt in Hc. lia.
  - intros c [Hc|Hc]%elem_of_app; [apply Hlt in Hc|apply list_elem_of_singleton in Hc as ->]; lia.
Qed.

Lemma db_init_inv attempts d :
  db_init attempts d -> db_inv (length (_threads (snd (DbSystem_Init attempts DbSystem_new)))) d.
Proof.
  intros ->. split; try done.
  - unfold all_held. cbn [DbSystem_Init snd Pool_Init _pool _threads DbSystem_new app].
    replace (concat _) with (@nil nat).
    2:{ generalize (if IsReady (Init_loop 0 attempts DbConnectionPool_new) then length attempts else 0%nat).
        intros m. induction m; cbn; done. }
    rewrite app_nil_r. apply Init_loop_fresh; cbn; [apply NoDup_nil_2|set_solver].
  - cbn. intros H. apply list_elem_of_lookup in H as [i Hi]. apply lookup_replicate in Hi as [? _]. done.
Qed.

Lemma db_step_inv n d d' : db_inv n d -> db_step d d' -> db_inv n d'.
Proof.
  intros Hinv Hs.
  destruct Hs as [d t|d k d' Hk Hp|d k t conn p Hk Ha|d k t conn Hk|d]; destruct Hinv as [Hc Hf He Ht].
  - unfold Execute. destruct (_running d) eqn:Er; cbn [negb]; [|split; try done; intros Hx; destruct (He Hx); done].
    split; cbn; try done.
    + by rewrite Hf, app_assoc.
    + intros Hx. destruct (He Hx). congruence.
  - unfold WorkerThread_pop in Hp. destruct (_tasks d) as [|t ts] eqn:Et.
    + destruct (_running d) eqn:Er; cbn in Hp; simplify_eq.
      destruct (held_insert _ k _ W_exit Hk) as (l1 & l2 & E1 & E2).
      split; cbn; unfold all_held in *; cbn; try done.
      * rewrite E1 in Hc. by rewrite E2.
      * by rewrite Et.
      * by rewrite length_insert.
    + simplify_eq. destruct (held_insert _ k _ (W_popped t) Hk) as (l1 & l2 & E1 & E2).
      split; cbn; unfold all_held in *; cbn; try done.
      * rewrite E1 in Hc. by rewrite E2.
      * by rewrite Hf, <- app_assoc.
      * intros [i Hi]%list_elem_of_lookup. rewrite list_lookup_insert_Some in Hi.
        destruct Hi as [(_ & ? & _)|[_ Hi]]; [done|].
        destruct He as [? ?]; [by apply list_elem_of_lookup_2 in Hi|done].
      * by rewrite length_insert.
  - destruct (held_insert _ k _ (W_task t conn) Hk) as (l1 & l2 & E1 & E2).
    split; cbn; unfold all_held in *; cbn; try done.
    + rewrite E1 in Hc. rewrite E2. unfold Acquire in Ha. destruct (_connections (_pool d)) as [|c cs] eqn:Ec;
        simplify_eq; cbn [held _connections app] in *; [by rewrite Ec|].
      assert (cs ++ l1 ++ c :: l2 ≡ₚ c :: cs ++ l1 ++ l2) as -> by
        (by rewrite app_assoc, <- Permutation_middle, <- app_assoc). done.
    + intros [i Hi]%list_elem_of_lookup. rewrite list_lookup_insert_Some in Hi.
      destruct Hi as [(_ & ? & _)|[_ Hi]]; [done|]. apply He. by apply list_elem_of_lookup_2 in Hi.
    + by rewrite length_insert.
  - destruct (held_insert _ k _ W_wait Hk) as (l1 & l2 & E1 & E2).
    split; cbn; unfold all_held in *; cbn; try done.
    + rewrite E1 in Hc. rewrite E2. destruct conn as [c|]; [|done]. cbn in *.
      assert ((_connections (_pool d) ++ [c]) ++ l1 ++ l2 ≡ₚ _connections (_pool d) ++ l1 ++ c :: l2) as ->;
        [|done]. rewrite <- app_assoc. cbn. by rewrite Permutation_middle.
    + intros [i Hi]%list_elem_of_lookup. rewrite list_lookup_insert_Some in Hi.
      destruct Hi as [(_ & ? & _)|[_ Hi]]; [done|]. apply He. by apply list_elem_of_lookup_2 in Hi.
    + by rewrite length_insert.
  - split; cbn; try done. intros Hx. destruct (He Hx). done.
Qed.

Lemma db_reach_inv attempts d :
  db_reach attempts d -> db_inv (length (_threads (snd (DbSystem_Init attempts DbSystem_new)))) d.
Proof.
  apply reach_invariant; [apply db_init_inv|]. intros s s' Hi Hs _. by eapply db_step_inv.
Qed.

(** ** Properties *)

(** C34: no database connection is ever used by two tasks at once, or used
    while it sits in the pool. *)
Theorem db_connections_exclusive (attempts : list (bool * list bool)) (d : DbSystem) (i j : nat) (t u c : nat) :
  db_reach attempts d -> _threads d !! i = Some (W_task t (Some c)) ->
  (c ∉ _connections (_pool d)) /\ (_threads d !! j = Some (W_task u (Some c)) -> i = j).
Proof.
  intros Hr Hi. apply db_reach_inv in Hr as [Hc _ _ _]. apply NoDup_app in Hc as (_ & Hd & Hn).
  unfold all_held in *. split.
  - intros Hin. apply (Hd _ Hin). destruct (held_insert _ i _ W_wait Hi) as (l1 & l2 & E & _).
    rewrite E. cbn. set_solver.
  - intros Hj. destruct (decide (i = j)) as [|Hne]; [done|exfalso].
    destruct (held_insert _ i _ W_wait Hi) as (l1 & l2 & E1 & E2).
    rewrite E1 in Hn. cbn in Hn. apply NoDup_app in Hn as (_ & Hl1 & Hl2). apply NoDup_cons in Hl2 as [Hl2 _].
    assert (<[i:=W_wait]> (_threads d) !! j = Some (W_task u (Some c))) as Hj' by (by rewrite list_lookup_insert_ne).
    destruct (held_insert _ j _ W_wait Hj') as (m1 & m2 & E3 & _). rewrite E2 in E3. cbn in E3.
    assert (c ∈ l1 ++ l2) as Hin by (rewrite E3; set_solver).
    apply elem_of_app in Hin as [Hin|Hin]; [|done]. apply (Hl1 _ Hin). set_solver.
Qed.

(** The steps a worker has left, and those of the queued tasks. *)
Definition work (w : worker) : nat := match w with W_wait => 1 | W_popped _ => 3 | W_task _ _ => 2 | W_exit => 0 end.
Definition todo (d : DbSystem) : nat := 3 * length (_tasks d) + sum_list (map work (_threads d)).

Lemma work_insert l k w w' :
  l !! k = Some w -> (sum_list (map work (<[k := w']> l)) + work w = sum_list (map work l) + work w')%nat.
Proof.
  intros Hk. rewrite insert_take_drop by (by eapply lookup_lt_Some). rewrite <- (take_drop_middle l k w Hk) at 3.
  rewrite !map_app. cbn [map]. rewrite !sum_list_with_app. cbn. unfold id. lia.
Qed.

(** Once [_running] is false, a step is a worker's, and brings it closer to its end. *)
Lemma stopped_step d d' : _running d = false -> db_step d d' -> d' = d \/ (todo d' < todo d)%nat.
Proof.
  intros Hr Hs. destruct Hs as [d t|d k d' Hk Hp|d k t conn p Hk Ha|d k t conn Hk|d].
  - left. unfold Execute. by rewrite Hr.
  - right. unfold WorkerThread_pop in Hp. unfold todo. destruct (_tasks d) as [|t ts] eqn:Et.
    + rewrite Hr in Hp. cbn [negb] in Hp. simplify_eq. unfold set_worker. cbn [_tasks _threads]. rewrite Et.
      pose proof (work_insert _ _ _ W_exit Hk) as H. cbn [work] in H. lia.
    + simplify_eq. cbn [_tasks _threads length]. pose proof (work_insert _ _ _ (W_popped t) Hk) as H. cbn [work] in H. lia.
  - right. unfold todo. cbn [_tasks _threads]. pose proof (work_insert _ _ _ (W_task t conn) Hk) as H. cbn [work] in H. lia.
  - right. unfold todo. cbn [_tasks _threads]. pose proof (work_insert _ _ _ W_wait Hk) as H. cbn [work] in H. lia.
  - left. rewrite <- Hr. by destruct d.
Qed.

Lemma stopped_progress d k w :
  _running d = false -> _threads d !! k = Some w -> w <> W_exit -> exists d', db_step d d' /\ (todo d' < todo d)%nat.
Proof.
  intros Hr Hk Hw. assert (exists d', db_step d d' /\ d' <> d) as (d' & Hs & Hne).
  { assert (forall w', w' <> w -> <[k := w']> (_threads d) <> _threads d) as Hne.
    { intros w' Hw' E. pose proof (list_lookup_insert_eq (_threads d) k w' (lookup_lt_Some _ _ _ Hk)) as H.
      rewrite E, Hk in H. congruence. }
    destruct w as [|t|t conn|]; [| | |done].
    - destruct (WorkerThread_pop k d) as [d'|] eqn:Ep.
      + exists d'. split; [by eapply db_pop|]. unfold WorkerThread_pop, set_worker in Ep. rewrite Hr in Ep.
        intros E. apply (f_equal _threads) in E. destruct (_tasks d); injection Ep as <-; by apply Hne in E.
      + unfold WorkerThread_pop in Ep. rewrite Hr in Ep. by destruct (_tasks d).
    - destruct (Acquire (_pool d)) as [conn q] eqn:Ea. eexists. split; [by eapply db_acquire|].
      intros E. apply (f_equal _threads) in E. by apply Hne in E.
    - eexists. split; [by eapply db_release|]. intros E. apply (f_equal _threads) in E. by apply Hne in E. }
  exists d'. split; [done|]. by destruct (stopped_step _ _ Hr Hs).
Qed.

Lemma no_worker_none_started attempts d : db_reach attempts d -> _threads d = [] -> db_started d = [].
Proof.
  intros Hr. induction Hr as [s ->|s s' _ IH Hs _]; [done|]. intros E.
  destruct Hs as [d t|d k d' Hk Hp|d k t conn p Hk Ha|d k t conn Hk|d]; try by apply IH.
  - unfold Execute in *. destruct (_running d); by apply IH.
  - apply lookup_lt_Some in Hk. assert (length (_threads d') = length (_threads d)) as Hl.
    { unfold WorkerThread_pop, set_worker in Hp. repeat case_match; simplify_eq; cbn; by rewrite length_insert. }
    rewrite E in Hl. cbn in Hl. lia.
  - apply lookup_lt_Some in Hk. apply (f_equal length) in E. cbn in E. rewrite length_insert in E. lia.
  - apply lookup_lt_Some in Hk. apply (f_equal length) in E. cbn in E. rewrite length_insert in E. lia.
Qed.

(** C35: tasks start in the order they were accepted, each once.  Once shutdown has
    cleared [_running], every step either changes nothing or brings the workers closer
    to their end, and there is such a step until all have returned, so the joins of
    Shutdown end; when they have, every accepted task was started, provided Init
    started a worker; without one none ever is. *)
Theorem db_shutdown_drains (attempts : list (bool * list bool)) (d : DbSystem) :
  db_reach attempts d ->
  db_accepted d = db_started d ++ _tasks d /\
  (_running d = false ->
     (forall d', db_step d d' -> d' = d \/ (todo d' < todo d)%nat) /\
     (Forall (fun w => w = W_exit) (_threads d) \/ exists d', db_step d d' /\ (todo d' < todo d)%nat)) /\
  (Forall (fun w => w = W_exit) (_threads d) ->
     db_started d = if decide (_threads d = []) then [] else db_accepted d).
Proof.
  intros Hr. pose proof (db_reach_inv _ _ Hr) as [_ Hf He _]. split_and!; [done| |].
  - intros Hstop. split; [intros d'; by apply stopped_step|].
    destruct (decide (Forall (fun w => w = W_exit) (_threads d))) as [|Hn]; [by left|right].
    apply not_Forall_Exists, Exists_exists in Hn as (w & [k Hk]%list_elem_of_lookup & Hw); [|intros ?; apply _].
    by eapply stopped_progress.
  - intros Hall. destruct (decide (_threads d = [])) as [E|E]; [by eapply no_worker_none_started|].
    destruct (_threads d) as [|w ws] eqn:Et; [done|]. apply Forall_cons in Hall as [-> _].
    destruct He as [_ Ht]; [by apply list_elem_of_here|]. by rewrite Hf, Ht, app_nil_r.
Qed.

Lemma Init_loop_none attempts : forall i p,
  Forall (fun a => fst a && connects (snd a) = false) attempts -> Init_loop i attempts p = p.
Proof.
  induction attempts as [|[a tr] attempts IH]; intros i p H; cbn; [done|].
  apply Forall_cons in H as [H1 H2]. rewrite IH by done. unfold Init_one. cbn [fst snd] in H1.
  destruct a; cbn [negb andb] in *; [|done]. by rewrite H1.
Qed.

(** when no connection can be made, Init starts no worker but still
    accepts tasks, so a login is queued and never answered, neither accepted
    nor rejected. *)
Theorem db_without_connections_silent (attempts : list (bool * list bool)) (d : DbSystem) :
  Forall (fun a => fst a && connects (snd a) = false) attempts ->
  db_reach attempts d -> db_started d = [] /\ _tasks d = db_accepted d.
Proof.
  intros Ha Hr.
  assert (length (_threads d) = 0%nat /\ db_started d = [] /\ db_accepted d = _tasks d) as (_ & ? & ?); [|done].
  revert d Hr. apply reach_invariant.
  - intros s ->. unfold DbSystem_Init, Pool_Init. cbn. rewrite Init_loop_none by done. done.
  - intros s s' (H1 & H2 & H3) Hs _. apply length_zero_iff_nil in H1.
    destruct Hs as [d t|d k d' Hk Hp|d k t conn p Hk Hq|d k t conn Hk|d]; rewrite ?H1 in *; try done.
    + unfold Execute. destruct (_running d); cbn; rewrite ?H1, ?H2, ?H3; done.
Qed.

Definition db_demo : DbSystem := snd (DbSystem_Init [(true, [false; true])] DbSystem_new).

Definition db_demo_popped : DbSystem :=
  mkDb (mkPool [0%nat] 1) [W_popped 7] [] true [7%nat] [7%nat].

Definition db_demo_busy : DbSystem :=
  mkDb (mkPool [] 1) [W_task 7 (Some 0%nat)] [] true [7%nat] [7%nat].

Lemma db_demo_reach : db_reach [(true, [false; true])] db_demo_busy.
Proof.
  apply (reach_step _ _ _ db_demo_popped);
    [|by apply (db_acquire db_demo_popped 0 7 (Some 0%nat) (mkPool [] 1))|done].
  apply (reach_step _ _ _ (Execute 7 db_demo)); [|by apply (db_pop (Execute 7 db_demo) 0)|done].
  apply (reach_step _ _ _ db_demo); [by apply reach_init|apply (db_execute db_demo 7)|done].
Qed.

Lemma db_connections_exclusive_witness : 0%nat ∉ _connections (_pool db_demo_busy).
Proof.
  apply (db_connections_exclusive [(true, [false; true])] db_demo_busy 0 0 7 7 0 db_demo_reach). reflexivity.
Defined.

(** The task ends, shutdown clears [_running], the worker returns. *)
Definition db_demo_stopped (w : worker) : DbSystem := mkDb (mkPool [0%nat] 1) [w] [] false [7%nat] [7%nat].

Lemma db_demo_ends :
  db_reach [(true, [false; true])] (db_demo_stopped W_wait) /\ db_reach [(true, [false; true])] (db_demo_stopped W_exit).
Proof.
  assert (db_reach [(true, [false; true])] (db_demo_stopped W_wait)) as Hs.
  { eapply reach_step; [|apply (db_stop (mkDb (mkPool [0%nat] 1) [W_wait] [] true [7%nat] [7%nat]))|done].
    apply (reach_step _ _ _ db_demo_busy); [exact db_demo_reach|by apply (db_release db_demo_busy 0 7 (Some 0%nat))|done]. }
  split; [done|]. eapply reach_step; [exact Hs|by apply (db_pop (db_demo_stopped W_wait) 0)|done].
Qed.

Lemma db_shutdown_drains_witness :
  (exists d', db_step (db_demo_stopped W_wait) d' /\ (todo d' < todo (db_demo_stopped W_wait))%nat) /\
  db_started (db_demo_stopped W_exit) = db_accepted (db_demo_stopped W_exit).
Proof.
  destruct db_demo_ends as [Hs He]. split.
  - destruct (db_shutdown_drains _ _ Hs) as (_ & H & _). destruct (H eq_refl) as [_ [Ha|Hp]]; [|done].
    apply Forall_cons in Ha as [Ha _]. discriminate Ha.
  - apply (db_shutdown_drains _ _ He). by repeat constructor.
Defined.

Lemma db_without_connections_silent_witness :
  db_started (Execute 7 (snd (DbSystem_Init [(true, [false; false; false; true])] DbSystem_new))) = [].
Proof.
  apply (db_without_connections_silent [(true, [false; false; false; true])]).
  - by repeat constructor.
  - eapply reach_step; [by apply reach_init|apply (db_execute _ 7)|done].
Defined.
