(* ===== verification/Setting.v ===== *)
(** * Settings: environment variables and numbers in text

    src/DhNet_Server/DhNet_Server/ServerSetting.h and ServerSetting.cpp, with the
    parts of the C++ library they use: std::stoi (strtol of base 10 on a 32-bit
    long), std::to_string and the range constructor of std::wstring.

    Text is a list of byte values.  The environment is a parameter; a value is a
    C string, so it holds no NUL.  [junk] is what GetEnvironmentVariableA leaves
    in a buffer that is too small: its documentation calls that undefined. *)

From S2P Require Import Prelude Bytes.
From Stdlib Require Import Strings.Ascii.

(** ** Numbers in text *)

Definition is_digit (c : Z) : bool := (48 <=? c) && (c <=? 57).
Definition isspace (c : Z) : bool := ((9 <=? c) && (c <=? 13)) || (c =? 32).

Fixpoint skip_space (s : list Z) : list Z :=
  match s with
  | c :: s' => if isspace c then skip_space s' else s
  | [] => []
  end.

(** An optional sign: whether it is a minus, and the rest. *)
Definition read_sign (s : list Z) : bool * list Z :=
  match s with
  | c :: s' => if c =? 45 then (true, s') else if c =? 43 then (false, s') else (false, s)
  | [] => (false, [])
  end.

(** The longest prefix of digits; what follows is ignored. *)
Fixpoint read_digits (s : list Z) : list Z :=
  match s with
  | c :: s' => if is_digit c then c :: read_digits s' else []
  | [] => []
  end.

Definition digits_value (ds : list Z) : Z := fold_left (fun acc c => acc * 10 + (c - 48)) ds 0.

(** [std::stoi]: both exceptions leave main uncaught. *)
Definition stoi (s : list Z) : outcome Z :=
  let '(neg, s) := read_sign (skip_space s) in
  match read_digits s with
  | [] => Crash "std::invalid_argument"
  | ds =>
      let v := if neg : bool then - digits_value ds else digits_value ds in
      if (-2147483648 <=? v) && (v <=? 2147483647) then Ok v else Crash "std::out_of_range"
  end.

(** [std::to_string] of an integer type of at most 64 bits: at most 20 digits. *)
Fixpoint dec_digits (fuel : nat) (n : Z) : list Z :=
  match fuel with
  | O => []
  | S fuel => (if n <? 10 then [] else dec_digits fuel (n / 10)) ++ [48 + n mod 10]
  end.

Definition to_string (n : Z) : list Z :=
  if n <? 0 then 45 :: dec_digits 20 (- n) else dec_digits 20 n.

(** A string literal. *)
Definition text (s : string) : list Z :=
  map (fun a => Z.of_nat (nat_of_ascii a)) (String.list_ascii_of_string s).

(** [std::wstring(first, last)] of chars: a char is signed, a wchar_t has 16 bits. *)
Definition widen (c : Z) : Z := u16 (wrapS 8 c).

(** ** ServerSetting *)

Record ServerSetting := mkSetting {
  m_ip : list Z;
  m_port : Z;
  m_maxSessionCount : Z;
  m_dbHost : list Z;
  m_dbPort : Z;
  m_dbUser : list Z;
  m_dbPassword : list Z;
  m_dbName : list Z;
  m_dbPoolSize : Z;
  m_grpcAddress : list Z;
}.

Section setting.
Context (env : string -> option (list Z)) (junk : list Z).

(** The value's length and the value with its NUL when they fit, the size needed
    when they do not, 0 when there is no such variable. *)
Definition GetEnvironmentVariableA (varName : string) (buffer : list Z) (nSize : nat) : nat * list Z :=
  match env varName with
  | None => (0%nat, buffer)
  | Some v => if (length v <? nSize)%nat then (length v, v ++ [0] ++ drop (S (length v)) buffer)
              else (S (length v), junk)
  end.

Definition GetEnvVarUsingWinAPI (varName : string) (buffer : list Z) (defaultValue : list Z)
  : outcome (bool * list Z) :=
  let bufferSize := length buffer in
  let buffer := memset 0 0 bufferSize buffer in
  let '(result, buffer) := GetEnvironmentVariableA varName buffer bufferSize in
  if (0 <? result)%nat && (result <? bufferSize)%nat then Ok (true, buffer)
  else
    buffer ← strncpy_s (c_str defaultValue) (bufferSize - 1) buffer;
    Ok (false, wr_u8 (bufferSize - 1) 0 buffer).

(** [std::string(buffer)] *)
Definition std_string (buffer : list Z) : outcome (list Z) :=
  match c_string buffer with Some s => Ok s | None => Crash "read past the buffer" end.

(** A variable as text and as a number; the one buffer of the constructor goes
    through every call. *)
Definition read_text (varName : string) (dflt : string) (buffer : list Z) : outcome (list Z * list Z) :=
  r ← GetEnvVarUsingWinAPI varName buffer (text dflt);
  s ← std_string (snd r);
  Ok (s, snd r).

Definition read_int (varName : string) (dflt : string) (buffer : list Z) : outcome (Z * list Z) :=
  r ← read_text varName dflt buffer;
  n ← stoi (fst r);
  Ok (n, snd r).

Definition ServerSetting_new : outcome ServerSetting :=
  let buffer := replicate 256 0 in
  '(ip, buffer) ← read_text "DhNet_IP" "127.0.0.1" buffer;
  '(port, buffer) ← read_int "DhNet_PORT" "7900" buffer;
  '(maxSessionCount, buffer) ← read_int "DhNet_MAX_SESSION_COUNT" "1000" buffer;
  '(dbHost, buffer) ← read_text "DhNet_DB_HOST" "127.0.0.1" buffer;
  '(dbPort, buffer) ← read_int "DhNet_DB_PORT" "3306" buffer;
  '(dbUser, buffer) ← read_text "DhNet_DB_USER" "dhnet" buffer;
  '(dbPassword, buffer) ← read_text "DhNet_DB_PASSWORD" "dhnet_pw" buffer;
  '(dbName, buffer) ← read_text "DhNet_DB_NAME" "dhnet_db" buffer;
  '(dbPoolSize, buffer) ← read_int "DhNet_DB_POOL_SIZE" "4" buffer;
  '(grpcAddress, buffer) ← read_text "DhNet_GRPC_ADDRESS" "127.0.0.1:7820" buffer;
  Ok (mkSetting (map widen ip) (u16 port) maxSessionCount dbHost dbPort dbUser dbPassword dbName
        dbPoolSize grpcAddress).

(** ** What the settings are meant to be *)

(** A variable counts when it is set, not empty and fits the 256 bytes. *)
Definition effective (varName : string) (dflt : string) : list Z :=
  match env varName with
  | Some v => if (0 <? length v)%nat && (length v <? 256)%nat then v else text dflt
  | None => text dflt
  end.

Definition settings_spec : outcome ServerSetting :=
  port ← stoi (effective "DhNet_PORT" "7900");
  maxSessionCount ← stoi (effective "DhNet_MAX_SESSION_COUNT" "1000");
  dbPort ← stoi (effective "DhNet_DB_PORT" "3306");
  dbPoolSize ← stoi (effective "DhNet_DB_POOL_SIZE" "4");
  Ok (mkSetting (map widen (effective "DhNet_IP" "127.0.0.1")) (u16 port) maxSessionCount
        (effective "DhNet_DB_HOST" "127.0.0.1") dbPort (effective "DhNet_DB_USER" "dhnet")
        (effective "DhNet_DB_PASSWORD" "dhnet_pw") (effective "DhNet_DB_NAME" "dhnet_db") dbPoolSize
        (effective "DhNet_GRPC_ADDRESS" "127.0.0.1:7820")).

(** ** Lemmas *)

(** The values are C strings; what an undersized buffer is left with has its size. *)
Definition env_ok : Prop :=
  (forall name v, env name = Some v -> Forall (fun c => 0 < c < 256) v) /\ length junk = 256%nat.

Lemma c_string_app (s rest : list Z) :
  Forall (fun c => 0 < c < 256) s -> c_string (s ++ 0 :: rest) = Some s.
Proof.
  induction 1 as [|c s Hc _ IH]; cbn; [done|].
  destruct (Z.eqb_spec c 0); [lia|]. rewrite IH. done.
Qed.

Lemma cprefix_fits n (s : list Z) :
  Forall (fun c => 0 < c < 256) s -> (length s <= n)%nat -> cprefix n (c_str s) = s.
Proof.
  intros Hs. revert n. unfold c_str. induction Hs as [|c s Hc _ IH]; intros [|n] Hn; cbn in *; try done; try lia.
  destruct (Z.eqb_spec c 0); [lia|]. rewrite IH by lia. done.
Qed.

Lemma memset_all buf : memset 0 0 (length buf) buf = replicate (length buf) 0.
Proof.
  unfold memset, write_bytes. rewrite length_replicate. cbn. rewrite drop_all, app_nil_r. done.
Qed.

(** Whatever the buffer held before, the call leaves the effective value in it. *)
Lemma read_text_effective name dflt buffer :
  env_ok -> Forall (fun c => 0 < c < 256) (text dflt) -> (length (text dflt) < 256)%nat ->
  length buffer = 256%nat ->
  exists buffer', read_text name dflt buffer = Ok (effective name dflt, buffer') /\ length buffer' = 256%nat.
Proof.
  intros [He Hj] Hd Hl Hb. unfold read_text, GetEnvVarUsingWinAPI. rewrite memset_all, Hb.
  set (fallback := fun b : list Z =>
    buffer ← strncpy_s (c_str (text dflt)) (256 - 1) b; Ok (false, wr_u8 (256 - 1) 0 buffer)).
  assert (forall b, length b = 256%nat -> exists b',
    (r ← fallback b; s ← std_string (snd r); Ok (s, snd r)) = Ok (text dflt, b') /\ length b' = 256%nat) as Hf.
  { intros b Hb'. unfold fallback. rewrite strncpy_s_ok by lia. rewrite cprefix_fits by (done || lia). cbn [mbind outcome_bind].
    set (b1 := text dflt ++ 0 :: drop (S (length (text dflt))) b).
    assert (length b1 = 256%nat) as Hb1.
    { unfold b1. rewrite length_app. cbn. rewrite length_drop. lia. }
    exists (wr_u8 (256 - 1) 0 b1). split; [|unfold wr_u8; rewrite length_write; cbn; lia]. cbn [snd].
    enough (std_string (wr_u8 (256 - 1) 0 b1) = Ok (text dflt)) as -> by done.
    unfold wr_u8, write_bytes. cbn [le_encode length]. rewrite (drop_ge b1) by (cbn; lia). rewrite app_nil_r.
    change (0 mod 256) with 0. unfold std_string, b1.
    destruct (decide (length (text dflt) = 255)%nat) as [E|E].
    - rewrite take_app_length' by (rewrite E; done). by rewrite c_string_app.
    - rewrite take_app_ge by lia. destruct (256 - 1 - length (text dflt))%nat as [|k] eqn:Ek; [lia|].
      cbn [take]. rewrite <- app_assoc. cbn. by rewrite c_string_app. }
  unfold GetEnvironmentVariableA, effective. destruct (env name) as [v|] eqn:Ev.
  - destruct (length v <? 256)%nat eqn:E2.
    + apply Nat.ltb_lt in E2 as E2'.
      assert (length (v ++ [0] ++ drop (S (length v)) (replicate 256 0)) = 256%nat) as Hlen.
      { rewrite !length_app, length_drop, length_replicate. cbn. lia. }
      destruct (0 <? length v)%nat eqn:E1; rewrite ?E2; cbn [andb].
      * eexists. split; [|exact Hlen]. cbn [mbind outcome_bind snd]. unfold std_string.
        cbn [app]. rewrite c_string_app by (by eapply He). done.
      * destruct (Hf _ Hlen) as (b' & H & ?). exists b'. split; [|done]. exact H.
    + assert ((0 <? S (length v))%nat && (S (length v) <? 256)%nat = false) as ->.
      { apply andb_false_iff. right. apply Nat.ltb_ge in E2. apply Nat.ltb_ge. lia. }
      rewrite andb_false_r. apply (Hf junk Hj).
  - cbn [andb Nat.ltb Nat.leb]. apply Hf. by rewrite length_replicate.
Qed.

Lemma read_int_effective name dflt buffer :
  env_ok -> Forall (fun c => 0 < c < 256) (text dflt) -> (length (text dflt) < 256)%nat ->
  length buffer = 256%nat ->
  exists buffer', read_int name dflt buffer = (n ← stoi (effective name dflt); Ok (n, buffer')) /\
                  length buffer' = 256%nat.
Proof.
  intros He Hd Hl Hb. destruct (read_text_effective name dflt buffer He Hd Hl Hb) as (b & E & Hb').
  exists b. split; [|done]. unfold read_int. rewrite E. done.
Qed.
End setting.

Lemma digits_value_snoc ds c : digits_value (ds ++ [c]) = digits_value ds * 10 + (c - 48).
Proof. unfold digits_value. by rewrite fold_left_app. Qed.

Lemma dec_digits_ok fuel n :
  0 <= n < 10 ^ Z.of_nat fuel ->
  Forall (fun c => is_digit c = true) (dec_digits fuel n) /\ digits_value (dec_digits fuel n) = n /\
  (0 < fuel -> dec_digits fuel n <> [])%nat.
Proof.
  revert n. induction fuel as [|f IH]; intros n Hn; cbn [dec_digits]; [cbn in *; split_and!; [done|lia|lia]|].
  rewrite Nat2Z.inj_succ, Z.pow_succ_r in Hn by lia.
  assert (is_digit (48 + n mod 10) = true) as Hd.
  { unfold is_digit. pose proof (Z.mod_pos_bound n 10 ltac:(lia)). apply andb_true_iff. split; apply Z.leb_le; lia. }
  destruct (n <? 10) eqn:E; to_prop.
  - cbn [app]. split_and!; [by repeat constructor| |done]. unfold digits_value. cbn. rewrite Z.mod_small; lia.
  - destruct (IH (n / 10)) as (H1 & H2 & _).
    { split; [apply Z.div_pos; lia|]. apply Z.div_lt_upper_bound; lia. }
    split_and!.
    + apply Forall_app. by repeat constructor.
    + rewrite digits_value_snoc, H2. pose proof (Z.div_mod n 10 ltac:(lia)). lia.
    + intros _ H. by apply app_eq_nil in H as [_ H].
Qed.

Lemma read_digits_all ds : Forall (fun c => is_digit c = true) ds -> read_digits ds = ds.
Proof. induction 1 as [|c ds Hc _ IH]; cbn; [done|]. by rewrite Hc, IH. Qed.

Lemma skip_sign_digits c ds : is_digit c = true -> read_sign (skip_space (c :: ds)) = (false, c :: ds).
Proof.
  intros H. unfold is_digit in H. apply andb_true_iff in H as [H1 H2]. to_prop.
  assert (isspace c = false) as Hs.
  { unfold isspace. apply orb_false_iff. split; [apply andb_false_iff; right; apply Z.leb_gt; lia|apply Z.eqb_neq; lia]. }
  cbn. rewrite Hs. cbn. destruct (Z.eqb_spec c 45); [lia|]. destruct (Z.eqb_spec c 43); [lia|done].
Qed.

Lemma settings_equal (env : string -> option (list Z)) (junk : list Z) :
  env_ok env junk -> ServerSetting_new env junk = settings_spec env.
Proof.
  intros He. unfold ServerSetting_new, settings_spec.
  assert (length (replicate 256 0) = 256%nat) as Hb by (by rewrite length_replicate).
  revert Hb. generalize (replicate 256 0) as buffer. intros buffer Hb.
  repeat match goal with
  | Hb : length ?b = 256%nat |- context [read_text env junk ?v ?d ?b] =>
      let b' := fresh "b" in let E := fresh "E" in let Hb' := fresh "Hb" in
      destruct (read_text_effective env junk v d b He) as (b' & E & Hb');
        [compute_done|vm_compute; lia|exact Hb|]; rewrite E; cbn [mbind outcome_bind]; clear E Hb
  | Hb : length ?b = 256%nat |- context [read_int env junk ?v ?d ?b] =>
      let b' := fresh "b" in let E := fresh "E" in let Hb' := fresh "Hb" in
      destruct (read_int_effective env junk v d b He) as (b' & E & Hb');
        [compute_done|vm_compute; lia|exact Hb|]; rewrite E; clear E Hb;
        destruct (stoi (effective env v d)); cbn [mbind outcome_bind]; [|done]
  end.
  done.
Qed.

(** Writing and reading back. *)
Lemma stoi_decimal (n : Z) : -2147483648 <= n <= 2147483647 -> stoi (to_string n) = Ok n.
Proof.
  intros Hn. unfold to_string.
  assert (forall m, 0 <= m <= 2147483648 -> 0 <= m < 10 ^ Z.of_nat 20) as Hm
    by (intros m H; split; [lia|]; apply (Z.le_lt_trans _ 2147483648); [lia|reflexivity]).
  destruct (n <? 0) eqn:E; to_prop.
  - destruct (dec_digits_ok 20 (- n) (Hm (- n) ltac:(lia))) as (H1 & H2 & H3). unfold stoi.
    cbn [skip_space isspace Z.leb Z.compare Pos.compare Pos.compare_cont andb orb Z.eqb Pos.eqb read_sign].
    rewrite (read_digits_all _ H1). destruct (dec_digits 20 (- n)) as [|d ds]; [by destruct (H3 ltac:(lia))|].
    rewrite H2. destruct ((-2147483648 <=? - - n) && (- - n <=? 2147483647)) eqn:Er; [f_equal; lia|].
    apply andb_false_iff in Er as [Er|Er]; to_prop; lia.
  - destruct (dec_digits_ok 20 n (Hm n ltac:(lia))) as (H1 & H2 & H3). unfold stoi.
    destruct (dec_digits 20 n) as [|d ds]; [by destruct (H3 ltac:(lia))|].
    rewrite skip_sign_digits by (by inversion H1). rewrite (read_digits_all _ H1), H2.
    destruct ((-2147483648 <=? n) && (n <=? 2147483647)) eqn:Er; [done|].
    apply andb_false_iff in Er as [Er|Er]; to_prop; lia.
Qed.

(** ** Properties *)

(** C27: the constructor of ServerSetting computes, through its one shared
    buffer, exactly what each variable says: the variable when it is set, not
    empty and fits, else the default; nothing of a previous variable and nothing
    of an undersized read shows through. *)
Theorem settings_as_specified (env : string -> option (list Z)) (junk : list Z) :
  env_ok env junk -> ServerSetting_new env junk = settings_spec env.
Proof. apply settings_equal. Qed.

(** start-up fails, with std::stoi's exception, exactly when one of the four
    numeric settings does not begin with a number that fits an int. *)
Theorem settings_fail_exactly (env : string -> option (list Z)) (junk : list Z) :
  env_ok env junk ->
  let numbers := [effective env "DhNet_PORT" "7900"; effective env "DhNet_MAX_SESSION_COUNT" "1000";
                  effective env "DhNet_DB_PORT" "3306"; effective env "DhNet_DB_POOL_SIZE" "4"] in
  (is_Ok (ServerSetting_new env junk) = true <-> Forall (fun t => is_Ok (stoi t) = true) numbers) /\
  (forall c, ServerSetting_new env junk = Crash c -> c = "std::invalid_argument" \/ c = "std::out_of_range").
Proof.
  intros He numbers. rewrite (settings_equal _ _ He). unfold numbers, settings_spec.
  assert (forall t c, stoi t = Crash c -> c = "std::invalid_argument" \/ c = "std::out_of_range") as Hc.
  { intros t c. unfold stoi. destruct (read_sign _) as [neg t']. destruct (read_digits t'); [naive_solver|].
    case_match; naive_solver. }
  rewrite !Forall_cons, Forall_nil.
  repeat match goal with |- context [stoi ?t] =>
    let E := fresh "E" in destruct (stoi t) as [?|?] eqn:E; [clear E|apply Hc in E]; cbn end; naive_solver.
Qed.

(** a number survives being written with std::to_string and read back with
    std::stoi, over the whole range of int. *)
Theorem stoi_to_string (n : Z) : -2147483648 <= n <= 2147483647 -> stoi (to_string n) = Ok n.
Proof. apply stoi_decimal. Qed.

(** *** An environment: a port beyond 16 bits, an unusable pool size, the rest unset *)

Definition env1 (name : string) : option (list Z) :=
  if decide (name = "DhNet_PORT") then Some (text " 73436 # main")
  else if decide (name = "DhNet_DB_NAME") then Some (replicate 300 65)
  else if decide (name = "DhNet_DB_USER") then Some []
  else None.

Definition env2 (name : string) : option (list Z) :=
  if decide (name = "DhNet_DB_POOL_SIZE") then Some (text "four") else env1 name.

Definition settings1 : ServerSetting :=
  mkSetting (text "127.0.0.1") 7900 1000 (text "127.0.0.1") 3306 (text "dhnet") (text "dhnet_pw")
    (text "dhnet_db") 4 (text "127.0.0.1:7820").

Lemma env1_ok : env_ok env1 (replicate 256 65).
Proof.
  split; [|by rewrite length_replicate]. intros name v. unfold env1.
  repeat case_decide; intros [= <-]; compute_done.
Qed.

Lemma env2_ok : env_ok env2 (replicate 256 65).
Proof.
  split; [|by rewrite length_replicate]. intros name v. unfold env2.
  case_decide; [intros [= <-]; compute_done|apply env1_ok].
Qed.

Lemma settings_as_specified_witness : ServerSetting_new env1 (replicate 256 65) = Ok settings1.
Proof. rewrite (settings_as_specified env1 (replicate 256 65) env1_ok). vm_compute. reflexivity. Defined.

Lemma settings_fail_exactly_witness :
  ServerSetting_new env2 (replicate 256 65) = Crash "std::invalid_argument" /\
  ("std::invalid_argument" = "std::invalid_argument" \/ "std::invalid_argument" = "std::out_of_range").
Proof.
  split; [vm_compute; reflexivity|].
  apply (proj2 (settings_fail_exactly env2 (replicate 256 65) env2_ok)). vm_compute. reflexivity.
Defined.

Lemma stoi_to_string_witness : stoi (to_string (-2147483648)) = Ok (-2147483648).
Proof. apply (stoi_to_string (-2147483648)). lia. Defined.

(** A port that does not fit 16 bits is cut, not refused: port 73436 listens on 7900. *)
Theorem port_silently_truncated (env : string -> option (list Z)) (junk : list Z) (s : ServerSetting) :
  env_ok env junk -> ServerSetting_new env junk = Ok s ->
  exists p, stoi (effective env "DhNet_PORT" "7900") = Ok p /\ m_port s = p mod 65536.
Proof.
  intros He H. rewrite (settings_equal _ _ He) in H. unfold settings_spec in H.
  repeat match type of H with (stoi ?e ≫= _) = Ok _ => apply bind_Ok_inv in H as (? & ? & H) end.
  injection H as <-. eauto.
Qed.
