(* ===== verification/Slots.v ===== *)
(** * Lock-free slot reservation

    [TryReserveSlot] and [ReleaseReservedSlot] of
    src/DhNet_Server/DhNet_Server/Lobby.cpp and Room.cpp (the two classes have
    the same bodies): a compare_exchange_weak loop on [m_availableSlots].

    [slot_step] interleaves the loads and the exchanges of any number of
    threads; [TryReserveSlot] is the atomic operation they implement, which the
    rest of the development uses. *)

From S2P Require Import Prelude.

(** ** The atomic specification *)

Definition TryReserveSlot (m_availableSlots : Z) : bool * Z :=
  if m_availableSlots <=? 0 then (false, m_availableSlots) else (true, m_availableSlots - 1).

Definition ReleaseReservedSlot (m_availableSlots : Z) : Z := i32 (m_availableSlots + 1).

(** ** The loop *)

(** A thread in TryReserveSlot: before its load, or holding the loaded value;
    [S_done] is the value it returned. *)
Inductive slot_pc := S_load | S_cas (avail : Z) | S_done (r : bool).

(** [sw_held]: reservations granted and not released. *)
Record slot_world := mkSlot { sw_avail : Z; sw_threads : list slot_pc; sw_held : Z }.

(** [m_availableSlots.load()] and the test. *)
Definition load_slot (avail : Z) : slot_pc := if avail <=? 0 then S_done false else S_cas avail.

Inductive slot_step : slot_world -> slot_world -> Prop :=
| sl_start w :      (* a new call *)
    slot_step w (mkSlot (sw_avail w) (sw_threads w ++ [S_load]) (sw_held w))
| sl_load w k :
    sw_threads w !! k = Some S_load ->
    slot_step w (mkSlot (sw_avail w) (<[k := load_slot (sw_avail w)]> (sw_threads w)) (sw_held w))
| sl_cas w k a :    (* compare_exchange_weak succeeds *)
    sw_threads w !! k = Some (S_cas a) -> sw_avail w = a ->
    slot_step w (mkSlot (i32 (a - 1)) (<[k := S_done true]> (sw_threads w)) (sw_held w + 1))
| sl_retry w k a :  (* it fails, by another value or spuriously: the loop goes round *)
    sw_threads w !! k = Some (S_cas a) ->
    slot_step w (mkSlot (sw_avail w) (<[k := S_load]> (sw_threads w)) (sw_held w))
| sl_release w :    (* fetch_add(1) by the holder of a slot *)
    0 < sw_held w ->
    slot_step w (mkSlot (ReleaseReservedSlot (sw_avail w)) (sw_threads w) (sw_held w - 1)).

(** The atomic object: the counter of free slots, and for each call what it has
    returned, if it has.  A call takes effect in one step, between its start and its
    return, and its result is that of [TryReserveSlot] there. *)
Record slot_object := mkObject { o_free : Z; o_calls : list (option bool) }.

Inductive object_step : slot_object -> slot_object -> Prop :=
| object_call o :
    object_step o (mkObject (o_free o) (o_calls o ++ [None]))
| object_reserve o k :
    o_calls o !! k = Some None ->
    object_step o (mkObject (TryReserveSlot (o_free o)).2 (<[k := Some (TryReserveSlot (o_free o)).1]> (o_calls o)))
| object_release o :
    object_step o (mkObject (o_free o + 1) (o_calls o)).

Definition returned (pc : slot_pc) : option bool := match pc with S_done r => Some r | _ => None end.
Definition object_of (w : slot_world) : slot_object := mkObject (sw_avail w) (returned <$> sw_threads w).

Definition slot_init (cap : Z) (w : slot_world) : Prop := w = mkSlot cap [] 0 /\ 0 <= cap < 2147483648.
Definition slot_reach (cap : Z) : slot_world -> Prop := reach (slot_init cap) slot_step (fun _ => True).

Record slot_inv (cap : Z) (w : slot_world) : Prop := mkSlotInv {
  sl_total : sw_avail w + sw_held w = cap;
  sl_range : 0 <= sw_avail w /\ 0 <= sw_held w /\ cap < 2147483648;
  sl_cas_pos : forall k a, sw_threads w !! k = Some (S_cas a) -> 0 < a;
}.

Lemma i32_id z : -2147483648 <= z < 2147483648 -> i32 z = z.
Proof. intros H. apply wrapS_small; [done|]. change (2 ^ (32 - 1)) with 2147483648. lia. Qed.

Lemma slot_step_inv cap w w' : slot_inv cap w -> slot_step w w' -> slot_inv cap w'.
Proof.
  intros [Ht Hr Hc] Hs. destruct Hs as [w|w k H|w k a H Ha|w k a H|w H]; split; cbn in *; try done; try lia.
  - intros k a [Hk|[_ Hk]]%lookup_app_Some; [by eapply Hc|]. apply list_lookup_singleton_Some in Hk as [_ ?]. done.
  - intros j a Hj. apply list_lookup_insert_Some in Hj as [(_ & E & _)|[_ Hj]]; [|by eapply Hc].
    unfold load_slot in E. case_match; simplify_eq. to_prop. lia.
  - specialize (Hc k a H). rewrite i32_id; lia.
  - specialize (Hc k a H). rewrite i32_id; lia.
  - intros j b Hj. apply list_lookup_insert_Some in Hj as [(_ & E & _)|[_ Hj]]; [done|by eapply Hc].
  - intros j b Hj. apply list_lookup_insert_Some in Hj as [(_ & E & _)|[_ Hj]]; [done|by eapply Hc].
  - unfold ReleaseReservedSlot. rewrite i32_id; lia.
  - unfold ReleaseReservedSlot. rewrite i32_id; lia.
Qed.

Lemma slot_reach_inv cap w : slot_reach cap w -> slot_inv cap w.
Proof.
  apply reach_invariant.
  - intros s [-> H]. split; cbn; [lia|lia|]. intros k a Hk. by rewrite lookup_nil in Hk.
  - intros. by eapply slot_step_inv.
Qed.

Lemma object_of_update a b w k pc pc' h :
  sw_threads w !! k = Some pc -> b = (returned pc') ->
  object_of (mkSlot a (<[k := pc']> (sw_threads w)) h) = mkObject a (<[k := b]> (returned <$> sw_threads w)).
Proof. intros _ ->. unfold object_of. cbn. by rewrite list_fmap_insert. Qed.

Lemma object_same w k pc pc' h :
  sw_threads w !! k = Some pc -> returned pc = returned pc' ->
  object_of (mkSlot (sw_avail w) (<[k := pc']> (sw_threads w)) h) = object_of w.
Proof.
  intros Hk E. erewrite object_of_update by done. unfold object_of. f_equal.
  apply list_insert_id. rewrite list_lookup_fmap, Hk. cbn. by rewrite E.
Qed.

Lemma TryReserveSlot_free a : 0 < a -> TryReserveSlot a = (true, a - 1).
Proof. intros Ha. unfold TryReserveSlot. by rewrite (proj2 (Z.leb_gt _ _)) by lia. Qed.

Lemma TryReserveSlot_full a : a <= 0 -> TryReserveSlot a = (false, a).
Proof. intros Ha. unfold TryReserveSlot. by rewrite (proj2 (Z.leb_le _ _)) by lia. Qed.

(** A call that has returned [r] in the step took effect there. *)
Lemma object_returns w k pc r a h :
  sw_threads w !! k = Some pc -> returned pc = None -> TryReserveSlot (sw_avail w) = (r, a) ->
  object_step (object_of w) (object_of (mkSlot a (<[k := S_done r]> (sw_threads w)) h)).
Proof.
  intros Hk Hn E. erewrite object_of_update by done. pose proof (object_reserve (object_of w) k) as H.
  cbn in H. rewrite E in H. apply H. rewrite list_lookup_fmap, Hk. cbn. by rewrite Hn.
Qed.

Lemma slot_simulation cap w w' :
  slot_inv cap w -> slot_step w w' -> object_step (object_of w) (object_of w') \/ object_of w' = object_of w.
Proof.
  intros [Ht Hr Hc] Hs. destruct Hs as [w|w k H|w k a H Ha|w k a H|w H].
  - left. unfold object_of. cbn. rewrite fmap_app. apply (object_call (object_of w)).
  - unfold load_slot. destruct (Z.leb_spec (sw_avail w) 0).
    + left. by eapply object_returns, TryReserveSlot_full.
    + right. by eapply object_same.
  - left. specialize (Hc k a H). rewrite i32_id by lia. eapply object_returns; [done|done|].
    rewrite Ha. by apply TryReserveSlot_free.
  - right. by eapply object_same.
  - left. unfold ReleaseReservedSlot, object_of. cbn. rewrite i32_id by lia. apply (object_release (object_of w)).
Qed.

(** A call that is not disturbed loads, exchanges and returns. *)
Lemma slot_alone cap w k pc :
  slot_inv cap w -> sw_threads w !! k = Some pc -> returned pc = None ->
  exists h, rtc slot_step w (mkSlot (TryReserveSlot (sw_avail w)).2
    (<[k := S_done (TryReserveSlot (sw_avail w)).1]> (sw_threads w)) h).
Proof.
  intros Hi Hk Hn.
  assert (forall w0, slot_inv cap w0 -> sw_threads w0 !! k = Some S_load ->
    exists h, rtc slot_step w0 (mkSlot (TryReserveSlot (sw_avail w0)).2
      (<[k := S_done (TryReserveSlot (sw_avail w0)).1]> (sw_threads w0)) h)) as Hload.
  { intros w0 [Ht Hr _] H. pose proof (sl_load w0 k H) as Hl. unfold load_slot in Hl.
    destruct (Z.leb_spec (sw_avail w0) 0).
    - rewrite TryReserveSlot_full by done. eexists. by apply rtc_once.
    - rewrite TryReserveSlot_free by done. eexists. eapply rtc_l; [exact Hl|]. apply rtc_once. cbn [fst snd].
      rewrite <- (list_insert_insert_eq (sw_threads w0) k (S_done true) (S_cas (sw_avail w0))).
      rewrite <- (i32_id (sw_avail w0 - 1)) by lia.
      apply (sl_cas (mkSlot _ _ _) k (sw_avail w0)); [|done].
      cbn. rewrite list_lookup_insert_eq; [done|]. by eapply lookup_lt_Some. }
  destruct pc as [|a|r]; [by apply Hload| |done].
  pose proof (sl_retry w k a Hk) as Hs. destruct (Hload _ (slot_step_inv cap _ _ Hi Hs)) as [h Hh].
  { cbn. rewrite list_lookup_insert_eq; [done|]. by eapply lookup_lt_Some. }
  exists h. eapply rtc_l; [exact Hs|]. cbn in Hh. by rewrite list_insert_insert_eq in Hh.
Qed.

(** C29: the compare-and-swap loop is an atomic bounded counter.  In every
    interleaving free slots and granted reservations add up to the capacity and
    neither is negative; every step is a step of the atomic object, whose calls
    return what TryReserveSlot on the counter says at one point between their start
    and their end, refusals included, or changes nothing the object shows; and a call
    that is not disturbed returns that result. *)
Theorem reserve_linearizable (cap : Z) (w w' : slot_world) :
  slot_reach cap w -> slot_step w w' ->
  sw_avail w + sw_held w = cap /\ 0 <= sw_avail w <= cap /\
  (object_step (object_of w) (object_of w') \/ object_of w' = object_of w) /\
  forall k, o_calls (object_of w) !! k = Some None ->
    exists h, rtc slot_step w (mkSlot (TryReserveSlot (sw_avail w)).2
      (<[k := S_done (TryReserveSlot (sw_avail w)).1]> (sw_threads w)) h).
Proof.
  intros Hr Hs. apply slot_reach_inv in Hr as Hi. split_and!.
  1-3: by destruct Hi; lia.
  - by eapply slot_simulation.
  - intros k. cbn [object_of o_calls]. rewrite list_lookup_fmap. intros (pc & Hn & Hk)%fmap_Some. by eapply slot_alone.
Qed.

Definition slot_demo : slot_world := mkSlot 1 [S_cas 1] 0.

Lemma slot_demo_reach : slot_reach 1 slot_demo.
Proof.
  apply (reach_step _ _ _ (mkSlot 1 [S_load] 0)); [|by apply (sl_load (mkSlot 1 [S_load] 0) 0)|done].
  apply (reach_step _ _ _ (mkSlot 1 [] 0)); [by apply reach_init|apply (sl_start (mkSlot 1 [] 0))|done].
Qed.

Lemma reserve_linearizable_witness :
  object_step (object_of slot_demo) (mkObject 0 [Some true]) /\
  exists h, rtc slot_step slot_demo (mkSlot 0 [S_done true] h).
Proof.
  assert (slot_step slot_demo (mkSlot 0 [S_done true] 1)) as Hs by by apply (sl_cas slot_demo 0 1).
  destruct (reserve_linearizable 1 slot_demo (mkSlot 0 [S_done true] 1) slot_demo_reach Hs) as (_ & _ & H & Ha).
  split; [by destruct H as [H|H]|]. by apply (Ha 0%nat).
Defined.
