(* ===== verification/Game.v ===== *)
(** * Lobbies, rooms, players and the handlers that move them

    src/DhNet_Server/DhNet_Server: Lobby.cpp, LobbySystem.cpp, Room.cpp,
    RoomSystem.cpp, Player.cpp, PlayerSystem.cpp, the game half of
    GameSession.cpp ([OnLoginResult], [OnDisconnected]), LobbyController.cpp,
    RoomController.cpp and the commands of AdminController.cpp.

    Player objects, sessions, lobbies and rooms are numbers.  A lobby and a room
    are the same kind of [box]: a map from player id to Player object, the slot
    counter, and the jobs posted to its JobQueue, which runs them one at a time
    in order (JobQueue.v).  A handler is a list of actions that its thread
    executes one by one, interleaved with those of all other threads.  A packet
    counts as sent when it is handed to Send: what an exhausted send pool does
    instead is in SendPool.v. *)

From stdpp Require Import sorting.
From S2P Require Import Prelude Bytes Packets Slots.
#[local] Open Scope Z_scope.

Definition MAX_ROOM_PLAYER : Z := 8.
Definition MAX_LOBBY_PLAYERS : Z := 50.
Definition MAX_LOBBY_COUNT : nat := 5.

(** ** State *)

Record Player := mkPlayer {
  m_playerId : Z;
  m_name : list Z;
  m_ownerSession : nat;            (* weak_ptr<GameSession> *)
  m_currentRoom : option nat;
  m_currentLobby : option nat;
}.

(** Player.cpp: the constructor. *)
Definition Player_new (_session : nat) (_accountId : Z) (_name : list Z) : Player :=
  mkPlayer _accountId _name _session None None.

Inductive job :=
| LobbyEnter (p : nat)
| LobbyExit (p : nat)
| LobbyChat (p : nat) (message : list Z)
| RoomEnter (p : nat)
| RoomLeave (p : nat)
| RoomBroadcast (pk : packet).

Record box := mkBox {
  b_players : gmap Z nat;          (* m_players *)
  b_avail : Z;                     (* m_availableSlots *)
  b_jobs : list job;               (* the JobQueue *)
}.

Definition Lobby_new : box := mkBox ∅ MAX_LOBBY_PLAYERS [].
Definition Room_new : box := mkBox ∅ MAX_ROOM_PLAYER [].

Inductive place := QLobby (i : nat) | QRoom (i : nat).

#[global] Instance place_eq_dec : EqDecision place.
Proof. solve_decision. Defined.

(** The actions handlers are made of. *)
Inductive act :=
| APost (q : place) (j : job)                 (* DoAsync *)
| ALeaveLobby (p : nat)                       (* Player::LeaveLobby *)
| ALeaveRoom (p : nat)                        (* Player::LeaveRoom *)
| AClearRoom (p : nat)                        (* m_currentRoom.reset() *)
| AClearLobby (p : nat)                       (* m_currentLobby.reset() *)
| AAssignLobby (p : nat)                      (* AssignLobby, the preferred lobby *)
| AScanLobby (i p : nat)                      (* ... its second loop *)
| AScanRoom (i p : nat)                       (* GetNotFullRoom *)
| AMakeRoom (p : nat)
| ALobbyChat (p : nat) (message : list Z)
| ARoomChat (p : nat) (message : list Z)
| ARoomList (p : nat)
| ASend (s : nat) (pk : packet)               (* GameSession::Send *)
| AAddPlayer (p : nat)                        (* PlayerSystem::Add *)
| ARemovePlayer (p : nat)
| ADisconnect (s : nat)
| AResetPlayer (s : nat)                      (* m_player.reset() *)
| ALoginResult (s : nat) (ok : bool) (id : Z) (name : list Z)  (* OnLoginResult from IsConnected on *)
| ASetPlayer (s : nat) (id : Z) (name : list Z).               (* ... from SetPlayer on *)

Record world := mkWorld {
  w_players : list Player;          (* every Player object made *)
  w_alive : gset nat;               (* sessions some shared_ptr still owns *)
  w_connected : gset nat;           (* sessions with m_connected *)
  w_login : gset nat;               (* sessions with m_loginProcessed *)
  w_sessPlayer : gmap nat nat;      (* GameSession::m_player *)
  w_registry : gmap Z nat;          (* PlayerSystem::m_players *)
  w_lobbies : list box;
  w_rooms : list box;               (* RoomSystem::m_rooms, by index *)
  w_threads : list (list act);
  w_out : list (nat * packet);      (* GameSession::Send calls, oldest first *)
}.

(** AddSystem: five lobbies, no room, no player. *)
Definition world_new : world :=
  mkWorld [] ∅ ∅ ∅ ∅ ∅ (replicate MAX_LOBBY_COUNT Lobby_new) [] [] [].

(** ** Access *)

Definition get_box (q : place) (w : world) : option box :=
  match q with QLobby i => w_lobbies w !! i | QRoom i => w_rooms w !! i end.

Definition set_box (q : place) (b : box) (w : world) : world :=
  match q with
  | QLobby i => mkWorld (w_players w) (w_alive w) (w_connected w) (w_login w) (w_sessPlayer w)
      (w_registry w) (<[i := b]> (w_lobbies w)) (w_rooms w) (w_threads w) (w_out w)
  | QRoom i => mkWorld (w_players w) (w_alive w) (w_connected w) (w_login w) (w_sessPlayer w)
      (w_registry w) (w_lobbies w) (<[i := b]> (w_rooms w)) (w_threads w) (w_out w)
  end.

Definition set_player (p : nat) (pl : Player) (w : world) : world :=
  mkWorld (<[p := pl]> (w_players w)) (w_alive w) (w_connected w) (w_login w) (w_sessPlayer w)
    (w_registry w) (w_lobbies w) (w_rooms w) (w_threads w) (w_out w).

Definition set_registry (r : gmap Z nat) (w : world) : world :=
  mkWorld (w_players w) (w_alive w) (w_connected w) (w_login w) (w_sessPlayer w)
    r (w_lobbies w) (w_rooms w) (w_threads w) (w_out w).

Definition set_threads (t : list (list act)) (w : world) : world :=
  mkWorld (w_players w) (w_alive w) (w_connected w) (w_login w) (w_sessPlayer w)
    (w_registry w) (w_lobbies w) (w_rooms w) t (w_out w).

Definition send (s : nat) (pk : packet) (w : world) : world :=
  mkWorld (w_players w) (w_alive w) (w_connected w) (w_login w) (w_sessPlayer w)
    (w_registry w) (w_lobbies w) (w_rooms w) (w_threads w) (w_out w ++ [(s, pk)]).

(** [GetOwnerSession()]: the weak_ptr's lock. *)
Definition GetOwnerSession (p : nat) (w : world) : option nat :=
  match w_players w !! p with
  | Some pl => if decide (m_ownerSession pl ∈ w_alive w) then Some (m_ownerSession pl) else None
  | None => None
  end.

Definition player_id (p : nat) (w : world) : Z := from_option m_playerId 0 (w_players w !! p).
Definition player_name (p : nat) (w : world) : list Z := from_option m_name [] (w_players w !! p).

(** std::map iterates in ascending key order. *)
Definition key_le (a b : Z * nat) : Prop := fst a <= fst b.
#[global] Instance key_le_dec : RelDecision key_le := fun a b => Z_le_dec (fst a) (fst b).
Definition members (b : box) : list nat := map snd (merge_sort key_le (map_to_list (b_players b))).

(** The range-for of Broadcast over the players [ps]. *)
Fixpoint Broadcast (pk : packet) (ps : list nat) (w : world) : world :=
  match ps with
  | [] => w
  | p :: ps' =>
      let w := match GetOwnerSession p w with Some s => send s pk w | None => w end in
      Broadcast pk ps' w
  end.

(** ** Lobby *)

Definition SetCurrentLobby (p l : nat) (w : world) : world :=
  match w_players w !! p with
  | Some pl => set_player p (mkPlayer (m_playerId pl) (m_name pl) (m_ownerSession pl) (m_currentRoom pl) (Some l)) w
  | None => w
  end.

Definition SetCurrentRoom (p r : nat) (w : world) : world :=
  match w_players w !! p with
  | Some pl => set_player p (mkPlayer (m_playerId pl) (m_name pl) (m_ownerSession pl) (Some r) (m_currentLobby pl)) w
  | None => w
  end.

Definition release_slot (b : box) : box := mkBox (b_players b) (ReleaseReservedSlot (b_avail b)) (b_jobs b).

Definition Lobby_Enter (l : nat) (b : box) (p : nat) (w : world) : world :=
  let id := player_id p w in
  match b_players b !! id with
  | Some _ => set_box (QLobby l) (release_slot b) w
  | None =>
      let w := SetCurrentLobby p l w in
      match GetOwnerSession p w with
      | None => set_box (QLobby l) (release_slot b) w     (* inserted, then erased again *)
      | Some session =>
          let b := mkBox (<[id := p]> (b_players b)) (b_avail b) (b_jobs b) in
          let w := set_box (QLobby l) b w in
          let others := filter (fun o => player_id o w <> id) (members b) in
          let w := Broadcast (NotiLobbyPlayerEnter id (player_name p w)) others w in
          send session (ResLobbyEnter (Z.of_nat l)
            (map (fun o => (player_id o w, player_name o w)) (members b))) w
      end
  end.

Definition Lobby_Exit (l : nat) (b : box) (p : nat) (w : world) : world :=
  let id := player_id p w in
  match b_players b !! id with
  | None => w
  | Some _ =>
      let b := mkBox (delete id (b_players b)) (ReleaseReservedSlot (b_avail b)) (b_jobs b) in
      let w := set_box (QLobby l) b w in
      Broadcast (NotiLobbyPlayerExit id (player_name p w)) (members b) w
  end.

Definition Lobby_Chat (b : box) (p : nat) (_message : list Z) (w : world) : world :=
  Broadcast (NotiLobbyChat (player_id p w) (player_name p w) _message) (members b) w.

(** ** Room *)

(** [Player::EnterRoom]: posts NotiRoomEnter to the room the player is in. *)
Definition Player_EnterRoom (p : nat) (w : world) : world :=
  match w_players w !! p with
  | Some pl =>
      match m_currentRoom pl with
      | Some r =>
          match w_rooms w !! r with
          | Some b => set_box (QRoom r) (mkBox (b_players b) (b_avail b)
              (b_jobs b ++ [RoomBroadcast (NotiRoomEnter (m_playerId pl) (m_name pl))])) w
          | None => w
          end
      | None => w
      end
  | None => w
  end.

Definition Room_Enter (r : nat) (b : box) (p : nat) (w : world) : world :=
  let id := player_id p w in
  if Z.of_nat (size (b_players b)) >=? MAX_ROOM_PLAYER then set_box (QRoom r) (release_slot b) w
  else
    match b_players b !! id with
    | Some _ => set_box (QRoom r) (release_slot b) w
    | None =>
        let w := SetCurrentRoom p r w in
        match GetOwnerSession p w with
        | None => set_box (QRoom r) (release_slot b) w
        | Some _ =>
            let b := mkBox (<[id := p]> (b_players b)) (b_avail b) (b_jobs b) in
            Player_EnterRoom p (set_box (QRoom r) b w)
        end
    end.

Definition Room_Leave (r : nat) (b : box) (p : nat) (w : world) : world :=
  let id := player_id p w in
  match b_players b !! id with
  | None => w
  | Some _ =>
      set_box (QRoom r) (mkBox (delete id (b_players b)) (ReleaseReservedSlot (b_avail b)) (b_jobs b)) w
  end.

(** One job of a box's queue; [b] is the box with the job already popped. *)
Definition run_job (q : place) (b : box) (j : job) (w : world) : world :=
  match q, j with
  | QLobby l, LobbyEnter p => Lobby_Enter l b p w
  | QLobby l, LobbyExit p => Lobby_Exit l b p w
  | QLobby _, LobbyChat p m => Lobby_Chat b p m w
  | QRoom r, RoomEnter p => Room_Enter r b p w
  | QRoom r, RoomLeave p => Room_Leave r b p w
  | QRoom _, RoomBroadcast pk => Broadcast pk (members b) w
  | _, _ => w
  end.

(** ** Systems *)

(** [LobbySystem::AssignLobby]'s first loop: the fullest lobby with a free slot. *)
Fixpoint AssignLobby_best (i : nat) (lobbies : list box) (best : option nat) (bestCount : Z) : option nat :=
  match lobbies with
  | [] => best
  | b :: lobbies' =>
      let cnt := MAX_LOBBY_PLAYERS - b_avail b in
      if (cnt <? MAX_LOBBY_PLAYERS) && (cnt >? bestCount)
      then AssignLobby_best (S i) lobbies' (Some i) cnt
      else AssignLobby_best (S i) lobbies' best bestCount
  end.

(** TryReserveSlot on a box. *)
Definition reserve (q : place) (w : world) : bool * world :=
  match get_box q w with
  | Some b =>
      let '(ok, avail) := TryReserveSlot (b_avail b) in
      (ok, set_box q (mkBox (b_players b) avail (b_jobs b)) w)
  | None => (false, w)
  end.

(** [RoomSystem::MakeRoom]: a new room with its first slot reserved. *)
Definition MakeRoom (w : world) : nat * world :=
  let r := length (w_rooms w) in
  let '(_, avail) := TryReserveSlot (b_avail Room_new) in
  (r, mkWorld (w_players w) (w_alive w) (w_connected w) (w_login w) (w_sessPlayer w) (w_registry w)
        (w_lobbies w) (w_rooms w ++ [mkBox ∅ avail []]) (w_threads w) (w_out w)).

(** [PlayerSystem]: insert keeps an entry that is already there. *)
Definition PlayerSystem_Add (p : nat) (w : world) : world :=
  match w_registry w !! player_id p w with
  | Some _ => w
  | None => set_registry (<[player_id p w := p]> (w_registry w)) w
  end.

Definition PlayerSystem_Remove (p : nat) (w : world) : world :=
  set_registry (delete (player_id p w) (w_registry w)) w.

Definition PlayerSystem_Find (id : Z) (w : world) : option nat := w_registry w !! id.

(** ** Handlers *)

Definition GetPlayer (s : nat) (w : world) : option nat := w_sessPlayer w !! s.

Definition HandleReqRoomEnterPacket (s : nat) (w : world) : option (list act) :=
  p ← GetPlayer s w; Some [ALeaveLobby p; AScanRoom 0 p].

Definition HandleReqRoomChatPacket (s : nat) (message : list Z) (w : world) : option (list act) :=
  p ← GetPlayer s w; Some [ARoomChat p message].

Definition HandleReqRoomExitPacket (s : nat) (w : world) : option (list act) :=
  p ← GetPlayer s w; Some [ALeaveRoom p; AAssignLobby p].

Definition HandleReqLobbyChatPacket (s : nat) (message : list Z) (w : world) : option (list act) :=
  p ← GetPlayer s w; Some [ALobbyChat p message].

Definition HandleReqRoomListPacket (s : nat) (w : world) : option (list act) :=
  p ← GetPlayer s w; Some [ARoomList p].

(** [GameSession::OnLoginResult]: the exchange; what follows are the actions
    [ALoginResult] and [ASetPlayer], between which other threads may run. *)
Definition OnLoginResult (s : nat) (_ok : bool) (_accountId : Z) (_playerName : list Z) (w : world)
  : list act * world :=
  if decide (s ∈ w_login w) then ([], w)
  else ([ALoginResult s _ok _accountId _playerName],
        mkWorld (w_players w) (w_alive w) (w_connected w) ({[s]} ∪ w_login w) (w_sessPlayer w)
          (w_registry w) (w_lobbies w) (w_rooms w) (w_threads w) (w_out w)).

(** The new Player object is the next number. *)
Definition SetPlayer (s : nat) (_accountId : Z) (_playerName : list Z) (w : world) : nat * world :=
  (length (w_players w),
   mkWorld (w_players w ++ [Player_new s _accountId _playerName]) (w_alive w) (w_connected w)
     (w_login w) (<[s := length (w_players w)]> (w_sessPlayer w)) (w_registry w) (w_lobbies w) (w_rooms w)
     (w_threads w) (w_out w)).

(** [GameSession::OnDisconnected] *)
Definition OnDisconnected (s : nat) (w : world) : list act :=
  match w_sessPlayer w !! s with
  | Some p => [ALeaveLobby p; ALeaveRoom p; ARemovePlayer p; AResetPlayer s]
  | None => [AResetPlayer s]
  end.

(** AdminController.cpp *)
Definition AdminKickPlayer (playerId : Z) (w : world) : bool * list act :=
  match PlayerSystem_Find playerId w with
  | None => (false, [])
  | Some p => (true, match GetOwnerSession p w with Some s => [ADisconnect s] | None => [] end)
  end.

(** The rooms are a std::map from 0, 1, ... *)
Definition GetRoom (roomIndex : Z) (w : world) : option box :=
  if 0 <=? roomIndex then w_rooms w !! Z.to_nat roomIndex else None.

Definition GetRooms (w : world) : list box := w_rooms w.

Definition GetPlayers (w : world) : list nat := snd <$> map_to_list (w_registry w).

Definition AdminBroadcast (roomId : Z) (message : list Z) (w : world) : bool * list act :=
  if (length message =? 0)%nat then (false, [])
  else
    let r := i32 roomId in
    match GetRoom r w with
    | None => (false, [])
    | Some _ => (true, [APost (QRoom (Z.to_nat r)) (RoomBroadcast (NotiRoomChat 0 [65; 68; 77; 73; 78] message))])
    end.

Definition AdminListPlayers (w : world) : list (Z * list Z * Z * Z) :=
  map (fun p => (player_id p w, player_name p w,
         from_option (fun pl => from_option Z.of_nat (-1) (m_currentLobby pl)) (-1) (w_players w !! p),
         from_option (fun pl => from_option Z.of_nat (-1) (m_currentRoom pl)) (-1) (w_players w !! p)))
    (GetPlayers w).

Definition AdminListRooms (w : world) : list (Z * Z * Z) :=
  imap (fun i b => (Z.of_nat i, MAX_ROOM_PLAYER - b_avail b, MAX_ROOM_PLAYER)) (GetRooms w).

Definition AdminListLobbies (w : world) : list (Z * Z * Z) :=
  imap (fun i b => (Z.of_nat i, MAX_LOBBY_PLAYERS - b_avail b, MAX_LOBBY_PLAYERS)) (w_lobbies w).

(** ** Executing an action *)

(** [hint]: the lobby AssignLobby's unsynchronised counting loop came up with.
    The result is what the thread does next, before the rest of its actions. *)
Definition exec_act (hint : option nat) (a : act) (w : world) : list act * world :=
  match a with
  | APost q j =>
      match get_box q w with
      | Some b => ([], set_box q (mkBox (b_players b) (b_avail b) (b_jobs b ++ [j])) w)
      | None => ([], w)
      end
  | ALeaveLobby p =>
      match w_players w !! p with
      | Some pl =>
          (match m_currentLobby pl with Some l => [APost (QLobby l) (LobbyExit p)] | None => [] end
           ++ [AClearLobby p], w)
      | None => ([], w)
      end
  | ALeaveRoom p =>
      match w_players w !! p with
      | Some pl =>
          (match m_currentRoom pl with
           | Some r => [APost (QRoom r) (RoomLeave p);
                        APost (QRoom r) (RoomBroadcast (NotiRoomExit (m_playerId pl) (m_name pl)))]
           | None => []
           end ++ [AClearRoom p], w)
      | None => ([], w)
      end
  | AClearRoom p =>
      match w_players w !! p with
      | Some pl => ([], set_player p (mkPlayer (m_playerId pl) (m_name pl) (m_ownerSession pl) None (m_currentLobby pl)) w)
      | None => ([], w)
      end
  | AClearLobby p =>
      match w_players w !! p with
      | Some pl => ([], set_player p (mkPlayer (m_playerId pl) (m_name pl) (m_ownerSession pl) (m_currentRoom pl) None) w)
      | None => ([], w)
      end
  | AAssignLobby p =>
      match hint with
      | Some l =>
          let '(ok, w) := reserve (QLobby l) w in
          if ok then ([APost (QLobby l) (LobbyEnter p)], w) else ([AScanLobby 0 p], w)
      | None => ([AScanLobby 0 p], w)
      end
  | AScanLobby i p =>
      match w_lobbies w !! i with
      | None => ([], w)                      (* every lobby full: no lobby *)
      | Some _ =>
          let '(ok, w) := reserve (QLobby i) w in
          if ok then ([APost (QLobby i) (LobbyEnter p)], w) else ([AScanLobby (S i) p], w)
      end
  | AScanRoom i p =>
      match w_rooms w !! i with
      | None => ([AMakeRoom p], w)
      | Some _ =>
          let '(ok, w) := reserve (QRoom i) w in
          if ok then ([APost (QRoom i) (RoomEnter p)], w) else ([AScanRoom (S i) p], w)
      end
  | AMakeRoom p =>
      let '(r, w) := MakeRoom w in
      ([APost (QRoom r) (RoomEnter p)], w)
  | ALobbyChat p m =>
      match w_players w !! p with
      | Some pl => (match m_currentLobby pl with Some l => [APost (QLobby l) (LobbyChat p m)] | None => [] end, w)
      | None => ([], w)
      end
  | ARoomChat p m =>
      match w_players w !! p with
      | Some pl => (match m_currentRoom pl with
                    | Some r => [APost (QRoom r) (RoomBroadcast (NotiRoomChat (m_playerId pl) (m_name pl) m))]
                    | None => []
                    end, w)
      | None => ([], w)
      end
  | ARoomList p =>
      match GetOwnerSession p w with
      | Some s => ([], send s (ResRoomList (AdminListRooms w)) w)
      | None => ([], w)
      end
  | ASend s pk => ([], send s pk w)
  | AAddPlayer p => ([], PlayerSystem_Add p w)
  | ARemovePlayer p => ([], PlayerSystem_Remove p w)
  | ADisconnect s =>
      if decide (s ∈ w_connected w) then
        let w := mkWorld (w_players w) (w_alive w) (w_connected w ∖ {[s]}) (w_login w) (w_sessPlayer w)
                   (w_registry w) (w_lobbies w) (w_rooms w) (w_threads w) (w_out w) in
        (OnDisconnected s w, w)
      else ([], w)
  | AResetPlayer s =>
      ([], mkWorld (w_players w) (w_alive w) (w_connected w) (w_login w) (delete s (w_sessPlayer w))
             (w_registry w) (w_lobbies w) (w_rooms w) (w_threads w) (w_out w))
  | ALoginResult s ok id name =>
      if decide (s ∈ w_connected w)
      then (if negb ok then [ASend s ResLoginFailed; ADisconnect s] else [ASetPlayer s id name], w)
      else ([], w)
  | ASetPlayer s id name =>
      let '(p, w) := SetPlayer s id name w in
      ([AAddPlayer p; ASend s (ResLogin id name); AAssignLobby p], w)
  end.

(** ** Executions *)

(** What starts a thread: packets of a connected session, database answers,
    disconnects, administration commands. *)
Inductive game_event :=
| EvRoomEnter (s : nat) | EvRoomExit (s : nat) | EvRoomChat (s : nat) (m : list Z)
| EvLobbyChat (s : nat) (m : list Z) | EvRoomList (s : nat)
| EvLogin (s : nat) (ok : bool) (id : Z) (name : list Z)
| EvDisconnect (s : nat) | EvKick (id : Z) | EvAdminBroadcast (room : Z) (m : list Z).

Definition on_event (e : game_event) (w : world) : list act * world :=
  match e with
  | EvRoomEnter s => (default [ADisconnect s] (HandleReqRoomEnterPacket s w), w)
  | EvRoomExit s => (default [ADisconnect s] (HandleReqRoomExitPacket s w), w)
  | EvRoomChat s m => (default [ADisconnect s] (HandleReqRoomChatPacket s m w), w)
  | EvLobbyChat s m => (default [ADisconnect s] (HandleReqLobbyChatPacket s m w), w)
  | EvRoomList s => (default [ADisconnect s] (HandleReqRoomListPacket s w), w)
  | EvLogin s ok id name => OnLoginResult s ok id name w
  | EvDisconnect s => ([ADisconnect s], w)
  | EvKick id => (snd (AdminKickPlayer id w), w)
  | EvAdminBroadcast r m => (snd (AdminBroadcast r m w), w)
  end.

Inductive game_step : world -> world -> Prop :=
| g_connect w s :     (* ProcessConnect of a new session *)
    s ∉ w_alive w ->
    game_step w (mkWorld (w_players w) ({[s]} ∪ w_alive w) ({[s]} ∪ w_connected w) (w_login w) (w_sessPlayer w)
                   (w_registry w) (w_lobbies w) (w_rooms w) (w_threads w) (w_out w))
| g_event w e acts w' :
    on_event e w = (acts, w') -> game_step w (set_threads (acts :: w_threads w') w')
| g_act w k a rest hint acts w' :
    w_threads w !! k = Some (a :: rest) -> exec_act hint a w = (acts, w') ->
    game_step w (set_threads (<[k := acts ++ rest]> (w_threads w')) w')
| g_job w q b j js :
    get_box q w = Some b -> b_jobs b = j :: js ->
    game_step w (let b' := mkBox (b_players b) (b_avail b) js in run_job q b' j (set_box q b' w))
| g_die w s :         (* the last shared_ptr to a disconnected session goes *)
    s ∉ w_connected w ->
    game_step w (mkWorld (w_players w) (w_alive w ∖ {[s]}) (w_connected w) (w_login w) (w_sessPlayer w)
                   (w_registry w) (w_lobbies w) (w_rooms w) (w_threads w) (w_out w)).

Definition game_reach : world -> Prop := reach (fun w => w = world_new) game_step (fun _ => True).

(** ** Slots *)

Definition cap (q : place) : Z :=
  match q with QLobby _ => MAX_LOBBY_PLAYERS | QRoom _ => MAX_ROOM_PLAYER end.

(** 1 for an Enter job of this box: it holds a reserved slot. *)
Definition enters (q : place) (j : job) : Z :=
  match q, j with
  | QLobby _, LobbyEnter _ | QRoom _, RoomEnter _ => 1
  | _, _ => 0
  end.

(** 1 for a thread about to post such a job. *)
Definition posts (q : place) (a : act) : Z :=
  match a with
  | APost q' j => if decide (q = q') then enters q j else 0
  | _ => 0
  end.

Definition core (q : place) (b : box) : Z :=
  b_avail b + Z.of_nat (size (b_players b)) + zsum (enters q) (b_jobs b).

Definition box_ok (q : place) (w : world) : Prop := is_Some (get_box q w).

Definition act_ok (w : world) (a : act) : Prop :=
  match a with APost q _ => box_ok q w | _ => True end.

Definition player_ok (w : world) (pl : Player) : Prop :=
  (forall l, m_currentLobby pl = Some l -> box_ok (QLobby l) w) /\
  (forall r, m_currentRoom pl = Some r -> box_ok (QRoom r) w).

Record game_inv (w : world) : Prop := mkGameInv {
  gi_slots : forall q b, get_box q w = Some b ->
    0 <= b_avail b /\ core q b + zsum (posts q) (concat (w_threads w)) = cap q;
  gi_acts : Forall (Forall (act_ok w)) (w_threads w);
  gi_players : Forall (player_ok w) (w_players w);
}.

(** *** What each update leaves alone *)

Lemma get_set_box q q' b w :
  get_box q' (set_box q b w) = if decide (q = q') then (fun _ => b) <$> get_box q w else get_box q' w.
Proof.
  destruct q as [i|i], q' as [j|j]; cbn; try done; case_decide; simplify_eq; try done.
  - destruct (decide (j < length (w_lobbies w))%nat) as [H|H].
    + rewrite list_lookup_insert_eq by done. destruct (lookup_lt_is_Some_2 _ _ H) as [x ->]. done.
    + rewrite !lookup_ge_None_2; [done|lia|rewrite length_insert; lia].
  - rewrite list_lookup_insert_ne; [done|congruence].
  - destruct (decide (j < length (w_rooms w))%nat) as [H|H].
    + rewrite list_lookup_insert_eq by done. destruct (lookup_lt_is_Some_2 _ _ H) as [x ->]. done.
    + rewrite !lookup_ge_None_2; [done|lia|rewrite length_insert; lia].
  - rewrite list_lookup_insert_ne; [done|congruence].
Qed.

Lemma get_box_send q s pk w : get_box q (send s pk w) = get_box q w.
Proof. by destruct q. Qed.
Lemma get_box_player q p pl w : get_box q (set_player p pl w) = get_box q w.
Proof. by destruct q. Qed.
Lemma get_box_threads q t w : get_box q (set_threads t w) = get_box q w.
Proof. by destruct q. Qed.
Lemma get_box_registry q r w : get_box q (set_registry r w) = get_box q w.
Proof. by destruct q. Qed.
Lemma get_box_SetCurrentLobby q p l w : get_box q (SetCurrentLobby p l w) = get_box q w.
Proof. unfold SetCurrentLobby. case_match; [apply get_box_player|done]. Qed.
Lemma get_box_SetCurrentRoom q p r w : get_box q (SetCurrentRoom p r w) = get_box q w.
Proof. unfold SetCurrentRoom. case_match; [apply get_box_player|done]. Qed.

Lemma get_box_Broadcast q pk ps w : get_box q (Broadcast pk ps w) = get_box q w.
Proof.
  revert w. induction ps as [|p ps IH]; intros w; cbn; [done|].
  rewrite IH. case_match; [apply get_box_send|done].
Qed.

#[export] Hint Rewrite get_box_send get_box_player get_box_threads get_box_registry
  get_box_SetCurrentLobby get_box_SetCurrentRoom get_box_Broadcast : dhnet.

Lemma zsum_concat_insert {A} (f : A -> Z) (l : list (list A)) k x y :
  l !! k = Some x -> zsum f (concat (<[k := y]> l)) = zsum f (concat l) - zsum f x + zsum f y.
Proof.
  intros H. rewrite insert_take_drop by (by eapply lookup_lt_Some).
  rewrite <- (take_drop_middle l k x H) at 3.
  rewrite !concat_app, !zsum_app. cbn [concat]. rewrite !zsum_app. lia.
Qed.

Lemma release_core q b : 0 <= b_avail b < 2147483647 -> core q (release_slot b) = core q b + 1.
Proof. intros H. unfold core, release_slot, ReleaseReservedSlot. cbn. rewrite i32_id by lia. lia. Qed.

Lemma frame_Broadcast pk ps w :
  w_threads (Broadcast pk ps w) = w_threads w /\ w_players (Broadcast pk ps w) = w_players w.
Proof.
  revert w. induction ps as [|p ps IH]; intros w; cbn; [done|].
  destruct (IH (match GetOwnerSession p w with Some s => send s pk w | None => w end)) as [-> ->].
  by case_match.
Qed.

Lemma threads_Broadcast pk ps w : w_threads (Broadcast pk ps w) = w_threads w.
Proof. apply frame_Broadcast. Qed.
Lemma players_Broadcast pk ps w : w_players (Broadcast pk ps w) = w_players w.
Proof. apply frame_Broadcast. Qed.
Lemma threads_set_box q b w : w_threads (set_box q b w) = w_threads w.
Proof. by destruct q. Qed.
Lemma players_set_box q b w : w_players (set_box q b w) = w_players w.
Proof. by destruct q. Qed.
Lemma threads_send s pk w : w_threads (send s pk w) = w_threads w.
Proof. done. Qed.
Lemma players_send s pk w : w_players (send s pk w) = w_players w.
Proof. done. Qed.

#[export] Hint Rewrite threads_Broadcast players_Broadcast threads_set_box players_set_box
  threads_send players_send : dhnet.

Lemma box_ok_set q q' b w : box_ok q (set_box q' b w) <-> box_ok q w.
Proof.
  unfold box_ok. rewrite get_set_box. case_decide as E; [subst|done].
  by rewrite fmap_is_Some.
Qed.

(** What running a job does to the boxes and to everything the invariant
    mentions. *)
Definition job_effect (q : place) (b : box) (j : job) (w w' : world) : Prop :=
  w_threads w' = w_threads w /\
  (forall q', box_ok q' w' <-> box_ok q' w) /\
  (forall q', q' <> q -> get_box q' w' = get_box q' w) /\
  (exists b', get_box q w' = Some b' /\ 0 <= b_avail b' /\ core q b' = core q b + enters q j) /\
  (Forall (player_ok w) (w_players w) -> Forall (player_ok w') (w_players w')).

(** The bookkeeping shared by all cases: the box replaced by [b'], the rest
    of the world by something that differs only in the log. *)
Lemma job_effect_intro q b b' j w w1 w' :
  get_box q w = Some b -> 0 <= b_avail b' -> core q b' = core q b + enters q j ->
  w_threads w1 = w_threads w -> (forall q', get_box q' w1 = get_box q' w) ->
  (Forall (player_ok w) (w_players w) -> Forall (player_ok w) (w_players w1)) ->
  w_threads w' = w_threads w1 -> w_players w' = w_players w1 ->
  (forall q', get_box q' w' = get_box q' (set_box q b' w1)) ->
  job_effect q b j w w'.
Proof.
  intros Hb Ha Hc Ht1 Hg1 Hp1 Ht Hp Hg.
  assert (Hok : forall q', box_ok q' w' <-> box_ok q' w).
  { intros q'. unfold box_ok. rewrite Hg. fold (box_ok q' (set_box q b' w1)). rewrite box_ok_set.
    unfold box_ok. by rewrite Hg1. }
  split_and!.
  - congruence.
  - done.
  - intros q' Hne. rewrite Hg, get_set_box, decide_False by done. apply Hg1.
  - exists b'. rewrite Hg, get_set_box, decide_True by done. by rewrite Hg1, Hb.
  - intros HP. rewrite Hp. eapply Forall_impl; [by apply Hp1|].
    intros pl [H1 H2]. split; intros i Hi; apply Hok; auto.
Qed.

Lemma SetCurrentLobby_players p l w :
  box_ok (QLobby l) w -> Forall (player_ok w) (w_players w) ->
  Forall (player_ok w) (w_players (SetCurrentLobby p l w)).
Proof.
  intros Hl HP. unfold SetCurrentLobby. case_match eqn:E; [|done]. cbn.
  apply Forall_insert; [done|]. pose proof (Forall_lookup_1 _ _ _ _ HP E) as [H1 H2].
  split; cbn; [|done]. intros ? [= <-]. done.
Qed.

Lemma SetCurrentRoom_players p r w :
  box_ok (QRoom r) w -> Forall (player_ok w) (w_players w) ->
  Forall (player_ok w) (w_players (SetCurrentRoom p r w)).
Proof.
  intros Hl HP. unfold SetCurrentRoom. case_match eqn:E; [|done]. cbn.
  apply Forall_insert; [done|]. pose proof (Forall_lookup_1 _ _ _ _ HP E) as [H1 H2].
  split; cbn; [done|]. intros ? [= <-]. done.
Qed.

Lemma threads_SetCurrentLobby p l w : w_threads (SetCurrentLobby p l w) = w_threads w.
Proof. unfold SetCurrentLobby. by case_match. Qed.
Lemma threads_SetCurrentRoom p r w : w_threads (SetCurrentRoom p r w) = w_threads w.
Proof. unfold SetCurrentRoom. by case_match. Qed.

#[export] Hint Resolve SetCurrentLobby_players SetCurrentRoom_players : dhnet.
#[export] Hint Rewrite threads_SetCurrentLobby threads_SetCurrentRoom : dhnet.

Lemma core_insert q b id p :
  b_players b !! id = None ->
  core q (mkBox (<[id := p]> (b_players b)) (b_avail b) (b_jobs b)) = core q b + 1.
Proof. intros H. unfold core. cbn. rewrite map_size_insert_None by done. lia. Qed.

Lemma core_delete q b id p :
  b_players b !! id = Some p -> 0 <= b_avail b < 2147483647 ->
  core q (mkBox (delete id (b_players b)) (ReleaseReservedSlot (b_avail b)) (b_jobs b)) = core q b.
Proof.
  intros H Ha. unfold core, ReleaseReservedSlot. cbn. rewrite i32_id by lia.
  rewrite map_size_delete_Some by (by eexists).
  assert (size (b_players b) <> 0%nat); [|lia].
  intros E. apply map_size_empty_inv in E. by rewrite E, lookup_empty in H.
Qed.

Lemma release_avail b : 0 <= b_avail b < 2147483647 -> 0 <= ReleaseReservedSlot (b_avail b).
Proof. intros H. unfold ReleaseReservedSlot. rewrite i32_id; lia. Qed.

Lemma Lobby_Enter_effect l b p w :
  get_box (QLobby l) w = Some b -> 0 <= b_avail b < 2147483647 ->
  job_effect (QLobby l) b (LobbyEnter p) w (Lobby_Enter l b p w).
Proof.
  intros Hb Ha. assert (box_ok (QLobby l) w) as Hok by by eexists.
  pose proof (release_avail b Ha) as Hr.
  unfold Lobby_Enter. destruct (b_players b !! player_id p w) as [o|] eqn:Eo.
  - eapply (job_effect_intro _ b (release_slot b) _ w w); try done; by rewrite release_core.
  - destruct (GetOwnerSession p (SetCurrentLobby p l w)) as [s|].
    + set (b' := mkBox _ _ _). set (w1 := SetCurrentLobby p l w).
      assert (core (QLobby l) b' = core (QLobby l) b + 1) as Hc by (by apply core_insert).
      assert (0 <= b_avail b') by (cbn; lia).
      eapply (job_effect_intro _ b b' _ w w1); try done; unfold w1; autorewrite with dhnet; auto with dhnet.
      * intros q'. by autorewrite with dhnet.
      * intros q'. by autorewrite with dhnet.
    + eapply (job_effect_intro _ b (release_slot b) _ w (SetCurrentLobby p l w)); try done;
        autorewrite with dhnet; auto with dhnet.
      * by rewrite release_core.
      * intros q'. by autorewrite with dhnet.
Qed.

Lemma Lobby_Exit_effect l b p w :
  get_box (QLobby l) w = Some b -> 0 <= b_avail b < 2147483647 ->
  job_effect (QLobby l) b (LobbyExit p) w (Lobby_Exit l b p w).
Proof.
  intros Hb Ha. pose proof (release_avail b Ha) as Hr.
  unfold Lobby_Exit. destruct (b_players b !! player_id p w) as [o|] eqn:Eo.
  - set (b' := mkBox _ _ _).
    assert (core (QLobby l) b' = core (QLobby l) b + 0) as Hc by (unfold b'; erewrite core_delete by done; lia).
    eapply (job_effect_intro _ b b' _ w w); try done; autorewrite with dhnet; try done.
    intros q'. by autorewrite with dhnet.
  - eapply (job_effect_intro _ b b _ w w); try done; [lia|cbn; lia|].
    intros q'. rewrite get_set_box. case_decide; [subst|done]. by rewrite Hb.
Qed.

Lemma no_change_effect q b j w pk ps :
  get_box q w = Some b -> 0 <= b_avail b -> enters q j = 0 ->
  job_effect q b j w (Broadcast pk ps w).
Proof.
  intros Hb Ha Hj. eapply (job_effect_intro _ b b _ w w); try done; autorewrite with dhnet; try done; [lia|].
  intros q'. autorewrite with dhnet. rewrite get_set_box. case_decide; [subst|done]. by rewrite Hb.
Qed.

Lemma Room_Leave_effect r b p w :
  get_box (QRoom r) w = Some b -> 0 <= b_avail b < 2147483647 ->
  job_effect (QRoom r) b (RoomLeave p) w (Room_Leave r b p w).
Proof.
  intros Hb Ha. pose proof (release_avail b Ha) as Hr.
  unfold Room_Leave. destruct (b_players b !! player_id p w) as [o|] eqn:Eo.
  - set (b' := mkBox _ _ _).
    assert (core (QRoom r) b' = core (QRoom r) b + 0) as Hc by (unfold b'; erewrite core_delete by done; lia).
    eapply (job_effect_intro _ b b' _ w w); try done; by autorewrite with dhnet.
  - eapply (job_effect_intro _ b b _ w w); try done; [lia|cbn; lia|].
    intros q'. rewrite get_set_box. case_decide; [subst|done]. by rewrite Hb.
Qed.

(** After Room::Enter inserted [p], EnterRoom posts its notification to the
    same room. *)
Lemma Player_EnterRoom_same p r b w :
  get_box (QRoom r) w = Some b ->
  exists jobs, zsum (enters (QRoom r)) jobs = 0 /\
    Player_EnterRoom p (set_box (QRoom r) b (SetCurrentRoom p r w)) =
    set_box (QRoom r) (mkBox (b_players b) (b_avail b) (b_jobs b ++ jobs)) (SetCurrentRoom p r w).
Proof.
  intros Hb. destruct (w_players w !! p) as [pl|] eqn:Ep.
  - exists [RoomBroadcast (NotiRoomEnter (m_playerId pl) (m_name pl))]. split; [done|].
    assert (p < length (w_players w))%nat as Hp by (by eapply lookup_lt_Some).
    unfold Player_EnterRoom, SetCurrentRoom. rewrite Ep. cbn. rewrite list_lookup_insert_eq by done. cbn.
    rewrite list_lookup_insert_eq by (by eapply lookup_lt_Some).
    by rewrite list_insert_insert_eq.
  - exists []. split; [done|]. unfold Player_EnterRoom, SetCurrentRoom. rewrite Ep. cbn. rewrite Ep.
    rewrite app_nil_r. by destruct b.
Qed.

Lemma Room_Enter_effect r b p w :
  get_box (QRoom r) w = Some b -> 0 <= b_avail b < 2147483647 ->
  job_effect (QRoom r) b (RoomEnter p) w (Room_Enter r b p w).
Proof.
  intros Hb Ha. assert (box_ok (QRoom r) w) as Hok by by eexists.
  pose proof (release_avail b Ha) as Hr.
  assert (forall w1, w_threads w1 = w_threads w -> (forall q', get_box q' w1 = get_box q' w) ->
    (Forall (player_ok w) (w_players w) -> Forall (player_ok w) (w_players w1)) ->
    job_effect (QRoom r) b (RoomEnter p) w (set_box (QRoom r) (release_slot b) w1)) as Hrel.
  { intros w1 H1 H2 H3. eapply (job_effect_intro _ b (release_slot b) _ w w1); try done; by rewrite release_core. }
  unfold Room_Enter. destruct (_ >=? _); [by apply Hrel|].
  destruct (b_players b !! player_id p w) as [o|] eqn:Eo; [by apply Hrel|].
  destruct (GetOwnerSession p (SetCurrentRoom p r w)) as [s|].
  2:{ apply Hrel; [by autorewrite with dhnet|intros; by autorewrite with dhnet|auto with dhnet]. }
  set (b' := mkBox _ _ _).
  assert (core (QRoom r) b' = core (QRoom r) b + 1) as Hc by (by apply core_insert).
  assert (exists b0, get_box (QRoom r) w = Some b0) as [b0 Hb0] by eauto.
  destruct (Player_EnterRoom_same p r b' (set_box (QRoom r) b' w)) as (jobs & Hj & E).
  { rewrite get_set_box, decide_True by done. by rewrite Hb. }
  assert (Player_EnterRoom p (set_box (QRoom r) b' (SetCurrentRoom p r w)) =
          set_box (QRoom r) (mkBox (b_players b') (b_avail b') (b_jobs b' ++ jobs)) (SetCurrentRoom p r w)) as ->.
  { assert (SetCurrentRoom p r (set_box (QRoom r) b' w) = set_box (QRoom r) b' (SetCurrentRoom p r w)) as Hcomm.
    { unfold SetCurrentRoom. rewrite players_set_box. by case_match. }
    rewrite Hcomm in E. cbn [set_box] in E |- *. revert E. cbn. rewrite !list_insert_insert_eq. done. }
  set (b2 := mkBox _ _ _).
  assert (core (QRoom r) b2 = core (QRoom r) b + 1) as Hc2.
  { rewrite <- Hc. unfold core, b2. cbn [b_avail b_players b_jobs]. rewrite zsum_app, Hj. lia. }
  assert (0 <= b_avail b2) by (cbn; lia).
  eapply (job_effect_intro _ b b2 _ w (SetCurrentRoom p r w)); try done; autorewrite with dhnet; auto with dhnet.
  intros. by autorewrite with dhnet.
Qed.

Lemma run_job_effect q b j w :
  get_box q w = Some b -> 0 <= b_avail b < 2147483647 -> job_effect q b j w (run_job q b j w).
Proof.
  intros Hb Ha.
  assert (enters q j = 0 -> job_effect q b j w w) as Hid.
  { intros Hj. apply (no_change_effect q b j w ResLoginFailed [] Hb); [lia|done]. }
  destruct q as [l|r], j as [p|p|p m|p|p|pk]; cbn [run_job];
    try (by apply Hid); try (apply no_change_effect; [done|lia|done]).
  - by apply Lobby_Enter_effect.
  - by apply Lobby_Exit_effect.
  - by apply Room_Enter_effect.
  - by apply Room_Leave_effect.
Qed.

(** *** Actions *)

Record act_effect (a : act) (acts : list act) (w w' : world) : Prop := mkActEffect {
  ae_threads : w_threads w' = w_threads w;
  ae_ok : forall q, box_ok q w -> box_ok q w';
  ae_core : forall q b', get_box q w' = Some b' -> 0 <= b_avail b' /\
    ((exists b, get_box q w = Some b /\ core q b' + zsum (posts q) acts = core q b + posts q a) \/
     (get_box q w = None /\ core q b' + zsum (posts q) acts = cap q));
  ae_acts : Forall (act_ok w') acts;
  ae_players : Forall (player_ok w) (w_players w) -> Forall (player_ok w') (w_players w');
}.

Definition avail_ok (w : world) : Prop := forall q b, get_box q w = Some b -> 0 <= b_avail b.

Lemma player_ok_mono w w' pl :
  (forall q, box_ok q w -> box_ok q w') -> player_ok w pl -> player_ok w' pl.
Proof. intros H [H1 H2]. split; intros i Hi; apply H; auto. Qed.

Lemma act_ok_mono w w' a : (forall q, box_ok q w -> box_ok q w') -> act_ok w a -> act_ok w' a.
Proof. intros H. destruct a; cbn; auto. Qed.

(** An action that touches no box and posts no Enter job. *)
Lemma act_effect_same a acts w w' :
  avail_ok w -> w_threads w' = w_threads w -> (forall q, get_box q w' = get_box q w) ->
  (forall q, zsum (posts q) acts = 0) -> (forall q, posts q a = 0) -> Forall (act_ok w) acts ->
  (Forall (player_ok w) (w_players w) -> Forall (player_ok w) (w_players w')) ->
  act_effect a acts w w'.
Proof.
  intros Hav Ht Hg Hz Hz' Ha Hp.
  assert (forall q, box_ok q w -> box_ok q w') as Hok by (intros q; unfold box_ok; by rewrite Hg).
  split; try done.
  - intros q b Hb. rewrite Hg in Hb. split; [by eapply Hav|]. left. exists b. rewrite Hz, Hz'. by split.
  - eapply Forall_impl; [done|]. intros x. by apply act_ok_mono.
  - intros H. eapply Forall_impl; [by apply Hp|]. intros x. by apply player_ok_mono.
Qed.

(** Reserving a slot of a box: either the slot travels on as a post, or the
    box is unchanged. *)
Lemma reserve_effect q j a next w ok w' :
  avail_ok w -> enters q j = 1 -> (forall q, posts q a = 0) -> posts q next = 0 ->
  (forall q', posts q' next = 0) -> act_ok w next -> box_ok q w ->
  reserve q w = (ok, w') -> act_effect a (if ok then [APost q j] else [next]) w w'.
Proof.
  intros Hav Hj Ha _ Hn Hnext [b Hb] Hr. unfold reserve in Hr. rewrite Hb in Hr.
  unfold TryReserveSlot in Hr. pose proof (Hav q b Hb) as Hpos.
  assert (forall q', box_ok q' w -> box_ok q' w') as Hok.
  { intros q' H. destruct (b_avail b <=? 0); simplify_eq; by apply box_ok_set. }
  assert (forall q', q' <> q -> get_box q' w' = get_box q' w) as Hother.
  { intros q' H. destruct (b_avail b <=? 0); simplify_eq; by rewrite get_set_box, decide_False. }
  split.
  - destruct (b_avail b <=? 0); simplify_eq; by autorewrite with dhnet.
  - done.
  - intros q' b' Hb'. destruct (decide (q' = q)) as [->|Hne].
    + destruct (b_avail b <=? 0) eqn:E; simplify_eq; to_prop;
        rewrite get_set_box, decide_True, Hb in Hb' by done; cbn in Hb'; simplify_eq; cbn [b_avail]; (split; [lia|]);
        left; exists b; (split; [done|]); unfold core; cbn; rewrite Ha; [rewrite Hn; lia|].
      rewrite decide_True by done. rewrite Hj. lia.
    + rewrite Hother in Hb' by done. split; [by eapply Hav|]. left. exists b'. split; [done|].
      rewrite Ha. destruct ok; cbn; [rewrite decide_False by done|rewrite Hn]; lia.
  - destruct ok; constructor; try done; [apply Hok; by eexists|by apply (act_ok_mono w)].
  - intros HP. assert (w_players w' = w_players w) as ->.
    { destruct (b_avail b <=? 0); simplify_eq; by autorewrite with dhnet. }
    eapply Forall_impl; [done|]. intros x. by apply player_ok_mono.
Qed.

Lemma set_current_players w p pl pl' :
  w_players w !! p = Some pl -> (player_ok w pl -> player_ok w pl') ->
  Forall (player_ok w) (w_players w) -> Forall (player_ok w) (<[p := pl']> (w_players w)).
Proof. intros Hp H HP. apply Forall_insert; [done|]. apply H. by apply (Forall_lookup_1 _ _ _ _ HP Hp). Qed.

Lemma MakeRoom_effect p w r w' :
  avail_ok w -> MakeRoom w = (r, w') -> act_effect (AMakeRoom p) [APost (QRoom r) (RoomEnter p)] w w'.
Proof.
  intros Hav Hm. unfold MakeRoom in Hm. cbn in Hm. simplify_eq.
  assert (forall q, box_ok q w -> box_ok q (mkWorld (w_players w) (w_alive w) (w_connected w) (w_login w)
    (w_sessPlayer w) (w_registry w) (w_lobbies w) (w_rooms w ++ [mkBox ∅ 7 []]) (w_threads w) (w_out w))) as Hok.
  { intros [l|r] [b Hb]; [by exists b|]. exists b. cbn in *. by apply lookup_app_l_Some. }
  split; try done.
  - intros [l|r] b Hb; cbn in Hb.
    + split; [by apply (Hav (QLobby l) b)|]. left. exists b. split; [done|]. cbn. case_decide; [done|lia].
    + apply lookup_app_Some in Hb as [Hb|[Hge Hb]].
      * split; [by apply (Hav (QRoom r) b)|]. left. exists b. split; [done|]. cbn.
        rewrite decide_False; [lia|]. intros [= ->]. apply lookup_lt_Some in Hb. lia.
      * apply list_lookup_singleton_Some in Hb as [Hr <-]. split; [done|]. right.
        split; [by apply lookup_ge_None|]. unfold core. cbn.
        rewrite decide_True by (f_equal; lia). done.
  - constructor; [|done]. exists (mkBox ∅ 7 []). cbn. rewrite lookup_app_r, Nat.sub_diag by lia. done.
  - intros HP. eapply Forall_impl; [done|]. intros x. by apply player_ok_mono.
Qed.

Lemma APost_effect q j w :
  avail_ok w -> box_ok q w ->
  act_effect (APost q j) (fst (exec_act None (APost q j) w)) w (snd (exec_act None (APost q j) w)).
Proof.
  intros Hav [b Hb]. cbn [exec_act]. rewrite Hb. cbn [fst snd].
  assert (forall q', box_ok q' w -> box_ok q' (set_box q (mkBox (b_players b) (b_avail b) (b_jobs b ++ [j])) w)) as Hok
    by (intros q' H; by apply box_ok_set).
  split; try done.
  - by autorewrite with dhnet.
  - intros q' b' Hb'. rewrite get_set_box in Hb'. case_decide as E.
    + subst q'. rewrite Hb in Hb'. cbn in Hb'. simplify_eq. split; [by apply (Hav q b)|]. left. exists b.
      split; [done|]. unfold core. cbn. rewrite zsum_app, decide_True by done. cbn. lia.
    + split; [by eapply Hav|]. left. exists b'. split; [done|]. cbn. rewrite decide_False by congruence. lia.
  - autorewrite with dhnet. intros HP. eapply Forall_impl; [done|]. intros x. by apply player_ok_mono.
Qed.

Lemma posts_current w p pl :
  Forall (player_ok w) (w_players w) -> w_players w !! p = Some pl -> player_ok w pl.
Proof. intros HP Hp. by apply (Forall_lookup_1 _ _ _ _ HP Hp). Qed.

(** Solves an action of which [act_effect_same] is the case. *)
Ltac act_same :=
  apply act_effect_same;
  [ done | by autorewrite with dhnet | intros; by autorewrite with dhnet
  | intros; cbn; repeat case_decide; simplify_eq; done || lia | done
  | repeat (constructor; cbn; eauto) | try done ].

Lemma exec_act_effect hint a w acts w' :
  avail_ok w -> Forall (player_ok w) (w_players w) -> act_ok w a ->
  exec_act hint a w = (acts, w') -> act_effect a acts w w'.
Proof.
  intros Hav HP Hok E. destruct a as [q j|p|p|p|p|p|i p|i p|p|p m|p m|p|s pk|p|p|s|s|s ok id name|s id name].
  - destruct (APost_effect q j w Hav Hok). cbn [exec_act] in *. rewrite E in *. by split.
  - cbn in E. destruct (w_players w !! p) as [pl|] eqn:Ep; simplify_eq; [|act_same].
    destruct (posts_current _ _ _ HP Ep) as [H1 H2]. destruct (m_currentLobby pl); act_same.
  - cbn in E. destruct (w_players w !! p) as [pl|] eqn:Ep; simplify_eq; [|act_same].
    destruct (posts_current _ _ _ HP Ep) as [H1 H2]. destruct (m_currentRoom pl); act_same.
  - cbn in E. destruct (w_players w !! p) as [pl|] eqn:Ep; simplify_eq; act_same.
    apply (set_current_players w p pl); [done|]. intros [H1 H2]. by split.
  - cbn in E. destruct (w_players w !! p) as [pl|] eqn:Ep; simplify_eq; act_same.
    apply (set_current_players w p pl); [done|]. intros [H1 H2]. by split.
  - cbn [exec_act] in E. destruct hint as [l|]; [|simplify_eq; act_same].
    destruct (get_box (QLobby l) w) as [b|] eqn:Eb.
    + destruct (reserve (QLobby l) w) as [ok w1] eqn:Er.
      pose proof (reserve_effect (QLobby l) (LobbyEnter p) (AAssignLobby p) (AScanLobby 0 p) w ok w1) as H.
      destruct ok; simplify_eq; apply H; try done; by eexists.
    + unfold reserve in E. rewrite Eb in E. simplify_eq. act_same.
  - cbn [exec_act] in E. destruct (w_lobbies w !! i) as [b|] eqn:Eb; [|simplify_eq; act_same].
    destruct (reserve (QLobby i) w) as [ok w1] eqn:Er.
    pose proof (reserve_effect (QLobby i) (LobbyEnter p) (AScanLobby i p) (AScanLobby (S i) p) w ok w1) as H.
    destruct ok; simplify_eq; apply H; try done; by eexists.
  - cbn [exec_act] in E. destruct (w_rooms w !! i) as [b|] eqn:Eb; [|simplify_eq; act_same].
    destruct (reserve (QRoom i) w) as [ok w1] eqn:Er.
    pose proof (reserve_effect (QRoom i) (RoomEnter p) (AScanRoom i p) (AScanRoom (S i) p) w ok w1) as H.
    destruct ok; simplify_eq; apply H; try done; by eexists.
  - cbn [exec_act] in E. destruct (MakeRoom w) as [r w1] eqn:Em. simplify_eq. by apply MakeRoom_effect.
  - cbn in E. destruct (w_players w !! p) as [pl|] eqn:Ep; simplify_eq; [|act_same].
    destruct (posts_current _ _ _ HP Ep) as [H1 H2]. destruct (m_currentLobby pl); act_same.
  - cbn in E. destruct (w_players w !! p) as [pl|] eqn:Ep; simplify_eq; [|act_same].
    destruct (posts_current _ _ _ HP Ep) as [H1 H2]. destruct (m_currentRoom pl); act_same.
  - cbn [exec_act] in E. destruct (GetOwnerSession p w); simplify_eq; act_same.
  - cbn [exec_act] in E. simplify_eq. act_same.
  - cbn [exec_act] in E. simplify_eq. unfold PlayerSystem_Add. case_match; act_same.
  - cbn [exec_act] in E. simplify_eq. unfold PlayerSystem_Remove. act_same.
  - cbn [exec_act] in E. destruct (decide (s ∈ w_connected w)); simplify_eq; [|act_same].
    unfold OnDisconnected. cbn. case_match; apply act_effect_same; try done;
      try (by intros []); repeat constructor.
  - cbn [exec_act] in E. simplify_eq. apply act_effect_same; try done.
  - cbn [exec_act] in E. case_decide; [destruct ok; cbn in E|]; simplify_eq; act_same.
  - cbn [exec_act SetPlayer] in E. simplify_eq. apply act_effect_same; try done; try (by intros []).
    + by repeat constructor.
    + cbn. intros HP'. apply Forall_app. split; [done|]. constructor; [|done]. by split.
Qed.

(** Events start threads that have posted nothing yet. *)
Lemma on_event_effect e w acts w' :
  on_event e w = (acts, w') ->
  w_threads w' = w_threads w /\ (forall q, get_box q w' = get_box q w) /\
  (forall q, zsum (posts q) acts = 0) /\ (Forall (act_ok w) acts) /\
  (Forall (player_ok w) (w_players w) -> Forall (player_ok w) (w_players w')).
Proof.
  intros E. destruct e as [s|s|s m|s m|s|s ok id name|s|id|r m]; cbn in E; try (injection E as <- <-).
  - unfold HandleReqRoomEnterPacket. destruct (GetPlayer s w); cbn; by repeat constructor.
  - unfold HandleReqRoomExitPacket. destruct (GetPlayer s w); cbn; by repeat constructor.
  - unfold HandleReqRoomChatPacket. destruct (GetPlayer s w); cbn; by repeat constructor.
  - unfold HandleReqLobbyChatPacket. destruct (GetPlayer s w); cbn; by repeat constructor.
  - unfold HandleReqRoomListPacket. destruct (GetPlayer s w); cbn; by repeat constructor.
  - unfold OnLoginResult in E. case_decide; simplify_eq; split_and!; try done; try (by intros []); by repeat constructor.
  - by repeat constructor.
  - unfold AdminKickPlayer. repeat case_match; by repeat constructor.
  - unfold AdminBroadcast, GetRoom. case_match; [by repeat constructor|].
    destruct (if 0 <=? i32 r then _ else _) as [b|] eqn:Eb; cbn; [|by repeat constructor].
    split_and!; try done.
    + intros q. cbn. case_decide; [subst|]; done.
    + constructor; [|done]. cbn. case_match; [|done]. by exists b.
Qed.

Lemma core_nonneg_parts w q b :
  game_inv w -> get_box q w = Some b ->
  0 <= b_avail b < 2147483647 /\ Z.of_nat (size (b_players b)) <= cap q - zsum (enters q) (b_jobs b).
Proof.
  intros Hi Hb. destruct (gi_slots _ Hi q b Hb) as [Ha Hc]. unfold core in Hc.
  assert (0 <= zsum (enters q) (b_jobs b)).
  { apply zsum_nonneg. intros [] _; destruct q; cbn; lia. }
  assert (0 <= zsum (posts q) (concat (w_threads w))).
  { apply zsum_nonneg. intros [] _; cbn; try lia. case_decide; [|lia]. destruct q, j; cbn; lia. }
  assert (cap q <= 50) by (destruct q; cbn; unfold MAX_LOBBY_PLAYERS, MAX_ROOM_PLAYER; lia). lia.
Qed.

(** No thread posts to a box that does not exist. *)
Lemma posts_none w q (l : list act) :
  get_box q w = None -> Forall (act_ok w) l -> zsum (posts q) l = 0.
Proof.
  intros Hn Hl. apply zsum_zero. intros x Hx. rewrite Forall_forall in Hl. specialize (Hl x Hx).
  destruct x; cbn; try done. case_decide; [subst|done]. cbn in Hl. destruct Hl. congruence.
Qed.

Lemma posts_nonneg q (l : list act) : 0 <= zsum (posts q) l.
Proof. apply zsum_nonneg. intros [] _; cbn; try done. case_decide; [|done]. destruct q, j; done. Qed.

Lemma threads_mono w w' (t : list (list act)) :
  (forall q, box_ok q w -> box_ok q w') -> Forall (Forall (act_ok w)) t -> Forall (Forall (act_ok w')) t.
Proof.
  intros H Ht. eapply Forall_impl; [exact Ht|]. intros l Hl. eapply Forall_impl; [exact Hl|].
  intros x. by apply act_ok_mono.
Qed.

Lemma players_mono w w' (l : list Player) :
  (forall q, box_ok q w -> box_ok q w') -> Forall (player_ok w) l -> Forall (player_ok w') l.
Proof. intros H Hl. eapply Forall_impl; [exact Hl|]. intros x. by apply player_ok_mono. Qed.

(** A session comes or goes: nothing the invariant speaks of changes. *)
Lemma sessions_inv w alive connected :
  game_inv w ->
  game_inv (mkWorld (w_players w) alive connected (w_login w) (w_sessPlayer w)
              (w_registry w) (w_lobbies w) (w_rooms w) (w_threads w) (w_out w)).
Proof.
  intros [H1 H2 H3]. split; cbn.
  - intros [] b Hb; cbn in *; [apply (H1 (QLobby i))|apply (H1 (QRoom i))]; done.
  - eapply threads_mono; [|done]. by intros [].
  - eapply players_mono; [|done]. by intros [].
Qed.

Lemma event_inv e w acts w' :
  game_inv w -> on_event e w = (acts, w') -> game_inv (set_threads (acts :: w_threads w') w').
Proof.
  intros Hi E.
  destruct (on_event_effect _ _ _ _ E) as (Ht & Hg & Hz & Ha & Hp). destruct Hi as [H1 H2 H3].
  assert (forall q, box_ok q w -> box_ok q (set_threads (acts :: w_threads w') w')) as Hok.
  { intros q. unfold box_ok. rewrite get_box_threads, Hg. done. }
  split.
  - intros q b Hb. rewrite get_box_threads, Hg in Hb. destruct (H1 q b Hb). cbn.
    rewrite zsum_app, Hz, Ht. done.
  - cbn. rewrite Ht. constructor.
    + eapply Forall_impl; [done|]. intros x. by apply act_ok_mono.
    + by eapply threads_mono.
  - cbn. eapply players_mono; [done|]. by apply Hp.
Qed.

Lemma act_inv w k a rest hint acts w' :
  game_inv w -> w_threads w !! k = Some (a :: rest) -> exec_act hint a w = (acts, w') ->
  game_inv (set_threads (<[k := acts ++ rest]> (w_threads w')) w').
Proof.
  intros Hi Hk E. assert (Hav : avail_ok w) by (intros q b Hb; by apply (gi_slots _ Hi q b)).
  assert (Hacts := gi_acts _ Hi). pose proof (Forall_lookup_1 _ _ _ _ Hacts Hk) as Hak.
  apply Forall_cons in Hak as [Hak Hrest].
  destruct (exec_act_effect hint a w acts w' Hav (gi_players _ Hi) Hak E) as [Ht Hok Hc Ha Hp].
  assert (forall q, box_ok q w -> box_ok q (set_threads (<[k:=acts ++ rest]> (w_threads w')) w')) as Hok'.
  { intros q H. unfold box_ok. rewrite get_box_threads. by apply Hok. }
  split.
  - intros q b' Hb'. rewrite get_box_threads in Hb'. cbn. rewrite Ht.
    destruct (Hc q b' Hb') as [Hpos Hcase]. split; [done|].
    rewrite (zsum_concat_insert _ _ k (a :: rest)) by done. cbn [zsum]. rewrite zsum_app.
    destruct Hcase as [(b & Hb & Heq)|[Hnone Heq]].
    + destruct (gi_slots _ Hi q b Hb). lia.
    + rewrite (posts_none w q) by (done || by apply Forall_concat).
      assert (zsum (posts q) (a :: rest) = 0) as Hz by (apply (posts_none w q); [done|by constructor]).
      cbn [zsum] in Hz. pose proof (posts_nonneg q [a]). pose proof (posts_nonneg q rest). cbn [zsum] in *. lia.
  - cbn. rewrite Ht. apply Forall_insert.
    + by eapply threads_mono.
    + apply Forall_app. split.
      * eapply Forall_impl; [done|]. intros x. apply act_ok_mono. intros q. by unfold box_ok; rewrite get_box_threads.
      * eapply Forall_impl; [done|]. intros x. by apply act_ok_mono.
  - cbn. eapply Forall_impl; [apply Hp, Hi|]. intros x. apply player_ok_mono.
    intros q. by unfold box_ok; rewrite get_box_threads.
Qed.

Lemma box_job_inv w q b j js :
  game_inv w -> get_box q w = Some b -> b_jobs b = j :: js ->
  game_inv (let b' := mkBox (b_players b) (b_avail b) js in run_job q b' j (set_box q b' w)).
Proof.
  intros Hi Hb Hj.
  destruct (core_nonneg_parts w q b Hi Hb) as [Ha _].
  cbv zeta. set (b0 := mkBox (b_players b) (b_avail b) js).
  assert (get_box q (set_box q b0 w) = Some b0) as Hb0 by (by rewrite get_set_box, decide_True, Hb by done).
  destruct (run_job_effect q b0 j (set_box q b0 w) Hb0 Ha) as (Ht & Hok & Hoth & (b' & Hb' & Hpos & Hcore) & Hp).
  rewrite threads_set_box in Ht. rewrite players_set_box in Hp.
  assert (core q b = core q b0 + enters q j) as Hcb by (unfold core, b0; rewrite Hj; cbn; lia).
  assert (forall q', box_ok q' w -> box_ok q' (run_job q b0 j (set_box q b0 w))) as Hok'.
  { intros q' H. by apply Hok, box_ok_set. }
  split.
  - intros q1 b1 Hb1. rewrite Ht. destruct (decide (q1 = q)) as [->|Hne].
    + rewrite Hb' in Hb1. simplify_eq. destruct (gi_slots _ Hi q b Hb). split; [done|lia].
    + rewrite Hoth, get_set_box, decide_False in Hb1 by done. by apply (gi_slots _ Hi).
  - rewrite Ht. eapply threads_mono; [done|]. apply Hi.
  - apply Hp. eapply Forall_impl; [apply Hi|]. intros x. apply player_ok_mono. intros q'. by rewrite box_ok_set.
Qed.

Lemma game_step_inv w w' : game_inv w -> game_step w w' -> game_inv w'.
Proof.
  intros Hi Hs. destruct Hs; [apply sessions_inv|eapply event_inv|eapply act_inv|eapply box_job_inv|apply sessions_inv];
    eassumption.
Qed.

Lemma game_reach_inv w : game_reach w -> game_inv w.
Proof.
  apply reach_invariant; [|intros; by eapply game_step_inv].
  intros s ->. split; [|constructor|constructor].
  intros [l|r] b Hb; cbn in Hb; [|by rewrite lookup_nil in Hb].
  apply (lookup_replicate 5) in Hb as [-> _]. done.
Qed.

(** ** An executable scheduler *)

Inductive choice :=
| CConnect (s : nat) | CEvent (e : game_event) | CAct (k : nat) (hint : option nat)
| CJob (q : place) | CDie (s : nat).

Definition exec_choice (c : choice) (w : world) : option world :=
  match c with
  | CConnect s =>
      if decide (s ∉ w_alive w) then
        Some (mkWorld (w_players w) ({[s]} ∪ w_alive w) ({[s]} ∪ w_connected w) (w_login w) (w_sessPlayer w)
                (w_registry w) (w_lobbies w) (w_rooms w) (w_threads w) (w_out w))
      else None
  | CEvent e => let '(acts, w') := on_event e w in Some (set_threads (acts :: w_threads w') w')
  | CAct k hint =>
      match w_threads w !! k with
      | Some (a :: rest) =>
          let '(acts, w') := exec_act hint a w in
          Some (set_threads (<[k := acts ++ rest]> (w_threads w')) w')
      | _ => None
      end
  | CJob q =>
      match get_box q w with
      | Some b =>
          match b_jobs b with
          | j :: js => let b' := mkBox (b_players b) (b_avail b) js in Some (run_job q b' j (set_box q b' w))
          | [] => None
          end
      | None => None
      end
  | CDie s =>
      if decide (s ∉ w_connected w) then
        Some (mkWorld (w_players w) (w_alive w ∖ {[s]}) (w_connected w) (w_login w) (w_sessPlayer w)
                (w_registry w) (w_lobbies w) (w_rooms w) (w_threads w) (w_out w))
      else None
  end.

Fixpoint run (cs : list choice) (w : world) : option world :=
  match cs with
  | [] => Some w
  | c :: cs' => w' ← exec_choice c w; run cs' w'
  end.

Lemma exec_choice_step c w w' : exec_choice c w = Some w' -> game_step w w'.
Proof.
  intros E. destruct c as [s|e|k hint|q|s]; cbn in E.
  - case_decide; simplify_eq. by apply g_connect.
  - destruct (on_event e w) as [acts w1] eqn:Ee. simplify_eq. by apply (g_event w e).
  - destruct (w_threads w !! k) as [[|a rest]|] eqn:Ek; try done.
    destruct (exec_act hint a w) as [acts w1] eqn:Ea. simplify_eq. by apply (g_act w k a rest hint).
  - destruct (get_box q w) as [b|] eqn:Eb; [|done]. destruct (b_jobs b) as [|j js] eqn:Ej; [done|]. simplify_eq.
    by apply g_job.
  - case_decide; simplify_eq. by apply g_die.
Qed.

Lemma run_reach cs w w' : game_reach w -> run cs w = Some w' -> game_reach w'.
Proof.
  revert w. induction cs as [|c cs IH]; intros w Hr E; cbn in E; [by simplify_eq|].
  destruct (exec_choice c w) as [w1|] eqn:E1; [|done]. apply (IH w1); [|done].
  eapply reach_step; [done|by eapply exec_choice_step|done].
Qed.

Lemma run_new_reach cs w : run cs world_new = Some w -> game_reach w.
Proof. apply run_reach. by apply reach_init. Qed.

(** ** Properties *)

(** C4: slots are conserved and capacities hold in every interleaving of
    logins, room changes, chats, kicks and disconnects: for every lobby (50)
    and room (8), the free slots, the players inside, the Enter jobs in the
    queue and the Enter jobs about to be posted add up to the capacity.  So a
    lobby's roster always fits ResLobbyEnter, and when a room's Enter job runs
    there is a place (its "room is full" branch is never taken). *)
Theorem capacity_conserved (w : world) (q : place) (b : box) :
  game_reach w -> get_box q w = Some b ->
  0 <= b_avail b /\
  b_avail b + Z.of_nat (size (b_players b)) + zsum (enters q) (b_jobs b) +
    zsum (posts q) (concat (w_threads w)) = cap q /\
  Z.of_nat (size (b_players b)) <= cap q /\
  (forall p js, b_jobs b = RoomEnter p :: js -> (exists r, q = QRoom r) ->
     Z.of_nat (size (b_players b)) < MAX_ROOM_PLAYER).
Proof.
  intros Hr Hb. apply game_reach_inv in Hr as Hi. destruct (gi_slots _ Hi q b Hb) as [Ha Hc].
  destruct (core_nonneg_parts w q b Hi Hb) as [_ Hs].
  assert (0 <= zsum (enters q) (b_jobs b)) as He by (apply zsum_nonneg; intros [] _; destruct q; cbn; lia).
  split_and!; [done|done|lia|].
  intros p js Hj [r ->]. rewrite Hj in *. cbn [zsum enters cap] in *.
  assert (0 <= zsum (enters (QRoom r)) js) by (apply zsum_nonneg; intros [] _; cbn; lia). lia.
Qed.

(** The best lobby among those seen so far. *)
Definition fullest (seen : list box) (best : option nat) : Prop :=
  match best with
  | Some i => exists b, seen !! i = Some b /\ 0 < b_avail b /\
      (forall j b', seen !! j = Some b' -> 0 < b_avail b' -> b_avail b <= b_avail b') /\
      (forall j b', (j < i)%nat -> seen !! j = Some b' -> 0 < b_avail b' -> b_avail b < b_avail b')
  | None => forall j b', seen !! j = Some b' -> b_avail b' = 0
  end.

Definition best_count (seen : list box) (best : option nat) : Z :=
  match best ≫= (seen !!.) with Some b => MAX_LOBBY_PLAYERS - b_avail b | None => -1 end.

Lemma AssignLobby_loop rest : forall seen best,
  Forall (fun b => 0 <= b_avail b <= MAX_LOBBY_PLAYERS) (seen ++ rest) ->
  fullest seen best ->
  fullest (seen ++ rest) (AssignLobby_best (length seen) rest best (best_count seen best)).
Proof.
  induction rest as [|b rest IH]; intros seen best HF Hb; [by rewrite app_nil_r|].
  cbn [AssignLobby_best]. assert (0 <= b_avail b <= MAX_LOBBY_PLAYERS) as Hrange.
  { rewrite Forall_forall in HF. apply HF. set_solver. }
  assert (Hlast : forall j b', (seen ++ [b]) !! j = Some b' ->
            seen !! j = Some b' \/ j = length seen /\ b' = b).
  { intros j b' [H|[H1 H2]]%lookup_app_Some; [by left|right].
    apply list_lookup_singleton_Some in H2 as [? <-]. split; [lia|done]. }
  replace (seen ++ b :: rest) with ((seen ++ [b]) ++ rest) in * by (by rewrite <- app_assoc).
  replace (S (length seen)) with (length (seen ++ [b])) by (rewrite length_app; cbn; lia).
  unfold MAX_LOBBY_PLAYERS in *.
  destruct (_ && _) eqn:Ec.
  - to_prop. rewrite Z.gtb_ltb in *. to_prop.
    assert ((seen ++ [b]) !! length seen = Some b) as Hlb by (by rewrite lookup_app_r, Nat.sub_diag by lia).
    assert (50 - b_avail b = best_count (seen ++ [b]) (Some (length seen))) as ->
      by (unfold best_count; cbn [mbind option_bind]; by rewrite Hlb).
    apply IH; [done|]. exists b. split_and!; [done|lia|..].
    + intros j b' [Hj|[_ ->]]%Hlast Hpos; [|lia]. destruct best as [i|]; cbn in Hb.
      * destruct Hb as (bb & Hbb & _ & Hmin & _). unfold best_count in *. cbn in *. rewrite Hbb in *.
        specialize (Hmin j b' Hj Hpos). unfold MAX_LOBBY_PLAYERS in *. lia.
      * specialize (Hb j b' Hj). lia.
    + intros j b' Hlt [Hj|[-> _]]%Hlast Hpos; [|lia]. destruct best as [i|]; cbn in Hb.
      * destruct Hb as (bb & Hbb & _ & Hmin & _). unfold best_count in *. cbn in *. rewrite Hbb in *.
        specialize (Hmin j b' Hj Hpos). unfold MAX_LOBBY_PLAYERS in *. lia.
      * specialize (Hb j b' Hj). lia.
  - assert (best_count seen best = best_count (seen ++ [b]) best) as ->.
    { unfold best_count. destruct best as [i|]; [|done]. cbn. destruct Hb as (bb & Hbb & _).
      rewrite Hbb. by rewrite (lookup_app_l_Some _ _ _ _ Hbb). }
    apply IH; [done|]. apply andb_false_iff in Ec. rewrite Z.gtb_ltb in Ec.
    destruct best as [i|]; cbn in Hb |- *.
    + destruct Hb as (bb & Hbb & Hpos & Hmin & Hfirst). exists bb.
      assert (Hbc : best_count (seen ++ [b]) (Some i) = 50 - b_avail bb).
      { unfold best_count. cbn. by rewrite (lookup_app_l_Some _ _ _ _ Hbb). }
      split_and!; [by apply lookup_app_l_Some|done|..].
      * intros j b' [Hj|[_ ->]]%Hlast Hp; [by apply (Hmin j)|].
        destruct Ec as [Ec|Ec]; to_prop; [lia|]. unfold best_count in *. cbn in *. rewrite Hbb in Ec. 
        unfold MAX_LOBBY_PLAYERS in *. lia.
      * intros j b' Hlt [Hj|[-> _]]%Hlast Hp; [by apply (Hfirst j)|]. apply lookup_lt_Some in Hbb. lia.
    + intros j b' [Hj|[_ ->]]%Hlast; [by apply (Hb j)|].
      destruct Ec as [Ec|Ec]; to_prop; [lia|]. unfold best_count in Ec. cbn in Ec. lia.
Qed.

(** the lobby AssignLobby prefers is the fullest one that still has a free
    slot, the first of several; it has none to prefer exactly when all are full. *)
Theorem AssignLobby_fullest (lobbies : list box) :
  Forall (fun b => 0 <= b_avail b <= MAX_LOBBY_PLAYERS) lobbies ->
  fullest lobbies (AssignLobby_best 0 lobbies None (-1)).
Proof.
  intros HF. apply (AssignLobby_loop lobbies [] None HF). intros j b Hj. by rewrite lookup_nil in Hj.
Qed.

Lemma AssignLobby_fullest_witness :
  fullest [mkBox ∅ 50 []; mkBox ∅ 0 []; mkBox ∅ 3 []; mkBox ∅ 3 []] (Some 2%nat).
Proof.
  apply (AssignLobby_fullest [mkBox ∅ 50 []; mkBox ∅ 0 []; mkBox ∅ 3 []; mkBox ∅ 3 []]).
  by repeat constructor.
Defined.

(** *** Notifications *)

Definition audience (ps : list nat) (w : world) : list nat := omap (fun p => GetOwnerSession p w) ps.

Lemma GetOwnerSession_send p s pk w : GetOwnerSession p (send s pk w) = GetOwnerSession p w.
Proof. done. Qed.

Lemma Broadcast_out pk ps w :
  w_out (Broadcast pk ps w) = w_out w ++ map (fun s => (s, pk)) (audience ps w).
Proof.
  revert w. induction ps as [|p ps IH]; intros w; cbn; [by rewrite app_nil_r|].
  rewrite IH. destruct (GetOwnerSession p w) as [s|] eqn:E; cbn; [|done].
  rewrite <- app_assoc. do 3 f_equal.
Qed.

Lemma elem_of_members b p : p ∈ members b <-> exists id, b_players b !! id = Some p.
Proof.
  unfold members. rewrite list_elem_of_fmap. split.
  - intros ([id o] & -> & H). exists id. rewrite merge_sort_Permutation in H. by apply elem_of_map_to_list in H.
  - intros [id H]. exists (id, p). split; [done|]. rewrite merge_sort_Permutation. by apply elem_of_map_to_list.
Qed.

(** leaving a room tells exactly the players who stay.  The two jobs
    LeaveRoom posts run in order, so when the notification goes out the leaver
    is already gone: every remaining member with a live session gets it, the
    leaver does not (unless it is in the map under another id). *)
Theorem leave_room_notifies_rest (w : world) (r p : nat) (b : box) (pk : packet) (js : list job) :
  get_box (QRoom r) w = Some b -> b_jobs b = RoomLeave p :: RoomBroadcast pk :: js ->
  b_players b !! player_id p w = Some p ->
  exists w', run [CJob (QRoom r); CJob (QRoom r)] w = Some w' /\
    w_out w' = w_out w ++ map (fun s => (s, pk))
      (audience (members (mkBox (delete (player_id p w) (b_players b)) 0 [])) w) /\
    (forall o, o ∈ members (mkBox (delete (player_id p w) (b_players b)) 0 []) ->
       exists id, id <> player_id p w /\ b_players b !! id = Some o).
Proof.
  intros Hb Hj Hp.
  set (b0 := mkBox (b_players b) (b_avail b) (RoomBroadcast pk :: js)).
  set (w0 := set_box (QRoom r) b0 w).
  set (b1 := mkBox (delete (player_id p w) (b_players b)) (ReleaseReservedSlot (b_avail b)) (RoomBroadcast pk :: js)).
  assert (player_id p w0 = player_id p w) as Hid by (unfold w0, player_id; by rewrite players_set_box).
  assert (exec_choice (CJob (QRoom r)) w = Some (set_box (QRoom r) b1 w0)) as E1.
  { cbn [exec_choice]. rewrite Hb, Hj. cbn [run_job]. fold b0 w0. unfold Room_Leave. rewrite Hid. cbn [b_players b0].
    by rewrite Hp. }
  assert (get_box (QRoom r) (set_box (QRoom r) b1 w0) = Some b1) as Hb1.
  { unfold w0. rewrite !get_set_box, !decide_True by done. by rewrite Hb. }
  cbn [run]. rewrite E1. cbn [mbind option_bind exec_choice]. rewrite Hb1. cbn [b_jobs b1 run_job mbind option_bind].
  eexists. split; [reflexivity|]. split.
  - rewrite Broadcast_out. f_equal.
  - intros o [id Ho]%elem_of_members. cbn in Ho. apply lookup_delete_Some in Ho as [? ?]. eauto.
Qed.

(** *** Scenarios *)

(** A thread runs [n] actions. *)
Definition acts (n : nat) : list choice := replicate n (CAct 0 None).

(** Session [s] connects, logs in as account [id], and enters lobby 0. *)
Definition sc_login (s : nat) (id : Z) : list choice :=
  [CConnect s; CEvent (EvLogin s true id [65])] ++ acts 7 ++ [CJob (QLobby 0)].

(** It leaves the lobby for the new room 0, respectively for the existing one. *)
Definition sc_first_room (s : nat) : list choice :=
  [CEvent (EvRoomEnter s)] ++ acts 6 ++ [CJob (QLobby 0); CJob (QRoom 0); CJob (QRoom 0)].
Definition sc_room (s : nat) : list choice :=
  [CEvent (EvRoomEnter s)] ++ acts 5 ++ [CJob (QLobby 0); CJob (QRoom 0); CJob (QRoom 0)].

Definition room_ids (r : nat) (w : world) : list Z :=
  from_option (fun b => map (fun p => player_id p w) (members b)) [] (w_rooms w !! r).
Definition lobby_ids (l : nat) (w : world) : list Z :=
  from_option (fun b => map (fun p => player_id p w) (members b)) [] (w_lobbies w !! l).

Definition final (cs : list choice) : world := default world_new (run cs world_new).

Lemma final_reach cs : game_reach (final cs).
Proof.
  unfold final. destruct (run cs world_new) as [w|] eqn:E; [by eapply run_new_reach|]. by apply reach_init.
Qed.

(** Two players in room 0, the second about to leave. *)
Definition sc_leaving : list choice :=
  sc_login 0 100 ++ sc_login 1 101 ++ sc_first_room 0 ++ sc_room 1 ++
  [CEvent (EvRoomExit 1)] ++ acts 3.

Lemma capacity_conserved_witness :
  exists b, get_box (QRoom 0) (final sc_leaving) = Some b /\ b_avail b = 6 /\
    b_avail b + Z.of_nat (size (b_players b)) + zsum (enters (QRoom 0)) (b_jobs b) +
      zsum (posts (QRoom 0)) (concat (w_threads (final sc_leaving))) = 8.
Proof.
  eexists. split; [vm_compute; reflexivity|]. split; [reflexivity|].
  apply (capacity_conserved (final sc_leaving) (QRoom 0)); [apply final_reach|]. vm_compute. reflexivity.
Defined.

Lemma leave_room_notifies_rest_witness :
  exists w', run [CJob (QRoom 0); CJob (QRoom 0)] (final sc_leaving) = Some w' /\
    w_out w' = w_out (final sc_leaving) ++ [(0%nat, NotiRoomExit 101 [65])].
Proof.
  destruct (leave_room_notifies_rest (final sc_leaving) 0 1
    (default Room_new (get_box (QRoom 0) (final sc_leaving))) (NotiRoomExit 101 [65]) [])
    as (w' & H1 & H2 & _); [vm_compute; reflexivity..|].
  exists w'. split; [exact H1|]. rewrite H2. vm_compute. reflexivity.
Defined.

(** a second room request is not refused.  When the first room is full, a
    member of it that asks again enters another room as well; leaving then only
    leaves the second, and the place in the first stays taken although the
    player is back in the lobby. *)
Theorem second_room_request_leaks_slot :
  let w := final (concat (imap (fun i _ => sc_login i (100 + Z.of_nat i)) (replicate 8 tt)) ++
                  sc_first_room 0 ++ concat (map sc_room (seq 1 7)) ++
                  [CEvent (EvRoomEnter 3)] ++ acts 6 ++ [CJob (QRoom 1); CJob (QRoom 1)] ++
                  [CEvent (EvRoomExit 3)] ++ acts 7 ++ [CJob (QRoom 1); CJob (QRoom 1); CJob (QLobby 0)]) in
  game_reach w /\ room_ids 0 w = [100; 101; 102; 103; 104; 105; 106; 107] /\ room_ids 1 w = [] /\
  lobby_ids 0 w = [103] /\ concat (w_threads w) = [].
Proof. intros w. split; [apply final_reach|]. vm_compute. done. Qed.

(** A session that disconnects between OnLoginResult and the Enter job it
    posted leaves nothing to undo, but while a shared_ptr still owns the session
    object the job goes on to add the player: it stays in the lobby with no
    session connected and is not in the player registry. *)
Theorem disconnect_before_enter_leaves_ghost :
  let w := final ([CConnect 0; CEvent (EvLogin 0 true 100 [65])] ++ acts 7 ++
                  [CEvent (EvDisconnect 0)] ++ acts 7 ++ [CJob (QLobby 0); CDie 0]) in
  game_reach w /\ lobby_ids 0 w = [100] /\ w_connected w = ∅ /\ w_alive w = ∅ /\ w_registry w = ∅ /\
  concat (w_threads w) = [] /\ b_jobs <$> w_lobbies w = replicate 5 [].
Proof. intros w. split; [apply final_reach|]. vm_compute. done. Qed.

(** Two sessions logged in with one account share one registry entry: when
    the second disconnects, the first, still connected, can no longer be found
    and AdminKickPlayer reports that the player does not exist. *)
Theorem duplicate_login_unlists :
  let w := final (sc_login 0 100 ++ sc_login 1 100 ++ [CEvent (EvDisconnect 1)] ++ acts 7) in
  game_reach w /\ bool_decide (0%nat ∈ w_connected w) = true /\ PlayerSystem_Find 100 w = None /\
  AdminKickPlayer 100 w = (false, []).
Proof. intros w. split; [apply final_reach|]. vm_compute. done. Qed.

(** A session that disconnects between the check of OnLoginResult and its
    SetPlayer is logged in all the same: OnDisconnected finds no player to
    remove, and the registry keeps an entry for a session that is gone. *)
Theorem login_disconnect_race_leaks_player :
  let w := final ([CConnect 0; CEvent (EvLogin 0 true 100 [65])] ++ acts 1 ++
                  [CEvent (EvDisconnect 0)] ++ acts 2 ++ replicate 6 (CAct 1 None) ++
                  [CDie 0; CJob (QLobby 0)]) in
  game_reach w /\ PlayerSystem_Find 100 w = Some 0%nat /\ w_connected w = ∅ /\ w_alive w = ∅ /\
  lobby_ids 0 w = [] /\ concat (w_threads w) = [] /\ b_jobs <$> w_lobbies w = replicate 5 [].
Proof. intros w. split; [apply final_reach|]. vm_compute. done. Qed.
