(* ===== verification/Admin.v ===== *)
(** * The administration service

    src/DhNet_Server/DhNet_Server/AdminGrpcServer.h/.cpp and AdminController.cpp:
    the dispatch of a command, the six calls of the gRPC service with their status
    codes, and GrpcHost.

    A gRPC thread runs a call; the command's lambda goes through
    ThreadManager::PushGlobalQueue (JobQueue.v).  The comments in AdminGrpcServer.h
    and ThreadManager.h say that it then runs on a logic thread; called outside a
    job, as here, it runs at once on the calling thread.  The effect of a command on the
    game is in Game.v: it runs as a thread's list of actions.  gRPC itself is a
    parameter: whether the server could be built. *)

From S2P Require Import Prelude JobQueue Bytes Packets Slots Game Setting.
#[local] Open Scope Z_scope.

(** ** Dispatch with a timeout *)

(** How a lambda ends: its value, or an exception, which the job turns into false. *)
Inductive fn_end := Returns (ok : bool) | Throws.

(** The calling thread: its LCurrentJobQueue, the job queues, the clock; and the
    world in which a worker ran the job before the timeout, if one did. *)
Record caller := mkCaller {
  c_current : option nat;
  c_jobs : jworld (J := unit);
  c_now : Z;
  c_end : Z;
  c_later : option world;
}.

Section dispatch.
Context {R : Type}.

(** The job: [try { prom->set_value(fn()) } catch (...) { prom->set_value(false) }];
    [R] is what the lambda leaves in its shared result. *)
Definition dispatched (fn : world -> fn_end * R * world) (w : world) : bool * R * world :=
  let '(e, r, w) := fn w in (match e with Returns ok => ok | Throws => false end, r, w).

(** The value, the error text, the result, the world; [late] when the call has
    given up on a job that is still queued. *)
Record dispatch := mkDispatch {
  d_ok : bool;
  d_err : list Z;
  d_result : option R;
  d_world : world;
  d_late : bool;
}.

Definition DispatchToLogicThreadWithTimeout (fn : world -> fn_end * R * world) (c : caller) (err : list Z)
    (w : world) : dispatch :=
  let q := length (jw_queues (c_jobs c)) in
  let jobs := PushGlobalQueue (c_jobs c) (c_current c) tt (c_now c) (c_end c) in
  let ran := match jw_queues jobs !! q with Some st => negb (length (q_started st) =? 0)%nat | None => false end in
  match (if ran then Some w else c_later c) with
  | Some w => let '(ok, r, w) := dispatched fn w in mkDispatch ok err (Some r) w false
  | None => mkDispatch false (text "Logic thread dispatch timeout") None w true
  end.

(** A thread outside any job, as gRPC's are: the job has run when PushGlobalQueue
    returns. *)
Lemma dispatch_outside fn c err w :
  c_current c = None ->
  DispatchToLogicThreadWithTimeout fn c err w =
    let '(ok, r, w') := dispatched fn w in mkDispatch ok err (Some r) w' false.
Proof.
  intros Hc. unfold DispatchToLogicThreadWithTimeout. rewrite Hc.
  rewrite (proj1 (PushGlobalQueue_runs_inline (c_jobs c) tt (c_now c) (c_end c))). cbn.
  by rewrite list_lookup_middle.
Qed.

(** A thread inside a job waits for others. *)
Lemma dispatch_inside fn c err w cur :
  c_current c = Some cur -> c_later c = None ->
  DispatchToLogicThreadWithTimeout fn c err w =
    mkDispatch false (text "Logic thread dispatch timeout") None w true.
Proof.
  intros Hc Hl. unfold DispatchToLogicThreadWithTimeout. rewrite Hc, Hl.
  rewrite (proj2 (PushGlobalQueue_runs_inline (c_jobs c) tt (c_now c) (c_end c)) cur). cbn.
  by rewrite list_lookup_middle.
Qed.
End dispatch.
Arguments dispatch : clear implicits.

(** ** The commands *)

(** A thread of the game starts on [acts]. *)
Definition start (acts : list act) (w : world) : world := set_threads (acts :: w_threads w) w.

Definition AdminHealthCheck (resp : option (list Z)) : bool * option (list Z) :=
  match resp with None => (false, None) | Some _ => (true, Some (text "OK")) end.

(** The lambdas read the game in one go: the copies of the lists and the counts
    are of one moment.  (gRPC's threads have no id, so that a writer can slip in
    between the two accesses of their ReadLock: Lock.v.  Such a race has no meaning
    here.) *)
Definition list_rooms_fn (w : world) : fn_end * list (Z * list Z * Z * Z) * world :=
  (Returns true,
   map (fun '(id, n, cap) => (id, text "room-" ++ to_string id, n, cap)) (AdminListRooms w), w).

Definition broadcast_fn (roomId : Z) (message : list Z) (w : world) : fn_end * (bool * list Z) * world :=
  if (length message =? 0)%nat then (Returns true, (false, text "Message is empty"), w)
  else
    let '(found, acts) := AdminBroadcast roomId message w in
    if found : bool then (Returns true, (true, text "OK"), start acts w)
    else (Returns true, (false, text "Room not available"), w).

Definition list_players_fn (w : world) : fn_end * list (Z * list Z * Z * Z) * world :=
  (Returns true, AdminListPlayers w, w).

Definition kick_fn (playerId : Z) (w : world) : fn_end * (bool * list Z) * world :=
  let '(found, acts) := AdminKickPlayer playerId w in
  if found : bool then (Returns true, (true, text "OK"), start acts w)
  else (Returns true, (false, text "Player not found"), w).

Definition list_lobbies_fn (w : world) : fn_end * list (Z * Z * Z) * world :=
  (Returns true, AdminListLobbies w, w).

(** What every command does with its lambda: dispatch it and, unless that failed,
    copy the result into the response. *)
Definition command {R} (fn : world -> fn_end * R * world) (c : caller) (empty : R) (w : world)
  : bool * R * list Z * world :=
  let d := DispatchToLogicThreadWithTimeout fn c [] w in
  if negb (d_ok d) then (false, empty, d_err d, d_world d)
  else (true, default empty (d_result d), d_err d, d_world d).

(** ** AdminServiceImpl *)

Inductive Status := StatusOK | DEADLINE_EXCEEDED (message : list Z) | NOT_FOUND (message : list Z).

Definition HealthCheck (resp : option (list Z)) : Status * option (list Z) :=
  (StatusOK, snd (AdminHealthCheck resp)).

Definition list_call {R} (fn : world -> fn_end * list R * world) (c : caller) (w : world)
  : Status * list R * world :=
  let '(ok, r, err, w) := command fn c [] w in
  if negb ok then (DEADLINE_EXCEEDED err, [], w) else (StatusOK, r, w).

Definition ListRooms := list_call list_rooms_fn.
Definition ListPlayers := list_call list_players_fn.
Definition ListLobbies := list_call list_lobbies_fn.

Definition Broadcast_call (roomId : Z) (message : list Z) (c : caller) (w : world)
  : Status * (bool * list Z) * world :=
  let '(ok, r, err, w) := command (broadcast_fn roomId message) c (false, []) w in
  if negb ok then (DEADLINE_EXCEEDED err, (false, err), w) else (StatusOK, r, w).

Definition KickPlayer (id : Z) (c : caller) (w : world) : Status * (bool * list Z) * world :=
  let '(ok, r, err, w) := command (kick_fn id) c (false, []) w in
  if negb ok then (DEADLINE_EXCEEDED err, (false, err), w)
  else if negb (fst r) then (NOT_FOUND (snd r), r, w) else (StatusOK, r, w).

(** ** GrpcHost *)

(** [g_server], [g_thread]: m_server is set, m_thread is joinable. *)
Record GrpcHost := mkGrpcHost { m_running : bool; g_server : bool; g_thread : bool }.

Definition GrpcHost_new : GrpcHost := mkGrpcHost false false false.

(** [built]: whether BuildAndStart gave a server. Assigning a std::thread over a
    joinable one ends the process. *)
Definition GrpcHost_Start (built : bool) (g : GrpcHost) : outcome (bool * GrpcHost) :=
  if m_running g then Ok (false, g)
  else if negb built then Ok (false, mkGrpcHost false false (g_thread g))
  else if g_thread g then Crash "std::terminate: joinable thread assigned"
  else Ok (true, mkGrpcHost true true true).

Definition GrpcHost_Stop (g : GrpcHost) : GrpcHost :=
  if negb (m_running g) then g else mkGrpcHost false false false.

(** The destructor of the static object, at exit. *)
Definition GrpcHost_exit (g : GrpcHost) : outcome unit :=
  if g_thread g then Crash "std::terminate: joinable thread destroyed" else Ok tt.

Inductive grpc_call := GStart (built : bool) | GStop.

Fixpoint grpc_run (cs : list grpc_call) (g : GrpcHost) : outcome GrpcHost :=
  match cs with
  | [] => Ok g
  | GStart built :: cs => r ← GrpcHost_Start built g; grpc_run cs (snd r)
  | GStop :: cs => grpc_run cs (GrpcHost_Stop g)
  end.

(** ** Properties *)

Lemma list_call_outside {R} (fn : world -> fn_end * list R * world) c w rows :
  c_current c = None -> fn w = (Returns true, rows, w) -> list_call fn c w = (StatusOK, rows, w).
Proof. intros Hc Hf. unfold list_call, command. rewrite dispatch_outside by done. unfold dispatched. by rewrite Hf. Qed.

(** What the lists show of rooms and lobbies is in range. *)
Lemma room_rows_in_range w :
  game_reach w ->
  Forall (fun '(_, n, cap) => 0 <= n <= cap) (AdminListRooms w ++ AdminListLobbies w).
Proof.
  intros Hr. apply game_reach_inv in Hr as Hi.
  assert (forall q b, get_box q w = Some b -> 0 <= cap q - b_avail b <= cap q) as Hb.
  { intros q b E. destruct (gi_slots _ Hi q b E) as [Ha Hc]. unfold core in Hc.
    assert (0 <= zsum (enters q) (b_jobs b)) by (apply zsum_nonneg; intros [] _; destruct q; cbn; lia).
    assert (0 <= zsum (posts q) (concat (w_threads w))).
    { apply zsum_nonneg. intros [] _; cbn; try lia. case_decide; [|lia]. destruct q, j; cbn; lia. }
    lia. }
  apply Forall_app. split; apply Forall_lookup; intros i [[id n] k]; unfold AdminListRooms, AdminListLobbies;
    rewrite list_lookup_imap; intros (b & E & H)%fmap_Some; simplify_eq.
  - apply (Hb (QRoom i) b E).
  - apply (Hb (QLobby i) b E).
Qed.

(** *** The registry of players *)

(** The ids of the Player objects, in the order they were made. *)
Definition ids (w : world) : list Z := m_playerId <$> w_players w.

(** An entry of the registry is a Player object with that id, and so is what a
    thread is about to add. *)
Definition adds_player (w : world) (a : act) : Prop :=
  match a with AAddPlayer p => is_Some (ids w !! p) | _ => True end.

Record registry_inv (w : world) : Prop := mkRegistryInv {
  ri_entry : forall id p, w_registry w !! id = Some p -> ids w !! p = Some id;
  ri_adds : Forall (Forall (adds_player w)) (w_threads w);
}.

Lemma ids_set_player p pl pl' w :
  w_players w !! p = Some pl -> m_playerId pl' = m_playerId pl -> ids (set_player p pl' w) = ids w.
Proof.
  intros Hp He. unfold ids. cbn. rewrite list_fmap_insert, He.
  apply list_insert_id. by rewrite list_lookup_fmap, Hp.
Qed.

Lemma ids_player_id p w id : ids w !! p = Some id -> player_id p w = id.
Proof. unfold ids, player_id. rewrite list_lookup_fmap. by intros (pl & -> & ->)%fmap_Some. Qed.

(** The lists of the two boxes aside: what a job, or setting a player's place,
    leaves as it was. *)
Definition same_registry (w w' : world) : Prop :=
  ids w' = ids w /\ w_registry w' = w_registry w /\ w_threads w' = w_threads w.

#[local] Instance same_registry_preorder : PreOrder same_registry.
Proof. split; [done|]. intros w1 w2 w3 (H1 & H2 & H3) (H4 & H5 & H6). split_and!; congruence. Qed.

Lemma same_registry_box q b w : same_registry w (set_box q b w).
Proof. by destruct q. Qed.

Lemma same_registry_Broadcast pk ps w : same_registry w (Broadcast pk ps w).
Proof.
  revert w. induction ps as [|p ps IH]; intros w; cbn; [done|].
  etransitivity; [|apply IH]. by case_match.
Qed.

Lemma same_registry_place p w :
  (forall l, same_registry w (SetCurrentLobby p l w)) /\ (forall r, same_registry w (SetCurrentRoom p r w)).
Proof.
  split; intros ?; unfold SetCurrentLobby, SetCurrentRoom; case_match; try done;
    split_and!; try done; by eapply ids_set_player.
Qed.

Lemma same_registry_EnterRoom p w : same_registry w (Player_EnterRoom p w).
Proof. unfold Player_EnterRoom. repeat case_match; try done; apply same_registry_box. Qed.

Lemma run_job_registry q b j w : same_registry w (run_job q b j w).
Proof.
  destruct (same_registry_place (match j with LobbyEnter p | RoomEnter p => p | _ => 0%nat end) w) as [Hl Hm].
  destruct q as [i|i], j as [p|p|p m|p|p|pk]; cbn; try done; try apply same_registry_Broadcast.
  - unfold Lobby_Enter. repeat case_match; try apply same_registry_box.
    + etransitivity; [apply Hl|]. etransitivity; [apply same_registry_box|].
      etransitivity; [apply same_registry_Broadcast|]. done.
    + etransitivity; [apply Hl|apply same_registry_box].
  - unfold Lobby_Exit. case_match; [|done]. etransitivity; [apply same_registry_box|apply same_registry_Broadcast].
  - unfold Room_Enter. repeat case_match; try apply same_registry_box.
    + etransitivity; [apply Hm|]. etransitivity; [apply same_registry_box|apply same_registry_EnterRoom].
    + etransitivity; [apply Hm|apply same_registry_box].
  - unfold Room_Leave. case_match; [|done]. apply same_registry_box.
Qed.

(** What an action does to it: nothing but for the three that touch it. *)
Definition act_registry (a : act) (acts : list act) (w w' : world) : Prop :=
  w_threads w' = w_threads w /\ (exists new, ids w' = ids w ++ new) /\ Forall (adds_player w') acts /\
  (forall id p, w_registry w' !! id = Some p ->
    w_registry w !! id = Some p \/ (a = AAddPlayer p /\ id = player_id p w)).

Lemma act_registry_same a acts w w' :
  same_registry w w' -> Forall (adds_player w') acts -> act_registry a acts w w'.
Proof.
  intros (H1 & H2 & H3) Ha. split_and!; [done|exists []; by rewrite app_nil_r|done|].
  intros id p. rewrite H2. by left.
Qed.

Lemma reserve_registry q w ok w' : reserve q w = (ok, w') -> same_registry w w'.
Proof.
  unfold reserve. destruct (get_box q w); [|intros; by simplify_eq].
  destruct (TryReserveSlot _). intros; simplify_eq. apply same_registry_box.
Qed.

Lemma exec_act_registry hint a w acts w' : exec_act hint a w = (acts, w') -> act_registry a acts w w'.
Proof.
  intros E.
  destruct a as [q j|p|p|p|p|p|i p|i p|p|p m|p m|p|s pk|p|p|s|s|s ok id name|s id name]; cbn [exec_act] in E.
  all: try (repeat case_match; simplify_eq;
    try match goal with H : reserve _ _ = _ |- _ => apply reserve_registry in H end;
    (apply act_registry_same; [done || apply same_registry_box|by repeat constructor])).
  - destruct (w_players w !! p) as [pl|] eqn:Ep; simplify_eq; apply act_registry_same; try done.
    split_and!; try done. by eapply ids_set_player.
  - destruct (w_players w !! p) as [pl|] eqn:Ep; simplify_eq; apply act_registry_same; try done.
    split_and!; try done. by eapply ids_set_player.
  - cbn in E. simplify_eq. by apply act_registry_same; [|repeat constructor].
  - simplify_eq. unfold PlayerSystem_Add. case_match; [by apply act_registry_same|].
    split_and!; [done|exists []; by rewrite app_nil_r|done|]. intros id p'. cbn.
    rewrite lookup_insert. case_decide; [|by left]. intros; simplify_eq. by right.
  - simplify_eq. split_and!; [done|exists []; by rewrite app_nil_r|done|].
    intros id p'. cbn. rewrite lookup_delete. case_decide; [done|]. by left.
  - destruct (decide (s ∈ w_connected w)); simplify_eq; apply act_registry_same; try done.
    unfold OnDisconnected. case_match; by repeat constructor.
  - cbn [SetPlayer] in E. simplify_eq. split_and!; [done|unfold ids; cbn; rewrite fmap_app; by eexists| |by left].
    repeat constructor. cbn. unfold ids. cbn. rewrite fmap_app, lookup_app_r by (by rewrite length_fmap).
    rewrite length_fmap, Nat.sub_diag. by eexists.
Qed.

Lemma adds_mono w w' new a : ids w' = ids w ++ new -> adds_player w a -> adds_player w' a.
Proof. intros H. destruct a; cbn; try done. intros [x Hx]. exists x. rewrite H. by apply lookup_app_l_Some. Qed.

Lemma adds_threads_mono w w' new (t : list (list act)) :
  ids w' = ids w ++ new -> Forall (Forall (adds_player w)) t -> Forall (Forall (adds_player w')) t.
Proof. intros H Ht. eapply Forall_impl; [exact Ht|]. intros l Hl. eapply Forall_impl; [exact Hl|]. intros a. by eapply adds_mono. Qed.

(** An event adds nobody by itself. *)
Lemma on_event_registry e w acts w' :
  on_event e w = (acts, w') -> same_registry w w' /\ Forall (adds_player w') acts.
Proof.
  intros E. destruct e; cbn in E; try (injection E as <- <-); try (split; [done|]).
  1-5: unfold HandleReqRoomEnterPacket, HandleReqRoomExitPacket, HandleReqRoomChatPacket, HandleReqLobbyChatPacket,
    HandleReqRoomListPacket; destruct (GetPlayer s w); by repeat constructor.
  - unfold OnLoginResult in E. case_decide; simplify_eq; by repeat constructor.
  - by repeat constructor.
  - unfold AdminKickPlayer. repeat case_match; by repeat constructor.
  - unfold AdminBroadcast. repeat case_match; by repeat constructor.
Qed.

Lemma registry_inv_step w w' : registry_inv w -> game_step w w' -> registry_inv w'.
Proof.
  intros [H1 H2] Hs. destruct Hs as [w s Hn|w e acts w' E|w k a rest hint acts w' Ek E|w q b j js Eb Ej|w s Hn];
    [by split| | | |by split].
  - apply on_event_registry in E as [(E1 & E2 & E3) Ha]. split; cbn.
    + intros id p. rewrite E2. unfold ids in *. cbn. rewrite E1. apply H1.
    + constructor; [exact Ha|]. rewrite E3. apply (adds_threads_mono w w' []); [by rewrite app_nil_r|done].
  - apply exec_act_registry in E as (E1 & [new E2] & Ha & E3). split; cbn.
    + intros id p [H|[-> ->]]%E3; unfold ids in *; cbn; rewrite E2; apply lookup_app_l_Some; [by apply H1|].
      apply (Forall_lookup_1 _ _ _ _ H2), Forall_cons_1 in Ek as [[id Hid] _].
      by rewrite (ids_player_id _ _ _ Hid).
    + apply Forall_insert; [rewrite E1; by eapply adds_threads_mono|]. apply Forall_app. split; [exact Ha|].
      apply (Forall_lookup_1 _ _ _ _ H2), Forall_cons_1 in Ek as [_ Hr].
      eapply Forall_impl; [exact Hr|]. intros x. by eapply adds_mono.
  - cbn zeta.
    set (b' := mkBox (b_players b) (b_avail b) js).
    destruct (transitivity (same_registry_box q b' w) (run_job_registry q b' j (set_box q b' w))) as (E1 & E2 & E3).
    split; [intros id p; rewrite E1, E2; apply H1|]. rewrite E3.
    apply (adds_threads_mono w _ []); [by rewrite app_nil_r|done].
Qed.

Lemma game_reach_registry w : game_reach w -> registry_inv w.
Proof.
  apply reach_invariant; [|intros; by eapply registry_inv_step].
  intros ? ->. split; [|constructor]. intros id p. cbn. by rewrite lookup_empty.
Qed.

(** *** What the calls answer *)

(** Those in a lobby or room and those on their way in: its players, its queued
    Enter jobs, the Enter jobs some thread is about to post. *)
Definition occupants (q : place) (w : world) : Z :=
  from_option (fun b => Z.of_nat (size (b_players b)) + zsum (enters q) (b_jobs b)) 0 (get_box q w) +
  zsum (posts q) (concat (w_threads w)).

Lemma occupants_taken w q b :
  game_reach w -> get_box q w = Some b -> cap q - b_avail b = occupants q w /\ 0 <= occupants q w <= cap q.
Proof.
  intros Hr Hb. apply game_reach_inv in Hr as Hi. destruct (gi_slots _ Hi q b Hb) as [Ha Hc].
  unfold occupants, core in *. rewrite Hb. cbn.
  assert (0 <= zsum (enters q) (b_jobs b)) by (apply zsum_nonneg; intros [] _; destruct q; cbn; lia).
  pose proof (posts_nonneg q (concat (w_threads w))). lia.
Qed.

(** The number of a lobby or room, -1 for none. *)
Definition place_index (o : option nat) : Z := from_option Z.of_nat (-1) o.

(** The row of the list of players for a Player object. *)
Definition player_row (pl : Player) : Z * list Z * Z * Z :=
  (m_playerId pl, m_name pl, place_index (m_currentLobby pl), place_index (m_currentRoom pl)).

Lemma registered_player w id p :
  registry_inv w -> w_registry w !! id = Some p -> exists pl, w_players w !! p = Some pl /\ m_playerId pl = id.
Proof.
  intros Hi H%(ri_entry _ Hi). unfold ids in H. rewrite list_lookup_fmap in H.
  apply fmap_Some in H as (pl & ? & ?). by exists pl.
Qed.

Lemma player_rows w row :
  registry_inv w ->
  row ∈ AdminListPlayers w <->
    exists id p pl, w_registry w !! id = Some p /\ w_players w !! p = Some pl /\ row = player_row pl.
Proof.
  intros Hi. unfold AdminListPlayers, GetPlayers.
  change (row ∈ (fun p => (player_id p w, player_name p w,
         from_option (fun pl => from_option Z.of_nat (-1) (m_currentLobby pl)) (-1) (w_players w !! p),
         from_option (fun pl => from_option Z.of_nat (-1) (m_currentRoom pl)) (-1) (w_players w !! p))) <$>
       (snd <$> map_to_list (w_registry w)) <->
    exists id p pl, w_registry w !! id = Some p /\ w_players w !! p = Some pl /\ row = player_row pl).
  rewrite list_elem_of_fmap. setoid_rewrite list_elem_of_fmap. split.
  - intros (p & -> & ([id p'] & -> & H%elem_of_map_to_list)). cbn in *.
    destruct (registered_player w id p' Hi H) as (pl & Hp & _). exists id, p', pl. split_and!; [done..|].
    unfold player_id, player_name. by rewrite Hp.
  - intros (id & p & pl & H & Hp & ->). exists p. split; [unfold player_id, player_name; by rewrite Hp|].
    exists (id, p). split; [done|]. by apply elem_of_map_to_list.
Qed.

(** The ids the list shows are the keys of the registry. *)
Lemma player_row_ids w :
  registry_inv w -> (fun row => row.1.1.1) <$> AdminListPlayers w = (map_to_list (w_registry w)).*1.
Proof.
  intros Hi. unfold AdminListPlayers, GetPlayers.
  change ((fun row : Z * list Z * Z * Z => row.1.1.1) <$> ((fun p => (player_id p w, player_name p w,
         from_option (fun pl => from_option Z.of_nat (-1) (m_currentLobby pl)) (-1) (w_players w !! p),
         from_option (fun pl => from_option Z.of_nat (-1) (m_currentRoom pl)) (-1) (w_players w !! p))) <$>
       (snd <$> map_to_list (w_registry w))) = (map_to_list (w_registry w)).*1).
  rewrite <- !list_fmap_compose. apply list_fmap_ext. intros i [id p] H%list_elem_of_lookup_2%elem_of_map_to_list.
  cbn. apply (ids_player_id p w id). by apply (ri_entry _ Hi).
Qed.

(** C38: a call of the administration service from a gRPC thread never times out:
    the command runs on that thread, and status and answer say what the game is.
    A kick is NOT_FOUND exactly when no player of that id is registered and else
    starts the disconnect of the player's session, if it is still there; a
    broadcast is refused in its answer exactly for an empty message or a room
    that does not exist (the number taken as int32) and else posts the chat line
    of ADMIN to that room; the rooms and the lobbies are listed each with its
    number, the players in it and on their way in, and its capacity; the players
    are the registered ones, each once, with name, lobby and room. *)
Theorem admin_calls_answer (c : caller) (w : world) (id roomId : Z) (message : list Z) :
  c_current c = None -> game_reach w ->
  KickPlayer id c w =
    (match p ← w_registry w !! id; w_players w !! p with
     | None => (NOT_FOUND (text "Player not found"), (false, text "Player not found"), w)
     | Some pl => (StatusOK, (true, text "OK"),
                   start (if decide (m_ownerSession pl ∈ w_alive w) then [ADisconnect (m_ownerSession pl)] else []) w)
     end) /\
  Broadcast_call roomId message c w =
    (if decide (message = []) then (StatusOK, (false, text "Message is empty"), w)
     else if decide (0 <= i32 roomId < Z.of_nat (length (w_rooms w)))
     then (StatusOK, (true, text "OK"),
           start [APost (QRoom (Z.to_nat (i32 roomId))) (RoomBroadcast (NotiRoomChat 0 (text "ADMIN") message))] w)
     else (StatusOK, (false, text "Room not available"), w)) /\
  (exists rooms, ListRooms c w = (StatusOK, rooms, w) /\ length rooms = length (w_rooms w) /\
     forall i row, rooms !! i = Some row ->
       row = (Z.of_nat i, text "room-" ++ to_string (Z.of_nat i), occupants (QRoom i) w, 8) /\
       0 <= occupants (QRoom i) w <= 8) /\
  (exists lobbies, ListLobbies c w = (StatusOK, lobbies, w) /\ length lobbies = length (w_lobbies w) /\
     forall i row, lobbies !! i = Some row ->
       row = (Z.of_nat i, occupants (QLobby i) w, 50) /\ 0 <= occupants (QLobby i) w <= 50) /\
  (exists players, ListPlayers c w = (StatusOK, players, w) /\ NoDup ((fun row => row.1.1.1) <$> players) /\
     forall row, row ∈ players <->
       exists id p pl, w_registry w !! id = Some p /\ w_players w !! p = Some pl /\ row = player_row pl).
Proof.
  intros Hc Hr. apply game_reach_registry in Hr as Hi. split_and!.
  - unfold KickPlayer, command. rewrite dispatch_outside by done. cbn.
    unfold dispatched, kick_fn, AdminKickPlayer, PlayerSystem_Find, GetOwnerSession.
    destruct (w_registry w !! id) as [p|] eqn:Ep; [|done]. cbn.
    destruct (registered_player w id p Hi Ep) as (pl & -> & _). by case_decide.
  - unfold Broadcast_call, command. rewrite dispatch_outside by done. cbn.
    unfold dispatched, broadcast_fn, AdminBroadcast, GetRoom. destruct message as [|x m]; [done|]. cbn [length Nat.eqb].
    rewrite decide_False by done.
    destruct (Z.leb_spec 0 (i32 roomId)); [|rewrite decide_False by lia; done].
    destruct (w_rooms w !! Z.to_nat (i32 roomId)) as [b|] eqn:Eb.
    + apply lookup_lt_Some in Eb. by rewrite decide_True by lia.
    + apply lookup_ge_None in Eb. by rewrite decide_False by lia.
  - eexists. split; [by apply list_call_outside|]. unfold AdminListRooms, GetRooms.
    rewrite length_map, length_imap. split; [done|]. intros i row.
    rewrite list_lookup_fmap, list_lookup_imap. destruct (w_rooms w !! i) as [b|] eqn:Eb; [|done]. cbn.
    intros ?; simplify_eq. by destruct (occupants_taken w (QRoom i) b Hr Eb) as [<- ?].
  - eexists. split; [by apply list_call_outside|]. unfold AdminListLobbies.
    rewrite length_imap. split; [done|]. intros i row.
    rewrite list_lookup_imap. destruct (w_lobbies w !! i) as [b|] eqn:Eb; [|done]. cbn.
    intros ?; simplify_eq. by destruct (occupants_taken w (QLobby i) b Hr Eb) as [<- ?].
  - eexists. split; [by apply list_call_outside|]. split; [|intros row; by apply player_rows].
    rewrite player_row_ids by done. apply NoDup_fst_map_to_list.
Qed.

(** what the administration lists is within bounds in every reachable state
    of the game: rooms and lobbies are numbered from 0 without gaps, and each
    shows between 0 and its capacity of players. *)
Theorem admin_lists_in_range (w : world) :
  game_reach w ->
  map (fun e => fst (fst e)) (AdminListRooms w) = map Z.of_nat (seq 0 (length (w_rooms w))) /\
  map (fun e => fst (fst e)) (AdminListLobbies w) = map Z.of_nat (seq 0 (length (w_lobbies w))) /\
  Forall (fun '(_, n, cap) => 0 <= n <= cap) (AdminListRooms w ++ AdminListLobbies w).
Proof.
  intros Hr.
  assert (forall (l : list box) k,
    map (fun e : Z * Z * Z => fst (fst e)) (imap (fun i b => (Z.of_nat i, k - b_avail b, k)) l) =
    map Z.of_nat (seq 0 (length l))) as Hids.
  { intros l k. apply list_eq. intros i.
    change (((fun e : Z * Z * Z => e.1.1) <$> imap (fun i b => (Z.of_nat i, k - b_avail b, k)) l) !! i =
            (Z.of_nat <$> seq 0 (length l)) !! i).
    rewrite !list_lookup_fmap, list_lookup_imap. destruct (l !! i) as [b|] eqn:E.
    - apply lookup_lt_Some in E. by rewrite lookup_seq_lt by lia.
    - apply lookup_ge_None in E. by rewrite lookup_seq_ge by lia. }
  split_and!; [apply Hids|apply Hids|by apply room_rows_in_range].
Qed.

(** A room number beyond 32 bits reaches another room: AdminBroadcast converts it
    to int32. *)
Theorem broadcast_room_aliases (roomId : Z) (message : list Z) (w : world) :
  AdminBroadcast (roomId + 2 ^ 32) message w = AdminBroadcast roomId message w.
Proof.
  unfold AdminBroadcast. replace (i32 (roomId + 2 ^ 32)) with (i32 roomId); [done|].
  unfold wrapS. f_equal. replace (roomId + 2 ^ 32 + 2 ^ (32 - 1)) with (roomId + 2 ^ (32 - 1) + 1 * 2 ^ 32) by lia.
  by rewrite Z.mod_add.
Qed.

(** GrpcHost in any order of calls: Start and Stop never end the process, it is
    running exactly when it has a server and its thread; and a process that exits
    without Stop after a successful Start, as this program does, is terminated. *)
Theorem grpc_host_lifecycle (cs : list grpc_call) :
  exists g, grpc_run cs GrpcHost_new = Ok g /\ g_server g = m_running g /\ g_thread g = m_running g /\
  (is_Ok (GrpcHost_exit g) = negb (m_running g)).
Proof.
  enough (forall g, g_server g = m_running g -> g_thread g = m_running g ->
    exists g', grpc_run cs g = Ok g' /\ g_server g' = m_running g' /\ g_thread g' = m_running g') as H.
  { destruct (H GrpcHost_new eq_refl eq_refl) as (g & ? & ? & E). exists g. split_and!; try done.
    unfold GrpcHost_exit. rewrite E. by destruct (m_running g). }
  induction cs as [|[built|] cs IH]; intros [r s t] Hs Ht; cbn in Hs, Ht; subst; [eauto| |].
  - cbn. unfold GrpcHost_Start. cbn. destruct r, built; cbn; by apply IH.
  - cbn. unfold GrpcHost_Stop. cbn. destruct r; cbn; by apply IH.
Qed.

(** *** The game with one player logged in *)

Definition one_player : world := final (sc_login 0 100).

Definition grpc_thread : caller := mkCaller None (mkJW [] [] []) 0 64 None.

(** ... and with that player in room 0, where the chat line of ADMIN goes. *)
Definition one_in_room : world := final (sc_login 0 100 ++ sc_first_room 0).

Lemma admin_calls_answer_witness :
  KickPlayer 7 grpc_thread one_in_room =
    (NOT_FOUND (text "Player not found"), (false, text "Player not found"), one_in_room) /\
  KickPlayer 100 grpc_thread one_in_room = (StatusOK, (true, text "OK"), start [ADisconnect 0] one_in_room) /\
  Broadcast_call 0 (text "hi") grpc_thread one_in_room =
    (StatusOK, (true, text "OK"),
     start [APost (QRoom 0) (RoomBroadcast (NotiRoomChat 0 (text "ADMIN") (text "hi")))] one_in_room) /\
  Broadcast_call 1 (text "hi") grpc_thread one_in_room = (StatusOK, (false, text "Room not available"), one_in_room) /\
  (ListRooms grpc_thread one_in_room).1.2 = [(0, text "room-0", 1, 8)] /\
  (exists players, ListPlayers grpc_thread one_in_room = (StatusOK, players, one_in_room) /\
     (100, [65], -1, 0) ∈ players /\ NoDup ((fun row => row.1.1.1) <$> players)).
Proof.
  destruct (admin_calls_answer grpc_thread one_in_room 7 0 (text "hi") eq_refl (final_reach _))
    as (K1 & B1 & R & _ & players & P1 & P2 & P3).
  destruct (admin_calls_answer grpc_thread one_in_room 100 1 (text "hi") eq_refl (final_reach _)) as (K2 & B2 & _).
  split_and!; [rewrite K1|rewrite K2|rewrite B1|rewrite B2| |].
  1-4: vm_compute; reflexivity.
  - destruct R as (rooms & -> & Hl & Hrow).
    replace (length (w_rooms one_in_room)) with 1%nat in Hl by (vm_compute; reflexivity). destruct rooms as [|row [|]]; try discriminate Hl. cbn.
    rewrite (proj1 (Hrow 0%nat row eq_refl)).
    replace (occupants (QRoom 0) one_in_room) with 1 by (vm_compute; reflexivity). reflexivity.
  - exists players. split; [exact P1|]. split; [|exact P2]. apply P3. exists 100, 0%nat. eexists.
    split_and!; vm_compute; reflexivity.
Defined.

Lemma admin_lists_in_range_witness :
  AdminListLobbies one_player = [(0, 1, 50); (1, 0, 50); (2, 0, 50); (3, 0, 50); (4, 0, 50)] /\
  Forall (fun '(_, n, cap) => 0 <= n <= cap) (AdminListRooms one_player ++ AdminListLobbies one_player).
Proof.
  split; [vm_compute; reflexivity|]. apply (admin_lists_in_range one_player (final_reach _)).
Defined.
