(* ===== verification/DeadLock.v ===== *)
(** * The deadlock profiler

    src/DhUtil/DeadLockProfiler.h and DeadLockProfiler.cpp.

    Every lock acquisition records the edge from the lock the thread took last
    to the new one; a new edge triggers a depth-first search of the whole graph,
    which crashes the process on a cycle.  Lock names are const char* and keyed
    by address (a number); lock ids are numbers below [lockCount].  The search
    runs on its three vectors; its recursion is bounded by fuel, the number of
    locks plus one, which [DFS_ok] shows to be enough. *)

From stdpp Require Import sorting.
From S2P Require Import Prelude.
#[local] Open Scope Z_scope.

Abbreviation graph := (gmap nat (gset nat)).   (* m_lockHistory *)

(** std::set iterates in ascending order. *)
Definition successors (h : graph) (u : nat) : list nat :=
  match h !! u with Some s => merge_sort le (elements s) | None => [] end.

(** m_discoveredOrder, m_discoveredCount, m_finished, m_parent *)
Record dfs_state := mkDfs {
  d_order : list Z;
  d_count : Z;
  d_finished : list bool;
  d_parent : list Z;
}.

Definition dfs_start (lockCount : nat) : dfs_state :=
  mkDfs (replicate lockCount (-1)) 0 (replicate lockCount false) (replicate lockCount (-1)).

Inductive dfs_result := Done (s : dfs_state) | DeadlockDetected | OutOfRange | OutOfFuel.

Definition order_of (s : dfs_state) (u : nat) : Z := default (-1) (d_order s !! u).
Definition finished (s : dfs_state) (u : nat) : bool := default false (d_finished s !! u).
Definition parent_of (s : dfs_state) (u : nat) : Z := default (-1) (d_parent s !! u).

(** The loop that logs the cycle: up the parents from [now] until [there]. *)
Fixpoint log_cycle (fuel : nat) (s : dfs_state) (now there : nat) : dfs_result :=
  match fuel with
  | O => OutOfFuel
  | S fuel' =>
      let p := parent_of s now in
      if p <? 0 then OutOfRange               (* m_parent[-1] at the next turn *)
      else if Nat.eqb (Z.to_nat p) there then DeadlockDetected
      else log_cycle fuel' s (Z.to_nat p) there
  end.

(** operator[] of one of the vectors, which have the same length. *)
Definition in_range (s : dfs_state) (u : nat) : bool := (u <? length (d_order s))%nat.

(** The for loop of DFS over [nextSet], [dfs] being the recursive call. *)
Fixpoint dfs_next (dfs : nat -> dfs_state -> dfs_result) (lockCount here : nat) (nexts : list nat)
    (s : dfs_state) : dfs_result :=
  match nexts with
  | [] => Done s
  | there :: nexts' =>
      if negb (in_range s there) then OutOfRange
      else if order_of s there =? -1 then
        let s := mkDfs (d_order s) (d_count s) (d_finished s) (<[there := Z.of_nat here]> (d_parent s)) in
        match dfs there s with
        | Done s => dfs_next dfs lockCount here nexts' s
        | r => r
        end
      else if order_of s here <? order_of s there then dfs_next dfs lockCount here nexts' s
      else if negb (finished s there) then log_cycle (S lockCount) s here there
      else dfs_next dfs lockCount here nexts' s
  end.

Fixpoint DFS (fuel lockCount : nat) (h : graph) (here : nat) (s : dfs_state) : dfs_result :=
  match fuel with
  | O => OutOfFuel
  | S fuel' =>
      if negb (in_range s here) then OutOfRange
      else if negb (order_of s here =? -1) then Done s
      else
        let s := mkDfs (<[here := d_count s]> (d_order s)) (d_count s + 1) (d_finished s) (d_parent s) in
        match dfs_next (DFS fuel' lockCount h) lockCount here (successors h here) s with
        | Done s => Done (mkDfs (d_order s) (d_count s) (<[here := true]> (d_finished s)) (d_parent s))
        | r => r
        end
  end.

Fixpoint CheckCycle_loop (lockCount : nat) (h : graph) (ids : list nat) (s : dfs_state) : dfs_result :=
  match ids with
  | [] => Done s
  | id :: ids' =>
      match DFS (S lockCount) lockCount h id s with
      | Done s => CheckCycle_loop lockCount h ids' s
      | r => r
      end
  end.

Definition CheckCycle (lockCount : nat) (h : graph) : outcome unit :=
  match CheckCycle_loop lockCount h (seq 0 lockCount) (dfs_start lockCount) with
  | Done _ => Ok tt
  | DeadlockDetected => Crash "DEADLOCK_DETECTED"
  | OutOfRange => Crash "vector subscript out of range"
  | OutOfFuel => Crash "fuel"
  end.

(** ** PushLock and PopLock *)

Record DeadLockProfiler := mkProfiler {
  m_nameToId : gmap nat nat;
  m_lockHistory : graph;
}.

Definition DeadLockProfiler_new : DeadLockProfiler := mkProfiler ∅ ∅.

(** [LLockStack]: the calling thread's stack, top first. *)
Definition PushLock (_name : nat) (p : DeadLockProfiler) (LLockStack : list nat)
  : outcome (DeadLockProfiler * list nat) :=
  let '(lockId, names) :=
    match m_nameToId p !! _name with
    | Some id => (id, m_nameToId p)
    | None => (size (m_nameToId p), <[_name := size (m_nameToId p)]> (m_nameToId p))
    end in
  match LLockStack with
  | [] => Ok (mkProfiler names (m_lockHistory p), lockId :: LLockStack)
  | prevId :: _ =>
      if Nat.eqb lockId prevId then Ok (mkProfiler names (m_lockHistory p), lockId :: LLockStack)
      else
        let history := default ∅ (m_lockHistory p !! prevId) in
        if lockId ∈? history
        then Ok (mkProfiler names (<[prevId := history]> (m_lockHistory p)), lockId :: LLockStack)
        else
          let h := <[prevId := {[lockId]} ∪ history]> (m_lockHistory p) in
          _ ← CheckCycle (size names) h;
          Ok (mkProfiler names h, lockId :: LLockStack)
  end.

Definition PopLock (_name : nat) (p : DeadLockProfiler) (LLockStack : list nat)
  : outcome (DeadLockProfiler * list nat) :=
  match LLockStack with
  | [] => Crash "MULTIPLE_UNLOCK"
  | top :: rest =>
      (* operator[]: an unknown name becomes lock 0 *)
      let lockId := default 0%nat (m_nameToId p !! _name) in
      let names := match m_nameToId p !! _name with Some _ => m_nameToId p | None => <[_name := 0%nat]> (m_nameToId p) end in
      if negb (Nat.eqb top lockId) then Crash "INVALID_UNLOCK"
      else Ok (mkProfiler names (m_lockHistory p), rest)
  end.

(** ** The search is right *)

Section dfs.
Context (n : nat) (h : graph).

Definition edge (u v : nat) : Prop := exists s, h !! u = Some s /\ v ∈ s.

Definition cyclic : Prop := exists u, tc edge u u.

Context (Hin : forall u v, edge u v -> (v < n)%nat).
Context (Hirr : forall u, ~ edge u u).

Lemma elem_of_successors u v : v ∈ successors h u <-> edge u v.
Proof.
  unfold successors, edge. destruct (h !! u) as [s|] eqn:E.
  - rewrite merge_sort_Permutation, elem_of_elements. naive_solver.
  - split; [intros H; by apply elem_of_nil in H|naive_solver].
Qed.

(** The stack of open calls, innermost first: a path, each the parent of the
    one above, discovered later the further up. *)
Inductive stack_ok (s : dfs_state) : list nat -> Prop :=
| stack_nil : stack_ok s []
| stack_one u : stack_ok s [u]
| stack_cons u v st :
    edge v u -> parent_of s u = Z.of_nat v -> order_of s v < order_of s u ->
    stack_ok s (v :: st) -> stack_ok s (u :: v :: st).

(** The finished nodes, last one first: all successors finished before. *)
Fixpoint topo_ok (topo : list nat) : Prop :=
  match topo with
  | [] => True
  | u :: topo' => (forall v, edge u v -> v ∈ topo') /\ topo_ok topo'
  end.

Record dfs_inv (s : dfs_state) (st topo : list nat) : Prop := mkDfsInv {
  di_len : length (d_order s) = n /\ length (d_finished s) = n /\ length (d_parent s) = n;
  di_nodup : NoDup (st ++ topo);
  di_seen : forall u, u ∈ st ++ topo <-> (u < n)%nat /\ order_of s u <> -1;
  di_fin : forall u, finished s u = true <-> u ∈ topo;
  di_stack : stack_ok s st;
  di_topo : topo_ok topo;
  di_ord : 0 <= d_count s /\ forall u, order_of s u < d_count s /\ (order_of s u <> -1 -> 0 <= order_of s u);
}.

Lemma dfs_start_inv : dfs_inv (dfs_start n) [] [].
Proof.
  assert (forall u, order_of (dfs_start n) u = -1) as Ho.
  { intros u. unfold order_of, dfs_start. cbn. destruct (replicate n (-1) !! u) eqn:E; [|done].
    by apply lookup_replicate in E as [-> _]. }
  split; cbn.
  - by rewrite !length_replicate.
  - constructor.
  - intros u. rewrite Ho. split; [intros H; by apply elem_of_nil in H|naive_solver].
  - intros u. unfold finished. cbn. split; [|intros H; by apply elem_of_nil in H].
    destruct (replicate n false !! u) eqn:E; [|done]. by apply lookup_replicate in E as [-> _].
  - constructor.
  - done.
  - split; [done|]. intros u. rewrite Ho. naive_solver lia.
Qed.

(** A node on the stack lies on a path to its top. *)
Lemma stack_path s u st v : stack_ok s (u :: st) -> v ∈ st -> tc edge v u.
Proof.
  revert u. induction st as [|w st IH]; intros u Hs Hv; [by apply elem_of_nil in Hv|].
  inversion Hs as [| |? ? ? He _ _ Hs']; subst. apply elem_of_cons in Hv as [->|Hv].
  - by apply tc_once.
  - eapply tc_r; [by apply IH|done].
Qed.

Lemma stack_order s u st v : stack_ok s (u :: st) -> v ∈ st -> order_of s v < order_of s u.
Proof.
  revert u. induction st as [|w st IH]; intros u Hs Hv; [by apply elem_of_nil in Hv|].
  inversion Hs as [| |? ? ? _ _ Ho Hs']; subst. apply elem_of_cons in Hv as [->|Hv]; [done|].
  specialize (IH w Hs' Hv). lia.
Qed.

(** The logging loop climbs the stack to [there] and stops. *)
Lemma log_cycle_ok s u st there fuel :
  stack_ok s (u :: st) -> there ∈ st -> (length st < fuel)%nat ->
  log_cycle fuel s u there = DeadlockDetected.
Proof.
  revert u fuel. induction st as [|w st IH]; intros u fuel Hs Hv Hf; [by apply elem_of_nil in Hv|].
  destruct fuel as [|fuel]; [cbn in Hf; lia|].
  inversion Hs as [| |? ? ? _ Hp _ Hs']; subst. cbn [log_cycle]. rewrite Hp.
  rewrite (proj2 (Z.ltb_ge _ _)) by lia. rewrite Nat2Z.id.
  destruct (Nat.eqb_spec w there) as [|Hne]; [done|].
  apply elem_of_cons in Hv as [->|Hv]; [done|]. apply IH; [done|done|cbn in Hf; lia].
Qed.

Lemma stack_bound s st topo : dfs_inv s st topo -> (length st + length topo <= n)%nat.
Proof.
  intros Hi. rewrite <- length_app.
  assert (length (st ++ topo) <= length (seq 0 n))%nat as H.
  { apply submseteq_length, NoDup_submseteq; [apply Hi|]. intros u Hu. apply (di_seen _ _ _ Hi) in Hu as [Hu _].
    apply elem_of_seq. lia. }
  by rewrite length_seq in H.
Qed.

(** Acyclic: a list in which successors come later has no cycle. *)
Lemma topo_no_cycle topo u : topo_ok topo -> u ∈ topo -> NoDup topo -> ~ tc edge u u.
Proof.
  intros Ht Hu Hn Hc.
  assert (forall topo x y, topo_ok topo -> NoDup topo -> x ∈ topo -> tc edge x y ->
            exists l1 l2, topo = l1 ++ x :: l2 /\ y ∈ l2) as Hgo.
  { clear -Hin. intros topo x y Ht Hn Hx Hxy. revert topo Ht Hn Hx.
    induction Hxy as [x y He|x y z He Hyz IH]; intros topo Ht Hn Hx;
      apply list_elem_of_split in Hx as (l1 & l2 & ->).
    - exists l1, l2. split; [done|]. clear Hn. induction l1 as [|a l1 IHl]; cbn in Ht; [by apply Ht|apply IHl, Ht].
    - assert (y ∈ l2 /\ topo_ok l2) as [Hy Ht2].
      { clear Hn IH. induction l1 as [|a l1 IHl]; cbn in Ht; [split; [by apply Ht|apply Ht]|apply IHl, Ht]. }
      apply NoDup_app in Hn as (_ & _ & [_ Hn2]%NoDup_cons).
      destruct (IH l2 Ht2 Hn2 Hy) as (m1 & m2 & E & Hz).
      exists l1, l2. split; [done|]. rewrite E. set_solver. }
  destruct (Hgo topo u u Ht Hn Hu Hc) as (l1 & l2 & -> & Hl2).
  apply NoDup_app in Hn as (_ & _ & [? _]%NoDup_cons). done.
Qed.

Lemma order_of_insert s u k v c f p :
  (u < length (d_order s))%nat ->
  order_of (mkDfs (<[u := k]> (d_order s)) c f p) v = if decide (u = v) then k else order_of s v.
Proof.
  intros Hu. unfold order_of. cbn. destruct (decide (u = v)) as [<-|Hne].
  - by rewrite list_lookup_insert_eq.
  - by rewrite list_lookup_insert_ne.
Qed.

(** Only orders and parents of stacked nodes matter to [stack_ok]. *)
Lemma stack_ok_ext s s' st :
  (forall u, u ∈ st -> order_of s' u = order_of s u /\ parent_of s' u = parent_of s u) ->
  stack_ok s st -> stack_ok s' st.
Proof.
  intros Hx Hs. induction Hs as [|u|u v st He Hp Ho Hs IH]; [constructor|constructor|].
  constructor; [done| | |apply IH; set_solver].
  - destruct (Hx u) as [_ ->]; [set_solver|done].
  - destruct (Hx u) as [-> _]; [set_solver|]. destruct (Hx v) as [-> _]; [set_solver|done].
Qed.

(** Recording the parent of an undiscovered node. *)
Lemma inv_set_parent s st topo u k :
  dfs_inv s st topo -> order_of s u = -1 ->
  dfs_inv (mkDfs (d_order s) (d_count s) (d_finished s) (<[u := k]> (d_parent s))) st topo.
Proof.
  intros [Hl Hn Hs Hf Hst Ht Ho] Hu. split; try done.
  - cbn. rewrite length_insert. done.
  - eapply stack_ok_ext; [|done]. intros v Hv. split; [done|]. unfold parent_of. cbn.
    rewrite list_lookup_insert_ne; [done|]. intros ->. apply (Hs v); [set_solver|done].
Qed.

(** Discovering a node pushes it on the stack. *)
Lemma inv_discover s st topo u :
  dfs_inv s st topo -> order_of s u = -1 -> (u < n)%nat ->
  match st with [] => True | v :: _ => edge v u /\ parent_of s u = Z.of_nat v end ->
  dfs_inv (mkDfs (<[u := d_count s]> (d_order s)) (d_count s + 1) (d_finished s) (d_parent s)) (u :: st) topo.
Proof.
  intros [[Hl Hl'] Hn Hs Hf Hst Ht [Hc Ho]] Hu Hlt Htop.
  assert (u ∉ st ++ topo) as Hnu by (intros [_ Hx]%Hs; done).
  set (s' := mkDfs _ _ _ _).
  assert (forall v, order_of s' v = if decide (u = v) then d_count s else order_of s v) as Hord.
  { intros v. apply order_of_insert. lia. }
  assert (stack_ok s' st) as Hst'.
  { eapply stack_ok_ext; [|done]. intros v Hv. rewrite Hord, decide_False; [done|]. intros ->. set_solver. }
  split; try done.
  - cbn. rewrite length_insert. done.
  - by constructor.
  - intros v. cbn [app]. rewrite elem_of_cons, Hs, Hord. destruct (decide (u = v)) as [<-|Hne]; [|naive_solver].
    split; [intros _; split; [done|lia]|by left].
  - destruct st as [|v st]; [constructor|]. destruct Htop as [He Hp]. constructor; [done|done| |done].
    rewrite !Hord, (decide_True _ _ eq_refl), decide_False; [apply Ho|]. intros ->. set_solver.
  - cbn. split; [lia|]. intros v. rewrite Hord. destruct (decide (u = v)); [lia|].
    destruct (Ho v) as [? ?]. split; [lia|done].
Qed.

(** Finishing the top of the stack moves it to the finished list. *)
Lemma inv_finish s st topo u :
  dfs_inv s (u :: st) topo -> (forall v, edge u v -> v ∈ topo) ->
  dfs_inv (mkDfs (d_order s) (d_count s) (<[u := true]> (d_finished s)) (d_parent s)) st (u :: topo).
Proof.
  intros [(Hl & Hl' & Hl'') Hn Hs Hf Hst Ht Ho] Hsucc.
  assert ((u :: st) ++ topo ≡ₚ st ++ u :: topo) as Hp by (cbn; apply Permutation_middle).
  assert (u < n)%nat as Hlt by (apply (Hs u); set_solver).
  split; try done.
  - cbn. rewrite length_insert. done.
  - by rewrite <- Hp.
  - intros v. rewrite <- Hp. apply Hs.
  - intros v. unfold finished. cbn. rewrite elem_of_cons. destruct (decide (u = v)) as [<-|Hne].
    + rewrite list_lookup_insert_eq by lia. naive_solver.
    + rewrite list_lookup_insert_ne by done. fold (finished s v). rewrite Hf. naive_solver.
  - eapply (stack_ok_ext s); [done|]. by inversion Hst; subst; [constructor|].
Qed.

(** What a call returns: the search goes on with more nodes finished, or a
    cycle has been found and logged. *)
Definition dfs_post (st topo : list nat) (goal : nat -> Prop) (r : dfs_result) : Prop :=
  match r with
  | Done s' => exists l, dfs_inv s' st (l ++ topo) /\ forall v, goal v -> v ∈ l ++ topo
  | DeadlockDetected => cyclic
  | OutOfRange | OutOfFuel => False
  end.

Lemma in_range_ok s st topo u : dfs_inv s st topo -> (u < n)%nat -> in_range s u = true.
Proof. intros Hi Hu. unfold in_range. destruct (di_len _ _ _ Hi) as (-> & _). by apply Nat.ltb_lt. Qed.

(** The loop over the successors, given that the recursive call is right. *)
Lemma dfs_next_ok dfs m here st nexts s topo :
  (forall there s topo, (m <= length topo)%nat -> dfs_inv s (here :: st) topo -> edge here there ->
     order_of s there = -1 -> parent_of s there = Z.of_nat here ->
     dfs_post (here :: st) topo (eq there) (dfs there s)) ->
  (forall v, v ∈ nexts -> edge here v) ->
  (m <= length topo)%nat -> dfs_inv s (here :: st) topo ->
  dfs_post (here :: st) topo (fun v => v ∈ nexts) (dfs_next dfs n here nexts s).
Proof.
  intros Hdfs. revert s topo. induction nexts as [|there nexts IH]; intros s topo Hn Hm Hi.
  { exists []. split; [done|]. intros v Hv. by apply elem_of_nil in Hv. }
  assert (edge here there) as He by (apply Hn; set_solver).
  assert (forall v, v ∈ nexts -> edge here v) as Hn' by (intros; apply Hn; set_solver).
  assert (there ∈ topo -> dfs_post (here :: st) topo (fun v => v ∈ there :: nexts) (dfs_next dfs n here nexts s)) as Hskip.
  { intros Ht. specialize (IH s topo Hn' Hm Hi). destruct (dfs_next dfs n here nexts s); [|done..].
    destruct IH as (l & Hl & Hin'). exists l. split; [done|]. intros v [->|Hv]%elem_of_cons; [set_solver|auto]. }
  cbn [dfs_next]. rewrite (in_range_ok _ _ _ there Hi) by (by eapply Hin). cbn [negb].
  destruct (Z.eqb_spec (order_of s there) (-1)) as [E|E].
  - specialize (inv_set_parent s _ _ there (Z.of_nat here) Hi E) as Hi'.
    set (s1 := mkDfs (d_order s) _ _ _) in *.
    assert (dfs_post (here :: st) topo (eq there) (dfs there s1)) as Hr.
    { apply Hdfs; [done|done|done|done|]. unfold parent_of, s1. cbn. rewrite list_lookup_insert_eq; [done|].
      destruct (di_len _ _ _ Hi) as (_ & _ & ->). by eapply Hin. }
    destruct (dfs there s1) as [s2| | |]; [|done..]. destruct Hr as (l & Hl & Hth).
    specialize (IH s2 (l ++ topo) Hn' ltac:(rewrite length_app; lia) Hl). destruct (dfs_next dfs n here nexts s2) as [s3| | |]; [|done..].
    destruct IH as (l' & Hl' & Hall). exists (l' ++ l). rewrite <- app_assoc. split; [done|].
    intros v [->|Hv]%elem_of_cons; [|auto]. specialize (Hth there eq_refl). set_solver.
  - assert (there ∈ (here :: st) ++ topo) as Hseen.
    { apply (di_seen _ _ _ Hi). split; [by eapply Hin|done]. }
    apply elem_of_app in Hseen. destruct (Z.ltb_spec (order_of s here) (order_of s there)) as [Hlt|Hge].
    + destruct Hseen as [Hst|?]; [exfalso|by apply Hskip]. apply elem_of_cons in Hst as [->|Hst]; [lia|].
      specialize (stack_order _ _ _ _ (di_stack _ _ _ Hi) Hst). lia.
    + destruct (finished s there) eqn:F; cbn [negb].
      * apply Hskip. by apply (di_fin _ _ _ Hi).
      * destruct Hseen as [Hst|Ht]; [|apply (di_fin _ _ _ Hi) in Ht; congruence].
        apply elem_of_cons in Hst as [->|Hst]; [by destruct (Hirr here)|].
        rewrite (log_cycle_ok _ _ st); [|by apply Hi|done|specialize (stack_bound _ _ _ Hi); cbn; lia].
        cbn. exists there. eapply tc_r; [|done]. eapply stack_path; [by apply Hi|done].
Qed.

Lemma DFS_ok fuel here s st topo :
  dfs_inv s st topo -> (here < n)%nat -> (n - (length st + length topo) < fuel)%nat ->
  order_of s here = -1 ->
  match st with [] => True | v :: _ => edge v here /\ parent_of s here = Z.of_nat v end ->
  dfs_post st topo (eq here) (DFS fuel n h here s).
Proof.
  revert here s st topo. induction fuel as [|fuel IH]; intros here s st topo Hi Hlt Hf E Htop; [lia|].
  cbn [DFS]. rewrite (in_range_ok _ _ _ here Hi Hlt), E. cbn [Z.eqb Pos.eqb negb].
  specialize (inv_discover _ _ _ _ Hi E Hlt Htop) as Hi'. set (s1 := mkDfs _ (d_count s + 1) _ _) in *.
  assert (dfs_post (here :: st) topo (fun v => v ∈ successors h here)
            (dfs_next (DFS fuel n h) n here (successors h here) s1)) as Hr.
  { apply (dfs_next_ok _ (length topo)); [|intros v; apply elem_of_successors|done|done].
    intros there s3 topo3 Hm Hi3 He Eo Ep. apply IH; [done|by eapply Hin|cbn|done|done].
    specialize (stack_bound _ _ _ Hi'). cbn. lia. }
  destruct (dfs_next _ _ _ _ s1) as [s2| | |]; [|done..]. destruct Hr as (l & Hl & Hall).
  exists (here :: l). split; [|intros v <-; set_solver].
  apply (inv_finish _ st (l ++ topo)); [done|]. intros v Hv. by apply Hall, elem_of_successors.
Qed.

Lemma CheckCycle_loop_ok ids s topo :
  dfs_inv s [] topo -> (forall u, u ∈ ids -> (u < n)%nat) ->
  dfs_post [] topo (fun v => v ∈ ids) (CheckCycle_loop n h ids s).
Proof.
  revert s topo. induction ids as [|id ids IH]; intros s topo Hi Hids; cbn [CheckCycle_loop].
  { exists []. split; [done|]. intros v Hv. by apply elem_of_nil in Hv. }
  assert (dfs_post [] topo (eq id) (DFS (S n) n h id s)) as Hr.
  { destruct (decide (order_of s id = -1)) as [E|E].
    - apply DFS_ok; [done|apply Hids; set_solver|lia|done|done].
    - cbn [DFS]. rewrite (in_range_ok _ _ _ id Hi) by (apply Hids; set_solver). cbn [negb]. rewrite (proj2 (Z.eqb_neq _ _) E). exists []. split; [done|]. intros v <-.
      apply (di_seen _ _ _ Hi). split; [apply Hids; set_solver|done]. }
  destruct (DFS (S n) n h id s) as [s'| | |]; [|done..]. destruct Hr as (l & Hl & Hid).
  specialize (IH s' _ Hl ltac:(intros; apply Hids; set_solver)).
  destruct (CheckCycle_loop n h ids s') as [s2| | |]; [|done..]. destruct IH as (l' & Hl' & Hall).
  exists (l' ++ l). rewrite <- app_assoc. split; [done|].
  intros v [->|Hv]%elem_of_cons; [|auto]. specialize (Hid id eq_refl). set_solver.
Qed.

(** The search decides acyclicity. *)
Lemma CheckCycle_spec :
  (CheckCycle n h = Ok tt /\ ~ cyclic) \/ (CheckCycle n h = Crash "DEADLOCK_DETECTED" /\ cyclic).
Proof.
  unfold CheckCycle.
  assert (forall u, u ∈ seq 0 n -> (u < n)%nat) as Hseq by (intros u Hu; apply elem_of_seq in Hu; lia).
  specialize (CheckCycle_loop_ok (seq 0 n) _ [] dfs_start_inv Hseq) as Hr.
  destruct (CheckCycle_loop _ _ _ _) as [s| | |]; [left|by right|done|done]. split; [done|].
  destruct Hr as (l & Hl & Hall). rewrite app_nil_r in *. intros [u Hu].
  apply (topo_no_cycle l u); [by apply Hl| |apply Hl|done].
  apply Hall, elem_of_seq. assert (u < n)%nat; [|lia].
  assert (exists v, edge v u) as [v Hv]; [|by eapply Hin].
  clear -Hu. remember u as w eqn:Ew in Hu at 1. clear Ew. induction Hu; eauto.
Qed.
End dfs.

(** ** Threads taking and releasing locks *)

Inductive lock_op := OpPush (name : nat) | OpPop (name : nat).

(** The profiler and LLockStack of every thread. *)
Definition prof_op (st : DeadLockProfiler * gmap nat (list nat)) (thread : nat) (o : lock_op)
  : outcome (DeadLockProfiler * gmap nat (list nat)) :=
  let stack := default [] (snd st !! thread) in
  '(p, stack) ← match o with OpPush nm => PushLock nm (fst st) stack | OpPop nm => PopLock nm (fst st) stack end;
  Ok (p, <[thread := stack]> (snd st)).

Fixpoint prof_run (st : DeadLockProfiler * gmap nat (list nat)) (ops : list (nat * lock_op))
  : outcome (DeadLockProfiler * gmap nat (list nat)) :=
  match ops with
  | [] => Ok st
  | (th, o) :: ops' => st ← prof_op st th o; prof_run st ops'
  end.

(** Neighbours on a thread's stack are ordered by a recorded edge. *)
Fixpoint nested (h : graph) (stack : list nat) : Prop :=
  match stack with
  | b :: (a :: _) as rest => (a = b \/ edge h a b) /\ nested h rest
  | _ => True
  end.

Record prof_inv (st : DeadLockProfiler * gmap nat (list nat)) : Prop := mkProfInv {
  pi_ids : forall nm id, m_nameToId (fst st) !! nm = Some id -> (id < size (m_nameToId (fst st)))%nat;
  pi_edges : forall u v, edge (m_lockHistory (fst st)) u v -> (v < size (m_nameToId (fst st)))%nat /\ u <> v;
  pi_acyclic : ~ cyclic (m_lockHistory (fst st));
  pi_nested : forall th s, snd st !! th = Some s -> nested (m_lockHistory (fst st)) s;
  pi_stack : forall th s id, snd st !! th = Some s -> id ∈ s -> (id < size (m_nameToId (fst st)))%nat;
}.

Lemma edge_insert h a s u v : edge (<[a := s]> h) u v <-> (a = u /\ v ∈ s) \/ (a <> u /\ edge h u v).
Proof.
  unfold edge. destruct (decide (a = u)) as [<-|Hne].
  - rewrite lookup_insert_eq. naive_solver.
  - rewrite lookup_insert_ne by done. naive_solver.
Qed.

(** The graph with one more edge. *)
Definition add_edge (h : graph) (a b : nat) : graph := <[a := {[b]} ∪ default ∅ (h !! a)]> h.

Lemma edge_history h a v : v ∈ (default ∅ (h !! a) : gset nat) <-> edge h a v.
Proof. unfold edge. destruct (h !! a); cbn; [naive_solver|set_solver]. Qed.

Lemma edge_add h a b u v : edge (add_edge h a b) u v <-> (u = a /\ v = b) \/ edge h u v.
Proof.
  unfold add_edge. rewrite edge_insert, elem_of_union, elem_of_singleton, edge_history.
  destruct (decide (a = u)); naive_solver.
Qed.

Lemma cyclic_ext h h' : (forall u v, edge h u v <-> edge h' u v) -> cyclic h -> cyclic h'.
Proof.
  intros Hx [u Hu]. exists u. revert Hu. generalize u at 2 4. intros w Hu.
  induction Hu as [x y He|x y z He _ IH]; [by apply tc_once, Hx|].
  eapply tc_l; [by apply Hx|done].
Qed.

Lemma nested_mono h h' s : (forall u v, edge h u v -> edge h' u v) -> nested h s -> nested h' s.
Proof.
  intros Hx. induction s as [|b [|a s] IH]; [done|done|]. intros [Hab Hs].
  split; [destruct Hab; auto|by apply IH].
Qed.

(** The id PushLock uses and the table it leaves. *)
Definition push_id (nm : nat) (p : DeadLockProfiler) : nat := default (size (m_nameToId p)) (m_nameToId p !! nm).
Definition push_names (nm : nat) (p : DeadLockProfiler) : gmap nat nat :=
  match m_nameToId p !! nm with Some _ => m_nameToId p | None => <[nm := size (m_nameToId p)]> (m_nameToId p) end.

Lemma push_names_ok nm p :
  (forall x id, m_nameToId p !! x = Some id -> (id < size (m_nameToId p))%nat) ->
  (size (m_nameToId p) <= size (push_names nm p))%nat /\ (push_id nm p < size (push_names nm p))%nat /\
  (forall x id, push_names nm p !! x = Some id -> (id < size (push_names nm p))%nat).
Proof.
  intros Hids. unfold push_names, push_id. destruct (m_nameToId p !! nm) as [i|] eqn:E; cbn [default].
  - split_and!; [lia|by eapply Hids|done].
  - rewrite map_size_insert_None by done. split_and!; [lia|lia|]. intros x id.
    rewrite lookup_insert_Some. intros [[_ <-]|[_ Hx]]; [lia|]. apply Hids in Hx. lia.
Qed.

(** PushLock in one equation: the new graph has the edge from the lock below,
    and the process dies when it is cyclic. *)
Lemma PushLock_spec p stack nm :
  (forall x id, m_nameToId p !! x = Some id -> (id < size (m_nameToId p))%nat) ->
  (forall u v, edge (m_lockHistory p) u v -> (v < size (m_nameToId p))%nat /\ u <> v) ->
  ~ cyclic (m_lockHistory p) ->
  let id := push_id nm p in
  match stack with
  | prev :: _ =>
      if decide (id = prev) then PushLock nm p stack = Ok (mkProfiler (push_names nm p) (m_lockHistory p), id :: stack)
      else (~ cyclic (add_edge (m_lockHistory p) prev id) /\ exists h,
              (forall u v, edge h u v <-> edge (add_edge (m_lockHistory p) prev id) u v) /\
              PushLock nm p stack = Ok (mkProfiler (push_names nm p) h, id :: stack)) \/
           (cyclic (add_edge (m_lockHistory p) prev id) /\ PushLock nm p stack = Crash "DEADLOCK_DETECTED")
  | [] => PushLock nm p stack = Ok (mkProfiler (push_names nm p) (m_lockHistory p), id :: stack)
  end.
Proof.
  intros Hids Hed Hac id. destruct (push_names_ok nm p Hids) as (Hsz & Hid & _). fold id in Hid.
  assert (PushLock nm p stack = match stack with
    | [] => Ok (mkProfiler (push_names nm p) (m_lockHistory p), id :: stack)
    | prev :: _ => if Nat.eqb id prev then Ok (mkProfiler (push_names nm p) (m_lockHistory p), id :: stack)
        else if bool_decide (id ∈ (default ∅ (m_lockHistory p !! prev) : gset nat))
        then Ok (mkProfiler (push_names nm p) (<[prev := default ∅ (m_lockHistory p !! prev)]> (m_lockHistory p)), id :: stack)
        else _ ← CheckCycle (size (push_names nm p)) (add_edge (m_lockHistory p) prev id);
             Ok (mkProfiler (push_names nm p) (add_edge (m_lockHistory p) prev id), id :: stack) end) as ->.
  { unfold PushLock, push_names, id, push_id. by destruct (m_nameToId p !! nm). }
  destruct stack as [|prev rest]; [done|]. destruct (decide (id = prev)) as [->|Hne]; [by rewrite Nat.eqb_refl|].
  rewrite (proj2 (Nat.eqb_neq _ _) Hne). case_bool_decide as Hold.
  - assert (forall u v, edge (m_lockHistory p) u v <-> edge (add_edge (m_lockHistory p) prev id) u v) as Hsame.
    { intros u v. rewrite edge_add. apply edge_history in Hold. naive_solver. }
    left. split; [intros Hc; apply Hac; eapply cyclic_ext; [|done]; intros; by rewrite Hsame|]. eexists. split; [|done].
    intros u v. rewrite edge_insert, <- Hsame, edge_history. destruct (decide (prev = u)); naive_solver.
  - destruct (CheckCycle_spec (size (push_names nm p)) (add_edge (m_lockHistory p) prev id)) as [[-> Hc]|[-> Hc]].
    + intros u v [[-> ->]|He]%edge_add; [done|]. apply Hed in He. lia.
    + intros u [[-> E]|He]%edge_add; [congruence|]. apply Hed in He as [_ He]. by apply He.
    + left. split; [done|]. eexists. split; [done|done].
    + right. done.
Qed.

(** The calling thread's stack and the profiler replaced by larger ones. *)
Lemma prof_inv_update p stacks th h names stack :
  prof_inv (p, stacks) ->
  (forall x id, names !! x = Some id -> (id < size names)%nat) ->
  (size (m_nameToId p) <= size names)%nat ->
  (forall u v, edge (m_lockHistory p) u v -> edge h u v) ->
  (forall u v, edge h u v -> (v < size names)%nat /\ u <> v) -> ~ cyclic h -> nested h stack ->
  (forall id, id ∈ stack -> (id < size names)%nat) ->
  prof_inv (mkProfiler names h, <[th := stack]> stacks).
Proof.
  intros [_ _ _ Hne Hst] ? Hsz Hmono ? ? ? ?. split; cbn [fst snd m_nameToId m_lockHistory] in *; try done.
  - intros t s [[_ <-]|[_ Hs]]%lookup_insert_Some; [done|]. eapply nested_mono; [done|by eapply Hne].
  - intros t s id [[_ <-]|[_ Hs]]%lookup_insert_Some Hid; [auto|]. specialize (Hst _ _ _ Hs Hid). lia.
Qed.

(** The stack a thread starts an operation with. *)
Lemma prof_inv_stack p stacks th :
  prof_inv (p, stacks) -> let stack := default [] (stacks !! th) in
  nested (m_lockHistory p) stack /\ forall id, id ∈ stack -> (id < size (m_nameToId p))%nat.
Proof.
  intros [_ _ _ Hne Hst]. cbn [fst snd] in *. destruct (stacks !! th) as [s|] eqn:E; cbn [default].
  - split; [by eapply Hne|]. intros id. by eapply Hst.
  - split; [done|]. intros id Hid. by apply elem_of_nil in Hid.
Qed.

Lemma push_inv p stacks th nm st' :
  prof_inv (p, stacks) -> prof_op (p, stacks) th (OpPush nm) = Ok st' -> prof_inv st'.
Proof.
  intros Hi. destruct (prof_inv_stack p stacks th Hi) as [Hn0 Hs0]. unfold prof_op. cbn [fst snd].
  set (stack := default [] (stacks !! th)) in *. assert (Hi' := Hi). destruct Hi' as [Hids Hed Hac _ _]. cbn [fst snd] in *.
  destruct (push_names_ok nm p Hids) as (Hsz & Hid & Hids').
  assert (forall id, id ∈ push_id nm p :: stack -> (id < size (push_names nm p))%nat) as Hs1.
  { intros id [->|Hx]%elem_of_cons; [done|]. apply Hs0 in Hx. lia. }
  assert (forall u v, edge (m_lockHistory p) u v -> (v < size (push_names nm p))%nat /\ u <> v) as Hed'.
  { intros u v He. apply Hed in He. lia. }
  specialize (PushLock_spec p stack nm Hids Hed Hac) as Hsp. cbv zeta in Hsp. destruct stack as [|prev rest].
  { rewrite Hsp. cbn. intros [= <-]. by apply (prof_inv_update p). }
  destruct (decide (push_id nm p = prev)) as [Heq|Hneq].
  { rewrite Hsp. cbn. intros [= <-]. apply (prof_inv_update p); try done. by split; [left|]. }
  destruct Hsp as [(Hc & h & Hh & ->)|[_ ->]]; [|done]. cbn. intros [= <-].
  assert (forall u v, edge (m_lockHistory p) u v -> edge h u v) as Hmono by (intros u v He; apply Hh, edge_add; by right).
  apply (prof_inv_update p); try done.
  - intros u v [[-> ->]|He]%Hh%edge_add; [done|]. by apply Hed'.
  - intros Hx. apply Hc. by eapply cyclic_ext.
  - split; [right; apply Hh, edge_add; by left|]. by eapply nested_mono.
Qed.

Lemma pop_inv p stacks th nm st' :
  prof_inv (p, stacks) -> prof_op (p, stacks) th (OpPop nm) = Ok st' -> prof_inv st'.
Proof.
  intros Hi. destruct (prof_inv_stack p stacks th Hi) as [Hn0 Hs0]. unfold prof_op, PopLock. cbn [fst snd].
  set (stack := default [] (stacks !! th)) in *. assert (Hi' := Hi). destruct Hi' as [Hids Hed Hac _ _]. cbn [fst snd] in *.
  destruct stack as [|top rest]; [done|].
  assert (nested (m_lockHistory p) rest) by (destruct rest; [done|apply Hn0]).
  assert (forall id, id ∈ rest -> (id < size (m_nameToId p))%nat) as Hs1 by (intros; by apply Hs0, list_elem_of_further).
  destruct (negb _); [done|]. cbn.
  destruct (m_nameToId p !! nm) as [i|] eqn:E; intros [= <-]; apply (prof_inv_update p); try done;
    try rewrite (map_size_insert_None _ _ _ E); try lia.
  - intros x id. rewrite lookup_insert_Some. intros [[_ <-]|[_ Hx]]; [lia|]. apply Hids in Hx. lia.
  - intros u v He. apply Hed in He. lia.
  - intros id Hx. apply Hs1 in Hx. lia.
Qed.

Lemma prof_op_inv st th o st' : prof_inv st -> prof_op st th o = Ok st' -> prof_inv st'.
Proof. destruct st as [p stacks], o; eauto using push_inv, pop_inv. Qed.

Lemma prof_start_inv : prof_inv (DeadLockProfiler_new, ∅).
Proof.
  assert (forall u v, ~ edge (∅ : graph) u v) as Hno by (intros u v (s & Hs & _); by rewrite lookup_empty in Hs).
  split; cbn [fst snd m_nameToId m_lockHistory DeadLockProfiler_new].
  - intros x id Hx. by rewrite lookup_empty in Hx.
  - intros u v He. by destruct (Hno u v).
  - intros [u Hu]. inversion Hu; by eapply Hno.
  - intros t s Hx. by rewrite lookup_empty in Hx.
  - intros t s id Hx. by rewrite lookup_empty in Hx.
Qed.

Lemma prof_run_inv ops st st' : prof_inv st -> prof_run st ops = Ok st' -> prof_inv st'.
Proof.
  revert st. induction ops as [|[th o] ops IH]; intros st Hi; cbn [prof_run]; [by intros [= <-]|].
  intros (st1 & E & Hr)%bind_Ok_inv. eapply IH; [|done]. by eapply prof_op_inv.
Qed.

(** while the process has not died, the recorded lock order has no cycle,
    and every thread holds its locks in that order: of two neighbours on its
    stack the lower one is the same lock or has a recorded edge to the upper. *)
Theorem lock_order_acyclic ops p stacks :
  prof_run (DeadLockProfiler_new, ∅) ops = Ok (p, stacks) ->
  ~ cyclic (m_lockHistory p) /\ forall th s, stacks !! th = Some s -> nested (m_lockHistory p) s.
Proof.
  intros Hr. specialize (prof_run_inv _ _ _ prof_start_inv Hr) as [_ _ ? ? _]. done.
Qed.

Definition two_threads : list (nat * lock_op) :=
  [(1, OpPush 10); (1, OpPush 20); (1, OpPop 20); (1, OpPop 10); (2, OpPush 20)]%nat.

Lemma lock_order_acyclic_witness :
  match prof_run (DeadLockProfiler_new, ∅) two_threads with
  | Ok (p, _) => ~ cyclic (m_lockHistory p)
  | Crash _ => False
  end.
Proof.
  destruct (prof_run (DeadLockProfiler_new, ∅) two_threads) as [[p stacks]|] eqn:E.
  - exact (proj1 (lock_order_acyclic two_threads p stacks E)).
  - vm_compute in E. discriminate E.
Defined.

(** C30: taking a lock crashes exactly when the edge from the lock taken last
    would close a cycle in the recorded order, whatever the threads did
    before; the search always ends and stays within its vectors. *)
Theorem push_crashes_iff_cycle ops p stacks th prev rest nm :
  prof_run (DeadLockProfiler_new, ∅) ops = Ok (p, stacks) ->
  stacks !! th = Some (prev :: rest) -> push_id nm p <> prev ->
  (cyclic (add_edge (m_lockHistory p) prev (push_id nm p)) /\
     PushLock nm p (prev :: rest) = Crash "DEADLOCK_DETECTED") \/
  (~ cyclic (add_edge (m_lockHistory p) prev (push_id nm p)) /\
     exists p', PushLock nm p (prev :: rest) = Ok (p', push_id nm p :: prev :: rest)).
Proof.
  intros Hr _ Hne. specialize (prof_run_inv _ _ _ prof_start_inv Hr) as [Hids Hed Hac _ _].
  specialize (PushLock_spec p (prev :: rest) nm Hids Hed Hac) as Hsp. cbv zeta in Hsp.
  cbv beta iota in Hsp. destruct (decide (push_id nm p = prev)) as [|_]; [done|]. destruct Hsp as [(Hc & h & _ & ->)|[Hc ->]]; eauto.
Qed.

(** Two threads, two locks, opposite orders. *)
Lemma push_crashes_iff_cycle_witness :
  match prof_run (DeadLockProfiler_new, ∅) two_threads with
  | Ok (p, stacks) => cyclic (add_edge (m_lockHistory p) 1 (push_id 10 p)) /\
                      PushLock 10 p [1%nat] = Crash "DEADLOCK_DETECTED"
  | Crash _ => False
  end.
Proof.
  destruct (prof_run (DeadLockProfiler_new, ∅) two_threads) as [[p stacks]|] eqn:E.
  - specialize (push_crashes_iff_cycle two_threads p stacks 2 1 [] 10 E) as H.
    vm_compute in E. injection E as <- <-.
    destruct H as [H|[_ [p' H]]]; [vm_compute; reflexivity|vm_compute; lia|exact H|].
    exfalso. vm_compute in H. discriminate H.
  - vm_compute in E. discriminate E.
Defined.
