(* ===== verification/Wire.v ===== *)
(** * The wire format of the administration protocol

    The inline functions of the protobuf headers the generated messages call:
    src/Tools/include/google/protobuf/io/coded_stream.h ([UnsafeVarint], the
    sizes of varints, [WriteStringMaybeAliased]) and wire_format_lite.h (tags, the
    writers of the field types, the sizes of fields).  A writer's result is the
    bytes it appends to its target.

    What the headers only declare, or take from a later version of the library, is
    the class [ProtobufLib]; that it does what its documentation says is
    [ProtobufLib_ok].  The reference
    is that documentation: [read_varint] and [read_field]. *)

From S2P Require Import Prelude Bytes.
#[local] Open Scope Z_scope.

(** ** Varints *)

(** The loop of UnsafeVarint, which drops seven bits a turn: ten turns are enough
    for 64 bits ([varint_roundtrip]). *)
Fixpoint UnsafeVarint_loop (fuel : nat) (value : Z) : list Z :=
  match fuel with
  | O => []
  | S fuel =>
      if value >=? 0x80
      then u8 (Z.lor value 0x80) :: UnsafeVarint_loop fuel (Z.shiftr value 7)
      else [u8 value]
  end.

Definition UnsafeVarint (value : Z) : list Z := UnsafeVarint_loop 10 value.

(** absl::countl_zero of a [w]-bit value. *)
Definition countl_zero (w value : Z) : Z := if value =? 0 then w else w - 1 - Z.log2 value.

(** [bsr]: PROTOBUF_CODED_STREAM_H_PREFER_BSR. *)
Definition VarintSize (bsr : bool) (digits extra value : Z) : Z :=
  if bsr then
    let log2value := (digits - 1) - countl_zero digits (Z.lor value 1) in
    (log2value * 9 + (64 + 9) + extra) / 64
  else
    let clz := countl_zero digits value in
    ((digits * 9 + 64 + extra) - (clz * 9)) / 64.

Definition VarintSize32 (bsr : bool) (value : Z) : Z := VarintSize bsr 32 0 value.
Definition VarintSize64 (bsr : bool) (value : Z) : Z := VarintSize bsr 64 0 value.
Definition VarintSize64PlusOne (bsr : bool) (value : Z) : Z := VarintSize bsr 64 64 value.
Definition VarintSize32SignExtendedPlusOne (bsr : bool) (value : Z) : Z := VarintSize64PlusOne bsr (u64 value).

(** ** Fields *)

Definition WIRETYPE_VARINT : Z := 0.
Definition WIRETYPE_LENGTH_DELIMITED : Z := 2.

Definition MakeTag (field_number type : Z) : Z := Z.lor (Z.shiftl field_number 3) type.
Definition WriteTagToArray (field_number type : Z) : list Z := UnsafeVarint (MakeTag field_number type).

Definition WriteInt32ToArray (field_number value : Z) : list Z :=
  WriteTagToArray field_number WIRETYPE_VARINT ++ UnsafeVarint (u64 value).
Definition WriteInt64ToArray (field_number value : Z) : list Z :=
  WriteTagToArray field_number WIRETYPE_VARINT ++ UnsafeVarint (u64 value).
Definition WriteUInt64ToArray (field_number value : Z) : list Z :=
  WriteTagToArray field_number WIRETYPE_VARINT ++ UnsafeVarint value.
Definition WriteBoolToArray (field_number : Z) (value : bool) : list Z :=
  WriteTagToArray field_number WIRETYPE_VARINT ++ [if value then 1 else 0].

(** The functions of the library's own files: the two writers, the tests and
    updates of the presence bits, the string of a field, the unknown fields. *)
Class ProtobufLib := {
  WriteStringMaybeAliasedOutline : Z -> list Z -> list Z;
  InternalWriteMessage : Z -> Z -> list Z -> list Z;
  CheckHasBit : Z -> Z -> bool;
  BatchCheckHasBit : Z -> Z -> bool;
  CheckHasBitForRepeated : Z -> Z -> bool;
  SetHasBit : Z -> Z -> Z;
  SetHasBitForRepeated : Z -> Z -> Z;
  ArenaStringPtr : Type;
  string_New : ArenaStringPtr;
  string_Get : ArenaStringPtr -> list Z;
  string_Set : list Z -> ArenaStringPtr -> ArenaStringPtr;
  string_IsDefault : ArenaStringPtr -> bool;
  ClearNonDefaultToEmpty : ArenaStringPtr -> ArenaStringPtr;
  InternalMetadata : Type;
  metadata_New : InternalMetadata;
  have_unknown_fields : InternalMetadata -> bool;
  InternalSerializeUnknownFieldsToArray : InternalMetadata -> list Z;
  MaybeComputeUnknownFieldsSize : InternalMetadata -> Z -> Z;
  metadata_Clear : InternalMetadata -> InternalMetadata;
  metadata_MergeFrom : InternalMetadata -> InternalMetadata -> InternalMetadata;
}.

Section fields.
Context {L : ProtobufLib}.

(** [room]: the stream's buffer has place for tag, size and string. *)
Definition WriteStringMaybeAliased (room : bool) (num : Z) (s : list Z) : list Z :=
  let size := Z.of_nat (length s) in
  if (size >=? 128) || negb room then WriteStringMaybeAliasedOutline num s
  else UnsafeVarint (Z.lor (Z.shiftl num 3) 2) ++ [u8 size] ++ s.
End fields.

Definition Int32SizePlusOne (bsr : bool) (value : Z) : Z := VarintSize32SignExtendedPlusOne bsr value.
Definition Int64SizePlusOne (bsr : bool) (value : Z) : Z := VarintSize64PlusOne bsr (u64 value).
Definition UInt64SizePlusOne (bsr : bool) (value : Z) : Z := VarintSize64PlusOne bsr value.

Definition LengthDelimitedSize (bsr : bool) (length : Z) : Z := length + VarintSize32 bsr (u32 length).
Definition StringSize (bsr : bool) (s : list Z) : Z := LengthDelimitedSize bsr (Z.of_nat (length s)).

(** ** The reference: the documented format *)

(** Seven bits a byte, least significant first; the top bit says that more follow. *)
Fixpoint read_varint (bs : list Z) : option (Z * list Z) :=
  match bs with
  | [] => None
  | b :: bs' =>
      if b <? 128 then Some (b, bs')
      else '(v, rest) ← read_varint bs'; Some (b - 128 + 128 * v, rest)
  end.

(** A record: its field number with a varint or a length and that many bytes. *)
Inductive wire_value := WVarint (v : Z) | WBytes (s : list Z).

Definition read_field (bs : list Z) : option (Z * wire_value * list Z) :=
  '(tag, bs) ← read_varint bs;
  if tag mod 8 =? 0 then '(v, bs) ← read_varint bs; Some (tag / 8, WVarint v, bs)
  else if tag mod 8 =? 2 then
    '(n, bs) ← read_varint bs;
    if Z.of_nat (length bs) <? n then None
    else Some (tag / 8, WBytes (take (Z.to_nat n) bs), drop (Z.to_nat n) bs)
  else None.

Fixpoint read_fields_loop (fuel : nat) (bs : list Z) : option (list (Z * wire_value)) :=
  match fuel, bs with
  | _, [] => Some []
  | O, _ => None
  | S fuel, _ =>
      '(n, v, bs) ← read_field bs;
      rest ← read_fields_loop fuel bs;
      Some ((n, v) :: rest)
  end.

(** Every record takes at least two bytes. *)
Definition read_fields (bs : list Z) : option (list (Z * wire_value)) := read_fields_loop (length bs) bs.

Definition length_delimited (num : Z) (s : list Z) : list Z :=
  UnsafeVarint (MakeTag num WIRETYPE_LENGTH_DELIMITED) ++ UnsafeVarint (Z.of_nat (length s)) ++ s.

(** What the unknown fields add to a message. *)
Definition unknown_bytes {L : ProtobufLib} (d : InternalMetadata) : list Z :=
  if have_unknown_fields d then InternalSerializeUnknownFieldsToArray d else [].

(** The library writes length-delimited records; a message is written with the
    size cached in it, which must be its own.  A presence bit is one bit of a word;
    the bit of a repeated field is only a hint, and may be ignored when it is
    clear.  A string that is the default is empty, one that was set is not the
    default, and ClearNonDefaultToEmpty may be called only on the latter. *)
Class ProtobufLib_ok (L : ProtobufLib) := {
  outline_writes : forall num s, Z.of_nat (length s) < 2 ^ 31 ->
    WriteStringMaybeAliasedOutline num s = length_delimited num s;
  message_writes : forall num s, Z.of_nat (length s) < 2 ^ 31 ->
    InternalWriteMessage num (Z.of_nat (length s)) s = length_delimited num s;
  check_bit : forall bits mask, CheckHasBit bits mask = negb (Z.land bits mask =? 0);
  batch_bit : forall bits mask, BatchCheckHasBit bits mask = negb (Z.land bits mask =? 0);
  repeated_bit : forall bits mask, Z.land bits mask <> 0 -> CheckHasBitForRepeated bits mask = true;
  set_bit : forall bits mask, SetHasBit bits mask = Z.lor bits mask;
  set_repeated_bit : forall bits mask, SetHasBitForRepeated bits mask = Z.lor bits mask;
  string_new : string_IsDefault string_New = true;
  string_default : forall p, string_IsDefault p = true -> string_Get p = [];
  string_set : forall s p, string_Get (string_Set s p) = s;
  string_set_own : forall s p, string_IsDefault (string_Set s p) = false;
  string_cleared : forall p, string_IsDefault p = false -> string_Get (ClearNonDefaultToEmpty p) = [];
  metadata_new : have_unknown_fields metadata_New = false;
  metadata_cleared : forall d, have_unknown_fields (metadata_Clear d) = false;
  unknown_size : forall d n, MaybeComputeUnknownFieldsSize d n = n + Z.of_nat (length (unknown_bytes d));
  metadata_merged : forall d e, unknown_bytes (metadata_MergeFrom d e) = unknown_bytes d ++ unknown_bytes e;
}.

(** ** Varints round-trip *)

Lemma u8_small v : 0 <= v < 256 -> u8 v = v.
Proof. intros H. by apply wrapU_small. Qed.

(** The byte the loop writes when more follow. *)
Lemma continued_byte v : u8 (Z.lor v 128) = v mod 128 + 128.
Proof.
  unfold wrapU. change 128 with (2 ^ 7).
  transitivity (Z.lor (v mod 2 ^ 7) (2 ^ 7)).
  - apply Z.bits_inj'. intros n Hn.
    rewrite Z.lor_spec, Z.pow2_bits_eqb by lia.
    destruct (Z.lt_trichotomy n 7) as [H|[->|H]].
    + rewrite !Z.mod_pow2_bits_low, Z.lor_spec, Z.pow2_bits_eqb by lia. done.
    + rewrite Z.mod_pow2_bits_low, Z.lor_spec, Z.pow2_bits_eqb, Z.eqb_refl by lia. by rewrite !orb_true_r.
    + rewrite (Z.mod_pow2_bits_high v) by lia. rewrite (proj2 (Z.eqb_neq 7 n)) by lia.
      destruct (Z.lt_ge_cases n 8); [lia|]. by rewrite Z.mod_pow2_bits_high by lia.
  - assert (Z.land (v mod 2 ^ 7) (2 ^ 7) = 0) as Hd.
    { apply Z.bits_inj'. intros n Hn. rewrite Z.land_spec, Z.pow2_bits_eqb, Z.bits_0 by lia.
      destruct (Z.eqb_spec 7 n) as [<-|]; [by rewrite Z.mod_pow2_bits_high by lia|by rewrite andb_false_r]. }
    by rewrite Z.add_nocarry_lxor, Z.lxor_lor.
Qed.

Lemma shiftr_7 v : Z.shiftr v 7 = v / 128.
Proof. by rewrite Z.shiftr_div_pow2 by lia. Qed.

Lemma varint_loop_step fuel v :
  UnsafeVarint_loop (S fuel) v =
    if v >=? 128 then v mod 128 + 128 :: UnsafeVarint_loop fuel (v / 128) else [u8 v].
Proof. cbn [UnsafeVarint_loop]. by rewrite continued_byte, shiftr_7. Qed.

Lemma varint_loop_fuel (P : nat -> Z -> Prop) :
  (forall fuel v, 0 <= v < 128 -> P (S fuel) v) ->
  (forall fuel v, 128 <= v < 128 ^ Z.of_nat (S fuel) -> P fuel (v / 128) -> P (S fuel) v) ->
  forall fuel v, 0 <= v < 128 ^ Z.of_nat fuel -> (0 < fuel)%nat -> P fuel v.
Proof.
  intros H0 HS fuel. induction fuel as [|fuel IH]; intros v Hv Hf; [lia|].
  destruct (Z.lt_ge_cases v 128); [apply H0; lia|]. apply HS; [lia|].
  rewrite Nat2Z.inj_succ, Z.pow_succ_r in Hv by lia.
  apply IH; [split; [apply Z.div_pos; lia|apply Z.div_lt_upper_bound; lia]|].
  destruct fuel; [cbn in Hv; lia|lia].
Qed.

Lemma read_varint_loop rest fuel v :
  0 <= v < 128 ^ Z.of_nat fuel -> (0 < fuel)%nat ->
  read_varint (UnsafeVarint_loop fuel v ++ rest) = Some (v, rest).
Proof.
  revert fuel v. apply varint_loop_fuel.
  - intros fuel v Hv. rewrite varint_loop_step. destruct (Z.geb_spec v 128); [lia|]. cbn.
    rewrite u8_small by lia. by rewrite (proj2 (Z.ltb_lt _ _)) by lia.
  - intros fuel v Hv IH. rewrite varint_loop_step. destruct (Z.geb_spec v 128); [|lia]. cbn [app read_varint].
    pose proof (Z.mod_pos_bound v 128 ltac:(lia)).
    rewrite (proj2 (Z.ltb_ge _ _)) by lia. rewrite IH. cbn. do 2 f_equal. pose proof (Z.div_mod v 128). lia.
Qed.

Lemma varint_loop_length fuel v :
  0 <= v < 128 ^ Z.of_nat fuel -> (0 < fuel)%nat ->
  Z.of_nat (length (UnsafeVarint_loop fuel v)) = Z.log2 v / 7 + 1.
Proof.
  revert fuel v. apply varint_loop_fuel.
  - intros fuel v Hv. rewrite varint_loop_step. destruct (Z.geb_spec v 128); [lia|]. cbn [length].
    destruct (decide (v = 0)) as [->|]; [done|]. rewrite Z.div_small; [done|].
    split; [apply Z.log2_nonneg|]. apply Z.log2_lt_pow2; lia.
  - intros fuel v Hv IH. rewrite varint_loop_step. destruct (Z.geb_spec v 128); [|lia]. cbn [length].
    rewrite Nat2Z.inj_succ, IH, <- shiftr_7, Z.log2_shiftr by lia.
    assert (7 <= Z.log2 v) by (apply Z.log2_le_pow2; lia).
    rewrite Z.max_r by lia. replace (Z.log2 v) with ((Z.log2 v - 7) + 1 * 7) at 2 by lia.
    rewrite Z.div_add by lia. lia.
Qed.

Lemma varint_roundtrip v rest : 0 <= v < 2 ^ 64 -> read_varint (UnsafeVarint v ++ rest) = Some (v, rest).
Proof. intros Hv. apply read_varint_loop; [change (128 ^ Z.of_nat 10) with (2 ^ 70); lia|lia]. Qed.

Lemma varint_length v : 0 <= v < 2 ^ 64 -> Z.of_nat (length (UnsafeVarint v)) = Z.log2 v / 7 + 1.
Proof. intros Hv. apply varint_loop_length; [change (128 ^ Z.of_nat 10) with (2 ^ 70); lia|lia]. Qed.

(** ** Sizes *)

(** The multiplication that replaces a division by 7. *)
Lemma nine_sixtyfourths l : 0 <= l < 64 -> (l * 9 + 73) / 64 = l / 7 + 1.
Proof.
  intros Hl. assert (forallb (fun n => (Z.of_nat n * 9 + 73) / 64 =? Z.of_nat n / 7 + 1) (seq 0 64) = true) as H
    by (vm_compute; reflexivity).
  rewrite forallb_forall in H. specialize (H (Z.to_nat l)). rewrite Z2Nat.id in H by lia.
  apply Z.eqb_eq, H, in_seq. lia.
Qed.

Lemma VarintSize_eq bsr digits extra v :
  digits = 32 \/ digits = 64 -> 0 <= v < 2 ^ digits ->
  VarintSize bsr digits (64 * extra) v = Z.log2 v / 7 + 1 + extra.
Proof.
  intros Hd Hv. assert (0 <= Z.log2 v < digits) as Hl.
  { split; [apply Z.log2_nonneg|]. destruct (decide (v = 0)) as [->|]; [cbn; lia|]. apply Z.log2_lt_pow2; lia. }
  rewrite <- nine_sixtyfourths by lia. rewrite <- Z.div_add by lia.
  unfold VarintSize, countl_zero. destruct bsr.
  - assert (Z.lor v 1 <> 0) by (intros [_ ?]%Z.lor_eq_0_iff; done).
    rewrite (proj2 (Z.eqb_neq _ _)) by done. rewrite Z.log2_lor, Z.max_l by (cbn; lia).
    f_equal. lia.
  - destruct (Z.eqb_spec v 0) as [->|]; [|f_equal; lia]. cbn [Z.log2 Z.mul Z.add].
    replace (digits * 9 + 64 + 64 * extra - digits * 9) with (64 + extra * 64) by lia.
    by rewrite !Z.div_add by lia.
Qed.

Lemma size64_exact bsr extra v :
  0 <= v < 2 ^ 64 -> VarintSize bsr 64 (64 * extra) v = Z.of_nat (length (UnsafeVarint v)) + extra.
Proof. intros Hv. by rewrite VarintSize_eq, varint_length by auto. Qed.

Lemma size32_exact bsr v :
  0 <= v < 2 ^ 32 -> VarintSize32 bsr v = Z.of_nat (length (UnsafeVarint v)).
Proof.
  intros Hv. unfold VarintSize32. change 0 with (64 * 0). rewrite VarintSize_eq, varint_length by auto with lia. lia.
Qed.

Lemma varint_short v : 0 <= v < 2 ^ 64 -> Z.of_nat (length (UnsafeVarint v)) <= 10.
Proof.
  intros Hv. rewrite varint_length by done. assert (Z.log2 v < 64).
  { destruct (decide (v = 0)) as [->|]; [done|]. apply Z.log2_lt_pow2; lia. }
  pose proof (Z.div_le_mono (Z.log2 v) 63 7). change (63 / 7) with 9 in *. lia.
Qed.

(** the sizes protobuf computes with a count of leading zeros, a
    multiplication by 9 and a shift are the lengths of the varints it writes, for
    every 32- and 64-bit value and in both variants of the code. *)
Theorem varint_size_exact (bsr : bool) (v : Z) :
  0 <= v < 2 ^ 64 ->
  VarintSize64 bsr v = Z.of_nat (length (UnsafeVarint v)) /\
  VarintSize64PlusOne bsr v = 1 + Z.of_nat (length (UnsafeVarint v)) /\
  (v < 2 ^ 32 -> VarintSize32 bsr v = Z.of_nat (length (UnsafeVarint v))) /\
  (1 <= length (UnsafeVarint v) <= 10)%nat.
Proof.
  intros Hv. split_and!.
  - rewrite <- (Z.add_0_r (Z.of_nat _)). by apply (size64_exact bsr 0).
  - rewrite Z.add_comm. by apply (size64_exact bsr 1).
  - intros H. apply size32_exact. lia.
  - pose proof (varint_length v Hv). pose proof (Z.log2_nonneg v).
    pose proof (Z.div_pos (Z.log2 v) 7). lia.
  - pose proof (varint_short v Hv). lia.
Qed.

Lemma varint_size_exact_witness :
  VarintSize64 true 300 = 2 /\ VarintSize64 false 18446744073709551615 = 10.
Proof.
  split; [apply (varint_size_exact true 300); lia|].
  rewrite (proj1 (varint_size_exact false 18446744073709551615 ltac:(lia))). reflexivity.
Defined.

(** ** Fields are read back *)

Lemma MakeTag_eq num type : 0 <= num -> 0 <= type < 8 -> MakeTag num type = num * 8 + type.
Proof.
  intros Hn Ht. unfold MakeTag. rewrite Z.shiftl_mul_pow2 by lia. change (2 ^ 3) with 8.
  rewrite <- Z.lxor_lor, <- Z.add_nocarry_lxor; [done|..];
    (apply Z.bits_inj'; intros n Hi; rewrite Z.land_spec, Z.bits_0; change 8 with (2 ^ 3);
     destruct (Z.lt_ge_cases n 3);
     [by rewrite Z.mul_pow2_bits_low
     |rewrite <- (Z.mod_small type (2 ^ 3)), Z.mod_pow2_bits_high by lia; by rewrite andb_false_r]).
Qed.

Lemma read_tag num type bs :
  0 < num < 2 ^ 29 -> 0 <= type < 8 ->
  read_varint (WriteTagToArray num type ++ bs) = Some (num * 8 + type, bs) /\
  (num * 8 + type) mod 8 = type /\ (num * 8 + type) / 8 = num.
Proof.
  intros Hn Ht. unfold WriteTagToArray. rewrite MakeTag_eq, varint_roundtrip by lia. split_and!; [done|..].
  - rewrite Z.add_comm, Z.mod_add, Z.mod_small by lia. done.
  - rewrite Z.add_comm, Z.div_add, Z.div_small by lia. lia.
Qed.

Lemma read_varint_field num v bs :
  0 < num < 2 ^ 29 -> 0 <= v < 2 ^ 64 ->
  read_field (WriteTagToArray num WIRETYPE_VARINT ++ UnsafeVarint v ++ bs) = Some (num, WVarint v, bs).
Proof.
  intros Hn Hv. unfold read_field, WIRETYPE_VARINT.
  destruct (read_tag num 0 (UnsafeVarint v ++ bs) Hn ltac:(lia)) as (-> & Hm & Hd). cbn [mbind option_bind].
  rewrite Hm, Hd. cbn [Z.eqb]. rewrite varint_roundtrip by done. done.
Qed.

Lemma read_delimited num s bs :
  0 < num < 2 ^ 29 -> Z.of_nat (length s) < 2 ^ 31 ->
  read_field (length_delimited num s ++ bs) = Some (num, WBytes s, bs).
Proof.
  intros Hn Hs. unfold read_field, length_delimited. rewrite <- !app_assoc.
  change (UnsafeVarint (MakeTag num WIRETYPE_LENGTH_DELIMITED)) with (WriteTagToArray num 2).
  destruct (read_tag num 2 (UnsafeVarint (Z.of_nat (length s)) ++ s ++ bs) Hn ltac:(lia)) as (-> & Hm & Hd).
  cbn [mbind option_bind]. rewrite Hm, Hd. cbn [Z.eqb Pos.eqb].
  rewrite varint_roundtrip by lia. cbn [mbind option_bind]. rewrite length_app.
  rewrite (proj2 (Z.ltb_ge _ _)) by lia. by rewrite Nat2Z.id, take_app_length, drop_app_length.
Qed.
