(* ===== verification/Messages.v ===== *)
(** * The messages of the administration protocol

    src/DhNet_Server/DhNet_Ipc/generated/dhnet.pb.h and dhnet.pb.cc, the classes
    protoc wrote for dhnet.proto: constructors, the setters the server calls,
    Clear, _InternalSerialize, ByteSizeLong, MergeImpl and CopyFrom, over the wire
    functions of Wire.v.  The helpers [put_*], [count_*] and [merge_*] are the
    guarded blocks the generated functions repeat for each field.

    Every message is proved against one specification ([Generated]): its fields as
    a list of slots, from which its bytes, its size and the effect of Clear and
    MergeImpl follow by lemmas shared by all of them.

    [room] says for each string whether the stream's buffer has place for it, [bsr]
    which variant of the size computation was compiled.  The checks compiled only
    into hardened debug builds, and VerifyUtf8String, which only logs, are left
    out.  So is parsing, which the library does from tables. *)

From S2P Require Import Prelude Bytes Wire.
#[local] Open Scope Z_scope.

(** ** What the classes share *)

Section messages.
Context {L : ProtobufLib}.

(** A message: presence bits, the fields of its class, unknown fields and the
    size its last ByteSizeLong computed. *)
Record Message (F : Type) := mkMessage {
  _has_bits_ : Z;
  _impl_ : F;
  _internal_metadata_ : InternalMetadata;
  _cached_size_ : Z;
}.
Arguments mkMessage {F}.
Arguments _has_bits_ {F}.
Arguments _impl_ {F}.
Arguments _internal_metadata_ {F}.
Arguments _cached_size_ {F}.

Definition new_message {F} (impl : F) : Message F := mkMessage 0 impl metadata_New 0.

(** A setter: writes the field and sets its bit. *)
Definition set_field {F} (mask : Z) (write : F -> F) (m : Message F) : Message F :=
  mkMessage (SetHasBit (_has_bits_ m) mask) (write (_impl_ m)) (_internal_metadata_ m) (_cached_size_ m).

(** _InternalSerialize, for one field. *)
Definition put_int64 (bits mask num v : Z) : list Z :=
  if CheckHasBit bits mask then if negb (v =? 0) then WriteInt64ToArray num v else [] else [].
Definition put_int32 (bits mask num v : Z) : list Z :=
  if CheckHasBit bits mask then if negb (v =? 0) then WriteInt32ToArray num v else [] else [].
Definition put_uint64 (bits mask num v : Z) : list Z :=
  if CheckHasBit bits mask then if negb (v =? 0) then WriteUInt64ToArray num v else [] else [].
Definition put_bool (bits mask num : Z) (v : bool) : list Z :=
  if CheckHasBit bits mask then if v then WriteBoolToArray num v else [] else [].
Definition put_string (room : Z -> bool) (bits mask num : Z) (p : ArenaStringPtr) : list Z :=
  if CheckHasBit bits mask then
    if negb (length (string_Get p) =? 0)%nat then WriteStringMaybeAliased (room num) num (string_Get p) else []
  else [].

(** ByteSizeLong, for one field; [1 +] is the tag's byte. *)
Definition count_int64 (bsr : bool) (bits mask v : Z) : Z :=
  if CheckHasBit bits mask then if negb (v =? 0) then Int64SizePlusOne bsr v else 0 else 0.
Definition count_int32 (bsr : bool) (bits mask v : Z) : Z :=
  if CheckHasBit bits mask then if negb (v =? 0) then Int32SizePlusOne bsr v else 0 else 0.
Definition count_uint64 (bsr : bool) (bits mask v : Z) : Z :=
  if CheckHasBit bits mask then if negb (v =? 0) then UInt64SizePlusOne bsr v else 0 else 0.
Definition count_bool (bits mask : Z) (v : bool) : Z :=
  if CheckHasBit bits mask then if v then 2 else 0 else 0.
Definition count_string (bsr : bool) (bits mask : Z) (p : ArenaStringPtr) : Z :=
  if CheckHasBit bits mask then
    if negb (length (string_Get p) =? 0)%nat then 1 + StringSize bsr (string_Get p) else 0
  else 0.

(** The end of ByteSizeLong: the size is returned, and cached as an int. *)
Definition sized {F} (total_size : Z) (m : Message F) : Z * Message F :=
  let size := MaybeComputeUnknownFieldsSize (_internal_metadata_ m) total_size in
  (size, mkMessage (_has_bits_ m) (_impl_ m) (_internal_metadata_ m) (i32 size)).

(** MergeImpl, for one field. *)
Definition merge_int (bits mask to from : Z) : Z :=
  if CheckHasBit bits mask then if negb (from =? 0) then from else to else to.
Definition merge_bool (bits mask : Z) (to from : bool) : bool :=
  if CheckHasBit bits mask then if from then from else to else to.
Definition merge_string (bits mask : Z) (to from : ArenaStringPtr) : ArenaStringPtr :=
  if CheckHasBit bits mask then
    if negb (length (string_Get from) =? 0)%nat then string_Set (string_Get from) to
    else if string_IsDefault to then string_Set [] to else to
  else to.

(** The end of MergeImpl. *)
Definition merged {F} (impl : F) (to from : Message F) : Message F :=
  mkMessage (Z.lor (_has_bits_ to) (_has_bits_ from)) impl
    (metadata_MergeFrom (_internal_metadata_ to) (_internal_metadata_ from)) (_cached_size_ to).

(** The end of Clear. *)
Definition cleared {F} (impl : F) (m : Message F) : Message F :=
  mkMessage 0 impl (metadata_Clear (_internal_metadata_ m)) (_cached_size_ m).

(** ** HealthCheckResponse *)

Record HealthCheckResponse := mkHealthCheckResponse { hcr_status : ArenaStringPtr }.

Definition HealthCheckResponse_New : Message HealthCheckResponse := new_message (mkHealthCheckResponse string_New).

Definition HealthCheckResponse_set_status (s : list Z) : Message HealthCheckResponse -> Message HealthCheckResponse :=
  set_field 0x1 (fun i => mkHealthCheckResponse (string_Set s (hcr_status i))).

Definition HealthCheckResponse_Clear (m : Message HealthCheckResponse) : Message HealthCheckResponse :=
  let i := _impl_ m in
  cleared (if CheckHasBit (_has_bits_ m) 0x1 then mkHealthCheckResponse (ClearNonDefaultToEmpty (hcr_status i)) else i) m.

Definition HealthCheckResponse_InternalSerialize (room : Z -> bool) (m : Message HealthCheckResponse) : list Z :=
  put_string room (_has_bits_ m) 0x1 1 (hcr_status (_impl_ m)) ++ unknown_bytes (_internal_metadata_ m).

Definition HealthCheckResponse_ByteSizeLong (bsr : bool) (m : Message HealthCheckResponse)
  : Z * Message HealthCheckResponse :=
  sized (0 + count_string bsr (_has_bits_ m) 0x1 (hcr_status (_impl_ m))) m.

Definition HealthCheckResponse_MergeImpl (to from : Message HealthCheckResponse) : Message HealthCheckResponse :=
  merged (mkHealthCheckResponse (merge_string (_has_bits_ from) 0x1 (hcr_status (_impl_ to)) (hcr_status (_impl_ from))))
    to from.

(** ** RoomInfo *)

Record RoomInfo := mkRoomInfo {
  ri_name : ArenaStringPtr;
  ri_id : Z;
  ri_playercount : Z;
  ri_capacity : Z;
}.

Definition RoomInfo_New : Message RoomInfo := new_message (mkRoomInfo string_New 0 0 0).

Definition RoomInfo_set_id (v : Z) : Message RoomInfo -> Message RoomInfo :=
  set_field 0x2 (fun i => mkRoomInfo (ri_name i) v (ri_playercount i) (ri_capacity i)).
Definition RoomInfo_set_name (s : list Z) : Message RoomInfo -> Message RoomInfo :=
  set_field 0x1 (fun i => mkRoomInfo (string_Set s (ri_name i)) (ri_id i) (ri_playercount i) (ri_capacity i)).
Definition RoomInfo_set_playercount (v : Z) : Message RoomInfo -> Message RoomInfo :=
  set_field 0x4 (fun i => mkRoomInfo (ri_name i) (ri_id i) v (ri_capacity i)).
Definition RoomInfo_set_capacity (v : Z) : Message RoomInfo -> Message RoomInfo :=
  set_field 0x8 (fun i => mkRoomInfo (ri_name i) (ri_id i) (ri_playercount i) v).

Definition RoomInfo_Clear (m : Message RoomInfo) : Message RoomInfo :=
  let bits := _has_bits_ m in
  let i := _impl_ m in
  let name := if CheckHasBit bits 0x1 then ClearNonDefaultToEmpty (ri_name i) else ri_name i in
  cleared (if BatchCheckHasBit bits 0xe then mkRoomInfo name 0 0 0
           else mkRoomInfo name (ri_id i) (ri_playercount i) (ri_capacity i)) m.

Definition RoomInfo_InternalSerialize (room : Z -> bool) (m : Message RoomInfo) : list Z :=
  let bits := _has_bits_ m in
  let i := _impl_ m in
  put_int64 bits 0x2 1 (ri_id i) ++
  put_string room bits 0x1 2 (ri_name i) ++
  put_int32 bits 0x4 3 (ri_playercount i) ++
  put_int32 bits 0x8 4 (ri_capacity i) ++
  unknown_bytes (_internal_metadata_ m).

Definition RoomInfo_ByteSizeLong (bsr : bool) (m : Message RoomInfo) : Z * Message RoomInfo :=
  let bits := _has_bits_ m in
  let i := _impl_ m in
  sized (if BatchCheckHasBit bits 0xf then
           0 + count_string bsr bits 0x1 (ri_name i)
             + count_int64 bsr bits 0x2 (ri_id i)
             + count_int32 bsr bits 0x4 (ri_playercount i)
             + count_int32 bsr bits 0x8 (ri_capacity i)
         else 0) m.

Definition RoomInfo_MergeImpl (to from : Message RoomInfo) : Message RoomInfo :=
  let bits := _has_bits_ from in
  let t := _impl_ to in
  let f := _impl_ from in
  merged (if BatchCheckHasBit bits 0xf then
            mkRoomInfo (merge_string bits 0x1 (ri_name t) (ri_name f))
              (merge_int bits 0x2 (ri_id t) (ri_id f))
              (merge_int bits 0x4 (ri_playercount t) (ri_playercount f))
              (merge_int bits 0x8 (ri_capacity t) (ri_capacity f))
          else t) to from.

(** ** BroadcastRequest *)

Record BroadcastRequest := mkBroadcastRequest { brq_message : ArenaStringPtr; brq_roomid : Z }.

Definition BroadcastRequest_New : Message BroadcastRequest := new_message (mkBroadcastRequest string_New 0).

Definition BroadcastRequest_set_roomid (v : Z) : Message BroadcastRequest -> Message BroadcastRequest :=
  set_field 0x2 (fun i => mkBroadcastRequest (brq_message i) v).
Definition BroadcastRequest_set_message (s : list Z) : Message BroadcastRequest -> Message BroadcastRequest :=
  set_field 0x1 (fun i => mkBroadcastRequest (string_Set s (brq_message i)) (brq_roomid i)).

Definition BroadcastRequest_Clear (m : Message BroadcastRequest) : Message BroadcastRequest :=
  let i := _impl_ m in
  let message := if CheckHasBit (_has_bits_ m) 0x1 then ClearNonDefaultToEmpty (brq_message i) else brq_message i in
  cleared (mkBroadcastRequest message 0) m.

Definition BroadcastRequest_InternalSerialize (room : Z -> bool) (m : Message BroadcastRequest) : list Z :=
  let bits := _has_bits_ m in
  put_int64 bits 0x2 1 (brq_roomid (_impl_ m)) ++
  put_string room bits 0x1 2 (brq_message (_impl_ m)) ++
  unknown_bytes (_internal_metadata_ m).

Definition BroadcastRequest_ByteSizeLong (bsr : bool) (m : Message BroadcastRequest) : Z * Message BroadcastRequest :=
  let bits := _has_bits_ m in
  sized (if BatchCheckHasBit bits 0x3 then
           0 + count_string bsr bits 0x1 (brq_message (_impl_ m)) + count_int64 bsr bits 0x2 (brq_roomid (_impl_ m))
         else 0) m.

Definition BroadcastRequest_MergeImpl (to from : Message BroadcastRequest) : Message BroadcastRequest :=
  let bits := _has_bits_ from in
  let t := _impl_ to in
  let f := _impl_ from in
  merged (if BatchCheckHasBit bits 0x3 then
            mkBroadcastRequest (merge_string bits 0x1 (brq_message t) (brq_message f))
              (merge_int bits 0x2 (brq_roomid t) (brq_roomid f))
          else t) to from.

(** ** BroadcastResponse *)

Record BroadcastResponse := mkBroadcastResponse { brs_detail : ArenaStringPtr; brs_success : bool }.

Definition BroadcastResponse_New : Message BroadcastResponse := new_message (mkBroadcastResponse string_New false).

Definition BroadcastResponse_set_success (v : bool) : Message BroadcastResponse -> Message BroadcastResponse :=
  set_field 0x2 (fun i => mkBroadcastResponse (brs_detail i) v).
Definition BroadcastResponse_set_detail (s : list Z) : Message BroadcastResponse -> Message BroadcastResponse :=
  set_field 0x1 (fun i => mkBroadcastResponse (string_Set s (brs_detail i)) (brs_success i)).

Definition BroadcastResponse_Clear (m : Message BroadcastResponse) : Message BroadcastResponse :=
  let i := _impl_ m in
  let detail := if CheckHasBit (_has_bits_ m) 0x1 then ClearNonDefaultToEmpty (brs_detail i) else brs_detail i in
  cleared (mkBroadcastResponse detail false) m.

Definition BroadcastResponse_InternalSerialize (room : Z -> bool) (m : Message BroadcastResponse) : list Z :=
  let bits := _has_bits_ m in
  put_bool bits 0x2 1 (brs_success (_impl_ m)) ++
  put_string room bits 0x1 2 (brs_detail (_impl_ m)) ++
  unknown_bytes (_internal_metadata_ m).

Definition BroadcastResponse_ByteSizeLong (bsr : bool) (m : Message BroadcastResponse) : Z * Message BroadcastResponse :=
  let bits := _has_bits_ m in
  sized (if BatchCheckHasBit bits 0x3 then
           0 + count_string bsr bits 0x1 (brs_detail (_impl_ m)) + count_bool bits 0x2 (brs_success (_impl_ m))
         else 0) m.

Definition BroadcastResponse_MergeImpl (to from : Message BroadcastResponse) : Message BroadcastResponse :=
  let bits := _has_bits_ from in
  let t := _impl_ to in
  let f := _impl_ from in
  merged (if BatchCheckHasBit bits 0x3 then
            mkBroadcastResponse (merge_string bits 0x1 (brs_detail t) (brs_detail f))
              (merge_bool bits 0x2 (brs_success t) (brs_success f))
          else t) to from.

(** ** PlayerInfo *)

Record PlayerInfo := mkPlayerInfo {
  pi_name : ArenaStringPtr;
  pi_id : Z;
  pi_lobbyindex : Z;
  pi_roomindex : Z;
}.

Definition PlayerInfo_New : Message PlayerInfo := new_message (mkPlayerInfo string_New 0 0 0).

Definition PlayerInfo_set_id (v : Z) : Message PlayerInfo -> Message PlayerInfo :=
  set_field 0x2 (fun i => mkPlayerInfo (pi_name i) v (pi_lobbyindex i) (pi_roomindex i)).
Definition PlayerInfo_set_name (s : list Z) : Message PlayerInfo -> Message PlayerInfo :=
  set_field 0x1 (fun i => mkPlayerInfo (string_Set s (pi_name i)) (pi_id i) (pi_lobbyindex i) (pi_roomindex i)).
Definition PlayerInfo_set_lobbyindex (v : Z) : Message PlayerInfo -> Message PlayerInfo :=
  set_field 0x4 (fun i => mkPlayerInfo (pi_name i) (pi_id i) v (pi_roomindex i)).
Definition PlayerInfo_set_roomindex (v : Z) : Message PlayerInfo -> Message PlayerInfo :=
  set_field 0x8 (fun i => mkPlayerInfo (pi_name i) (pi_id i) (pi_lobbyindex i) v).

Definition PlayerInfo_Clear (m : Message PlayerInfo) : Message PlayerInfo :=
  let bits := _has_bits_ m in
  let i := _impl_ m in
  let name := if CheckHasBit bits 0x1 then ClearNonDefaultToEmpty (pi_name i) else pi_name i in
  cleared (if BatchCheckHasBit bits 0xe then mkPlayerInfo name 0 0 0
           else mkPlayerInfo name (pi_id i) (pi_lobbyindex i) (pi_roomindex i)) m.

Definition PlayerInfo_InternalSerialize (room : Z -> bool) (m : Message PlayerInfo) : list Z :=
  let bits := _has_bits_ m in
  let i := _impl_ m in
  put_uint64 bits 0x2 1 (pi_id i) ++
  put_string room bits 0x1 2 (pi_name i) ++
  put_int32 bits 0x4 3 (pi_lobbyindex i) ++
  put_int32 bits 0x8 4 (pi_roomindex i) ++
  unknown_bytes (_internal_metadata_ m).

Definition PlayerInfo_ByteSizeLong (bsr : bool) (m : Message PlayerInfo) : Z * Message PlayerInfo :=
  let bits := _has_bits_ m in
  let i := _impl_ m in
  sized (if BatchCheckHasBit bits 0xf then
           0 + count_string bsr bits 0x1 (pi_name i)
             + count_uint64 bsr bits 0x2 (pi_id i)
             + count_int32 bsr bits 0x4 (pi_lobbyindex i)
             + count_int32 bsr bits 0x8 (pi_roomindex i)
         else 0) m.

Definition PlayerInfo_MergeImpl (to from : Message PlayerInfo) : Message PlayerInfo :=
  let bits := _has_bits_ from in
  let t := _impl_ to in
  let f := _impl_ from in
  merged (if BatchCheckHasBit bits 0xf then
            mkPlayerInfo (merge_string bits 0x1 (pi_name t) (pi_name f))
              (merge_int bits 0x2 (pi_id t) (pi_id f))
              (merge_int bits 0x4 (pi_lobbyindex t) (pi_lobbyindex f))
              (merge_int bits 0x8 (pi_roomindex t) (pi_roomindex f))
          else t) to from.

(** ** KickPlayerRequest *)

Record KickPlayerRequest := mkKickPlayerRequest { kpq_id : Z }.

Definition KickPlayerRequest_New : Message KickPlayerRequest := new_message (mkKickPlayerRequest 0).

Definition KickPlayerRequest_set_id (v : Z) : Message KickPlayerRequest -> Message KickPlayerRequest :=
  set_field 0x1 (fun _ => mkKickPlayerRequest v).

Definition KickPlayerRequest_Clear (m : Message KickPlayerRequest) : Message KickPlayerRequest :=
  cleared (mkKickPlayerRequest 0) m.

Definition KickPlayerRequest_InternalSerialize (room : Z -> bool) (m : Message KickPlayerRequest) : list Z :=
  put_uint64 (_has_bits_ m) 0x1 1 (kpq_id (_impl_ m)) ++ unknown_bytes (_internal_metadata_ m).

Definition KickPlayerRequest_ByteSizeLong (bsr : bool) (m : Message KickPlayerRequest) : Z * Message KickPlayerRequest :=
  sized (0 + count_uint64 bsr (_has_bits_ m) 0x1 (kpq_id (_impl_ m))) m.

Definition KickPlayerRequest_MergeImpl (to from : Message KickPlayerRequest) : Message KickPlayerRequest :=
  merged (mkKickPlayerRequest (merge_int (_has_bits_ from) 0x1 (kpq_id (_impl_ to)) (kpq_id (_impl_ from)))) to from.

(** ** KickPlayerResponse *)

Record KickPlayerResponse := mkKickPlayerResponse { kpr_detail : ArenaStringPtr; kpr_success : bool }.

Definition KickPlayerResponse_New : Message KickPlayerResponse := new_message (mkKickPlayerResponse string_New false).

Definition KickPlayerResponse_set_success (v : bool) : Message KickPlayerResponse -> Message KickPlayerResponse :=
  set_field 0x2 (fun i => mkKickPlayerResponse (kpr_detail i) v).
Definition KickPlayerResponse_set_detail (s : list Z) : Message KickPlayerResponse -> Message KickPlayerResponse :=
  set_field 0x1 (fun i => mkKickPlayerResponse (string_Set s (kpr_detail i)) (kpr_success i)).

Definition KickPlayerResponse_Clear (m : Message KickPlayerResponse) : Message KickPlayerResponse :=
  let i := _impl_ m in
  let detail := if CheckHasBit (_has_bits_ m) 0x1 then ClearNonDefaultToEmpty (kpr_detail i) else kpr_detail i in
  cleared (mkKickPlayerResponse detail false) m.

Definition KickPlayerResponse_InternalSerialize (room : Z -> bool) (m : Message KickPlayerResponse) : list Z :=
  let bits := _has_bits_ m in
  put_bool bits 0x2 1 (kpr_success (_impl_ m)) ++
  put_string room bits 0x1 2 (kpr_detail (_impl_ m)) ++
  unknown_bytes (_internal_metadata_ m).

Definition KickPlayerResponse_ByteSizeLong (bsr : bool) (m : Message KickPlayerResponse) : Z * Message KickPlayerResponse :=
  let bits := _has_bits_ m in
  sized (if BatchCheckHasBit bits 0x3 then
           0 + count_string bsr bits 0x1 (kpr_detail (_impl_ m)) + count_bool bits 0x2 (kpr_success (_impl_ m))
         else 0) m.

Definition KickPlayerResponse_MergeImpl (to from : Message KickPlayerResponse) : Message KickPlayerResponse :=
  let bits := _has_bits_ from in
  let t := _impl_ to in
  let f := _impl_ from in
  merged (if BatchCheckHasBit bits 0x3 then
            mkKickPlayerResponse (merge_string bits 0x1 (kpr_detail t) (kpr_detail f))
              (merge_bool bits 0x2 (kpr_success t) (kpr_success f))
          else t) to from.

(** ** LobbyInfo *)

Record LobbyInfo := mkLobbyInfo {
  li_id : Z;
  li_playercount : Z;
  li_capacity : Z;
}.

Definition LobbyInfo_New : Message LobbyInfo := new_message (mkLobbyInfo 0 0 0).

Definition LobbyInfo_set_id (v : Z) : Message LobbyInfo -> Message LobbyInfo :=
  set_field 0x1 (fun i => mkLobbyInfo v (li_playercount i) (li_capacity i)).
Definition LobbyInfo_set_playercount (v : Z) : Message LobbyInfo -> Message LobbyInfo :=
  set_field 0x2 (fun i => mkLobbyInfo (li_id i) v (li_capacity i)).
Definition LobbyInfo_set_capacity (v : Z) : Message LobbyInfo -> Message LobbyInfo :=
  set_field 0x4 (fun i => mkLobbyInfo (li_id i) (li_playercount i) v).

Definition LobbyInfo_Clear (m : Message LobbyInfo) : Message LobbyInfo :=
  cleared (if BatchCheckHasBit (_has_bits_ m) 0x7 then mkLobbyInfo 0 0 0 else _impl_ m) m.

Definition LobbyInfo_InternalSerialize (room : Z -> bool) (m : Message LobbyInfo) : list Z :=
  let bits := _has_bits_ m in
  let i := _impl_ m in
  put_int32 bits 0x1 1 (li_id i) ++
  put_int32 bits 0x2 2 (li_playercount i) ++
  put_int32 bits 0x4 3 (li_capacity i) ++
  unknown_bytes (_internal_metadata_ m).

Definition LobbyInfo_ByteSizeLong (bsr : bool) (m : Message LobbyInfo) : Z * Message LobbyInfo :=
  let bits := _has_bits_ m in
  let i := _impl_ m in
  sized (if BatchCheckHasBit bits 0x7 then
           0 + count_int32 bsr bits 0x1 (li_id i)
             + count_int32 bsr bits 0x2 (li_playercount i)
             + count_int32 bsr bits 0x4 (li_capacity i)
         else 0) m.

Definition LobbyInfo_MergeImpl (to from : Message LobbyInfo) : Message LobbyInfo :=
  let bits := _has_bits_ from in
  let t := _impl_ to in
  let f := _impl_ from in
  merged (if BatchCheckHasBit bits 0x7 then
            mkLobbyInfo (merge_int bits 0x1 (li_id t) (li_id f))
              (merge_int bits 0x2 (li_playercount t) (li_playercount f))
              (merge_int bits 0x4 (li_capacity t) (li_capacity f))
          else t) to from.

(** ** The specification: a message as a list of slots *)

Inductive slot_value :=
| SInt64 (v : Z)
| SInt32 (v : Z)
| SUInt64 (v : Z)
| SBool (v : bool)
| SText (p : ArenaStringPtr).

Record slot := Slot { s_number : Z; s_mask : Z; s_value : slot_value }.

Definition is_default (v : slot_value) : bool :=
  match v with
  | SInt64 v | SInt32 v | SUInt64 v => v =? 0
  | SBool v => negb v
  | SText p => (length (string_Get p) =? 0)%nat
  end.

(** The field as the documented format has it; a default value is left out. *)
Definition wire_of (v : slot_value) : wire_value :=
  match v with
  | SInt64 v | SInt32 v => WVarint (u64 v)
  | SUInt64 v => WVarint v
  | SBool v => WVarint (if v then 1 else 0)
  | SText p => WBytes (string_Get p)
  end.

Definition field_value (v : slot_value) : option wire_value := if is_default v then None else Some (wire_of v).

Definition present (l : list slot) : list (Z * wire_value) :=
  omap (fun s => (fun w => (s_number s, w)) <$> field_value (s_value s)) l.

Fixpoint field_of (n : Z) (l : list slot) : option wire_value :=
  match l with
  | [] => None
  | s :: l => if s_number s =? n then field_value (s_value s) else field_of n l
  end.

(** A value of its type's width, and a string short enough for the format. *)
Definition fits (v : slot_value) : Prop :=
  match v with
  | SUInt64 v => 0 <= v < 2 ^ 64
  | SText p => Z.of_nat (length (string_Get p)) < 2 ^ 31
  | _ => True
  end.

Definition slot_bytes (room : Z -> bool) (bits : Z) (s : slot) : list Z :=
  match s_value s with
  | SInt64 v => put_int64 bits (s_mask s) (s_number s) v
  | SInt32 v => put_int32 bits (s_mask s) (s_number s) v
  | SUInt64 v => put_uint64 bits (s_mask s) (s_number s) v
  | SBool v => put_bool bits (s_mask s) (s_number s) v
  | SText p => put_string room bits (s_mask s) (s_number s) p
  end.

Definition slot_size (bsr : bool) (bits : Z) (s : slot) : Z :=
  match s_value s with
  | SInt64 v => count_int64 bsr bits (s_mask s) v
  | SInt32 v => count_int32 bsr bits (s_mask s) v
  | SUInt64 v => count_uint64 bsr bits (s_mask s) v
  | SBool v => count_bool bits (s_mask s) v
  | SText p => count_string bsr bits (s_mask s) p
  end.

Definition sum (l : list Z) : Z := foldr Z.add 0 l.

(** What Clear makes of a value, and MergeImpl of two. *)
Definition clear_value (v : slot_value) : slot_value :=
  match v with
  | SInt64 _ => SInt64 0
  | SInt32 _ => SInt32 0
  | SUInt64 _ => SUInt64 0
  | SBool _ => SBool false
  | SText p => SText (ClearNonDefaultToEmpty p)
  end.

Definition merge_value (bits mask : Z) (to from : slot_value) : slot_value :=
  match to, from with
  | SInt64 t, SInt64 f => SInt64 (merge_int bits mask t f)
  | SInt32 t, SInt32 f => SInt32 (merge_int bits mask t f)
  | SUInt64 t, SUInt64 f => SUInt64 (merge_int bits mask t f)
  | SBool t, SBool f => SBool (merge_bool bits mask t f)
  | SText t, SText f => SText (merge_string bits mask t f)
  | _, _ => to
  end.

Definition merge_slot (bits : Z) (to from : slot) : slot :=
  Slot (s_number to) (s_mask to) (merge_value bits (s_mask to) (s_value to) (s_value from)).

(** A field whose bit is clear has its default value; a string whose bit is set
    is the message's own. *)
Definition slot_consistent (bits : Z) (s : slot) : Prop :=
  (CheckHasBit bits (s_mask s) = false -> is_default (s_value s) = true) /\
  (CheckHasBit bits (s_mask s) = true -> forall p, s_value s = SText p -> string_IsDefault p = false).

(** Clear resets a slot, or leaves it when its bit is clear. *)
Definition slot_clears (bits : Z) (s s' : slot) : Prop :=
  s_number s' = s_number s /\ s_mask s' = s_mask s /\
  ((CheckHasBit bits (s_mask s) = false /\ s_value s' = s_value s) \/
   (s_value s' = clear_value (s_value s) /\
    forall p, s_value s = SText p -> CheckHasBit bits (s_mask s) = true)).

(** The operations of a generated class, and its fields in the order of their
    numbers. *)
Class Generated (F : Type) := {
  g_New : Message F;
  g_Clear : Message F -> Message F;
  g_InternalSerialize : (Z -> bool) -> Message F -> list Z;
  g_ByteSizeLong : bool -> Message F -> Z * Message F;
  g_MergeImpl : Message F -> Message F -> Message F;
  slots : F -> list slot;
}.

Definition consistent {F} `{Generated F} (m : Message F) : Prop :=
  Forall (slot_consistent (_has_bits_ m)) (slots (_impl_ m)).

(** [same]: the two references are to one object. *)
Definition CopyFrom {F} `{Generated F} (same : bool) (to from : Message F) : Message F :=
  if same then to else g_MergeImpl (g_Clear to) from.

(** Two slots of one field. *)
Definition same_field (s s' : slot) : Prop :=
  s_number s = s_number s' /\ s_mask s = s_mask s' /\
  match s_value s, s_value s' with
  | SInt64 _, SInt64 _ | SInt32 _, SInt32 _ | SUInt64 _, SUInt64 _ | SBool _, SBool _ | SText _, SText _ => True
  | _, _ => False
  end.

(** Each operation acts slot by slot. *)
Class Generated_ok (F : Type) `{Generated F} := {
  new_empty : exists i, g_New = new_message i /\ Forall (fun s => is_default (s_value s) = true) (slots i);
  serialize_slots : forall room m,
    g_InternalSerialize room m =
      concat (slot_bytes room (_has_bits_ m) <$> slots (_impl_ m)) ++ unknown_bytes (_internal_metadata_ m);
  size_slots : forall bsr m, g_ByteSizeLong bsr m = sized (sum (slot_size bsr (_has_bits_ m) <$> slots (_impl_ m))) m;
  clear_slots : forall m, exists i,
    g_Clear m = cleared i m /\ Forall2 (slot_clears (_has_bits_ m)) (slots (_impl_ m)) (slots i);
  merge_slots : forall to from, exists i,
    g_MergeImpl to from = merged i to from /\
    slots i = zip_with (merge_slot (_has_bits_ from)) (slots (_impl_ to)) (slots (_impl_ from));
  slots_same : forall i j, Forall2 same_field (slots i) (slots j);
  slots_numbered : forall i, Forall (fun s => 0 < s_number s < 16) (slots i);
}.

(** ** Lemmas on slots *)

Context {Lok : ProtobufLib_ok L}.

Lemma check_lor a b mask : CheckHasBit (Z.lor a b) mask = CheckHasBit a mask || CheckHasBit b mask.
Proof.
  rewrite !check_bit, Z.land_lor_distr_l, <- negb_andb. f_equal.
  destruct (Z.eqb_spec (Z.lor (Z.land a mask) (Z.land b mask)) 0) as [[-> ->]%Z.lor_eq_0_iff|Hn]; [done|].
  destruct (Z.eqb_spec (Z.land a mask) 0) as [Ha|], (Z.eqb_spec (Z.land b mask) 0) as [Hb|]; try done.
  by rewrite Ha, Hb in Hn.
Qed.

Lemma check_zero mask : CheckHasBit 0 mask = false.
Proof. by rewrite check_bit. Qed.

(** A batch test that fails is a failed test of each of its bits. *)
Lemma batch_check bits batch mask :
  BatchCheckHasBit bits batch = false -> Z.land batch mask = mask -> CheckHasBit bits mask = false.
Proof.
  rewrite check_bit, batch_bit. intros Hb Hm. apply negb_false_iff, Z.eqb_eq in Hb.
  by rewrite <- Hm, Z.land_assoc, Hb.
Qed.

Lemma u64_range v : 0 <= u64 v < 2 ^ 64.
Proof. apply Z.mod_pos_bound. lia. Qed.

Lemma tag_length num type : 0 < num < 16 -> 0 <= type < 8 -> Z.of_nat (length (WriteTagToArray num type)) = 1.
Proof.
  intros Hn Ht. unfold WriteTagToArray. rewrite MakeTag_eq, varint_length by lia.
  rewrite Z.div_small; [done|]. split; [apply Z.log2_nonneg|]. apply Z.log2_lt_pow2; lia.
Qed.

Lemma size_plus_one bsr v : 0 <= v < 2 ^ 64 -> VarintSize64PlusOne bsr v = 1 + Z.of_nat (length (UnsafeVarint v)).
Proof. intros Hv. rewrite Z.add_comm. by apply (size64_exact bsr 1). Qed.

(** A string's bytes are one length-delimited record, however it is written. *)
Lemma write_string room num s :
  Z.of_nat (length s) < 2 ^ 31 -> WriteStringMaybeAliased room num s = length_delimited num s.
Proof.
  intros Hs. unfold WriteStringMaybeAliased.
  destruct (Z.geb_spec (Z.of_nat (length s)) 128); [by apply outline_writes|].
  destruct room; [|by apply outline_writes]. cbn [orb negb]. unfold length_delimited. do 2 f_equal.
  unfold UnsafeVarint. rewrite varint_loop_step. destruct (Z.geb_spec (Z.of_nat (length s)) 128); [lia|done].
Qed.

Lemma length_delimited_length bsr num s :
  0 < num < 16 -> Z.of_nat (length s) < 2 ^ 31 ->
  Z.of_nat (length (length_delimited num s)) = 1 + LengthDelimitedSize bsr (Z.of_nat (length s)).
Proof.
  intros Hn Hs. unfold length_delimited, LengthDelimitedSize.
  change (UnsafeVarint (MakeTag num WIRETYPE_LENGTH_DELIMITED)) with (WriteTagToArray num 2).
  rewrite !length_app, !Nat2Z.inj_add, tag_length by lia.
  rewrite (wrapU_small 32), size32_exact by lia. lia.
Qed.

(** The size of a slot is the length of its bytes. *)
Lemma slot_size_exact bsr room bits s :
  0 < s_number s < 16 -> fits (s_value s) -> slot_size bsr bits s = Z.of_nat (length (slot_bytes room bits s)).
Proof.
  intros Hn Hf. unfold slot_size, slot_bytes. pose proof (tag_length (s_number s) WIRETYPE_VARINT Hn ltac:(done)) as Ht.
  destruct (s_value s) as [v|v|v|v|p]; cbn [fits] in Hf;
    unfold count_int64, count_int32, count_uint64, count_bool, count_string, put_int64, put_int32, put_uint64,
      put_bool, put_string, Int64SizePlusOne, Int32SizePlusOne, UInt64SizePlusOne, StringSize,
      VarintSize32SignExtendedPlusOne, WriteInt64ToArray, WriteInt32ToArray, WriteUInt64ToArray, WriteBoolToArray;
    (destruct (CheckHasBit bits (s_mask s)); [|done]).
  1-3: destruct (v =? 0); [done|]; cbn [negb]; rewrite length_app, Nat2Z.inj_add, Ht; apply size_plus_one;
    try apply u64_range; done.
  - destruct v; [|done]. rewrite length_app, Nat2Z.inj_add, Ht. done.
  - destruct (length (string_Get p) =? 0)%nat; [done|]. cbn [negb].
    rewrite write_string by done. by rewrite (length_delimited_length bsr).
Qed.

Lemma slots_size_exact bsr room bits l :
  Forall (fun s => 0 < s_number s < 16) l -> Forall (fun s => fits (s_value s)) l ->
  sum (slot_size bsr bits <$> l) = Z.of_nat (length (concat (slot_bytes room bits <$> l))).
Proof.
  induction 1 as [|s l Hn _ IH]; intros Hf; inversion_clear Hf; [done|].
  cbn [fmap list_fmap sum foldr concat]. rewrite length_app, Nat2Z.inj_add, <- IH by done.
  by rewrite (slot_size_exact bsr room) by done.
Qed.

(** The record of a field in the documented format. *)
Definition wire_record (num : Z) (w : wire_value) : list Z :=
  match w with
  | WVarint v => WriteTagToArray num WIRETYPE_VARINT ++ UnsafeVarint v
  | WBytes s => length_delimited num s
  end.

Definition wire_fits (w : wire_value) : Prop :=
  match w with WVarint v => 0 <= v < 2 ^ 64 | WBytes s => Z.of_nat (length s) < 2 ^ 31 end.

Lemma fits_wire v : fits v -> wire_fits (wire_of v).
Proof. destruct v as [v|v|v|[]|p]; cbn; try done; intros _; apply u64_range. Qed.

Lemma read_record num w bs : 0 < num < 16 -> wire_fits w -> read_field (wire_record num w ++ bs) = Some (num, w, bs).
Proof.
  intros Hn Hw. destruct w as [v|s]; cbn [wire_record].
  - rewrite <- app_assoc. apply read_varint_field; [lia|done].
  - apply read_delimited; [lia|done].
Qed.

Lemma record_nonempty num w : 0 < num < 16 -> wire_fits w -> wire_record num w <> [].
Proof. intros Hn Hw He. pose proof (read_record num w [] Hn Hw) as Hr. by rewrite He in Hr. Qed.

(** Records in a row are read one by one. *)
Lemma read_records l :
  Forall (fun f => 0 < f.1 < 16 /\ wire_fits f.2) l ->
  read_fields (concat ((fun f => wire_record f.1 f.2) <$> l)) = Some l.
Proof.
  intros Hl. unfold read_fields.
  assert (forall fuel, (length (concat ((fun f => wire_record f.1 f.2) <$> l)) <= fuel)%nat ->
    read_fields_loop fuel (concat ((fun f => wire_record f.1 f.2) <$> l)) = Some l) as H; [|by apply H].
  induction Hl as [|[num w] l [Hn Hw] _ IH]; intros fuel Hf; [by destruct fuel|].
  cbn [fmap list_fmap concat fst snd] in *. rewrite length_app in Hf.
  pose proof (record_nonempty num w Hn Hw) as Hne.
  destruct (wire_record num w ++ _) as [|b bs] eqn:Eb; [by apply app_eq_nil in Eb as [? _]|].
  destruct fuel as [|fuel]; [destruct (wire_record num w); [done|cbn in Hf; lia]|].
  cbn [read_fields_loop]. rewrite <- Eb, read_record by done. cbn [mbind option_bind].
  rewrite IH; [done|]. destruct (wire_record num w); [done|]. cbn in Hf. lia.
Qed.

(** A slot's bytes are its record, and nothing for a default value. *)
Lemma slot_record room bits s :
  fits (s_value s) -> slot_consistent bits s ->
  slot_bytes room bits s = if is_default (s_value s) then [] else wire_record (s_number s) (wire_of (s_value s)).
Proof.
  intros Hf [Hc _]. unfold slot_bytes.
  destruct (s_value s) as [v|v|v|v|p]; cbn [fits is_default wire_of wire_record] in *;
    unfold put_int64, put_int32, put_uint64, put_bool, put_string in *;
    (destruct (CheckHasBit bits (s_mask s)); [|by rewrite Hc by done]).
  1-3: by destruct (v =? 0).
  - by destruct v.
  - destruct (length (string_Get p) =? 0)%nat; [done|]. by apply write_string.
Qed.

Lemma present_cons s l :
  present (s :: l) = if is_default (s_value s) then present l else (s_number s, wire_of (s_value s)) :: present l.
Proof.
  unfold present at 1. cbn [omap list_omap]. unfold field_value at 1. by destruct (is_default (s_value s)).
Qed.

Lemma slots_records room bits l :
  Forall (fun s => fits (s_value s)) l -> Forall (slot_consistent bits) l ->
  concat (slot_bytes room bits <$> l) = concat ((fun f => wire_record f.1 f.2) <$> present l).
Proof.
  induction 1 as [|s l Hf _ IH]; intros Hc; inversion_clear Hc; [done|].
  cbn [fmap list_fmap concat]. rewrite present_cons, slot_record by done.
  destruct (is_default (s_value s)); [by apply IH|]. cbn [fmap list_fmap concat]. f_equal. by apply IH.
Qed.

Lemma present_fits l :
  Forall (fun s => 0 < s_number s < 16) l -> Forall (fun s => fits (s_value s)) l ->
  Forall (fun f => 0 < f.1 < 16 /\ wire_fits f.2) (present l).
Proof.
  induction 1 as [|s l Hn _ IH]; intros Hf; inversion_clear Hf; [constructor|].
  rewrite present_cons. destruct (is_default (s_value s)); [by apply IH|].
  constructor; [split; [done|by apply fits_wire]|by apply IH].
Qed.

Lemma present_empty l : Forall (fun s => is_default (s_value s) = true) l -> present l = [].
Proof. induction 1 as [|s l Hs _ IH]; [done|]. by rewrite present_cons, Hs. Qed.

Lemma empty_consistent l : Forall (fun s => is_default (s_value s) = true) l -> Forall (slot_consistent 0) l.
Proof.
  intros Hl. eapply Forall_impl; [exact Hl|]. intros s Hs. split; [done|]. by rewrite check_zero.
Qed.

(** Clear leaves default values. *)
Lemma clear_default bits s s' :
  slot_consistent bits s -> slot_clears bits s s' -> is_default (s_value s') = true.
Proof.
  intros [Hc Ht] (_ & _ & [[Hb ->]|[-> Hb]]); [by apply Hc|].
  destruct (s_value s) as [v|v|v|v|p]; cbn; try done. by rewrite string_cleared by eauto.
Qed.

Lemma clear_all_default bits l l' :
  Forall (slot_consistent bits) l -> Forall2 (slot_clears bits) l l' ->
  Forall (fun s => is_default (s_value s) = true) l'.
Proof.
  intros Hl H. induction H; inversion_clear Hl; constructor; [by eapply clear_default|by auto].
Qed.

(** MergeImpl takes the other message's value unless it is the default. *)
Lemma merge_field bits to from :
  same_field to from -> slot_consistent bits from ->
  field_value (s_value (merge_slot bits to from)) =
    match field_value (s_value from) with Some w => Some w | None => field_value (s_value to) end.
Proof.
  intros (_ & Hm & Hk) [Hc _]. rewrite <- Hm in Hc. unfold merge_slot, field_value. cbn [s_value].
  destruct (s_value to) as [t|t|t|t|t], (s_value from) as [f|f|f|f|f]; try done; cbn [merge_value is_default] in *;
    unfold merge_int, merge_bool, merge_string;
    (destruct (CheckHasBit bits (s_mask to)); [|by rewrite Hc by done]).
  1-3: by destruct (f =? 0) eqn:Ef; cbn [negb is_default]; rewrite ?Ef.
  - by destruct f.
  - destruct (length (string_Get f) =? 0)%nat eqn:Ef; cbn [negb is_default wire_of]; [|by rewrite string_set, Ef].
    destruct (string_IsDefault t) eqn:Et; cbn [is_default wire_of]; [|done].
    by rewrite string_set, (string_default t).
Qed.

Lemma merge_consistent bt bf to from :
  same_field to from -> slot_consistent bt to -> slot_consistent bf from ->
  slot_consistent (Z.lor bt bf) (merge_slot bf to from).
Proof.
  intros (_ & Hm & Hk) [Ht1 Ht2] [Hf1 Hf2]. rewrite <- Hm in Hf1, Hf2. unfold slot_consistent, merge_slot. cbn [s_mask s_value].
  rewrite check_lor. split.
  - intros [Ea Eb]%orb_false_iff. specialize (Ht1 Ea). destruct (s_value to), (s_value from); try done;
      cbn [merge_value] in *; unfold merge_int, merge_bool, merge_string; by rewrite Eb.
  - intros Hb p Hp. destruct (s_value to) as [t|t|t|t|t], (s_value from) as [f|f|f|f|f]; try done.
    cbn [merge_value] in Hp. injection Hp as <-. unfold merge_string.
    destruct (CheckHasBit bf (s_mask to)) eqn:Eb; [|rewrite orb_false_r in Hb; by eapply Ht2].
    destruct (length (string_Get f) =? 0)%nat; [|apply string_set_own].
    destruct (string_IsDefault t) eqn:Et; [apply string_set_own|done].
Qed.

Lemma merge_all_consistent bt bf lt lf :
  Forall2 same_field lt lf -> Forall (slot_consistent bt) lt -> Forall (slot_consistent bf) lf ->
  Forall (slot_consistent (Z.lor bt bf)) (zip_with (merge_slot bf) lt lf).
Proof.
  induction 1; intros Ht Hf; inversion_clear Ht; inversion_clear Hf; constructor; auto using merge_consistent.
Qed.

Lemma merge_field_of n bf lt lf :
  Forall2 same_field lt lf -> Forall (slot_consistent bf) lf ->
  field_of n (zip_with (merge_slot bf) lt lf) =
    match field_of n lf with Some w => Some w | None => field_of n lt end.
Proof.
  induction 1 as [|to from lt lf Hs _ IH]; intros Hf; inversion_clear Hf; [done|]. cbn [zip_with field_of].
  change (s_number (merge_slot bf to from)) with (s_number to). rewrite !(proj1 Hs).
  destruct (Z.eqb_spec (s_number from) n); [by apply merge_field|by apply IH].
Qed.

(** Into a cleared message: the other's fields. *)
Lemma merge_present bf lt lf :
  Forall2 same_field lt lf -> Forall (fun s => is_default (s_value s) = true) lt -> Forall (slot_consistent bf) lf ->
  present (zip_with (merge_slot bf) lt lf) = present lf.
Proof.
  induction 1 as [|to from lt lf Hs _ IH]; intros Ht Hf; inversion_clear Ht; inversion_clear Hf; [done|].
  cbn [zip_with]. unfold present in *. cbn [omap list_omap]. rewrite merge_field by done.
  change (s_number (merge_slot bf to from)) with (s_number to). rewrite (proj1 Hs).
  assert (field_value (s_value to) = None) as -> by (unfold field_value; by rewrite H).
  destruct (field_value (s_value from)); cbn [fmap option_fmap option_map]; by rewrite IH.
Qed.

(** ** Every generated class implements its specification *)

Section generated.
Context {F : Type} `{Generated_ok F}.

Lemma new_consistent : consistent (g_New (F := F)) /\ present (slots (_impl_ (g_New (F := F)))) = [].
Proof.
  destruct new_empty as (i & -> & Hi). split; [by apply empty_consistent|by apply present_empty].
Qed.

Lemma byte_size_exact bsr room (m : Message F) :
  Forall (fun s => fits (s_value s)) (slots (_impl_ m)) ->
  fst (g_ByteSizeLong bsr m) = Z.of_nat (length (g_InternalSerialize room m)).
Proof.
  intros Hf. rewrite size_slots, serialize_slots. unfold sized. cbn [fst].
  rewrite unknown_size, length_app, Nat2Z.inj_add. f_equal. by apply slots_size_exact; [apply slots_numbered|].
Qed.

Lemma serialized_reads room (m : Message F) :
  consistent m -> Forall (fun s => fits (s_value s)) (slots (_impl_ m)) ->
  have_unknown_fields (_internal_metadata_ m) = false ->
  read_fields (g_InternalSerialize room m) = Some (present (slots (_impl_ m))).
Proof.
  intros Hc Hf Hu. rewrite serialize_slots. unfold unknown_bytes. rewrite Hu, app_nil_r.
  rewrite slots_records by done. apply read_records, present_fits; [apply slots_numbered|done].
Qed.

Lemma Clear_empties (m : Message F) :
  consistent m ->
  consistent (g_Clear m) /\ Forall (fun s => is_default (s_value s) = true) (slots (_impl_ (g_Clear m))) /\
  have_unknown_fields (_internal_metadata_ (g_Clear m)) = false.
Proof.
  intros Hc. destruct (clear_slots m) as (i & -> & Hi). pose proof (clear_all_default _ _ _ Hc Hi) as Hd.
  split_and!; [by apply empty_consistent|done|apply metadata_cleared].
Qed.

Lemma Merge_consistent (to from : Message F) :
  consistent to -> consistent from -> consistent (g_MergeImpl to from).
Proof.
  intros Ht Hf. destruct (merge_slots to from) as (i & -> & Hi). unfold consistent. cbn [_impl_ _has_bits_ merged].
  rewrite Hi. by apply merge_all_consistent; [apply slots_same|..].
Qed.

Lemma Merge_fields (to from : Message F) n :
  consistent from ->
  field_of n (slots (_impl_ (g_MergeImpl to from))) =
    match field_of n (slots (_impl_ from)) with Some w => Some w | None => field_of n (slots (_impl_ to)) end.
Proof.
  intros Hf. destruct (merge_slots to from) as (i & -> & Hi). cbn [_impl_ merged]. rewrite Hi.
  by apply merge_field_of; [apply slots_same|].
Qed.

Lemma CopyFrom_copies (to from : Message F) :
  consistent to -> consistent from ->
  consistent (CopyFrom false to from) /\
  present (slots (_impl_ (CopyFrom false to from))) = present (slots (_impl_ from)).
Proof.
  intros Ht Hf. unfold CopyFrom. destruct (Clear_empties to Ht) as (Hc & Hd & _).
  split; [by apply Merge_consistent|]. destruct (merge_slots (g_Clear to) from) as (i & -> & Hi).
  cbn [_impl_ merged]. rewrite Hi. by apply merge_present; [apply slots_same|..].
Qed.
End generated.

(** ** The list responses *)

(** RepeatedPtrField keeps the objects it cleared and hands them out again. *)
Record RepeatedPtrField (F : Type) := mkRepeated {
  rep_elements : list (Message F);
  rep_cleared : list (Message F);
}.
Arguments mkRepeated {F}.
Arguments rep_elements {F}.
Arguments rep_cleared {F}.

Section lists.
Context {F : Type} `{Generated F}.

Definition repeated_Clear (r : RepeatedPtrField F) : RepeatedPtrField F :=
  mkRepeated [] ((g_Clear <$> rep_elements r) ++ rep_cleared r).

(** [f]: what the caller does to the message it is given. *)
Definition repeated_Add (f : Message F -> Message F) (r : RepeatedPtrField F) : RepeatedPtrField F :=
  match rep_cleared r with
  | [] => mkRepeated (rep_elements r ++ [f g_New]) []
  | e :: rest => mkRepeated (rep_elements r ++ [f e]) rest
  end.

Definition list_New : Message (RepeatedPtrField F) := new_message (mkRepeated [] []).

Definition list_add (f : Message F -> Message F) (m : Message (RepeatedPtrField F)) : Message (RepeatedPtrField F) :=
  mkMessage (SetHasBitForRepeated (_has_bits_ m) 0x1) (repeated_Add f (_impl_ m)) (_internal_metadata_ m) (_cached_size_ m).

Definition list_Clear (m : Message (RepeatedPtrField F)) : Message (RepeatedPtrField F) :=
  cleared (if CheckHasBitForRepeated (_has_bits_ m) 0x1 then repeated_Clear (_impl_ m) else _impl_ m) m.

(** [room i]: for the strings of the element at [i]. *)
Definition list_InternalSerialize (room : nat -> Z -> bool) (m : Message (RepeatedPtrField F)) : list Z :=
  (if CheckHasBitForRepeated (_has_bits_ m) 0x1 then
     concat (imap (fun i e => InternalWriteMessage 1 (_cached_size_ e) (g_InternalSerialize (room i) e))
               (rep_elements (_impl_ m)))
   else []) ++
  unknown_bytes (_internal_metadata_ m).

(** The elements' sizes are cached in them, where _InternalSerialize takes them from. *)
Definition list_ByteSizeLong (bsr : bool) (m : Message (RepeatedPtrField F)) : Z * Message (RepeatedPtrField F) :=
  if CheckHasBitForRepeated (_has_bits_ m) 0x1 then
    let elems := rep_elements (_impl_ m) in
    let sizes := g_ByteSizeLong bsr <$> elems in
    sized (0 + 1 * Z.of_nat (length elems) + sum (LengthDelimitedSize bsr <$> sizes.*1))
      (mkMessage (_has_bits_ m) (mkRepeated (sizes.*2) (rep_cleared (_impl_ m))) (_internal_metadata_ m) (_cached_size_ m))
  else sized 0 m.

(** Elements that the bit announces, and recycled ones that are empty. *)
Record list_consistent (m : Message (RepeatedPtrField F)) : Prop := {
  lc_bit : rep_elements (_impl_ m) <> [] -> Z.land (_has_bits_ m) 0x1 <> 0;
  lc_elements : Forall consistent (rep_elements (_impl_ m));
  lc_cleared : Forall (fun e => consistent e /\ present (slots (_impl_ e)) = [] /\
    have_unknown_fields (_internal_metadata_ e) = false) (rep_cleared (_impl_ m));
}.

Context {Gok : Generated_ok F}.

Lemma list_New_consistent : list_consistent list_New.
Proof. split; [done|constructor..]. Qed.

Lemma list_add_consistent f m :
  (forall e, consistent e -> consistent (f e)) -> list_consistent m -> list_consistent (list_add f m).
Proof.
  intros Hf [Hb He Hc]. destruct new_consistent as [Hn _]. split; cbn [_has_bits_ _impl_ list_add].
  - intros _. rewrite set_repeated_bit, Z.land_lor_distr_l. by intros [_ ?]%Z.lor_eq_0_iff.
  - unfold repeated_Add. destruct Hc as [|e l [Hce _] _]; cbn; apply Forall_app; auto.
  - unfold repeated_Add. by destruct Hc; cbn.
Qed.

Lemma list_Clear_consistent m :
  list_consistent m -> list_consistent (list_Clear m) /\ rep_elements (_impl_ (list_Clear m)) = [].
Proof.
  intros [Hb He Hc]. assert (rep_elements (_impl_ (list_Clear m)) = []) as Hn.
  { unfold list_Clear. destruct (CheckHasBitForRepeated (_has_bits_ m) 1) eqn:Ec; [done|]. cbn.
    destruct (rep_elements (_impl_ m)) eqn:Ee; [done|]. by rewrite repeated_bit in Ec by auto. }
  split; [|done]. split; rewrite ?Hn; [done|constructor|].
  unfold list_Clear. destruct (CheckHasBitForRepeated (_has_bits_ m) 1); [|done]. cbn.
  apply Forall_app. split; [|done]. apply Forall_fmap. eapply Forall_impl; [exact He|]. intros e Hce.
  destruct (Clear_empties e Hce) as (H1 & H2 & H3). split_and!; [done|by apply present_empty|done].
Qed.

(** ByteSizeLong changes only the cached size. *)
Lemma sized_serialize bsr room (e : Message F) :
  g_InternalSerialize room (snd (g_ByteSizeLong bsr e)) = g_InternalSerialize room e.
Proof. by rewrite size_slots, !serialize_slots. Qed.

Lemma sized_cache bsr (e : Message F) : _cached_size_ (snd (g_ByteSizeLong bsr e)) = i32 (fst (g_ByteSizeLong bsr e)).
Proof. by rewrite size_slots. Qed.

Definition element_fits (e : Message F) : Prop :=
  Forall (fun s => fits (s_value s)) (slots (_impl_ e)) /\
  Z.of_nat (length (g_InternalSerialize (fun _ => true) e)) < 2 ^ 31.

(** A slot is at most its record's header longer than its string. *)
Definition text_length (v : slot_value) : Z := match v with SText p => Z.of_nat (length (string_Get p)) | _ => 0 end.

Lemma record_length num w :
  0 < num < 16 -> wire_fits w ->
  Z.of_nat (length (wire_record num w)) <= 11 + match w with WBytes s => Z.of_nat (length s) | _ => 0 end.
Proof.
  intros Hn Hw. destruct w as [v|s]; cbn [wire_record wire_fits] in *; unfold length_delimited;
    [|change (UnsafeVarint (MakeTag num WIRETYPE_LENGTH_DELIMITED)) with (WriteTagToArray num 2)];
    rewrite !length_app, !Nat2Z.inj_add, tag_length by (done || lia).
  - pose proof (varint_short v Hw). lia.
  - pose proof (varint_short (Z.of_nat (length s))). lia.
Qed.

Lemma slots_length room bits l :
  Forall (fun s => 0 < s_number s < 16) l -> Forall (fun s => fits (s_value s)) l -> Forall (slot_consistent bits) l ->
  Z.of_nat (length (concat (slot_bytes room bits <$> l))) <=
    11 * Z.of_nat (length l) + sum ((fun s => text_length (s_value s)) <$> l).
Proof.
  induction 1 as [|s l Hn _ IH]; intros Hf Hc; inversion_clear Hf; inversion_clear Hc; [done|].
  cbn [fmap list_fmap concat length sum foldr]. fold (sum ((fun s => text_length (s_value s)) <$> l)).
  rewrite length_app, Nat2Z.inj_add, slot_record by done. specialize (IH ltac:(done) ltac:(done)).
  assert (0 <= text_length (s_value s)) by (destruct (s_value s); cbn; lia).
  destruct (is_default (s_value s)); [cbn [length]; lia|].
  pose proof (record_length (s_number s) (wire_of (s_value s)) Hn (fits_wire _ ltac:(done))) as Hr.
  destruct (s_value s); cbn [wire_of text_length] in *; lia.
Qed.

(** The bytes do not depend on the stream's room. *)
Lemma serialize_room room (e : Message F) :
  Forall (fun s => fits (s_value s)) (slots (_impl_ e)) ->
  g_InternalSerialize room e = g_InternalSerialize (fun _ => true) e.
Proof.
  intros Hf. rewrite !serialize_slots. f_equal. f_equal. induction Hf as [|s l Hs _ IH]; [done|].
  cbn [fmap list_fmap]. f_equal; [|done]. unfold slot_bytes. destruct (s_value s); try done. unfold put_string.
  by rewrite !write_string by done.
Qed.

Lemma element_written bsr room (e : Message F) :
  element_fits e ->
  InternalWriteMessage 1 (_cached_size_ (snd (g_ByteSizeLong bsr e)))
    (g_InternalSerialize room (snd (g_ByteSizeLong bsr e))) =
  length_delimited 1 (g_InternalSerialize (fun _ => true) e).
Proof.
  intros [Hf Hl]. rewrite sized_cache, sized_serialize, (byte_size_exact bsr (fun _ => true)), (serialize_room room) by done.
  rewrite wrapS_small by lia. by apply message_writes.
Qed.

Lemma elements_written bsr room (l : list (Message F)) :
  Forall element_fits l ->
  concat (imap (fun i e => InternalWriteMessage 1 (_cached_size_ e) (g_InternalSerialize (room i) e))
            ((g_ByteSizeLong bsr <$> l).*2)) =
  concat ((fun f => wire_record f.1 f.2) <$> ((fun e => (1, WBytes (g_InternalSerialize (fun _ => true) e))) <$> l)).
Proof.
  intros Hl. revert room. induction Hl as [|e l He _ IH]; intros room; [done|]. cbn [fmap list_fmap imap concat fst snd].
  rewrite element_written by done. f_equal. apply (IH (fun i => room (S i))).
Qed.

Lemma elements_size bsr (l : list (Message F)) :
  Forall element_fits l ->
  1 * Z.of_nat (length l) + sum (LengthDelimitedSize bsr <$> (g_ByteSizeLong bsr <$> l).*1) =
  Z.of_nat (length (concat ((fun f => wire_record f.1 f.2) <$>
    ((fun e => (1, WBytes (g_InternalSerialize (fun _ => true) e))) <$> l)))).
Proof.
  induction 1 as [|e l [Hf He] _ IH]; [done|]. cbn [fmap list_fmap concat length sum foldr fst snd wire_record].
  fold (sum (LengthDelimitedSize bsr <$> (g_ByteSizeLong bsr <$> l).*1)).
  rewrite length_app, Nat2Z.inj_add, (length_delimited_length bsr) by lia.
  rewrite (byte_size_exact bsr (fun _ => true)) by done. cbn [fst snd wire_record fmap list_fmap] in *. lia.
Qed.

(** A list response that was sized has the size of its bytes, and they are read as
    its elements' bytes. *)
Lemma list_bytes bsr room (m : Message (RepeatedPtrField F)) :
  list_consistent m -> Forall element_fits (rep_elements (_impl_ m)) ->
  have_unknown_fields (_internal_metadata_ m) = false ->
  let '(n, m') := list_ByteSizeLong bsr m in
  n = Z.of_nat (length (list_InternalSerialize room m')) /\
  read_fields (list_InternalSerialize room m') =
    Some ((fun e => (1, WBytes (g_InternalSerialize (fun _ => true) e))) <$> rep_elements (_impl_ m)).
Proof.
  intros [Hb He Hc] Hf Hu. unfold list_ByteSizeLong, list_InternalSerialize.
  destruct (CheckHasBitForRepeated (_has_bits_ m) 1) eqn:Ec; cbn [sized _has_bits_ _impl_ _internal_metadata_ rep_elements];
    rewrite Ec, unknown_size; unfold unknown_bytes; rewrite Hu, app_nil_r; cbn [length].
  - rewrite elements_written by done. split; [rewrite <- (elements_size bsr) by done; lia|].
    apply read_records, Forall_fmap. eapply Forall_impl; [exact Hf|]. intros e [_ Hl]. done.
  - destruct (rep_elements (_impl_ m)); [done|]. by rewrite repeated_bit in Ec by auto.
Qed.
End lists.

(** ** The eight classes *)

Lemma sum_clear bsr bits l : Forall (fun s => CheckHasBit bits (s_mask s) = false) l -> sum (slot_size bsr bits <$> l) = 0.
Proof.
  induction 1 as [|s l Hs _ IH]; [done|]. cbn [fmap list_fmap sum foldr]. fold (sum (slot_size bsr bits <$> l)). rewrite IH.
  unfold slot_size. destruct (s_value s);
    unfold count_int64, count_int32, count_uint64, count_bool, count_string; by rewrite Hs.
Qed.

Lemma merge_clear bits lt lf :
  Forall2 same_field lt lf -> Forall (fun s => CheckHasBit bits (s_mask s) = false) lt ->
  zip_with (merge_slot bits) lt lf = lt.
Proof.
  induction 1 as [|to from lt lf Hs _ IH]; intros Hb; inversion_clear Hb as [|? ? Hb1 Hb2]; [done|].
  cbn [zip_with]. rewrite IH by done. f_equal. destruct to as [n mask v], Hs as (_ & _ & Hk). unfold merge_slot. cbn [s_number s_mask s_value] in *.
  destruct v, (s_value from); try done; cbn [merge_value]; unfold merge_int, merge_bool, merge_string;
    by rewrite Hb1.
Qed.

Lemma batch_slots bits batch l :
  BatchCheckHasBit bits batch = false -> Forall (fun s => Z.land batch (s_mask s) = s_mask s) l ->
  Forall (fun s => CheckHasBit bits (s_mask s) = false) l.
Proof. intros Hb Hl. eapply Forall_impl; [exact Hl|]. intros s Hs. by eapply batch_check. Qed.

(** Discharges the laws of a class whose slots are listed. *)
Tactic Notation "generated" reference(inst) reference(size) :=
  split; unfold inst; cbn [g_New g_Clear g_InternalSerialize g_ByteSizeLong g_MergeImpl slots];
  [ once (eexists; split; [reflexivity|]; repeat constructor; simpl; by rewrite (string_default _ string_new))
  | intros room m; cbn [fmap list_fmap concat]; rewrite <- ?app_assoc; reflexivity
  | intros bsr m; unfold size; f_equal;
      try destruct (BatchCheckHasBit (_has_bits_ m) _) eqn:Eb;
      [ cbn [fmap list_fmap sum foldr slot_size s_value s_mask]; unfold slot_size; cbn [s_value s_mask]; lia
      | symmetry; apply sum_clear; eapply batch_slots; [eassumption|]; by repeat constructor .. ]
  | intros m; eexists; split; [reflexivity|];
      try destruct (BatchCheckHasBit (_has_bits_ m) _) eqn:Eb;
      try destruct (CheckHasBit (_has_bits_ m) _) eqn:Ec;
      repeat apply List.Forall2_cons; try apply List.Forall2_nil;
      (split; [reflexivity|split; [reflexivity|]]); cbn [s_value s_mask];
      first [right; split; [reflexivity|]; by intros | left; split; [by eapply batch_check|reflexivity] | by left]
  | intros to from; eexists; split; [reflexivity|];
      try destruct (BatchCheckHasBit (_has_bits_ from) _) eqn:Eb;
      [ reflexivity
      | symmetry; apply merge_clear; [by repeat constructor|];
        eapply batch_slots; [eassumption|]; by repeat constructor .. ]
  | intros i j; by repeat constructor
  | intros i; by repeat constructor ].

#[export] Instance HealthCheckResponse_generated : Generated HealthCheckResponse := {
  g_New := HealthCheckResponse_New;
  g_Clear := HealthCheckResponse_Clear;
  g_InternalSerialize := HealthCheckResponse_InternalSerialize;
  g_ByteSizeLong := HealthCheckResponse_ByteSizeLong;
  g_MergeImpl := HealthCheckResponse_MergeImpl;
  slots := fun i =>
    [Slot 1 0x1 (SText (hcr_status i))];
}.

#[export] Instance HealthCheckResponse_ok : Generated_ok HealthCheckResponse.
Proof. generated HealthCheckResponse_generated HealthCheckResponse_ByteSizeLong. Qed.

#[export] Instance RoomInfo_generated : Generated RoomInfo := {
  g_New := RoomInfo_New;
  g_Clear := RoomInfo_Clear;
  g_InternalSerialize := RoomInfo_InternalSerialize;
  g_ByteSizeLong := RoomInfo_ByteSizeLong;
  g_MergeImpl := RoomInfo_MergeImpl;
  slots := fun i =>
    [Slot 1 0x2 (SInt64 (ri_id i));
     Slot 2 0x1 (SText (ri_name i));
     Slot 3 0x4 (SInt32 (ri_playercount i));
     Slot 4 0x8 (SInt32 (ri_capacity i))];
}.

#[export] Instance RoomInfo_ok : Generated_ok RoomInfo.
Proof. generated RoomInfo_generated RoomInfo_ByteSizeLong. Qed.

#[export] Instance BroadcastRequest_generated : Generated BroadcastRequest := {
  g_New := BroadcastRequest_New;
  g_Clear := BroadcastRequest_Clear;
  g_InternalSerialize := BroadcastRequest_InternalSerialize;
  g_ByteSizeLong := BroadcastRequest_ByteSizeLong;
  g_MergeImpl := BroadcastRequest_MergeImpl;
  slots := fun i =>
    [Slot 1 0x2 (SInt64 (brq_roomid i));
     Slot 2 0x1 (SText (brq_message i))];
}.

#[export] Instance BroadcastRequest_ok : Generated_ok BroadcastRequest.
Proof. generated BroadcastRequest_generated BroadcastRequest_ByteSizeLong. Qed.

#[export] Instance BroadcastResponse_generated : Generated BroadcastResponse := {
  g_New := BroadcastResponse_New;
  g_Clear := BroadcastResponse_Clear;
  g_InternalSerialize := BroadcastResponse_InternalSerialize;
  g_ByteSizeLong := BroadcastResponse_ByteSizeLong;
  g_MergeImpl := BroadcastResponse_MergeImpl;
  slots := fun i =>
    [Slot 1 0x2 (SBool (brs_success i));
     Slot 2 0x1 (SText (brs_detail i))];
}.

#[export] Instance BroadcastResponse_ok : Generated_ok BroadcastResponse.
Proof. generated BroadcastResponse_generated BroadcastResponse_ByteSizeLong. Qed.

#[export] Instance PlayerInfo_generated : Generated PlayerInfo := {
  g_New := PlayerInfo_New;
  g_Clear := PlayerInfo_Clear;
  g_InternalSerialize := PlayerInfo_InternalSerialize;
  g_ByteSizeLong := PlayerInfo_ByteSizeLong;
  g_MergeImpl := PlayerInfo_MergeImpl;
  slots := fun i =>
    [Slot 1 0x2 (SUInt64 (pi_id i));
     Slot 2 0x1 (SText (pi_name i));
     Slot 3 0x4 (SInt32 (pi_lobbyindex i));
     Slot 4 0x8 (SInt32 (pi_roomindex i))];
}.

#[export] Instance PlayerInfo_ok : Generated_ok PlayerInfo.
Proof. generated PlayerInfo_generated PlayerInfo_ByteSizeLong. Qed.

#[export] Instance KickPlayerRequest_generated : Generated KickPlayerRequest := {
  g_New := KickPlayerRequest_New;
  g_Clear := KickPlayerRequest_Clear;
  g_InternalSerialize := KickPlayerRequest_InternalSerialize;
  g_ByteSizeLong := KickPlayerRequest_ByteSizeLong;
  g_MergeImpl := KickPlayerRequest_MergeImpl;
  slots := fun i =>
    [Slot 1 0x1 (SUInt64 (kpq_id i))];
}.

#[export] Instance KickPlayerRequest_ok : Generated_ok KickPlayerRequest.
Proof. generated KickPlayerRequest_generated KickPlayerRequest_ByteSizeLong. Qed.

#[export] Instance KickPlayerResponse_generated : Generated KickPlayerResponse := {
  g_New := KickPlayerResponse_New;
  g_Clear := KickPlayerResponse_Clear;
  g_InternalSerialize := KickPlayerResponse_InternalSerialize;
  g_ByteSizeLong := KickPlayerResponse_ByteSizeLong;
  g_MergeImpl := KickPlayerResponse_MergeImpl;
  slots := fun i =>
    [Slot 1 0x2 (SBool (kpr_success i));
     Slot 2 0x1 (SText (kpr_detail i))];
}.

#[export] Instance KickPlayerResponse_ok : Generated_ok KickPlayerResponse.
Proof. generated KickPlayerResponse_generated KickPlayerResponse_ByteSizeLong. Qed.

#[export] Instance LobbyInfo_generated : Generated LobbyInfo := {
  g_New := LobbyInfo_New;
  g_Clear := LobbyInfo_Clear;
  g_InternalSerialize := LobbyInfo_InternalSerialize;
  g_ByteSizeLong := LobbyInfo_ByteSizeLong;
  g_MergeImpl := LobbyInfo_MergeImpl;
  slots := fun i =>
    [Slot 1 0x1 (SInt32 (li_id i));
     Slot 2 0x2 (SInt32 (li_playercount i));
     Slot 3 0x4 (SInt32 (li_capacity i))];
}.

#[export] Instance LobbyInfo_ok : Generated_ok LobbyInfo.
Proof. generated LobbyInfo_generated LobbyInfo_ByteSizeLong. Qed.


(** *** The setters *)

Lemma set_slot_consistent bits l i n mask v :
  Forall (slot_consistent bits) l -> mask <> 0 ->
  (forall p, v = SText p -> string_IsDefault p = false) ->
  (forall j s, l !! j = Some s -> j <> i -> Z.land mask (s_mask s) = 0) ->
  Forall (slot_consistent (SetHasBit bits mask)) (<[i := Slot n mask v]> l).
Proof.
  intros Hl Hm Hv Hd. rewrite set_bit. apply Forall_lookup. intros j s Hs. unfold slot_consistent. rewrite check_lor.
  apply list_lookup_insert_Some in Hs as [(<- & <- & _)|[Hj Hs]]; cbn [s_mask s_value].
  - rewrite (check_bit mask mask), Z.land_diag, (proj2 (Z.eqb_neq _ _)) by done. cbn [negb]. rewrite orb_true_r. done.
  - rewrite (check_bit mask), (Hd j s) by auto. rewrite orb_false_r. by eapply (proj1 (Forall_lookup _ _) Hl).
Qed.

(** The slot at [i] gets the value. *)
Ltac setter i :=
  intros Hc; apply (set_slot_consistent _ _ i) with (1 := Hc);
  [done|intros ? [= <-]; apply string_set_own||done|];
  let j := fresh in let s := fresh in let Hs := fresh in
  intros j s Hs ?; destruct j as [|[|[|[|j]]]]; cbn in Hs; simplify_eq; done.

Lemma HealthCheckResponse_setters m s : consistent m -> consistent (HealthCheckResponse_set_status s m).
Proof. setter 0%nat. Qed.

Lemma RoomInfo_setters m v s :
  (consistent m -> consistent (RoomInfo_set_id v m)) /\
  (consistent m -> consistent (RoomInfo_set_name s m)) /\
  (consistent m -> consistent (RoomInfo_set_playercount v m)) /\
  (consistent m -> consistent (RoomInfo_set_capacity v m)).
Proof. split_and!; [setter 0%nat|setter 1%nat|setter 2%nat|setter 3%nat]. Qed.

Lemma BroadcastRequest_setters m v s :
  (consistent m -> consistent (BroadcastRequest_set_roomid v m)) /\
  (consistent m -> consistent (BroadcastRequest_set_message s m)).
Proof. split; [setter 0%nat|setter 1%nat]. Qed.

Lemma BroadcastResponse_setters m v s :
  (consistent m -> consistent (BroadcastResponse_set_success v m)) /\
  (consistent m -> consistent (BroadcastResponse_set_detail s m)).
Proof. split; [setter 0%nat|setter 1%nat]. Qed.

Lemma PlayerInfo_setters m v s :
  (consistent m -> consistent (PlayerInfo_set_id v m)) /\
  (consistent m -> consistent (PlayerInfo_set_name s m)) /\
  (consistent m -> consistent (PlayerInfo_set_lobbyindex v m)) /\
  (consistent m -> consistent (PlayerInfo_set_roomindex v m)).
Proof. split_and!; [setter 0%nat|setter 1%nat|setter 2%nat|setter 3%nat]. Qed.

Lemma KickPlayerRequest_setters m v : consistent m -> consistent (KickPlayerRequest_set_id v m).
Proof. setter 0%nat. Qed.

Lemma KickPlayerResponse_setters m v s :
  (consistent m -> consistent (KickPlayerResponse_set_success v m)) /\
  (consistent m -> consistent (KickPlayerResponse_set_detail s m)).
Proof. split; [setter 0%nat|setter 1%nat]. Qed.

Lemma LobbyInfo_setters m v :
  (consistent m -> consistent (LobbyInfo_set_id v m)) /\
  (consistent m -> consistent (LobbyInfo_set_playercount v m)) /\
  (consistent m -> consistent (LobbyInfo_set_capacity v m)).
Proof. split_and!; [setter 0%nat|setter 1%nat|setter 2%nat]. Qed.

(** *** The responses that are lists *)

Definition ListRoomsResponse_New : Message (RepeatedPtrField RoomInfo) := list_New.
Definition ListRoomsResponse_add_rooms := list_add (F := RoomInfo).
Definition ListRoomsResponse_Clear := list_Clear (F := RoomInfo).
Definition ListRoomsResponse_InternalSerialize := list_InternalSerialize (F := RoomInfo).
Definition ListRoomsResponse_ByteSizeLong := list_ByteSizeLong (F := RoomInfo).

Definition ListPlayersResponse_New : Message (RepeatedPtrField PlayerInfo) := list_New.
Definition ListPlayersResponse_add_players := list_add (F := PlayerInfo).
Definition ListPlayersResponse_Clear := list_Clear (F := PlayerInfo).
Definition ListPlayersResponse_InternalSerialize := list_InternalSerialize (F := PlayerInfo).
Definition ListPlayersResponse_ByteSizeLong := list_ByteSizeLong (F := PlayerInfo).

Definition ListLobbiesResponse_New : Message (RepeatedPtrField LobbyInfo) := list_New.
Definition ListLobbiesResponse_add_lobbies := list_add (F := LobbyInfo).
Definition ListLobbiesResponse_Clear := list_Clear (F := LobbyInfo).
Definition ListLobbiesResponse_InternalSerialize := list_InternalSerialize (F := LobbyInfo).
Definition ListLobbiesResponse_ByteSizeLong := list_ByteSizeLong (F := LobbyInfo).

(** *** What each class does *)

(** A new message has no fields.  The size is the bytes' length, and the bytes are
    the non-default fields in the documented format.  Clear leaves no field,
    MergeImpl overwrites with the other's non-default fields, CopyFrom gives the
    other's fields whatever the target held; and all of them keep the presence bits
    consistent with the fields. *)
Record implements (F : Type) `{Generated F} : Prop := {
  im_new : consistent (g_New (F := F)) /\ present (slots (_impl_ (g_New (F := F)))) = [];
  im_size : forall bsr room (m : Message F), Forall (fun s => fits (s_value s)) (slots (_impl_ m)) ->
    fst (g_ByteSizeLong bsr m) = Z.of_nat (length (g_InternalSerialize room m));
  im_read : forall room (m : Message F), consistent m -> Forall (fun s => fits (s_value s)) (slots (_impl_ m)) ->
    have_unknown_fields (_internal_metadata_ m) = false ->
    read_fields (g_InternalSerialize room m) = Some (present (slots (_impl_ m)));
  im_clear : forall m : Message F, consistent m ->
    consistent (g_Clear m) /\ present (slots (_impl_ (g_Clear m))) = [] /\
    have_unknown_fields (_internal_metadata_ (g_Clear m)) = false;
  im_merge : forall to from : Message F, consistent to -> consistent from ->
    consistent (g_MergeImpl to from) /\
    forall n, field_of n (slots (_impl_ (g_MergeImpl to from))) =
      match field_of n (slots (_impl_ from)) with Some w => Some w | None => field_of n (slots (_impl_ to)) end;
  im_copy : forall to from : Message F, consistent to -> consistent from ->
    consistent (CopyFrom false to from) /\
    present (slots (_impl_ (CopyFrom false to from))) = present (slots (_impl_ from));
}.

Lemma generated_implements (F : Type) `{Generated_ok F} : implements F.
Proof.
  split.
  - apply new_consistent.
  - intros. by apply byte_size_exact.
  - intros. by apply serialized_reads.
  - intros m Hm. destruct (Clear_empties m Hm) as (? & ? & ?). auto using present_empty.
  - intros. auto using Merge_consistent, Merge_fields.
  - intros. by apply CopyFrom_copies.
Qed.

End messages.
Arguments Message {L}.
Arguments mkMessage {L F}.
Arguments _has_bits_ {L F}.
Arguments _impl_ {L F}.
Arguments _internal_metadata_ {L F}.
Arguments _cached_size_ {L F}.
Arguments mkRepeated {L F}.
Arguments rep_elements {L F}.
Arguments rep_cleared {L F}.

(** C19: each of the eight messages with fields of its own does what the protocol
    asks of it: the size it announces is the length of the bytes it writes, the
    bytes are its non-default fields in protobuf's documented format, Clear empties
    it, MergeImpl and CopyFrom carry the fields over, and the presence bits always
    agree with the fields, so that no stale value of a reused message is sent. *)
Theorem messages_implement (L : ProtobufLib) :
  ProtobufLib_ok L ->
  implements HealthCheckResponse /\ implements RoomInfo /\ implements BroadcastRequest /\
  implements BroadcastResponse /\ implements PlayerInfo /\ implements KickPlayerRequest /\
  implements KickPlayerResponse /\ implements LobbyInfo.
Proof. intros Lok. split_and!; apply generated_implements, _. Qed.

(** A library, for the witnesses. *)
Module toy.
#[local] Instance lib : ProtobufLib := {
  WriteStringMaybeAliasedOutline := length_delimited;
  InternalWriteMessage num size s := WriteTagToArray num 2 ++ UnsafeVarint size ++ s;
  CheckHasBit bits mask := negb (Z.land bits mask =? 0);
  BatchCheckHasBit bits mask := negb (Z.land bits mask =? 0);
  CheckHasBitForRepeated bits mask := negb (Z.land bits mask =? 0);
  SetHasBit := Z.lor;
  SetHasBitForRepeated := Z.lor;
  ArenaStringPtr := option (list Z);
  string_New := None;
  string_Get := default [];
  string_Set s _ := Some s;
  string_IsDefault p := match p with None => true | Some _ => false end;
  ClearNonDefaultToEmpty := option_map (fun _ => []);
  InternalMetadata := list Z;
  metadata_New := [];
  have_unknown_fields d := negb (length d =? 0)%nat;
  InternalSerializeUnknownFieldsToArray d := d;
  MaybeComputeUnknownFieldsSize d n := n + Z.of_nat (length d);
  metadata_Clear _ := [];
  metadata_MergeFrom := app;
}.

Lemma unknown_is d : unknown_bytes d = d.
Proof. by destruct d. Qed.

Lemma lib_ok : ProtobufLib_ok lib.
Proof.
  split; try done.
  - intros bits mask Hn. cbn. by rewrite (proj2 (Z.eqb_neq _ _)).
  - by intros [].
  - by intros [].
  - intros d n. by rewrite unknown_is.
  - intros d e. by rewrite !unknown_is.
Qed.
End toy.
#[local] Existing Instance toy.lib.

Lemma messages_implement_witness :
  ProtobufLib_ok toy.lib /\
  fst (RoomInfo_ByteSizeLong true (RoomInfo_set_name [97; 98] (RoomInfo_set_id 300 RoomInfo_New))) = 7 /\
  implements RoomInfo.
Proof. split; [exact toy.lib_ok|]. split; [reflexivity|]. apply (messages_implement toy.lib toy.lib_ok). Defined.
