(* ===== verification/Accessors.v ===== *)
(** * The accessors of the administration messages

    src/DhNet_Server/DhNet_Ipc/generated/dhnet.pb.h and dhnet.pb.cc: the rest of the
    functions protoc wrote for each field (get, clear, mutable, release,
    set_allocated) and for each message (InternalSwap and the copy constructor),
    over the messages of Messages.v; and the same for the three list responses.

    Each field is proved to be a lens on its slot ([field_laws], [text_laws]): what
    is set is read back, a cleared field is the default and is not sent, every other
    field of the message is untouched, and the presence bits stay consistent.

    A pointer returned by mutable_x is the function by which the caller changes the
    string; a pointer released or handed over is the string it points to. *)

From S2P Require Import Prelude Bytes Wire Messages.
#[local] Open Scope Z_scope.

(** What the accessors need of the library beyond Wire.v: the string pointer's
    other functions, one bit's reset, and the repeated field's merge. *)
Class AccessorLib (L : ProtobufLib) := {
  ClearHasBit : Z -> Z -> Z;
  ClearHasBitForRepeated : Z -> Z -> Z;
  ClearToEmpty : ArenaStringPtr -> ArenaStringPtr;
  string_Mutable : (list Z -> list Z) -> ArenaStringPtr -> ArenaStringPtr;
  string_Release : ArenaStringPtr -> option (list Z) * ArenaStringPtr;
  string_SetAllocated : option (list Z) -> ArenaStringPtr -> ArenaStringPtr;
  string_Copy : ArenaStringPtr -> ArenaStringPtr;
  repeated_MergeFrom : forall (F : Type) {G : Generated F}, RepeatedPtrField F -> RepeatedPtrField F -> RepeatedPtrField F;
}.
Arguments repeated_MergeFrom {L _ F G}.

(** Release gives no string for the default; SetAllocated of none makes it the
    default again; a copy is the default exactly when its source is.  Merging a
    repeated field appends elements with the same fields and bits, for which it may
    use cleared ones. *)
Class AccessorLib_ok {L : ProtobufLib} (A : AccessorLib L) := {
  clear_bit : forall bits mask, ClearHasBit bits mask = Z.ldiff bits mask;
  clear_repeated_bit : forall bits mask, ClearHasBitForRepeated bits mask = Z.ldiff bits mask;
  clear_to_empty : forall p, string_Get (ClearToEmpty p) = [];
  mutable_get : forall f p, string_Get (string_Mutable f p) = f (string_Get p);
  mutable_own : forall f p, string_IsDefault (string_Mutable f p) = false;
  release_gives : forall p, string_IsDefault p = false -> (string_Release p).1 = Some (string_Get p);
  release_leaves : forall p, string_Get (string_Release p).2 = [];
  allocated_get : forall v p, string_Get (string_SetAllocated v p) = default [] v;
  allocated_own : forall s p, string_IsDefault (string_SetAllocated (Some s) p) = false;
  copy_get : forall p, string_Get (string_Copy p) = string_Get p;
  copy_own : forall p, string_IsDefault (string_Copy p) = string_IsDefault p;
  merge_elements : forall F {G : Generated F} (to from : RepeatedPtrField F), exists es k,
    rep_elements (repeated_MergeFrom to from) = rep_elements to ++ es /\
    rep_cleared (repeated_MergeFrom to from) = drop k (rep_cleared to) /\
    Forall2 (fun e e' => _has_bits_ e' = _has_bits_ e /\ (consistent e -> consistent e') /\
               present (slots (_impl_ e')) = present (slots (_impl_ e))) (rep_elements from) es;
}.

Section accessors.
Context {L : ProtobufLib} {A : AccessorLib L}.

(** ** What the functions share *)

Definition clear_field {F} (mask : Z) (write : F -> F) (m : Message F) : Message F :=
  mkMessage (ClearHasBit (_has_bits_ m) mask) (write (_impl_ m)) (_internal_metadata_ m) (_cached_size_ m).

(** nullptr is [None]. *)
Definition release_field {F} (mask : Z) (get : F -> ArenaStringPtr) (put : ArenaStringPtr -> F -> F) (m : Message F)
  : option (list Z) * Message F :=
  if negb (CheckHasBit (_has_bits_ m) mask) then (None, m)
  else
    let '(released, p) := string_Release (get (_impl_ m)) in
    (released, mkMessage (ClearHasBit (_has_bits_ m) mask) (put p (_impl_ m)) (_internal_metadata_ m) (_cached_size_ m)).

Definition allocated_field {F} (mask : Z) (get : F -> ArenaStringPtr) (put : ArenaStringPtr -> F -> F)
    (value : option (list Z)) (m : Message F) : Message F :=
  let bits := match value with
              | Some _ => SetHasBit (_has_bits_ m) mask
              | None => ClearHasBit (_has_bits_ m) mask
              end in
  mkMessage bits (put (string_SetAllocated value (get (_impl_ m))) (_impl_ m)) (_internal_metadata_ m) (_cached_size_ m).

(** InternalSwap leaves the cached sizes where they are. *)
Definition swapped {F} (i j : F) (m other : Message F) : Message F * Message F :=
  (mkMessage (_has_bits_ other) i (_internal_metadata_ other) (_cached_size_ m),
   mkMessage (_has_bits_ m) j (_internal_metadata_ m) (_cached_size_ other)).

Definition copied {F} (impl : F) (from : Message F) : Message F :=
  mkMessage (_has_bits_ from) impl (metadata_MergeFrom metadata_New (_internal_metadata_ from)) 0.

(** ** The classes *)

(** *** HealthCheckResponse *)

Definition HealthCheckResponse_put_status (p : ArenaStringPtr) (i : HealthCheckResponse) : HealthCheckResponse :=
  mkHealthCheckResponse p.
Definition HealthCheckResponse_status (m : Message HealthCheckResponse) : list Z := string_Get (hcr_status (_impl_ m)).
Definition HealthCheckResponse_clear_status : Message HealthCheckResponse -> Message HealthCheckResponse :=
  clear_field 0x1 (fun i => HealthCheckResponse_put_status (ClearToEmpty (hcr_status i)) i).
Definition HealthCheckResponse_mutable_status (write : list Z -> list Z) : Message HealthCheckResponse -> Message HealthCheckResponse :=
  set_field 0x1 (fun i => HealthCheckResponse_put_status (string_Mutable write (hcr_status i)) i).
Definition HealthCheckResponse_release_status : Message HealthCheckResponse -> option (list Z) * Message HealthCheckResponse :=
  release_field 0x1 hcr_status HealthCheckResponse_put_status.
Definition HealthCheckResponse_set_allocated_status : option (list Z) -> Message HealthCheckResponse -> Message HealthCheckResponse :=
  allocated_field 0x1 hcr_status HealthCheckResponse_put_status.

Definition HealthCheckResponse_InternalSwap (m other : Message HealthCheckResponse)
  : Message HealthCheckResponse * Message HealthCheckResponse :=
  let i := _impl_ m in
  let j := _impl_ other in
  swapped (mkHealthCheckResponse (hcr_status j)) (mkHealthCheckResponse (hcr_status i)) m other.
Definition HealthCheckResponse_copy (from : Message HealthCheckResponse) : Message HealthCheckResponse :=
  let i := _impl_ from in
  copied (mkHealthCheckResponse (string_Copy (hcr_status i))) from.

(** *** RoomInfo *)

Definition RoomInfo_id (m : Message RoomInfo) : Z := ri_id (_impl_ m).
Definition RoomInfo_clear_id : Message RoomInfo -> Message RoomInfo :=
  clear_field 0x2 (fun i => mkRoomInfo (ri_name i) 0 (ri_playercount i) (ri_capacity i)).
Definition RoomInfo_put_name (p : ArenaStringPtr) (i : RoomInfo) : RoomInfo :=
  mkRoomInfo p (ri_id i) (ri_playercount i) (ri_capacity i).
Definition RoomInfo_name (m : Message RoomInfo) : list Z := string_Get (ri_name (_impl_ m)).
Definition RoomInfo_clear_name : Message RoomInfo -> Message RoomInfo :=
  clear_field 0x1 (fun i => RoomInfo_put_name (ClearToEmpty (ri_name i)) i).
Definition RoomInfo_mutable_name (write : list Z -> list Z) : Message RoomInfo -> Message RoomInfo :=
  set_field 0x1 (fun i => RoomInfo_put_name (string_Mutable write (ri_name i)) i).
Definition RoomInfo_release_name : Message RoomInfo -> option (list Z) * Message RoomInfo :=
  release_field 0x1 ri_name RoomInfo_put_name.
Definition RoomInfo_set_allocated_name : option (list Z) -> Message RoomInfo -> Message RoomInfo :=
  allocated_field 0x1 ri_name RoomInfo_put_name.
Definition RoomInfo_playercount (m : Message RoomInfo) : Z := ri_playercount (_impl_ m).
Definition RoomInfo_clear_playercount : Message RoomInfo -> Message RoomInfo :=
  clear_field 0x4 (fun i => mkRoomInfo (ri_name i) (ri_id i) 0 (ri_capacity i)).
Definition RoomInfo_capacity (m : Message RoomInfo) : Z := ri_capacity (_impl_ m).
Definition RoomInfo_clear_capacity : Message RoomInfo -> Message RoomInfo :=
  clear_field 0x8 (fun i => mkRoomInfo (ri_name i) (ri_id i) (ri_playercount i) 0).

Definition RoomInfo_InternalSwap (m other : Message RoomInfo) : Message RoomInfo * Message RoomInfo :=
  let i := _impl_ m in
  let j := _impl_ other in
  swapped (mkRoomInfo (ri_name j) (ri_id j) (ri_playercount j) (ri_capacity j))
    (mkRoomInfo (ri_name i) (ri_id i) (ri_playercount i) (ri_capacity i)) m other.
Definition RoomInfo_copy (from : Message RoomInfo) : Message RoomInfo :=
  let i := _impl_ from in
  copied (mkRoomInfo (string_Copy (ri_name i)) (ri_id i) (ri_playercount i) (ri_capacity i)) from.

(** *** BroadcastRequest *)

Definition BroadcastRequest_roomid (m : Message BroadcastRequest) : Z := brq_roomid (_impl_ m).
Definition BroadcastRequest_clear_roomid : Message BroadcastRequest -> Message BroadcastRequest :=
  clear_field 0x2 (fun i => mkBroadcastRequest (brq_message i) 0).
Definition BroadcastRequest_put_message (p : ArenaStringPtr) (i : BroadcastRequest) : BroadcastRequest :=
  mkBroadcastRequest p (brq_roomid i).
Definition BroadcastRequest_message (m : Message BroadcastRequest) : list Z := string_Get (brq_message (_impl_ m)).
Definition BroadcastRequest_clear_message : Message BroadcastRequest -> Message BroadcastRequest :=
  clear_field 0x1 (fun i => BroadcastRequest_put_message (ClearToEmpty (brq_message i)) i).
Definition BroadcastRequest_mutable_message (write : list Z -> list Z) : Message BroadcastRequest -> Message BroadcastRequest :=
  set_field 0x1 (fun i => BroadcastRequest_put_message (string_Mutable write (brq_message i)) i).
Definition BroadcastRequest_release_message : Message BroadcastRequest -> option (list Z) * Message BroadcastRequest :=
  release_field 0x1 brq_message BroadcastRequest_put_message.
Definition BroadcastRequest_set_allocated_message : option (list Z) -> Message BroadcastRequest -> Message BroadcastRequest :=
  allocated_field 0x1 brq_message BroadcastRequest_put_message.

Definition BroadcastRequest_InternalSwap (m other : Message BroadcastRequest) : Message BroadcastRequest * Message BroadcastRequest :=
  let i := _impl_ m in
  let j := _impl_ other in
  swapped (mkBroadcastRequest (brq_message j) (brq_roomid j)) (mkBroadcastRequest (brq_message i) (brq_roomid i)) m other.
Definition BroadcastRequest_copy (from : Message BroadcastRequest) : Message BroadcastRequest :=
  let i := _impl_ from in
  copied (mkBroadcastRequest (string_Copy (brq_message i)) (brq_roomid i)) from.

(** *** BroadcastResponse *)

Definition BroadcastResponse_success (m : Message BroadcastResponse) : bool := brs_success (_impl_ m).
Definition BroadcastResponse_clear_success : Message BroadcastResponse -> Message BroadcastResponse :=
  clear_field 0x2 (fun i => mkBroadcastResponse (brs_detail i) false).
Definition BroadcastResponse_put_detail (p : ArenaStringPtr) (i : BroadcastResponse) : BroadcastResponse :=
  mkBroadcastResponse p (brs_success i).
Definition BroadcastResponse_detail (m : Message BroadcastResponse) : list Z := string_Get (brs_detail (_impl_ m)).
Definition BroadcastResponse_clear_detail : Message BroadcastResponse -> Message BroadcastResponse :=
  clear_field 0x1 (fun i => BroadcastResponse_put_detail (ClearToEmpty (brs_detail i)) i).
Definition BroadcastResponse_mutable_detail (write : list Z -> list Z) : Message BroadcastResponse -> Message BroadcastResponse :=
  set_field 0x1 (fun i => BroadcastResponse_put_detail (string_Mutable write (brs_detail i)) i).
Definition BroadcastResponse_release_detail : Message BroadcastResponse -> option (list Z) * Message BroadcastResponse :=
  release_field 0x1 brs_detail BroadcastResponse_put_detail.
Definition BroadcastResponse_set_allocated_detail : option (list Z) -> Message BroadcastResponse -> Message BroadcastResponse :=
  allocated_field 0x1 brs_detail BroadcastResponse_put_detail.

Definition BroadcastResponse_InternalSwap (m other : Message BroadcastResponse) : Message BroadcastResponse * Message BroadcastResponse :=
  let i := _impl_ m in
  let j := _impl_ other in
  swapped (mkBroadcastResponse (brs_detail j) (brs_success j)) (mkBroadcastResponse (brs_detail i) (brs_success i)) m other.
Definition BroadcastResponse_copy (from : Message BroadcastResponse) : Message BroadcastResponse :=
  let i := _impl_ from in
  copied (mkBroadcastResponse (string_Copy (brs_detail i)) (brs_success i)) from.

(** *** PlayerInfo *)

Definition PlayerInfo_id (m : Message PlayerInfo) : Z := pi_id (_impl_ m).
Definition PlayerInfo_clear_id : Message PlayerInfo -> Message PlayerInfo :=
  clear_field 0x2 (fun i => mkPlayerInfo (pi_name i) 0 (pi_lobbyindex i) (pi_roomindex i)).
Definition PlayerInfo_put_name (p : ArenaStringPtr) (i : PlayerInfo) : PlayerInfo :=
  mkPlayerInfo p (pi_id i) (pi_lobbyindex i) (pi_roomindex i).
Definition PlayerInfo_name (m : Message PlayerInfo) : list Z := string_Get (pi_name (_impl_ m)).
Definition PlayerInfo_clear_name : Message PlayerInfo -> Message PlayerInfo :=
  clear_field 0x1 (fun i => PlayerInfo_put_name (ClearToEmpty (pi_name i)) i).
Definition PlayerInfo_mutable_name (write : list Z -> list Z) : Message PlayerInfo -> Message PlayerInfo :=
  set_field 0x1 (fun i => PlayerInfo_put_name (string_Mutable write (pi_name i)) i).
Definition PlayerInfo_release_name : Message PlayerInfo -> option (list Z) * Message PlayerInfo :=
  release_field 0x1 pi_name PlayerInfo_put_name.
Definition PlayerInfo_set_allocated_name : option (list Z) -> Message PlayerInfo -> Message PlayerInfo :=
  allocated_field 0x1 pi_name PlayerInfo_put_name.
Definition PlayerInfo_lobbyindex (m : Message PlayerInfo) : Z := pi_lobbyindex (_impl_ m).
Definition PlayerInfo_clear_lobbyindex : Message PlayerInfo -> Message PlayerInfo :=
  clear_field 0x4 (fun i => mkPlayerInfo (pi_name i) (pi_id i) 0 (pi_roomindex i)).
Definition PlayerInfo_roomindex (m : Message PlayerInfo) : Z := pi_roomindex (_impl_ m).
Definition PlayerInfo_clear_roomindex : Message PlayerInfo -> Message PlayerInfo :=
  clear_field 0x8 (fun i => mkPlayerInfo (pi_name i) (pi_id i) (pi_lobbyindex i) 0).

Definition PlayerInfo_InternalSwap (m other : Message PlayerInfo) : Message PlayerInfo * Message PlayerInfo :=
  let i := _impl_ m in
  let j := _impl_ other in
  swapped (mkPlayerInfo (pi_name j) (pi_id j) (pi_lobbyindex j) (pi_roomindex j))
    (mkPlayerInfo (pi_name i) (pi_id i) (pi_lobbyindex i) (pi_roomindex i)) m other.
Definition PlayerInfo_copy (from : Message PlayerInfo) : Message PlayerInfo :=
  let i := _impl_ from in
  copied (mkPlayerInfo (string_Copy (pi_name i)) (pi_id i) (pi_lobbyindex i) (pi_roomindex i)) from.

(** *** KickPlayerRequest *)

Definition KickPlayerRequest_id (m : Message KickPlayerRequest) : Z := kpq_id (_impl_ m).
Definition KickPlayerRequest_clear_id : Message KickPlayerRequest -> Message KickPlayerRequest :=
  clear_field 0x1 (fun i => mkKickPlayerRequest 0).

Definition KickPlayerRequest_InternalSwap (m other : Message KickPlayerRequest) : Message KickPlayerRequest * Message KickPlayerRequest :=
  let i := _impl_ m in
  let j := _impl_ other in
  swapped (mkKickPlayerRequest (kpq_id j)) (mkKickPlayerRequest (kpq_id i)) m other.
Definition KickPlayerRequest_copy (from : Message KickPlayerRequest) : Message KickPlayerRequest :=
  let i := _impl_ from in
  mkMessage (_has_bits_ from) (mkKickPlayerRequest (kpq_id i))
    (metadata_MergeFrom metadata_New (_internal_metadata_ from)) (_cached_size_ from).

(** *** KickPlayerResponse *)

Definition KickPlayerResponse_success (m : Message KickPlayerResponse) : bool := kpr_success (_impl_ m).
Definition KickPlayerResponse_clear_success : Message KickPlayerResponse -> Message KickPlayerResponse :=
  clear_field 0x2 (fun i => mkKickPlayerResponse (kpr_detail i) false).
Definition KickPlayerResponse_put_detail (p : ArenaStringPtr) (i : KickPlayerResponse) : KickPlayerResponse :=
  mkKickPlayerResponse p (kpr_success i).
Definition KickPlayerResponse_detail (m : Message KickPlayerResponse) : list Z := string_Get (kpr_detail (_impl_ m)).
Definition KickPlayerResponse_clear_detail : Message KickPlayerResponse -> Message KickPlayerResponse :=
  clear_field 0x1 (fun i => KickPlayerResponse_put_detail (ClearToEmpty (kpr_detail i)) i).
Definition KickPlayerResponse_mutable_detail (write : list Z -> list Z) : Message KickPlayerResponse -> Message KickPlayerResponse :=
  set_field 0x1 (fun i => KickPlayerResponse_put_detail (string_Mutable write (kpr_detail i)) i).
Definition KickPlayerResponse_release_detail : Message KickPlayerResponse -> option (list Z) * Message KickPlayerResponse :=
  release_field 0x1 kpr_detail KickPlayerResponse_put_detail.
Definition KickPlayerResponse_set_allocated_detail : option (list Z) -> Message KickPlayerResponse -> Message KickPlayerResponse :=
  allocated_field 0x1 kpr_detail KickPlayerResponse_put_detail.

Definition KickPlayerResponse_InternalSwap (m other : Message KickPlayerResponse)
  : Message KickPlayerResponse * Message KickPlayerResponse :=
  let i := _impl_ m in
  let j := _impl_ other in
  swapped (mkKickPlayerResponse (kpr_detail j) (kpr_success j))
    (mkKickPlayerResponse (kpr_detail i) (kpr_success i)) m other.
Definition KickPlayerResponse_copy (from : Message KickPlayerResponse) : Message KickPlayerResponse :=
  let i := _impl_ from in
  copied (mkKickPlayerResponse (string_Copy (kpr_detail i)) (kpr_success i)) from.

(** *** LobbyInfo *)

Definition LobbyInfo_id (m : Message LobbyInfo) : Z := li_id (_impl_ m).
Definition LobbyInfo_clear_id : Message LobbyInfo -> Message LobbyInfo :=
  clear_field 0x1 (fun i => mkLobbyInfo 0 (li_playercount i) (li_capacity i)).
Definition LobbyInfo_playercount (m : Message LobbyInfo) : Z := li_playercount (_impl_ m).
Definition LobbyInfo_clear_playercount : Message LobbyInfo -> Message LobbyInfo :=
  clear_field 0x2 (fun i => mkLobbyInfo (li_id i) 0 (li_capacity i)).
Definition LobbyInfo_capacity (m : Message LobbyInfo) : Z := li_capacity (_impl_ m).
Definition LobbyInfo_clear_capacity : Message LobbyInfo -> Message LobbyInfo :=
  clear_field 0x4 (fun i => mkLobbyInfo (li_id i) (li_playercount i) 0).

Definition LobbyInfo_InternalSwap (m other : Message LobbyInfo) : Message LobbyInfo * Message LobbyInfo :=
  let i := _impl_ m in
  let j := _impl_ other in
  swapped (mkLobbyInfo (li_id j) (li_playercount j) (li_capacity j))
    (mkLobbyInfo (li_id i) (li_playercount i) (li_capacity i)) m other.
Definition LobbyInfo_copy (from : Message LobbyInfo) : Message LobbyInfo :=
  let i := _impl_ from in
  mkMessage (_has_bits_ from) (mkLobbyInfo (li_id i) (li_playercount i) (li_capacity i))
    (metadata_MergeFrom metadata_New (_internal_metadata_ from)) (_cached_size_ from).

(** *** The list responses *)

Section lists.
Context {F : Type} {G : Generated F}.

Definition list_size (m : Message (RepeatedPtrField F)) : Z := Z.of_nat (length (rep_elements (_impl_ m))).

Definition list_clear_field (m : Message (RepeatedPtrField F)) : Message (RepeatedPtrField F) :=
  mkMessage (ClearHasBitForRepeated (_has_bits_ m) 0x1) (repeated_Clear (_impl_ m)) (_internal_metadata_ m) (_cached_size_ m).

(** An index out of range is the caller's error. *)
Definition list_get (index : nat) (m : Message (RepeatedPtrField F)) : option (Message F) :=
  rep_elements (_impl_ m) !! index.

Definition list_mutable (index : nat) (write : Message F -> Message F) (m : Message (RepeatedPtrField F))
  : Message (RepeatedPtrField F) :=
  mkMessage (_has_bits_ m) (mkRepeated (alter write index (rep_elements (_impl_ m))) (rep_cleared (_impl_ m)))
    (_internal_metadata_ m) (_cached_size_ m).

Definition list_MergeImpl (to from : Message (RepeatedPtrField F)) : Message (RepeatedPtrField F) :=
  merged (if CheckHasBitForRepeated (_has_bits_ from) 0x1 then repeated_MergeFrom (_impl_ to) (_impl_ from) else _impl_ to)
    to from.

Definition list_CopyFrom (same : bool) (to from : Message (RepeatedPtrField F)) : Message (RepeatedPtrField F) :=
  if same then to else list_MergeImpl (list_Clear to) from.

Definition list_InternalSwap (m other : Message (RepeatedPtrField F))
  : Message (RepeatedPtrField F) * Message (RepeatedPtrField F) :=
  let i := _impl_ m in
  let j := _impl_ other in
  swapped (mkRepeated (rep_elements j) (rep_cleared j)) (mkRepeated (rep_elements i) (rep_cleared i)) m other.

Definition list_copy (from : Message (RepeatedPtrField F)) : Message (RepeatedPtrField F) :=
  copied (repeated_MergeFrom (mkRepeated [] []) (_impl_ from)) from.
End lists.

Definition ListRoomsResponse_rooms_size := list_size (F := RoomInfo).
Definition ListRoomsResponse_clear_rooms := list_clear_field (F := RoomInfo).
Definition ListRoomsResponse_rooms := list_get (F := RoomInfo).
Definition ListRoomsResponse_mutable_rooms := list_mutable (F := RoomInfo).
Definition ListRoomsResponse_MergeImpl := list_MergeImpl (F := RoomInfo).
Definition ListRoomsResponse_CopyFrom := list_CopyFrom (F := RoomInfo).
Definition ListRoomsResponse_InternalSwap := list_InternalSwap (F := RoomInfo).
Definition ListRoomsResponse_copy := list_copy (F := RoomInfo).

Definition ListPlayersResponse_players_size := list_size (F := PlayerInfo).
Definition ListPlayersResponse_clear_players := list_clear_field (F := PlayerInfo).
Definition ListPlayersResponse_players := list_get (F := PlayerInfo).
Definition ListPlayersResponse_mutable_players := list_mutable (F := PlayerInfo).
Definition ListPlayersResponse_MergeImpl := list_MergeImpl (F := PlayerInfo).
Definition ListPlayersResponse_CopyFrom := list_CopyFrom (F := PlayerInfo).
Definition ListPlayersResponse_InternalSwap := list_InternalSwap (F := PlayerInfo).
Definition ListPlayersResponse_copy := list_copy (F := PlayerInfo).

Definition ListLobbiesResponse_lobbies_size := list_size (F := LobbyInfo).
Definition ListLobbiesResponse_clear_lobbies := list_clear_field (F := LobbyInfo).
Definition ListLobbiesResponse_lobbies := list_get (F := LobbyInfo).
Definition ListLobbiesResponse_mutable_lobbies := list_mutable (F := LobbyInfo).
Definition ListLobbiesResponse_MergeImpl := list_MergeImpl (F := LobbyInfo).
Definition ListLobbiesResponse_CopyFrom := list_CopyFrom (F := LobbyInfo).
Definition ListLobbiesResponse_InternalSwap := list_InternalSwap (F := LobbyInfo).
Definition ListLobbiesResponse_copy := list_copy (F := LobbyInfo).

(** ** The specification *)

Definition text_value (s : list Z) : option wire_value := if (length s =? 0)%nat then None else Some (WBytes s).

Record field_laws {F V} {G : Generated F} (n : Z) (value : V -> option wire_value) (dflt : V)
    (get : Message F -> V) (set : V -> Message F -> Message F) (clear : Message F -> Message F) : Prop := {
  fl_read : forall m, field_of n (slots (_impl_ m)) = value (get m);
  fl_get_set : forall v m, get (set v m) = v;
  fl_get_clear : forall m, get (clear m) = dflt;
  fl_set_others : forall v m k, k <> n -> field_of k (slots (_impl_ (set v m))) = field_of k (slots (_impl_ m));
  fl_clear_others : forall m k, k <> n -> field_of k (slots (_impl_ (clear m))) = field_of k (slots (_impl_ m));
  fl_default : value dflt = None;
  fl_set_consistent : forall v m, consistent m -> consistent (set v m);
  fl_clear_consistent : forall m, consistent m -> consistent (clear m);
}.

Record text_laws {F} {G : Generated F} (n mask : Z) (get : Message F -> list Z)
    (mut : (list Z -> list Z) -> Message F -> Message F) (release : Message F -> option (list Z) * Message F)
    (set_allocated : option (list Z) -> Message F -> Message F) : Prop := {
  tl_mutable : forall f m, get (mut f m) = f (get m);
  tl_release : forall m, consistent m ->
    (release m).1 = (if CheckHasBit (_has_bits_ m) mask then Some (get m) else None) /\ get (release m).2 = [];
  tl_allocated : forall v m, get (set_allocated v m) = default [] v;
  tl_others : forall f v m k, k <> n ->
    field_of k (slots (_impl_ (mut f m))) = field_of k (slots (_impl_ m)) /\
    field_of k (slots (_impl_ (release m).2)) = field_of k (slots (_impl_ m)) /\
    field_of k (slots (_impl_ (set_allocated v m))) = field_of k (slots (_impl_ m));
  tl_consistent : forall f v m, consistent m ->
    consistent (mut f m) /\ consistent (release m).2 /\ consistent (set_allocated v m);
}.

Record whole_laws {F} {G : Generated F} (swap : Message F -> Message F -> Message F * Message F)
    (copy : Message F -> Message F) : Prop := {
  wl_swap : forall m other,
    swap m other = (mkMessage (_has_bits_ other) (_impl_ other) (_internal_metadata_ other) (_cached_size_ m),
                    mkMessage (_has_bits_ m) (_impl_ m) (_internal_metadata_ m) (_cached_size_ other));
  wl_copy : forall m, consistent m -> consistent (copy m);
  wl_copy_fields : forall m, present (slots (_impl_ (copy m))) = present (slots (_impl_ m));
  wl_copy_unknown : forall m, unknown_bytes (_internal_metadata_ (copy m)) = unknown_bytes (_internal_metadata_ m);
}.

(** A list response as its elements' fields. *)
Definition rows_of {F} {G : Generated F} (m : Message (RepeatedPtrField F)) : list (list (Z * wire_value)) :=
  (fun e => present (slots (_impl_ e))) <$> rep_elements (_impl_ m).

Record list_laws (F : Type) {G : Generated F} : Prop := {
  ll_size : forall m : Message (RepeatedPtrField F), list_size m = Z.of_nat (length (rows_of m));
  ll_clear : forall m : Message (RepeatedPtrField F), list_consistent m ->
    list_consistent (list_clear_field m) /\ rows_of (list_clear_field m) = [];
  ll_get : forall i (m : Message (RepeatedPtrField F)),
    (fun e => present (slots (_impl_ e))) <$> list_get i m = rows_of m !! i;
  ll_mutable : forall i f (m : Message (RepeatedPtrField F)),
    (forall e, consistent e -> consistent (f e)) -> list_consistent m ->
    list_consistent (list_mutable i f m) /\ list_get i (list_mutable i f m) = f <$> list_get i m /\
    forall j, j <> i -> list_get j (list_mutable i f m) = list_get j m;
  ll_merge : forall to from : Message (RepeatedPtrField F), list_consistent to -> list_consistent from ->
    list_consistent (list_MergeImpl to from) /\ rows_of (list_MergeImpl to from) = rows_of to ++ rows_of from;
  ll_copy_from : forall to from : Message (RepeatedPtrField F), list_consistent to -> list_consistent from ->
    list_consistent (list_CopyFrom false to from) /\ rows_of (list_CopyFrom false to from) = rows_of from;
  ll_copy : forall from : Message (RepeatedPtrField F), list_consistent from ->
    list_consistent (list_copy from) /\ rows_of (list_copy from) = rows_of from;
  ll_swap : forall m other : Message (RepeatedPtrField F),
    list_InternalSwap m other =
      (mkMessage (_has_bits_ other) (_impl_ other) (_internal_metadata_ other) (_cached_size_ m),
       mkMessage (_has_bits_ m) (_impl_ m) (_internal_metadata_ m) (_cached_size_ other));
}.

(** ** Proofs *)

Context {Lok : ProtobufLib_ok L} {Aok : AccessorLib_ok A}.

Lemma check_ldiff bits mask mask' :
  CheckHasBit (ClearHasBit bits mask) mask' = CheckHasBit bits (Z.ldiff mask' mask).
Proof.
  rewrite clear_bit, !check_bit. do 2 f_equal. apply Z.bits_inj'. intros k _.
  rewrite !Z.land_spec, !Z.ldiff_spec. by destruct (Z.testbit bits k), (Z.testbit mask k), (Z.testbit mask' k).
Qed.

Lemma clear_slot_consistent bits l i n mask v :
  Forall (slot_consistent bits) l -> is_default v = true ->
  (forall j s, l !! j = Some s -> j <> i -> Z.ldiff (s_mask s) mask = s_mask s) ->
  Forall (slot_consistent (ClearHasBit bits mask)) (<[i := Slot n mask v]> l).
Proof.
  intros Hl Hv Hd. apply Forall_lookup. intros j s Hs. unfold slot_consistent. rewrite check_ldiff.
  apply list_lookup_insert_Some in Hs as [(<- & <- & _)|[Hj Hs]]; cbn [s_mask s_value].
  - rewrite Z.ldiff_diag, check_bit, Z.land_0_r. done.
  - rewrite (Hd j s) by auto. by eapply (proj1 (Forall_lookup _ _) Hl).
Qed.

Lemma unset_slot bits l i s : Forall (slot_consistent bits) l -> l !! i = Some s -> slot_consistent bits s.
Proof. intros Hl Hs. by eapply (proj1 (Forall_lookup _ _) Hl). Qed.

Lemma unknown_new d : unknown_bytes (metadata_MergeFrom metadata_New d) = unknown_bytes d.
Proof. rewrite metadata_merged. unfold unknown_bytes at 1. by rewrite metadata_new. Qed.

(** Field [k] of slots listed with their numbers. *)
Ltac other_field := intros; cbn -[Z.eqb field_value]; repeat (case_match; to_prop; subst; [done|]); done.

(** The slot at [i] gets a value and its bit, or loses them. *)
Ltac disjoint := let j := fresh in let s := fresh in let Hs := fresh in
  intros j s Hs ?; destruct j as [|[|[|[|j]]]]; cbn in Hs; simplify_eq; done.
Ltac sets i Hc := apply (set_slot_consistent _ _ i) with (1 := Hc);
  [done|intros ? [= <-]; first [apply string_set_own | apply mutable_own | apply allocated_own]||done|disjoint].
Ltac clears i Hc := apply (clear_slot_consistent _ _ i) with (1 := Hc);
  [first [done | by cbn; rewrite ?clear_to_empty, ?release_leaves, ?allocated_get]|disjoint].

Ltac field_lens i := split;
  [ done
  | intros; first [done | apply string_set]
  | intros; first [done | apply clear_to_empty]
  | other_field | other_field | done
  | intros v m Hc; sets i Hc
  | intros m Hc; clears i Hc ].

Lemma release_spec {F} mask (get : F -> ArenaStringPtr) put (m : Message F) n :
  slot_consistent (_has_bits_ m) (Slot n mask (SText (get (_impl_ m)))) ->
  if CheckHasBit (_has_bits_ m) mask
  then (release_field mask get put m).1 = Some (string_Get (get (_impl_ m))) /\
       (release_field mask get put m).2 =
         clear_field mask (fun i => put (string_Release (get i)).2 i) m
  else release_field mask get put m = (None, m) /\ string_Get (get (_impl_ m)) = [].
Proof.
  intros [H0 H1]. cbn in H0, H1. unfold release_field, clear_field.
  destruct (CheckHasBit (_has_bits_ m) mask); cbn [negb].
  - pose proof (release_gives _ (H1 eq_refl _ eq_refl)) as Hr. by destruct (string_Release (get (_impl_ m))).
  - split; [done|]. specialize (H0 eq_refl). by destruct (string_Get (get (_impl_ m))).
Qed.

(** The string at slot [i]. *)
Ltac released i Hc R1 R2 :=
  unfold HealthCheckResponse_release_status, RoomInfo_release_name, BroadcastRequest_release_message,
      BroadcastResponse_release_detail, PlayerInfo_release_name, KickPlayerResponse_release_detail in *;
  match goal with
  | |- context [release_field ?k ?g ?p ?m] =>
      pose proof (release_spec k g p m _ (unset_slot _ _ i _ Hc eq_refl)) as R1; destruct (CheckHasBit _ k); destruct R1 as [R1 R2]
  end.

Ltac text_lens i := split;
  [ intros; apply mutable_get
  | intros m Hc; let R1 := fresh in let R2 := fresh in
    released i Hc R1 R2; [by rewrite R1, R2; split; [|apply release_leaves]|by rewrite R1]
  | intros; apply allocated_get
  | intros f v m k Hk; split_and!; [other_field| |other_field];
    unfold HealthCheckResponse_release_status, RoomInfo_release_name, BroadcastRequest_release_message,
      BroadcastResponse_release_detail, PlayerInfo_release_name, KickPlayerResponse_release_detail, release_field;
    destruct (CheckHasBit _ _); [|done]; cbn [negb]; destruct (string_Release _); other_field
  | intros f v m Hc; split_and!; [sets i Hc| |destruct v; [sets i Hc|clears i Hc]];
    let R1 := fresh in let R2 := fresh in released i Hc R1 R2; [rewrite R2; clears i Hc|by rewrite R1] ].

Lemma fields_lawful :
  field_laws 1 text_value [] HealthCheckResponse_status HealthCheckResponse_set_status HealthCheckResponse_clear_status /\
  field_laws 1 (fun v => field_value (SInt64 v)) 0 RoomInfo_id RoomInfo_set_id RoomInfo_clear_id /\
  field_laws 2 text_value [] RoomInfo_name RoomInfo_set_name RoomInfo_clear_name /\
  field_laws 3 (fun v => field_value (SInt32 v)) 0 RoomInfo_playercount
    RoomInfo_set_playercount RoomInfo_clear_playercount /\
  field_laws 4 (fun v => field_value (SInt32 v)) 0 RoomInfo_capacity RoomInfo_set_capacity RoomInfo_clear_capacity /\
  field_laws 1 (fun v => field_value (SInt64 v)) 0 BroadcastRequest_roomid
    BroadcastRequest_set_roomid BroadcastRequest_clear_roomid /\
  field_laws 2 text_value [] BroadcastRequest_message BroadcastRequest_set_message BroadcastRequest_clear_message /\
  field_laws 1 (fun v => field_value (SBool v)) false BroadcastResponse_success
    BroadcastResponse_set_success BroadcastResponse_clear_success /\
  field_laws 2 text_value [] BroadcastResponse_detail BroadcastResponse_set_detail BroadcastResponse_clear_detail /\
  field_laws 1 (fun v => field_value (SUInt64 v)) 0 PlayerInfo_id PlayerInfo_set_id PlayerInfo_clear_id /\
  field_laws 2 text_value [] PlayerInfo_name PlayerInfo_set_name PlayerInfo_clear_name /\
  field_laws 3 (fun v => field_value (SInt32 v)) 0 PlayerInfo_lobbyindex
    PlayerInfo_set_lobbyindex PlayerInfo_clear_lobbyindex /\
  field_laws 4 (fun v => field_value (SInt32 v)) 0 PlayerInfo_roomindex
    PlayerInfo_set_roomindex PlayerInfo_clear_roomindex /\
  field_laws 1 (fun v => field_value (SUInt64 v)) 0 KickPlayerRequest_id
    KickPlayerRequest_set_id KickPlayerRequest_clear_id /\
  field_laws 1 (fun v => field_value (SBool v)) false KickPlayerResponse_success
    KickPlayerResponse_set_success KickPlayerResponse_clear_success /\
  field_laws 2 text_value [] KickPlayerResponse_detail KickPlayerResponse_set_detail KickPlayerResponse_clear_detail /\
  field_laws 1 (fun v => field_value (SInt32 v)) 0 LobbyInfo_id LobbyInfo_set_id LobbyInfo_clear_id /\
  field_laws 2 (fun v => field_value (SInt32 v)) 0 LobbyInfo_playercount
    LobbyInfo_set_playercount LobbyInfo_clear_playercount /\
  field_laws 3 (fun v => field_value (SInt32 v)) 0 LobbyInfo_capacity LobbyInfo_set_capacity LobbyInfo_clear_capacity.
Proof.
  split_and!; first [field_lens 0%nat | field_lens 1%nat | field_lens 2%nat | field_lens 3%nat].
Qed.

Lemma texts_lawful :
  text_laws 1 0x1 HealthCheckResponse_status HealthCheckResponse_mutable_status
    HealthCheckResponse_release_status HealthCheckResponse_set_allocated_status /\
  text_laws 2 0x1 RoomInfo_name RoomInfo_mutable_name RoomInfo_release_name RoomInfo_set_allocated_name /\
  text_laws 2 0x1 BroadcastRequest_message BroadcastRequest_mutable_message
    BroadcastRequest_release_message BroadcastRequest_set_allocated_message /\
  text_laws 2 0x1 BroadcastResponse_detail BroadcastResponse_mutable_detail
    BroadcastResponse_release_detail BroadcastResponse_set_allocated_detail /\
  text_laws 2 0x1 PlayerInfo_name PlayerInfo_mutable_name PlayerInfo_release_name PlayerInfo_set_allocated_name /\
  text_laws 2 0x1 KickPlayerResponse_detail KickPlayerResponse_mutable_detail
    KickPlayerResponse_release_detail KickPlayerResponse_set_allocated_detail.
Proof.
  split_and!; first [text_lens 0%nat | text_lens 1%nat].
Qed.

Ltac whole := split;
  [ intros [? [] ? ?] [? [] ? ?]; done
  | intros m Hc; unfold consistent in *; cbn in *;
    repeat match goal with H : Forall _ (_ :: _) |- _ => inversion_clear H end;
    repeat constructor; unfold slot_consistent in *; cbn in *; rewrite ?copy_get; try tauto;
    intros ? ? [= <-]; rewrite copy_own; match goal with H : _ /\ (_ -> forall p, SText _ = SText p -> _) |- _ => by apply H end
  | intros m; cbn -[field_value]; unfold present; cbn -[field_value]; unfold field_value; cbn; by rewrite ?copy_get
  | intros m; apply unknown_new ].

Lemma wholes_lawful :
  whole_laws HealthCheckResponse_InternalSwap HealthCheckResponse_copy /\
  whole_laws RoomInfo_InternalSwap RoomInfo_copy /\
  whole_laws BroadcastRequest_InternalSwap BroadcastRequest_copy /\
  whole_laws BroadcastResponse_InternalSwap BroadcastResponse_copy /\
  whole_laws PlayerInfo_InternalSwap PlayerInfo_copy /\
  whole_laws KickPlayerRequest_InternalSwap KickPlayerRequest_copy /\
  whole_laws KickPlayerResponse_InternalSwap KickPlayerResponse_copy /\
  whole_laws LobbyInfo_InternalSwap LobbyInfo_copy.
Proof. split_and!; whole. Qed.

Section list_proofs.
Context {F : Type} {G : Generated F} {Gok : Generated_ok F}.

(** Merging appends the other's rows. *)
Lemma merge_rows bits meta size (to from : RepeatedPtrField F) :
  Forall consistent (rep_elements to) -> Forall consistent (rep_elements from) ->
  Forall (fun e => consistent e /\ present (slots (_impl_ e)) = [] /\ have_unknown_fields (_internal_metadata_ e) = false)
    (rep_cleared to) ->
  (rep_elements to <> [] \/ rep_elements from <> [] -> Z.land bits 0x1 <> 0) ->
  let m := mkMessage bits (repeated_MergeFrom to from) meta size in
  list_consistent m /\
  rows_of m = ((fun e => present (slots (_impl_ e))) <$> rep_elements to) ++ ((fun e => present (slots (_impl_ e))) <$> rep_elements from).
Proof.
  intros Ht Hf Hc Hb. destruct (merge_elements F to from) as (es & k & He & Hk & Hes). split; [split|]; cbn.
  - rewrite He. intros Hn. apply Hb. destruct (rep_elements to); [right|by left]. by destruct Hes.
  - rewrite He. apply Forall_app. split; [done|]. clear He. induction Hes as [|e e' l l' (_ & H1 & _) _ IH]; [done|].
    inversion_clear Hf. constructor; auto.
  - rewrite Hk. by apply Forall_drop.
  - unfold rows_of. cbn. rewrite He, fmap_app. f_equal. clear He Hf Hb.
    induction Hes as [|e e' l l' (_ & _ & H1) _ IH]; [done|]. cbn. by rewrite H1, IH.
Qed.

Lemma unannounced (m : Message (RepeatedPtrField F)) :
  list_consistent m -> CheckHasBitForRepeated (_has_bits_ m) 0x1 = false -> rep_elements (_impl_ m) = [].
Proof. intros [Hb _ _] Hc. destruct (rep_elements (_impl_ m)); [done|]. by rewrite repeated_bit in Hc by auto. Qed.

Lemma list_merge_laws (to from : Message (RepeatedPtrField F)) :
  list_consistent to -> list_consistent from ->
  list_consistent (list_MergeImpl to from) /\ rows_of (list_MergeImpl to from) = rows_of to ++ rows_of from.
Proof.
  intros Ht Hf. pose proof Ht as [Hb1 He1 Hc1]. pose proof Hf as [Hb2 He2 Hc2]. unfold list_MergeImpl, merged.
  assert (rep_elements (_impl_ to) <> [] \/ rep_elements (_impl_ from) <> [] ->
    Z.land (Z.lor (_has_bits_ to) (_has_bits_ from)) 0x1 <> 0) as Hb.
  { intros Hn. rewrite Z.land_lor_distr_l. intros [H1 H2]%Z.lor_eq_0_iff. destruct Hn; [by apply Hb1|by apply Hb2]. }
  destruct (CheckHasBitForRepeated (_has_bits_ from) 1) eqn:Ec; [by apply merge_rows|].
  pose proof (unannounced from Hf Ec) as Hn. unfold rows_of. rewrite Hn. cbn. rewrite app_nil_r.
  split; [split; cbn; auto|done].
Qed.

Lemma lists_lawful : list_laws F.
Proof.
  split.
  - intros m. unfold list_size, rows_of. by rewrite length_fmap.
  - intros m [_ He Hc]. unfold rows_of, list_clear_field. cbn. split; [|done]. split; cbn; [done|done|].
    apply Forall_app. split; [|done]. apply Forall_fmap. eapply Forall_impl; [exact He|]. intros e Hce.
    destruct (Clear_empties e Hce) as (H1 & H2 & H3). split_and!; [done|by apply present_empty|done].
  - intros i m. unfold rows_of, list_get. by rewrite list_lookup_fmap.
  - intros i f m Hf [Hb He Hc]. unfold list_mutable, list_get. cbn. split_and!.
    + split; cbn; [|apply Forall_alter; auto|done].
      intros Hn. apply Hb. intros E. rewrite E in Hn. by apply Hn.
    + by rewrite list_lookup_alter_eq.
    + intros j Hj. by rewrite list_lookup_alter_ne by done.
  - apply list_merge_laws.
  - intros to from Ht Hf. destruct (list_Clear_consistent to Ht) as [H1 H2].
    destruct (list_merge_laws _ _ H1 Hf) as [H3 H4]. unfold list_CopyFrom. split; [done|]. rewrite H4. unfold rows_of at 1.
    by rewrite H2.
  - intros from [Hb He Hc]. unfold list_copy, copied. apply (merge_rows _ _ _ (mkRepeated [] []));
      [constructor|done|constructor|]. intros [Hn|Hn]; [done|by apply Hb].
  - by intros [? [] ? ?] [? [] ? ?].
Qed.
End list_proofs.

End accessors.

(** C26: every accessor protoc generated does what its documentation says: a field
    reads as it was set, a cleared or released one is the default and is no longer
    sent, the other fields are untouched and the presence bits stay consistent; a
    swap exchanges two messages and a copy has its source's fields; and a list
    response merges, copies and clears as the list of its rows. *)
Theorem accessors_lawful (L : ProtobufLib) (A : AccessorLib L) :
  ProtobufLib_ok L -> AccessorLib_ok A ->
  (
  field_laws 1 text_value [] HealthCheckResponse_status HealthCheckResponse_set_status HealthCheckResponse_clear_status /\
  field_laws 1 (fun v => field_value (SInt64 v)) 0 RoomInfo_id RoomInfo_set_id RoomInfo_clear_id /\
  field_laws 2 text_value [] RoomInfo_name RoomInfo_set_name RoomInfo_clear_name /\
  field_laws 3 (fun v => field_value (SInt32 v)) 0 RoomInfo_playercount
    RoomInfo_set_playercount RoomInfo_clear_playercount /\
  field_laws 4 (fun v => field_value (SInt32 v)) 0 RoomInfo_capacity RoomInfo_set_capacity RoomInfo_clear_capacity /\
  field_laws 1 (fun v => field_value (SInt64 v)) 0 BroadcastRequest_roomid
    BroadcastRequest_set_roomid BroadcastRequest_clear_roomid /\
  field_laws 2 text_value [] BroadcastRequest_message BroadcastRequest_set_message BroadcastRequest_clear_message /\
  field_laws 1 (fun v => field_value (SBool v)) false BroadcastResponse_success
    BroadcastResponse_set_success BroadcastResponse_clear_success /\
  field_laws 2 text_value [] BroadcastResponse_detail BroadcastResponse_set_detail BroadcastResponse_clear_detail /\
  field_laws 1 (fun v => field_value (SUInt64 v)) 0 PlayerInfo_id PlayerInfo_set_id PlayerInfo_clear_id /\
  field_laws 2 text_value [] PlayerInfo_name PlayerInfo_set_name PlayerInfo_clear_name /\
  field_laws 3 (fun v => field_value (SInt32 v)) 0 PlayerInfo_lobbyindex
    PlayerInfo_set_lobbyindex PlayerInfo_clear_lobbyindex /\
  field_laws 4 (fun v => field_value (SInt32 v)) 0 PlayerInfo_roomindex
    PlayerInfo_set_roomindex PlayerInfo_clear_roomindex /\
  field_laws 1 (fun v => field_value (SUInt64 v)) 0 KickPlayerRequest_id
    KickPlayerRequest_set_id KickPlayerRequest_clear_id /\
  field_laws 1 (fun v => field_value (SBool v)) false KickPlayerResponse_success
    KickPlayerResponse_set_success KickPlayerResponse_clear_success /\
  field_laws 2 text_value [] KickPlayerResponse_detail KickPlayerResponse_set_detail KickPlayerResponse_clear_detail /\
  field_laws 1 (fun v => field_value (SInt32 v)) 0 LobbyInfo_id LobbyInfo_set_id LobbyInfo_clear_id /\
  field_laws 2 (fun v => field_value (SInt32 v)) 0 LobbyInfo_playercount
    LobbyInfo_set_playercount LobbyInfo_clear_playercount /\
  field_laws 3 (fun v => field_value (SInt32 v)) 0 LobbyInfo_capacity LobbyInfo_set_capacity LobbyInfo_clear_capacity) /\
  (
  text_laws 1 0x1 HealthCheckResponse_status HealthCheckResponse_mutable_status
    HealthCheckResponse_release_status HealthCheckResponse_set_allocated_status /\
  text_laws 2 0x1 RoomInfo_name RoomInfo_mutable_name RoomInfo_release_name RoomInfo_set_allocated_name /\
  text_laws 2 0x1 BroadcastRequest_message BroadcastRequest_mutable_message
    BroadcastRequest_release_message BroadcastRequest_set_allocated_message /\
  text_laws 2 0x1 BroadcastResponse_detail BroadcastResponse_mutable_detail
    BroadcastResponse_release_detail BroadcastResponse_set_allocated_detail /\
  text_laws 2 0x1 PlayerInfo_name PlayerInfo_mutable_name PlayerInfo_release_name PlayerInfo_set_allocated_name /\
  text_laws 2 0x1 KickPlayerResponse_detail KickPlayerResponse_mutable_detail
    KickPlayerResponse_release_detail KickPlayerResponse_set_allocated_detail) /\
  (
  whole_laws HealthCheckResponse_InternalSwap HealthCheckResponse_copy /\
  whole_laws RoomInfo_InternalSwap RoomInfo_copy /\
  whole_laws BroadcastRequest_InternalSwap BroadcastRequest_copy /\
  whole_laws BroadcastResponse_InternalSwap BroadcastResponse_copy /\
  whole_laws PlayerInfo_InternalSwap PlayerInfo_copy /\
  whole_laws KickPlayerRequest_InternalSwap KickPlayerRequest_copy /\
  whole_laws KickPlayerResponse_InternalSwap KickPlayerResponse_copy /\
  whole_laws LobbyInfo_InternalSwap LobbyInfo_copy) /\
  list_laws RoomInfo /\ list_laws PlayerInfo /\ list_laws LobbyInfo.
Proof.
  intros Lok Aok. split; [exact fields_lawful|]. split; [exact texts_lawful|]. split; [exact wholes_lawful|].
  split_and!; apply lists_lawful.
Qed.

(** The library of Messages.v with its accessors, for the witness. *)
Module plain_strings.
#[local] Existing Instance toy.lib.
#[local] Instance lib : AccessorLib toy.lib := {
  ClearHasBit := Z.ldiff;
  ClearHasBitForRepeated := Z.ldiff;
  ClearToEmpty := option_map (fun _ => []);
  string_Mutable f p := Some (f (default [] p));
  string_Release p := (p, None);
  string_SetAllocated v _ := v;
  string_Copy p := p;
  repeated_MergeFrom F G to from := mkRepeated (rep_elements to ++ rep_elements from) (rep_cleared to);
}.

Lemma accessors_ok : AccessorLib_ok lib.
Proof.
  split; try done; try (by intros []).
  intros F G to from. exists (rep_elements from), 0%nat. split_and!; [done..|]. by induction (rep_elements from); constructor.
Qed.
End plain_strings.

#[local] Existing Instance toy.lib.
#[local] Existing Instance plain_strings.lib.

Lemma accessors_lawful_witness :
  RoomInfo_release_name (RoomInfo_set_name [97] RoomInfo_New) = (Some [97], RoomInfo_New) /\ list_laws RoomInfo.
Proof.
  split; [reflexivity|]. apply (accessors_lawful toy.lib plain_strings.lib toy.lib_ok plain_strings.accessors_ok).
Defined.
