(* ===== verification/Tables.v ===== *)
(** * The parse tables of the administration messages

    The constants [_table_] that protoc wrote into
    src/DhNet_Server/DhNet_Ipc/generated/dhnet.pb.cc, and the dispatch on a field's
    tag by which protobuf's parser uses them
    (src/Tools/include/google/protobuf/generated_message_tctable_decl.h and _impl.h:
    TcFieldData, TcParser::TagDispatch, the bits of a type card).

    Each table is proved to describe its class ([table_agrees]): whatever two bytes
    the parser looks at, the dispatch stays inside the table and names the field
    with that tag, its presence bit and its place, or none.  The functions the
    dispatch jumps to are the library's.

    A field's offset in the object and the offset of the presence bits are
    parameters: [off k] for the field at place [k] of the class's slots, [has]. *)

From S2P Require Import Prelude Bytes Wire Messages.
#[local] Open Scope Z_scope.

(** ** The bits of a type card *)

Definition kFkShift : Z := 0.
Definition kFkBits : Z := 3.
Definition kFkVarint : Z := 1.
Definition kFkString : Z := 5.
Definition kFkMessage : Z := 6.
Definition kSplitShift : Z := kFkShift + kFkBits.
Definition kSplitBits : Z := 1.
Definition kFcShift : Z := kSplitShift + kSplitBits.
Definition kFcBits : Z := 2.
Definition kFcOptional : Z := Z.shiftl 1 kFcShift.
Definition kFcRepeated : Z := Z.shiftl 2 kFcShift.
Definition kRepShift : Z := kFcShift + kFcBits.
Definition kRepBits : Z := 3.
Definition kRep8Bits : Z := 0.
Definition kRep32Bits : Z := Z.shiftl 2 kRepShift.
Definition kRep64Bits : Z := Z.shiftl 3 kRepShift.
Definition kRepAString : Z := 0.
Definition kTvShift : Z := kRepShift + kRepBits.
Definition kTvBits : Z := 2.
Definition kTvUtf8 : Z := Z.shiftl 2 kTvShift.
Definition kTvTable : Z := Z.shiftl 2 kTvShift.
Definition kFmtShift : Z := kTvShift + kTvBits.
Definition kFmtUnsigned : Z := Z.shiftl 1 kFmtShift.
Definition kFmtSigned : Z := Z.shiftl 2 kFmtShift.
Definition kFmtUtf8 : Z := Z.shiftl 1 kFmtShift.

Definition kBool : Z := Z.lor kFkVarint kRep8Bits.
Definition kInt32 : Z := Z.lor (Z.lor kFkVarint kRep32Bits) kFmtSigned.
Definition kUInt64 : Z := Z.lor (Z.lor kFkVarint kRep64Bits) kFmtUnsigned.
Definition kInt64 : Z := Z.lor (Z.lor kFkVarint kRep64Bits) kFmtSigned.
Definition kUtf8String : Z := Z.lor (Z.lor kFkString kFmtUtf8) kTvUtf8.
Definition kMessage : Z := kFkMessage.

(** ** Tables *)

(** The functions of the library a fast entry jumps to. *)
Inductive parse_func := MiniParse | FastV8S1 | FastV32S1 | FastV64S1 | FastUS1 | FastMtR1.

Definition SingularVarintNoZag1 (sizeof_FieldType : Z) : parse_func :=
  if sizeof_FieldType =? 1 then FastV8S1 else if sizeof_FieldType =? 4 then FastV32S1 else FastV64S1.

(** The arguments of a fast entry, packed into 64 bits. *)
Record TcFieldData := mkFieldData { fd_coded_tag : Z; fd_hasbit_idx : Z; fd_aux_idx : Z; fd_offset : Z }.

Definition data (d : TcFieldData) : Z :=
  Z.lor (Z.lor (Z.lor (Z.shiftl (fd_offset d) 48) (Z.shiftl (fd_aux_idx d) 24)) (Z.shiftl (fd_hasbit_idx d) 16))
    (fd_coded_tag d).

Definition coded_tag8 (data : Z) : Z := u8 data.
Definition hasbit_idx (data : Z) : Z := u8 (Z.shiftr data 16).
Definition data_offset (data : Z) : Z := u16 (Z.shiftr data 48).

Record FastFieldEntry := mkFast { fe_target : parse_func; fe_bits : TcFieldData }.
Record FieldEntry := mkEntry { en_offset : Z; en_has_idx : Z; en_aux_idx : Z; en_type_card : Z }.

Record TcParseTable := mkTable {
  max_field_number : Z;
  fast_idx_mask : Z;
  skipmap32 : Z;
  num_field_entries : Z;
  num_aux_entries : Z;
  fast_entries : list FastFieldEntry;
  field_lookup : list Z;
  field_entries : list FieldEntry;
  aux_entries : list string;
}.

(** TcParser::TagDispatch: [coded_tag] is the next two bytes, the first one low. *)
Definition TagDispatch (t : TcParseTable) (coded_tag : Z) : option (parse_func * Z) :=
  let idx := Z.land coded_tag (fast_idx_mask t) in
  (fun e => (fe_target e, Z.lxor (data (fe_bits e)) coded_tag)) <$> fast_entries t !! Z.to_nat (Z.shiftr idx 3).

(** A fast function takes the field when its one-byte tag was matched, and goes on
    with MiniParse when not. *)
Definition taken (t : TcParseTable) (coded_tag : Z) : option (parse_func * Z * Z) :=
  '(target, d) ← TagDispatch t coded_tag;
  match target with
  | MiniParse => None
  | _ => if coded_tag8 d =? 0 then Some (target, hasbit_idx d, data_offset d) else None
  end.

(** ** The tables of dhnet.pb.cc *)

Definition HealthCheckRequest_table (off : nat -> Z) (has : Z) : TcParseTable :=
  mkTable 0 0 4294967295 0 0
    [mkFast MiniParse (mkFieldData 0 0 0 0)]
    [65535; 65535]
    []
    [].

Definition HealthCheckResponse_table (off : nat -> Z) (has : Z) : TcParseTable :=
  mkTable 1 0 4294967294 1 0
    [mkFast FastUS1 (mkFieldData 10 0 0 (off 0%nat))]
    [65535; 65535]
    [mkEntry (off 0%nat) (has + 0) 0 (Z.lor (Z.lor kFcOptional kUtf8String) kRepAString)]
    [].

Definition ListRoomsRequest_table (off : nat -> Z) (has : Z) : TcParseTable :=
  mkTable 0 0 4294967295 0 0
    [mkFast MiniParse (mkFieldData 0 0 0 0)]
    [65535; 65535]
    []
    [].

Definition RoomInfo_table (off : nat -> Z) (has : Z) : TcParseTable :=
  mkTable 4 24 4294967280 4 0
    [mkFast (SingularVarintNoZag1 4) (mkFieldData 32 3 0 (off 3%nat));
     mkFast (SingularVarintNoZag1 8) (mkFieldData 8 1 0 (off 0%nat));
     mkFast FastUS1 (mkFieldData 18 0 0 (off 1%nat));
     mkFast (SingularVarintNoZag1 4) (mkFieldData 24 2 0 (off 2%nat))]
    [65535; 65535]
    [mkEntry (off 0%nat) (has + 1) 0 (Z.lor kFcOptional kInt64);
     mkEntry (off 1%nat) (has + 0) 0 (Z.lor (Z.lor kFcOptional kUtf8String) kRepAString);
     mkEntry (off 2%nat) (has + 2) 0 (Z.lor kFcOptional kInt32);
     mkEntry (off 3%nat) (has + 3) 0 (Z.lor kFcOptional kInt32)]
    [].

Definition ListRoomsResponse_table (off : nat -> Z) (has : Z) : TcParseTable :=
  mkTable 1 0 4294967294 1 1
    [mkFast FastMtR1 (mkFieldData 10 0 0 (off 0%nat))]
    [65535; 65535]
    [mkEntry (off 0%nat) (has + 0) 0 (Z.lor (Z.lor kFcRepeated kMessage) kTvTable)]
    ["RoomInfo"].

Definition BroadcastRequest_table (off : nat -> Z) (has : Z) : TcParseTable :=
  mkTable 2 8 4294967292 2 0
    [mkFast FastUS1 (mkFieldData 18 0 0 (off 1%nat));
     mkFast (SingularVarintNoZag1 8) (mkFieldData 8 1 0 (off 0%nat))]
    [65535; 65535]
    [mkEntry (off 0%nat) (has + 1) 0 (Z.lor kFcOptional kInt64);
     mkEntry (off 1%nat) (has + 0) 0 (Z.lor (Z.lor kFcOptional kUtf8String) kRepAString)]
    [].

Definition BroadcastResponse_table (off : nat -> Z) (has : Z) : TcParseTable :=
  mkTable 2 8 4294967292 2 0
    [mkFast FastUS1 (mkFieldData 18 0 0 (off 1%nat));
     mkFast (SingularVarintNoZag1 1) (mkFieldData 8 1 0 (off 0%nat))]
    [65535; 65535]
    [mkEntry (off 0%nat) (has + 1) 0 (Z.lor kFcOptional kBool);
     mkEntry (off 1%nat) (has + 0) 0 (Z.lor (Z.lor kFcOptional kUtf8String) kRepAString)]
    [].

Definition ListPlayersRequest_table (off : nat -> Z) (has : Z) : TcParseTable :=
  mkTable 0 0 4294967295 0 0
    [mkFast MiniParse (mkFieldData 0 0 0 0)]
    [65535; 65535]
    []
    [].

Definition PlayerInfo_table (off : nat -> Z) (has : Z) : TcParseTable :=
  mkTable 4 24 4294967280 4 0
    [mkFast (SingularVarintNoZag1 4) (mkFieldData 32 3 0 (off 3%nat));
     mkFast (SingularVarintNoZag1 8) (mkFieldData 8 1 0 (off 0%nat));
     mkFast FastUS1 (mkFieldData 18 0 0 (off 1%nat));
     mkFast (SingularVarintNoZag1 4) (mkFieldData 24 2 0 (off 2%nat))]
    [65535; 65535]
    [mkEntry (off 0%nat) (has + 1) 0 (Z.lor kFcOptional kUInt64);
     mkEntry (off 1%nat) (has + 0) 0 (Z.lor (Z.lor kFcOptional kUtf8String) kRepAString);
     mkEntry (off 2%nat) (has + 2) 0 (Z.lor kFcOptional kInt32);
     mkEntry (off 3%nat) (has + 3) 0 (Z.lor kFcOptional kInt32)]
    [].

Definition ListPlayersResponse_table (off : nat -> Z) (has : Z) : TcParseTable :=
  mkTable 1 0 4294967294 1 1
    [mkFast FastMtR1 (mkFieldData 10 0 0 (off 0%nat))]
    [65535; 65535]
    [mkEntry (off 0%nat) (has + 0) 0 (Z.lor (Z.lor kFcRepeated kMessage) kTvTable)]
    ["PlayerInfo"].

Definition KickPlayerRequest_table (off : nat -> Z) (has : Z) : TcParseTable :=
  mkTable 1 0 4294967294 1 0
    [mkFast (SingularVarintNoZag1 8) (mkFieldData 8 0 0 (off 0%nat))]
    [65535; 65535]
    [mkEntry (off 0%nat) (has + 0) 0 (Z.lor kFcOptional kUInt64)]
    [].

Definition KickPlayerResponse_table (off : nat -> Z) (has : Z) : TcParseTable :=
  mkTable 2 8 4294967292 2 0
    [mkFast FastUS1 (mkFieldData 18 0 0 (off 1%nat));
     mkFast (SingularVarintNoZag1 1) (mkFieldData 8 1 0 (off 0%nat))]
    [65535; 65535]
    [mkEntry (off 0%nat) (has + 1) 0 (Z.lor kFcOptional kBool);
     mkEntry (off 1%nat) (has + 0) 0 (Z.lor (Z.lor kFcOptional kUtf8String) kRepAString)]
    [].

Definition ListLobbiesRequest_table (off : nat -> Z) (has : Z) : TcParseTable :=
  mkTable 0 0 4294967295 0 0
    [mkFast MiniParse (mkFieldData 0 0 0 0)]
    [65535; 65535]
    []
    [].

Definition LobbyInfo_table (off : nat -> Z) (has : Z) : TcParseTable :=
  mkTable 3 24 4294967288 3 0
    [mkFast MiniParse (mkFieldData 0 0 0 0);
     mkFast (SingularVarintNoZag1 4) (mkFieldData 8 0 0 (off 0%nat));
     mkFast (SingularVarintNoZag1 4) (mkFieldData 16 1 0 (off 1%nat));
     mkFast (SingularVarintNoZag1 4) (mkFieldData 24 2 0 (off 2%nat))]
    [65535; 65535]
    [mkEntry (off 0%nat) (has + 0) 0 (Z.lor kFcOptional kInt32);
     mkEntry (off 1%nat) (has + 1) 0 (Z.lor kFcOptional kInt32);
     mkEntry (off 2%nat) (has + 2) 0 (Z.lor kFcOptional kInt32)]
    [].

Definition ListLobbiesResponse_table (off : nat -> Z) (has : Z) : TcParseTable :=
  mkTable 1 0 4294967294 1 1
    [mkFast FastMtR1 (mkFieldData 10 0 0 (off 0%nat))]
    [65535; 65535]
    [mkEntry (off 0%nat) (has + 0) 0 (Z.lor (Z.lor kFcRepeated kMessage) kTvTable)]
    ["LobbyInfo"].

(** ** What a table has to say *)

(** The type of a field. *)
Inductive field_kind := KBool | KInt32 | KInt64 | KUInt64 | KText | KMessages.

Record field_desc := mkDesc { d_number : Z; d_mask : Z; d_kind : field_kind }.

Definition kind_of {L : ProtobufLib} (v : slot_value) : field_kind :=
  match v with SInt64 _ => KInt64 | SInt32 _ => KInt32 | SUInt64 _ => KUInt64 | SBool _ => KBool | SText _ => KText end.

(** A class as its slots describe it; a list response has one field. *)
Definition descs {L : ProtobufLib} {F} {G : Generated F} (i : F) : list field_desc :=
  (fun s => mkDesc (s_number s) (s_mask s) (kind_of (s_value s))) <$> slots i.
Definition list_descs : list field_desc := [mkDesc 1 0x1 KMessages].

Definition tag_of (d : field_desc) : Z :=
  MakeTag (d_number d) match d_kind d with KText | KMessages => WIRETYPE_LENGTH_DELIMITED | _ => WIRETYPE_VARINT end.

Definition func_of (d : field_desc) : parse_func :=
  match d_kind d with
  | KBool => FastV8S1
  | KInt32 => FastV32S1
  | KInt64 | KUInt64 => FastV64S1
  | KText => FastUS1
  | KMessages => FastMtR1
  end.

Definition card_of (d : field_desc) : Z :=
  match d_kind d with
  | KBool => Z.lor kFcOptional kBool
  | KInt32 => Z.lor kFcOptional kInt32
  | KInt64 => Z.lor kFcOptional kInt64
  | KUInt64 => Z.lor kFcOptional kUInt64
  | KText => Z.lor kFcOptional kUtf8String
  | KMessages => Z.lor (Z.lor kFcRepeated kMessage) kTvTable
  end.

(** The field whose tag a byte is. *)
Definition field_with_tag (l : list field_desc) (tag : Z) : option (nat * field_desc) :=
  list_find (fun d => tag_of d = tag) l.

(** The dispatch never leaves the table; it takes exactly the fields of the class,
    each with its function, presence bit and place; the entries by number say the
    same; and the skip map has exactly the numbers that are not fields. *)
Record table_agrees (l : list field_desc) (off : nat -> Z) (has : Z) (t : TcParseTable) : Prop := {
  ta_inside : forall coded_tag, is_Some (TagDispatch t coded_tag);
  ta_fast : forall coded_tag, 0 <= coded_tag < 2 ^ 16 ->
    taken t coded_tag =
      (fun '(k, d) => (func_of d, Z.log2 (d_mask d), off k)) <$> field_with_tag l (coded_tag mod 256);
  ta_entries : field_entries t = imap (fun k d => mkEntry (off k) (has + Z.log2 (d_mask d)) 0 (card_of d)) l;
  ta_count : num_field_entries t = Z.of_nat (length l) /\ num_aux_entries t = Z.of_nat (length (aux_entries t));
  ta_max : max_field_number t = foldr Z.max 0 (d_number <$> l);
  ta_skip : forall n, 1 <= n <= 32 -> Z.testbit (skipmap32 t) (n - 1) = negb (existsb (fun d => d_number d =? n) l);
}.

(** ** Proofs *)

Lemma testbit_outside z n k : 0 <= z < 2 ^ n -> 0 <= n <= k -> Z.testbit z k = false.
Proof.
  intros Hz Hk. destruct (decide (z = 0)) as [->|]; [apply Z.bits_0|].
  apply Z.bits_above_log2; [lia|]. assert (Z.log2 z < n) by (apply Z.log2_lt_pow2; lia). lia.
Qed.

(** Unpacking what the dispatch passes on. *)
Record data_fits (d : TcFieldData) : Prop := {
  df_tag : 0 <= fd_coded_tag d < 2 ^ 8;
  df_hasbit : 0 <= fd_hasbit_idx d < 2 ^ 8;
  df_aux : 0 <= fd_aux_idx d < 2 ^ 8;
  df_offset : 0 <= fd_offset d < 2 ^ 16;
}.

Ltac bits := apply Z.bits_inj'; intros k Hk; unfold wrapU;
  match goal with |- context [?z mod 2 ^ ?w] => destruct (Z.lt_ge_cases k w) end;
  [rewrite Z.mod_pow2_bits_low by lia|rewrite Z.mod_pow2_bits_high by lia].

Lemma data_bit d k :
  0 <= k -> Z.testbit (data d) k =
    Z.testbit (fd_offset d) (k - 48) || Z.testbit (fd_aux_idx d) (k - 24) || Z.testbit (fd_hasbit_idx d) (k - 16) ||
    Z.testbit (fd_coded_tag d) k.
Proof. intros Hk. unfold data. by rewrite !Z.lor_spec, !Z.shiftl_spec by lia. Qed.

Lemma unpack_hasbit d c : data_fits d -> 0 <= c < 2 ^ 16 -> hasbit_idx (Z.lxor (data d) c) = fd_hasbit_idx d.
Proof.
  intros [Ht Hh Ha Ho] Hc. unfold hasbit_idx. bits.
  - rewrite Z.shiftr_spec, Z.lxor_spec, data_bit by lia.
    rewrite (Z.testbit_neg_r (fd_offset d)), (Z.testbit_neg_r (fd_aux_idx d)) by lia.
    rewrite (testbit_outside (fd_coded_tag d) 8), (testbit_outside c 16) by lia.
    replace (k + 16 - 16) with k by lia. cbn. by rewrite orb_false_r, xorb_false_r.
  - by rewrite (testbit_outside (fd_hasbit_idx d) 8) by lia.
Qed.

Lemma unpack_offset d c : data_fits d -> 0 <= c < 2 ^ 16 -> data_offset (Z.lxor (data d) c) = fd_offset d.
Proof.
  intros [Ht Hh Ha Ho] Hc. unfold data_offset. bits.
  - rewrite Z.shiftr_spec, Z.lxor_spec, data_bit by lia.
    rewrite (testbit_outside (fd_aux_idx d) 8), (testbit_outside (fd_hasbit_idx d) 8), (testbit_outside (fd_coded_tag d) 8),
      (testbit_outside c 16) by lia.
    replace (k + 48 - 48) with k by lia. by rewrite !orb_false_r, xorb_false_r.
  - by rewrite (testbit_outside (fd_offset d) 16) by lia.
Qed.

Lemma unpack_tag d c : data_fits d -> 0 <= c < 2 ^ 16 -> (coded_tag8 (Z.lxor (data d) c) =? 0) = (fd_coded_tag d =? c mod 256).
Proof.
  intros [Ht Hh Ha Ho] Hc. assert (coded_tag8 (Z.lxor (data d) c) = Z.lxor (fd_coded_tag d) (c mod 2 ^ 8)) as ->.
  { unfold coded_tag8. bits.
    - rewrite !Z.lxor_spec, data_bit, Z.mod_pow2_bits_low by lia.
      by rewrite (Z.testbit_neg_r (fd_offset d)), (Z.testbit_neg_r (fd_aux_idx d)), (Z.testbit_neg_r (fd_hasbit_idx d)) by lia.
    - by rewrite Z.lxor_spec, Z.mod_pow2_bits_high, (testbit_outside (fd_coded_tag d) 8) by lia. }
  change (2 ^ 8) with 256. apply eq_true_iff_eq. rewrite !Z.eqb_eq. apply Z.lxor_eq_0_iff.
Qed.

Lemma mask_low c mask : 0 <= mask < 2 ^ 8 -> Z.land c mask = Z.land (c mod 2 ^ 8) mask.
Proof.
  intros Hm. rewrite <- (Z.land_ones c 8) by lia. rewrite <- Z.land_assoc. f_equal.
  rewrite Z.land_comm, Z.land_ones by lia. by rewrite Z.mod_small.
Qed.

(** The fast entry of the field at place [k], or none. *)
Definition entry_of (l : list field_desc) (off : nat -> Z) (o : option nat) : FastFieldEntry :=
  match k ← o; d ← l !! k; Some (k, d) with
  | Some (k, d) => mkFast (func_of d) (mkFieldData (tag_of d) (Z.log2 (d_mask d)) 0 (off k))
  | None => mkFast MiniParse (mkFieldData 0 0 0 0)
  end.

(** What the dispatch of a first byte gives, on the places alone. *)
Definition place_of (l : list field_desc) (places : list (option nat)) (mask tag : Z) : option (option nat) :=
  o ← places !! Z.to_nat (Z.shiftr (Z.land tag mask) 3);
  Some (k ← o; d ← l !! k; if tag_of d =? tag then Some k else None).

Definition dispatch_checks (l : list field_desc) (places : list (option nat)) (mask : Z) : bool :=
  (0 <=? mask) && (mask <? 256) &&
  forallb (fun d => (0 <=? tag_of d) && (tag_of d <? 256) && (Z.log2 (d_mask d) <? 256)) l &&
  forallb (fun tag => bool_decide (place_of l places mask tag = Some (fst <$> field_with_tag l tag))) (seqZ 0 256).

Section fast.
Context (l : list field_desc) (off : nat -> Z) (places : list (option nat)) (t : TcParseTable).
Context (Hoff : forall k, 0 <= off k < 2 ^ 16).
Context (Hentries : fast_entries t = entry_of l off <$> places).
Context (Hchecks : dispatch_checks l places (fast_idx_mask t) = true).

Lemma checks_split :
  0 <= fast_idx_mask t < 256 /\
  (forall k d, l !! k = Some d -> 0 <= tag_of d < 256 /\ Z.log2 (d_mask d) < 256) /\
  (forall tag, 0 <= tag < 256 -> place_of l places (fast_idx_mask t) tag = Some (fst <$> field_with_tag l tag)).
Proof.
  unfold dispatch_checks in Hchecks. to_prop. split_and!; [lia..| |].
  - intros k d Hd. match goal with H : forallb _ l = true |- _ => rewrite forallb_forall in H; specialize (H d) end.
    match goal with H : List.In d l -> _ |- _ => apply list_elem_of_lookup_2, list_elem_of_In in Hd; specialize (H Hd) end.
    to_prop. lia.
  - intros tag Ht. match goal with H : forallb _ (seqZ _ _) = true |- _ => rewrite forallb_forall in H; specialize (H tag) end.
    match goal with H : List.In tag _ -> _ |- _ =>
      apply (bool_decide_eq_true_1 (place_of l places (fast_idx_mask t) tag = _)), H end.
    apply list_elem_of_In, elem_of_seqZ. lia.
Qed.

Lemma dispatch_place coded_tag :
  exists o, TagDispatch t coded_tag =
      Some (fe_target (entry_of l off o), Z.lxor (data (fe_bits (entry_of l off o))) coded_tag) /\
    (k ← o; d ← l !! k; if tag_of d =? coded_tag mod 256 then Some k else None) = fst <$> field_with_tag l (coded_tag mod 256).
Proof.
  destruct checks_split as (Hm & _ & Hp). specialize (Hp (coded_tag mod 256) ltac:(apply Z.mod_pos_bound; lia)).
  unfold place_of, TagDispatch in *. rewrite mask_low by (change (2 ^ 8) with 256; lia). change (2 ^ 8) with 256.
  rewrite Hentries, list_lookup_fmap.
  destruct (places !! Z.to_nat (Z.shiftr (Z.land (coded_tag mod 256) (fast_idx_mask t)) 3)) as [o|]; [|done].
  exists o. split; [done|]. cbn in Hp. by simplify_eq.
Qed.

Lemma fast_inside coded_tag : is_Some (TagDispatch t coded_tag).
Proof. destruct (dispatch_place coded_tag) as (o & -> & _). eauto. Qed.

Lemma fast_taken coded_tag :
  0 <= coded_tag < 2 ^ 16 ->
  taken t coded_tag = (fun '(k, d) => (func_of d, Z.log2 (d_mask d), off k)) <$> field_with_tag l (coded_tag mod 256).
Proof.
  intros Hc. destruct checks_split as (_ & Hl & _). destruct (dispatch_place coded_tag) as (o & Ht & Ho).
  unfold taken. rewrite Ht. cbn. unfold entry_of. destruct o as [k|]; cbn in Ho; [|by destruct (field_with_tag l (coded_tag mod 256))].
  cbn. destruct (l !! k) as [d|] eqn:Hk; cbn in Ho; [|by destruct (field_with_tag l (coded_tag mod 256))]. cbn.
  destruct (Hl k d Hk) as [Htag Hlog].
  assert (data_fits (mkFieldData (tag_of d) (Z.log2 (d_mask d)) 0 (off k))) as Hfits.
  { pose proof (Z.log2_nonneg (d_mask d)). split; cbn; [lia..|apply Hoff]. }
  rewrite unpack_tag, unpack_hasbit, unpack_offset by done. cbn.
  destruct (tag_of d =? coded_tag mod 256) eqn:E.
  - destruct (field_with_tag l (coded_tag mod 256)) as [[k' d']|] eqn:Ef; [|done]. cbn in Ho. simplify_eq.
    apply list_find_Some in Ef as (Hk' & _ & _). simplify_eq. cbn. unfold func_of. by destruct (d_kind _).
  - destruct (field_with_tag l (coded_tag mod 256)); [done|]. unfold func_of. by destruct (d_kind d).
Qed.
End fast.

(** A table's numbers, checked for each class. *)
Lemma skip_checked l m :
  forallb (fun n => eqb (Z.testbit m (n - 1)) (negb (existsb (fun d => d_number d =? n) l))) (seqZ 1 32) = true ->
  forall n, 1 <= n <= 32 -> Z.testbit m (n - 1) = negb (existsb (fun d => d_number d =? n) l).
Proof.
  intros H n Hn. rewrite forallb_forall in H. apply eqb_prop, H. apply list_elem_of_In, elem_of_seqZ. lia.
Qed.

Ltac agrees Hoff places :=
  match goal with
  | |- table_agrees ?l ?off _ _ => split;
    [ apply (fast_inside l off places); [reflexivity|vm_compute; reflexivity]
    | apply (fast_taken l off places); [exact Hoff|reflexivity|vm_compute; reflexivity]
    | reflexivity
    | done
    | reflexivity
    | apply skip_checked; vm_compute; reflexivity ]
  end.

(** C25: each parse table protoc generated describes its class: whatever bytes a
    peer sends, the dispatch on them stays inside the table, and it takes exactly
    the tags of the class's fields, with the function for the field's type (strings
    are checked to be UTF-8), its presence bit and its place in the object; the
    entries by number and the skip map say the same. *)
Theorem tables_agree (L : ProtobufLib) (off : nat -> Z) (has : Z)
    (i1 : HealthCheckResponse) (i2 : RoomInfo) (i3 : BroadcastRequest) (i4 : BroadcastResponse) (i5 : PlayerInfo)
    (i6 : KickPlayerRequest) (i7 : KickPlayerResponse) (i8 : LobbyInfo) :
  (forall k, 0 <= off k < 2 ^ 16) ->
  table_agrees (descs i1) off has (HealthCheckResponse_table off has) /\
  table_agrees (descs i2) off has (RoomInfo_table off has) /\
  table_agrees (descs i3) off has (BroadcastRequest_table off has) /\
  table_agrees (descs i4) off has (BroadcastResponse_table off has) /\
  table_agrees (descs i5) off has (PlayerInfo_table off has) /\
  table_agrees (descs i6) off has (KickPlayerRequest_table off has) /\
  table_agrees (descs i7) off has (KickPlayerResponse_table off has) /\
  table_agrees (descs i8) off has (LobbyInfo_table off has) /\
  table_agrees list_descs off has (ListRoomsResponse_table off has) /\
  table_agrees list_descs off has (ListPlayersResponse_table off has) /\
  table_agrees list_descs off has (ListLobbiesResponse_table off has) /\
  table_agrees [] off has (HealthCheckRequest_table off has) /\
  table_agrees [] off has (ListRoomsRequest_table off has) /\
  table_agrees [] off has (ListPlayersRequest_table off has) /\
  table_agrees [] off has (ListLobbiesRequest_table off has).
Proof.
  intros Hoff. split_and!.
  - agrees Hoff [Some 0%nat].
  - agrees Hoff [Some 3%nat; Some 0%nat; Some 1%nat; Some 2%nat].
  - agrees Hoff [Some 1%nat; Some 0%nat].
  - agrees Hoff [Some 1%nat; Some 0%nat].
  - agrees Hoff [Some 3%nat; Some 0%nat; Some 1%nat; Some 2%nat].
  - agrees Hoff [Some 0%nat].
  - agrees Hoff [Some 1%nat; Some 0%nat].
  - agrees Hoff [None; Some 0%nat; Some 1%nat; Some 2%nat].
  - agrees Hoff [Some 0%nat].
  - agrees Hoff [Some 0%nat].
  - agrees Hoff [Some 0%nat].
  - agrees Hoff [@None nat].
  - agrees Hoff [@None nat].
  - agrees Hoff [@None nat].
  - agrees Hoff [@None nat].
Qed.

(** A layout for the witness: the fields follow each other. *)
Definition layout (k : nat) : Z := 24 + 8 * Z.of_nat (Nat.min k 3).

Lemma layout_range k : 0 <= layout k < 2 ^ 16.
Proof. unfold layout. lia. Qed.

#[local] Existing Instance toy.lib.

Lemma tables_agree_witness :
  table_agrees list_descs layout 64 (ListRoomsResponse_table layout 64) /\
  taken (RoomInfo_table layout 64) (18 + 256 * 5) = Some (FastUS1, 0, 32) /\
  taken (RoomInfo_table layout 64) (26 + 256 * 5) = None.
Proof.
  split; [|split; reflexivity].
  destruct (tables_agree toy.lib layout 64
    (_impl_ HealthCheckResponse_New) (_impl_ RoomInfo_New) (_impl_ BroadcastRequest_New) (_impl_ BroadcastResponse_New)
    (_impl_ PlayerInfo_New) (_impl_ KickPlayerRequest_New) (_impl_ KickPlayerResponse_New) (_impl_ LobbyInfo_New)
    layout_range) as (_ & _ & _ & _ & _ & _ & _ & _ & H & _). exact H.
Defined.
