(* ===== verification/Ipc.v ===== *)
(** * The administration answers on the wire

    How src/DhNet_Server/DhNet_Server/AdminController.cpp turns the result of a
    command (Admin.v) into the response message (Messages.v), and what a client that
    knows only protobuf's documented format reads from the bytes gRPC sends: the rows
    the game had ([answers_decoded]).

    gRPC calls ByteSizeLong, then _InternalSerialize on the response. *)

From S2P Require Import Prelude JobQueue Bytes Wire Messages Packets Slots Game Setting Admin.
#[local] Open Scope Z_scope.

(** ** Filling the responses *)

Section fill.
Context {L : ProtobufLib}.

Definition set_room_info (e : Z * list Z * Z * Z) (r : Message RoomInfo) : Message RoomInfo :=
  let '(id, name, playerCount, capacity) := e in
  RoomInfo_set_capacity capacity (RoomInfo_set_playercount playerCount (RoomInfo_set_name name (RoomInfo_set_id id r))).

Definition fill_rooms (result : list (Z * list Z * Z * Z)) (resp : Message (RepeatedPtrField RoomInfo))
  : Message (RepeatedPtrField RoomInfo) :=
  foldl (fun resp e => ListRoomsResponse_add_rooms (set_room_info e) resp) resp result.

Definition set_player_info (e : Z * list Z * Z * Z) (p : Message PlayerInfo) : Message PlayerInfo :=
  let '(id, name, lobbyIndex, roomIndex) := e in
  PlayerInfo_set_roomindex roomIndex (PlayerInfo_set_lobbyindex lobbyIndex (PlayerInfo_set_name name (PlayerInfo_set_id id p))).

Definition fill_players (result : list (Z * list Z * Z * Z)) (resp : Message (RepeatedPtrField PlayerInfo))
  : Message (RepeatedPtrField PlayerInfo) :=
  foldl (fun resp e => ListPlayersResponse_add_players (set_player_info e) resp) resp result.

Definition set_lobby_info (e : Z * Z * Z) (l : Message LobbyInfo) : Message LobbyInfo :=
  let '(id, playerCount, capacity) := e in
  LobbyInfo_set_capacity capacity (LobbyInfo_set_playercount playerCount (LobbyInfo_set_id id l)).

Definition fill_lobbies (result : list (Z * Z * Z)) (resp : Message (RepeatedPtrField LobbyInfo))
  : Message (RepeatedPtrField LobbyInfo) :=
  foldl (fun resp e => ListLobbiesResponse_add_lobbies (set_lobby_info e) resp) resp result.

(** The two responses with a result and a text, and the health check's. *)
Definition fill_broadcast (result : bool * list Z) (resp : Message BroadcastResponse) : Message BroadcastResponse :=
  BroadcastResponse_set_detail result.2 (BroadcastResponse_set_success result.1 resp).

Definition fill_kick (result : bool * list Z) (resp : Message KickPlayerResponse) : Message KickPlayerResponse :=
  KickPlayerResponse_set_detail result.2 (KickPlayerResponse_set_success result.1 resp).

Definition fill_health (resp : Message HealthCheckResponse) : Message HealthCheckResponse :=
  HealthCheckResponse_set_status (text "OK") resp.

(** What gRPC sends. *)
Definition sent {F} `{Generated F} (bsr : bool) (room : nat -> Z -> bool) (resp : Message (RepeatedPtrField F)) : list Z :=
  list_InternalSerialize room (snd (list_ByteSizeLong bsr resp)).
End fill.

(** ** The client's side: the documented format *)

(** The last occurrence of a field counts; a missing one has its default value. *)
Definition field_in (n : Z) (l : list (Z * wire_value)) : option wire_value :=
  last (omap (fun f => if f.1 =? n then Some f.2 else None) l).

Definition varint_in (n : Z) (l : list (Z * wire_value)) : Z :=
  match field_in n l with Some (WVarint v) => v | _ => 0 end.
Definition bytes_in (n : Z) (l : list (Z * wire_value)) : list Z :=
  match field_in n l with Some (WBytes s) => s | _ => [] end.

Definition decode_room (bs : list Z) : option (Z * list Z * Z * Z) :=
  (fun l => (i64 (varint_in 1 l), bytes_in 2 l, i32 (varint_in 3 l), i32 (varint_in 4 l))) <$> read_fields bs.
Definition decode_player (bs : list Z) : option (Z * list Z * Z * Z) :=
  (fun l => (varint_in 1 l, bytes_in 2 l, i32 (varint_in 3 l), i32 (varint_in 4 l))) <$> read_fields bs.
Definition decode_lobby (bs : list Z) : option (Z * Z * Z) :=
  (fun l => (i32 (varint_in 1 l), i32 (varint_in 2 l), i32 (varint_in 3 l))) <$> read_fields bs.
Definition decode_result (bs : list Z) : option (bool * list Z) :=
  (fun l => (negb (varint_in 1 l =? 0), bytes_in 2 l)) <$> read_fields bs.

Definition decode_list {R} (decode : list Z -> option R) (bs : list Z) : option (list R) :=
  fields ← read_fields bs;
  mapM (fun f => match f with (1, WBytes b) => decode b | _ => None end) fields.

(** ** Fields are decoded *)

Definition int32 (v : Z) : Prop := - 2 ^ 31 <= v < 2 ^ 31.
Definition int64 (v : Z) : Prop := - 2 ^ 63 <= v < 2 ^ 63.

Lemma i32_u64 v : int32 v -> i32 (u64 v) = v.
Proof.
  intros Hv. unfold wrapS, wrapU, int32 in *. rewrite Zplus_mod, Z.mod_mod_divide by (by exists (2 ^ 32)).
  rewrite <- Zplus_mod, Z.mod_small; lia.
Qed.

Lemma i64_u64 v : int64 v -> i64 (u64 v) = v.
Proof.
  intros Hv. unfold wrapS, wrapU, int64 in *. rewrite Zplus_mod_idemp_l, Z.mod_small; lia.
Qed.

Section decoding.
Context {L : ProtobufLib} {Lok : ProtobufLib_ok L}.

Lemma field_in_absent n l : n ∉ s_number <$> l -> omap (fun f => if f.1 =? n then Some f.2 else None) (present l) = [].
Proof.
  induction l as [|s l IH]; intros Hn; [done|]. rewrite fmap_cons, not_elem_of_cons in Hn. destruct Hn as [Hs Hn].
  rewrite present_cons. destruct (is_default (s_value s)); [by apply IH|]. cbn.
  rewrite (proj2 (Z.eqb_neq _ _)) by done. by apply IH.
Qed.

Lemma field_in_present n l : NoDup (s_number <$> l) -> field_in n (present l) = field_of n l.
Proof.
  unfold field_in. induction l as [|s l IH]; intros Hd; [done|]. rewrite fmap_cons, NoDup_cons in Hd. destruct Hd as [Hs Hd].
  rewrite present_cons. cbn [field_of]. unfold field_value.
  destruct (Z.eqb_spec (s_number s) n) as [<-|Hn], (is_default (s_value s)); cbn.
  - by rewrite field_in_absent.
  - rewrite Z.eqb_refl. by rewrite field_in_absent.
  - by apply IH.
  - rewrite (proj2 (Z.eqb_neq _ _)) by done. by apply IH.
Qed.

(** A field's default value is what a missing field stands for. *)
Lemma varint_value n l v :
  NoDup (s_number <$> l) -> field_of n l = field_value v -> (exists z, wire_of v = WVarint z) ->
  varint_in n (present l) = match wire_of v with WVarint z => z | _ => 0 end.
Proof.
  intros Hd Hf [z Hz]. unfold varint_in. rewrite field_in_present, Hf by done. unfold field_value.
  destruct (is_default v) eqn:Ed; rewrite Hz; [|done].
  destruct v as [v|v|v|[]|p]; cbn in *; simplify_eq; try done; apply Z.eqb_eq in Ed; by subst.
Qed.

Lemma bytes_value n l p :
  NoDup (s_number <$> l) -> field_of n l = field_value (SText p) -> bytes_in n (present l) = string_Get p.
Proof.
  intros Hd Hf. unfold bytes_in. rewrite field_in_present, Hf by done. unfold field_value. cbn.
  by destruct (string_Get p).
Qed.

(** ** Rows *)

Definition room_fits (e : Z * list Z * Z * Z) : Prop :=
  let '(id, name, n, cap) := e in int64 id /\ Z.of_nat (length name) < 2 ^ 30 /\ int32 n /\ int32 cap.
Definition player_fits (e : Z * list Z * Z * Z) : Prop :=
  let '(id, name, lobby, room) := e in 0 <= id < 2 ^ 64 /\ Z.of_nat (length name) < 2 ^ 30 /\ int32 lobby /\ int32 room.
Definition lobby_fits (e : Z * Z * Z) : Prop :=
  let '(id, n, cap) := e in int32 id /\ int32 n /\ int32 cap.

(** A message to which a row was written: its bytes are the row. *)
Record carries {F R} {G : Generated F} (decode : list Z -> option R) (row : R) (e : Message F) : Prop := {
  ca_consistent : consistent e;
  ca_known : have_unknown_fields (_internal_metadata_ e) = false;
  ca_fits : element_fits e;
  ca_decodes : decode (g_InternalSerialize (fun _ => true) e) = Some row;
}.

(** The slots determine what is decoded. *)
Lemma slots_carry {F R} {G : Generated F} {Gok : Generated_ok F} (view : list (Z * wire_value) -> R) (row : R) (e : Message F) l n :
  consistent e -> have_unknown_fields (_internal_metadata_ e) = false ->
  slots (_impl_ e) = l -> Forall (fun s => fits (s_value s)) l ->
  (length l <= 4)%nat -> sum ((fun s => text_length (s_value s)) <$> l) <= n -> n < 2 ^ 30 ->
  view (present l) = row ->
  carries (fun bs => view <$> read_fields bs) row e.
Proof.
  intros Hc Hu Hl Hf Hn Ht Hb Hv. subst l. split; [done|done| |].
  - split; [done|]. rewrite serialize_slots. unfold unknown_bytes. rewrite Hu, app_nil_r.
    eapply Z.le_lt_trans; [apply slots_length; [apply slots_numbered|done..]|]. lia.
  - by rewrite serialized_reads, <- Hv.
Qed.

(** Field [n] of a message whose slots are listed. *)
Ltac distinct := by repeat constructor; set_solver.
Ltac number n := erewrite (varint_value n); [|distinct|reflexivity|by eexists]; cbn.
Ltac string n := erewrite (bytes_value n); [|distinct|reflexivity]; apply string_set.

Lemma room_carries row (e : Message RoomInfo) :
  room_fits row -> consistent e -> have_unknown_fields (_internal_metadata_ e) = false ->
  carries decode_room row (set_room_info row e).
Proof.
  destruct row as [[[id name] n] cap]. intros (Hi & Hs & Hn & Hc) He Hu.
  assert (consistent (set_room_info (id, name, n, cap) e)) as Hk.
  { cbn. by apply (RoomInfo_setters _ cap []), (RoomInfo_setters _ n []), (RoomInfo_setters _ 0 name),
      (RoomInfo_setters _ id []). }
  eapply (slots_carry _ _ _ _ (Z.of_nat (length name))); [done|done|reflexivity|..|done|].
  - repeat constructor. cbn. rewrite string_set. lia.
  - done.
  - cbn. rewrite string_set. lia.
  - repeat f_equal; [number 1; by apply i64_u64|string 2|number 3; by apply i32_u64|number 4; by apply i32_u64].
Qed.

Lemma player_carries row (e : Message PlayerInfo) :
  player_fits row -> consistent e -> have_unknown_fields (_internal_metadata_ e) = false ->
  carries decode_player row (set_player_info row e).
Proof.
  destruct row as [[[id name] lobby] room]. intros (Hi & Hs & Hl & Hr) He Hu.
  assert (consistent (set_player_info (id, name, lobby, room) e)) as Hk.
  { cbn. by apply (PlayerInfo_setters _ room []), (PlayerInfo_setters _ lobby []), (PlayerInfo_setters _ 0 name),
      (PlayerInfo_setters _ id []). }
  eapply (slots_carry _ _ _ _ (Z.of_nat (length name))); [done|done|reflexivity|..|done|].
  - repeat constructor; cbn; rewrite ?string_set; lia.
  - done.
  - cbn. rewrite string_set. lia.
  - repeat f_equal; [by number 1|string 2|number 3; by apply i32_u64|number 4; by apply i32_u64].
Qed.

Lemma lobby_carries row (e : Message LobbyInfo) :
  lobby_fits row -> consistent e -> have_unknown_fields (_internal_metadata_ e) = false ->
  carries decode_lobby row (set_lobby_info row e).
Proof.
  destruct row as [[id n] cap]. intros (Hi & Hn & Hc) He Hu.
  assert (consistent (set_lobby_info (id, n, cap) e)) as Hk.
  { cbn. by apply (LobbyInfo_setters _ cap), (LobbyInfo_setters _ n), (LobbyInfo_setters _ id). }
  eapply (slots_carry _ _ _ _ 0); [done|done|reflexivity|..|done|].
  - repeat constructor.
  - cbn. lia.
  - done.
  - repeat f_equal; [number 1; by apply i32_u64|number 2; by apply i32_u64|number 3; by apply i32_u64].
Qed.

Lemma broadcast_carries result (e : Message BroadcastResponse) :
  Z.of_nat (length result.2) < 2 ^ 30 -> consistent e -> have_unknown_fields (_internal_metadata_ e) = false ->
  carries decode_result result (fill_broadcast result e).
Proof.
  destruct result as [ok detail]. intros Hs He Hu.
  assert (consistent (fill_broadcast (ok, detail) e)) as Hk.
  { by apply (BroadcastResponse_setters _ false detail), (BroadcastResponse_setters _ ok []). }
  eapply (slots_carry _ _ _ _ (Z.of_nat (length detail))); [done|done|reflexivity|..|done|].
  - repeat constructor; cbn in *; rewrite ?string_set; lia.
  - cbn. lia.
  - cbn. rewrite string_set. lia.
  - f_equal; [number 1; by destruct ok|string 2].
Qed.

Lemma kick_carries result (e : Message KickPlayerResponse) :
  Z.of_nat (length result.2) < 2 ^ 30 -> consistent e -> have_unknown_fields (_internal_metadata_ e) = false ->
  carries decode_result result (fill_kick result e).
Proof.
  destruct result as [ok detail]. intros Hs He Hu.
  assert (consistent (fill_kick (ok, detail) e)) as Hk.
  { by apply (KickPlayerResponse_setters _ false detail), (KickPlayerResponse_setters _ ok []). }
  eapply (slots_carry _ _ _ _ (Z.of_nat (length detail))); [done|done|reflexivity|..|done|].
  - repeat constructor; cbn in *; rewrite ?string_set; lia.
  - cbn. lia.
  - cbn. rewrite string_set. lia.
  - f_equal; [number 1; by destruct ok|string 2].
Qed.

(** ** Lists of rows *)

Section rows.
Context {F R : Type} {G : Generated F} {Gok : Generated_ok F}.
Context (set : R -> Message F -> Message F) (decode : list Z -> option R) (row_fits : R -> Prop).
Context (set_carries : forall row e, row_fits row -> consistent e ->
  have_unknown_fields (_internal_metadata_ e) = false -> carries decode row (set row e)).

Definition fill (rows : list R) (resp : Message (RepeatedPtrField F)) : Message (RepeatedPtrField F) :=
  foldl (fun resp row => list_add (set row) resp) resp rows.

(** Whatever object the response hands out, new or recycled, the row goes into it. *)
Lemma add_row row resp :
  row_fits row -> list_consistent resp ->
  list_consistent (list_add (set row) resp) /\
  exists e, rep_elements (_impl_ (list_add (set row) resp)) = rep_elements (_impl_ resp) ++ [e] /\ carries decode row e.
Proof.
  intros Hr [Hb He Hc]. destruct new_consistent as [Hn _].
  assert (have_unknown_fields (_internal_metadata_ (g_New (F := F))) = false) as Hu.
  { destruct new_empty as (i & -> & _). apply metadata_new. }
  assert (exists e rest, repeated_Add (set row) (_impl_ resp) = mkRepeated (rep_elements (_impl_ resp) ++ [e]) rest /\
    carries decode row e /\
    Forall (fun e => consistent e /\ present (slots (_impl_ e)) = [] /\ have_unknown_fields (_internal_metadata_ e) = false) rest)
    as (e & rest & Ha & Hce & Hrest).
  { unfold repeated_Add. destruct Hc as [|e rest (He1 & _ & He2) Hrest]; eauto 10. }
  split; [split; cbn [_impl_ _has_bits_ list_add]; rewrite ?Ha; cbn|].
  - intros _. rewrite set_repeated_bit, Z.land_lor_distr_l. by intros [_ ?]%Z.lor_eq_0_iff.
  - apply Forall_app. split; [done|]. constructor; [by destruct Hce|constructor].
  - done.
  - exists e. cbn [_impl_ list_add]. by rewrite Ha.
Qed.

Lemma fill_carries rows resp :
  Forall row_fits rows -> list_consistent resp ->
  list_consistent (fill rows resp) /\
  _internal_metadata_ (fill rows resp) = _internal_metadata_ resp /\
  exists es, rep_elements (_impl_ (fill rows resp)) = rep_elements (_impl_ resp) ++ es /\ Forall2 (carries decode) rows es.
Proof.
  intros Hr. revert resp. induction Hr as [|row rows Hrow _ IH]; intros resp Hc.
  - split_and!; [done|done|]. exists []. by rewrite app_nil_r.
  - change (fill (row :: rows) resp) with (fill rows (list_add (set row) resp)).
    destruct (add_row row resp Hrow Hc) as (Hc' & e & He & Hca).
    destruct (IH _ Hc') as (H1 & H2 & es & H3 & H4). split_and!; [done|by rewrite H2|].
    exists (e :: es). rewrite H3, He, <- app_assoc. by split; [|constructor].
Qed.

Lemma rows_decoded bsr room rows resp :
  Forall row_fits rows -> list_consistent resp -> rep_elements (_impl_ resp) = [] ->
  have_unknown_fields (_internal_metadata_ resp) = false ->
  decode_list decode (sent bsr room (fill rows resp)) = Some rows.
Proof.
  intros Hr Hc He Hu. destruct (fill_carries rows resp Hr Hc) as (H1 & H2 & es & H3 & H4). rewrite He in H3. cbn in H3.
  pose proof (list_bytes bsr room (fill rows resp) H1) as Hb. rewrite H3, H2 in Hb.
  specialize (Hb ltac:(eapply Forall2_Forall_r; [exact H4|]; apply Forall_true; by intros ? ? []) Hu).
  unfold decode_list, sent. destruct (list_ByteSizeLong bsr (fill rows resp)) as [n m]. destruct Hb as [_ Hb]. cbn [snd]. rewrite Hb. cbn.
  clear -H4. induction H4 as [|row e rows es [_ _ _ Hd] _ IH]; [done|]. cbn. rewrite Hd. cbn. by rewrite IH.
Qed.
End rows.
End decoding.

(** ** The rows of the game *)

Lemma dec_digits_short fuel n : (length (dec_digits fuel n) <= fuel)%nat.
Proof.
  revert n. induction fuel as [|fuel IH]; intros n; [done|]. cbn [dec_digits]. rewrite length_app. cbn.
  specialize (IH (n / 10)). destruct (n <? 10); cbn; lia.
Qed.

Lemma to_string_short n : Z.of_nat (length (to_string n)) <= 21.
Proof.
  unfold to_string. pose proof (dec_digits_short 20 n). pose proof (dec_digits_short 20 (- n)).
  destruct (n <? 0); cbn [length]; lia.
Qed.

Lemma imap_ids {B} (f : nat -> B -> Z * Z * Z) (l : list B) (P : Z * Z * Z -> Prop) :
  (forall i b, (i < length l)%nat -> P (f i b)) -> Forall P (imap f l).
Proof.
  intros H. apply Forall_lookup. intros i x. rewrite list_lookup_imap. intros (b & Hb & ->)%fmap_Some.
  apply H. by eapply lookup_lt_Some.
Qed.

Lemma lobby_rows_fit w :
  game_reach w -> Z.of_nat (length (w_lobbies w)) < 2 ^ 31 -> Forall lobby_fits (AdminListLobbies w).
Proof.
  intros Hr Hl. pose proof (room_rows_in_range w Hr) as [_ Hb]%Forall_app.
  assert (Forall (fun e => int32 e.1.1 /\ e.2 = MAX_LOBBY_PLAYERS) (AdminListLobbies w)) as Hi.
  { apply imap_ids. intros i b Hi. cbn. unfold int32. lia. }
  eapply Forall_impl; [exact (proj2 (Forall_and _ _) (conj Hi Hb))|].
  intros [[id n] k]. cbn. unfold int32, MAX_LOBBY_PLAYERS. lia.
Qed.

Lemma room_rows_fit w :
  game_reach w -> Z.of_nat (length (w_rooms w)) < 2 ^ 31 -> Forall room_fits (snd (fst (list_rooms_fn w))).
Proof.
  intros Hr Hl. pose proof (room_rows_in_range w Hr) as [Hb _]%Forall_app.
  assert (Forall (fun e => int32 e.1.1 /\ e.2 = MAX_ROOM_PLAYER) (AdminListRooms w)) as Hi.
  { apply imap_ids. intros i b Hi. unfold GetRooms in Hi. cbn. unfold int32. lia. }
  apply Forall_fmap. eapply Forall_impl; [exact (proj2 (Forall_and _ _) (conj Hi Hb))|].
  intros [[id n] k]. cbn [fst snd]. intros [[Hid Hk] Hn]. unfold room_fits, int64, int32, MAX_ROOM_PLAYER in *. cbn.
  pose proof (to_string_short id). lia.
Qed.

(** The answers a client gets: the rows of a list, the result of a command. *)
Definition rows_sent {L : ProtobufLib} (bsr : bool) (room : nat -> Z -> bool) (c : caller) (w : world)
  : option (list (Z * list Z * Z * Z)) * option (list (Z * list Z * Z * Z)) * option (list (Z * Z * Z)) :=
  (decode_list decode_room (sent bsr room (fill_rooms (ListRooms c w).1.2 ListRoomsResponse_New)),
   decode_list decode_player (sent bsr room (fill_players (ListPlayers c w).1.2 ListPlayersResponse_New)),
   decode_list decode_lobby (sent bsr room (fill_lobbies (ListLobbies c w).1.2 ListLobbiesResponse_New))).

Definition broadcast_sent {L : ProtobufLib} (r : bool * list Z) : option (bool * list Z) :=
  decode_result (BroadcastResponse_InternalSerialize (fun _ => true) (fill_broadcast r BroadcastResponse_New)).
(** The response as AdminKickPlayer filled it; gRPC writes it to the client when the
    status is OK and keeps it back with NOT_FOUND (Grpc.v). *)
Definition kick_sent {L : ProtobufLib} (r : bool * list Z) : option (bool * list Z) :=
  decode_result (KickPlayerResponse_InternalSerialize (fun _ => true) (fill_kick r KickPlayerResponse_New)).

Lemma lists_sent (L : ProtobufLib) {Lok : ProtobufLib_ok L} bsr room c w :
  c_current c = None -> game_reach w ->
  Z.of_nat (length (w_rooms w)) < 2 ^ 31 -> Z.of_nat (length (w_lobbies w)) < 2 ^ 31 ->
  Forall player_fits (AdminListPlayers w) ->
  rows_sent bsr room c w = (Some (snd (fst (list_rooms_fn w))), Some (AdminListPlayers w), Some (AdminListLobbies w)).
Proof.
  intros Hc Hr Hrooms Hlobbies Hp. unfold rows_sent, ListRooms, ListPlayers, ListLobbies.
  rewrite (list_call_outside list_rooms_fn c w _ Hc eq_refl), (list_call_outside list_players_fn c w _ Hc eq_refl),
    (list_call_outside list_lobbies_fn c w _ Hc eq_refl). cbn [fst snd].
  f_equal; [f_equal|].
  - apply (rows_decoded set_room_info decode_room room_fits room_carries);
      [by apply room_rows_fit|apply list_New_consistent|done|apply metadata_new].
  - apply (rows_decoded set_player_info decode_player player_fits player_carries);
      [done|apply list_New_consistent|done|apply metadata_new].
  - apply (rows_decoded set_lobby_info decode_lobby lobby_fits lobby_carries);
      [by apply lobby_rows_fit|apply list_New_consistent|done|apply metadata_new].
Qed.

(** C20: what a client of the administration service reads from the bytes of an
    answer, by the documented format alone, is what the game had: every room with
    its name and its count of players, every registered player with name and place,
    every lobby, and the result and text of a broadcast or a kick, whatever the
    state of the stream's buffer and the compiled variant of the size computation.
    (Of a kick that is NOT_FOUND the client gets the status only: Grpc.v.) *)
Theorem answers_decoded (L : ProtobufLib) (bsr : bool) (room : nat -> Z -> bool) (c : caller) (w : world)
    (id roomId : Z) (message : list Z) :
  ProtobufLib_ok L -> c_current c = None -> game_reach w ->
  Z.of_nat (length (w_rooms w)) < 2 ^ 31 -> Z.of_nat (length (w_lobbies w)) < 2 ^ 31 ->
  Forall player_fits (AdminListPlayers w) ->
  rows_sent bsr room c w = (Some (snd (fst (list_rooms_fn w))), Some (AdminListPlayers w), Some (AdminListLobbies w)) /\
  broadcast_sent (Broadcast_call roomId message c w).1.2 = Some (Broadcast_call roomId message c w).1.2 /\
  kick_sent (KickPlayer id c w).1.2 = Some (KickPlayer id c w).1.2.
Proof.
  intros Lok Hc Hr Hrooms Hlobbies Hp. split; [by apply lists_sent|].
  unfold Broadcast_call, KickPlayer, command. rewrite !dispatch_outside by done. unfold dispatched. split.
  - apply broadcast_carries; [|exact (proj1 (new_consistent (F := BroadcastResponse)))|apply metadata_new]. unfold broadcast_fn.
    destruct (length message =? 0)%nat, (AdminBroadcast roomId message w) as [[] acts]; done.
  - apply kick_carries; [|exact (proj1 (new_consistent (F := KickPlayerResponse)))|apply metadata_new]. unfold kick_fn.
    destruct (AdminKickPlayer id w) as [[] acts]; done.
Qed.

Lemma answers_decoded_witness :
  rows_sent (L := toy.lib) true (fun _ _ => true) grpc_thread one_player =
    (Some [], Some [(100, [65], 0, -1)], Some [(0, 1, 50); (1, 0, 50); (2, 0, 50); (3, 0, 50); (4, 0, 50)]) /\
  kick_sent (L := toy.lib) (KickPlayer 100 grpc_thread one_player).1.2 = Some (true, text "OK").
Proof.
  destruct (answers_decoded toy.lib true (fun _ _ => true) grpc_thread one_player 100 0 [] toy.lib_ok eq_refl (final_reach _))
    as (H1 & _ & H2).
  - vm_compute; reflexivity.
  - vm_compute; reflexivity.
  - replace (AdminListPlayers one_player) with [(100, [65], 0, -1)] by (vm_compute; reflexivity).
    constructor; [|constructor]. unfold player_fits, int32. cbn. lia.
  - rewrite H1, H2. split; vm_compute; reflexivity.
Defined.
