(* ===== verification/Streams.v ===== *)
(** * The byte streams between gRPC and protobuf

    src/Tools/include/grpcpp/support/proto_buffer_writer.h and
    proto_buffer_reader.h: ProtoBufferWriter hands protobuf one slice of memory at a
    time to serialise into, ProtoBufferReader gives it the slices of a received
    message; both let the caller return the end of the last chunk (BackUp).

    A slice is the list of its bytes.  The current slice of the writer shares its
    memory with the last slice of the buffer, so its bytes are read there.  The
    functions on slices belong to gRPC's core ([SliceLib]): what malloc leaves in
    fresh memory, whether a slice is counted or inlined, and whether the buffer
    joins a slice it is given to its last one.

    [writer_refines] and [reader_refines]: the two classes are an append-only list
    of bytes and a cursor in one. *)

From S2P Require Import Prelude.
#[local] Open Scope Z_scope.

Abbreviation bytes := (list Z).

(** sizeof(size_t) + sizeof(uint8_t* ) - 1 + sizeof(void* ), on 64 bits. *)
Definition GRPC_SLICE_INLINED_SIZE : Z := 8 + 8 - 1 + 8.
Definition INT_MAX : Z := 2 ^ 31 - 1.

Definition len (s : bytes) : Z := Z.of_nat (length s).

Class SliceLib := {
  grpc_slice_malloc : Z -> bytes;
  has_refcount : bytes -> bool;
  grpc_slice_buffer_add : list bytes -> bytes -> list bytes;
}.

Class SliceLib_ok (S : SliceLib) := {
  malloc_length : forall n, 0 <= n -> len (grpc_slice_malloc n) = n;
  add_concat : forall sb s, concat (grpc_slice_buffer_add sb s) = concat sb ++ s;
}.

(** ABSL_CHECK ends the process. *)
Definition ABSL_CHECK (b : bool) : outcome unit := if b then Ok tt else Crash "ABSL_CHECK".

(** ** ProtoBufferWriter *)

(** [slice_]: the length of the current slice.  [backup_slice_] is there when
    have_backup_ is set. *)
Record ProtoBufferWriter := mkWriter {
  block_size_ : Z;
  total_size_ : Z;
  byte_count_ : Z;
  slice_buffer_ : list bytes;
  backup_slice_ : option bytes;
  slice_ : Z;
}.

Definition writer_New (block_size total_size : Z) : ProtoBufferWriter :=
  mkWriter block_size total_size 0 [] None 0.

Section writer.
Context {S : SliceLib}.

Definition writer_Next (w : ProtoBufferWriter) : outcome (Z * ProtoBufferWriter) :=
  _ ← ABSL_CHECK (byte_count_ w <? total_size_ w);
  let remain := u64 (total_size_ w - byte_count_ w) in
  let s :=
    match backup_slice_ w with
    | Some b => if len b >? remain then take (Z.to_nat remain) b else b
    | None =>
        let allocate_length := if remain >? block_size_ w then block_size_ w else remain in
        grpc_slice_malloc
          (if allocate_length >? GRPC_SLICE_INLINED_SIZE then allocate_length else GRPC_SLICE_INLINED_SIZE + 1)
    end in
  _ ← ABSL_CHECK (len s <=? INT_MAX);
  Ok (len s, mkWriter (block_size_ w) (total_size_ w) (byte_count_ w + len s) (slice_buffer_ w ++ [s]) None (len s)).

Definition writer_BackUp (count : Z) (w : ProtoBufferWriter) : outcome ProtoBufferWriter :=
  if count =? 0 then Ok w
  else
    _ ← ABSL_CHECK (count <=? slice_ w);
    let s := default [] (last (slice_buffer_ w)) in
    let popped := removelast (slice_buffer_ w) in
    let keep := slice_ w - count in
    let '(sb, backup, n) :=
      if count =? slice_ w then (popped, s, slice_ w)
      else (grpc_slice_buffer_add popped (take (Z.to_nat keep) s), drop (Z.to_nat keep) s, keep) in
    Ok (mkWriter (block_size_ w) (total_size_ w) (byte_count_ w - count) sb
          (if has_refcount backup then Some backup else None) n).

Definition writer_ByteCount (w : ProtoBufferWriter) : Z := byte_count_ w.

(** [chunks]: the cord's. *)
Definition WriteCord (chunks : list bytes) (w : ProtoBufferWriter) : bool * ProtoBufferWriter :=
  (true, mkWriter (block_size_ w) (total_size_ w) (writer_ByteCount w + len (concat chunks))
           (foldl grpc_slice_buffer_add (slice_buffer_ w) chunks) (backup_slice_ w) (slice_ w)).

(** The caller writes [d] at the start of the memory Next gave it. *)
Definition fill_chunk (d : bytes) (w : ProtoBufferWriter) : ProtoBufferWriter :=
  let s := default [] (last (slice_buffer_ w)) in
  mkWriter (block_size_ w) (total_size_ w) (byte_count_ w)
    (removelast (slice_buffer_ w) ++ [d ++ drop (length d) s]) (backup_slice_ w) (slice_ w).

(** What the buffer holds. *)
Definition written (w : ProtoBufferWriter) : bytes := concat (slice_buffer_ w).

(** A caller that has [bs] to write: it asks for memory while bytes are left, and
    returns what it did not use of the last chunk. *)
Inductive writes : ProtoBufferWriter -> bytes -> ProtoBufferWriter -> Prop :=
| writes_nothing w : writes w [] w
| writes_last w bs n w1 w2 :
    bs <> [] -> writer_Next w = Ok (n, w1) -> len bs <= n ->
    writer_BackUp (n - len bs) (fill_chunk bs w1) = Ok w2 -> writes w bs w2
| writes_more w bs n w1 w2 :
    writer_Next w = Ok (n, w1) -> n < len bs ->
    writes (fill_chunk (take (Z.to_nat n) bs) w1) (drop (Z.to_nat n) bs) w2 -> writes w bs w2.
End writer.

(** ** ProtoBufferReader *)

(** [r_rest]: the slices the byte buffer's reader has not yet given. *)
Record ProtoBufferReader := mkReader {
  r_byte_count : Z;
  r_backup_count : Z;
  r_rest : list bytes;
  r_slice : bytes;
  r_status : bool;
}.

(** [init]: grpc_byte_buffer_reader_init; [buffer] is None for an invalid buffer. *)
Definition reader_New (init : list bytes -> bool) (buffer : option (list bytes)) : ProtoBufferReader :=
  match buffer with
  | Some sl => mkReader 0 0 (if init sl then sl else []) [] (init sl)
  | None => mkReader 0 0 [] [] false
  end.

Definition reader_Next (r : ProtoBufferReader) : outcome (option bytes * ProtoBufferReader) :=
  if negb (r_status r) then Ok (None, r)
  else if r_backup_count r >? 0 then
    _ ← ABSL_CHECK (r_backup_count r <=? INT_MAX);
    Ok (Some (drop (Z.to_nat (len (r_slice r) - r_backup_count r)) (r_slice r)),
        mkReader (r_byte_count r) 0 (r_rest r) (r_slice r) (r_status r))
  else
    match r_rest r with
    | [] => Ok (None, r)
    | s :: rest =>
        _ ← ABSL_CHECK (len s <=? INT_MAX);
        Ok (Some s, mkReader (r_byte_count r + len s) (r_backup_count r) rest s (r_status r))
    end.

Definition reader_BackUp (count : Z) (r : ProtoBufferReader) : outcome ProtoBufferReader :=
  _ ← ABSL_CHECK (count <=? len (r_slice r));
  Ok (mkReader (r_byte_count r) count (r_rest r) (r_slice r) (r_status r)).

Definition reader_ByteCount (r : ProtoBufferReader) : Z := r_byte_count r - r_backup_count r.

(** The loop of Skip; every round but the first takes a slice. *)
Fixpoint Skip_loop (fuel : nat) (count : Z) (r : ProtoBufferReader) : outcome (option (bool * ProtoBufferReader)) :=
  match fuel with
  | O => Ok None
  | S fuel =>
      '(chunk, r) ← reader_Next r;
      match chunk with
      | None => Ok (Some (false, r))
      | Some c =>
          if count <=? len c then r ← reader_BackUp (len c - count) r; Ok (Some (true, r))
          else Skip_loop fuel (count - len c) r
      end
  end.

Definition Skip (count : Z) (r : ProtoBufferReader) : outcome (option (bool * ProtoBufferReader)) :=
  Skip_loop (2 + length (r_rest r)) count r.

(** The loop of ReadCord over the slices; the cord's bytes come back with the result. *)
Fixpoint ReadCord_loop (rest : list bytes) (cord : bytes) (count : Z) (r : ProtoBufferReader)
  : outcome (bool * bytes * ProtoBufferReader) :=
  if count <=? 0 then _ ← ABSL_CHECK (count =? 0); Ok (true, cord, r)
  else
    match rest with
    | [] => Ok (false, cord, r)
    | s :: rest =>
        let r := mkReader (reader_ByteCount r + len s) (r_backup_count r) rest s (r_status r) in
        if len s <=? count then ReadCord_loop rest (cord ++ s) (count - len s) r
        else Ok (true, cord ++ take (Z.to_nat count) s,
                 mkReader (r_byte_count r) (len s - count) rest (drop (Z.to_nat count) s) (r_status r))
    end.

Definition ReadCord (cord : bytes) (count : Z) (r : ProtoBufferReader)
  : outcome (bool * bytes * ProtoBufferReader) :=
  if negb (r_status r) then Ok (false, cord, r)
  else if r_backup_count r >? 0 then
    let start := len (r_slice r) - r_backup_count r in
    let tail := drop (Z.to_nat start) (r_slice r) in
    let '(piece, s) :=
      if r_backup_count r <=? count then (tail, take (Z.to_nat start) (r_slice r))
      else (take (Z.to_nat count) tail, r_slice r) in
    let taken := Z.min (r_backup_count r) count in
    let r := mkReader (r_byte_count r) (r_backup_count r - taken) (r_rest r) s (r_status r) in
    if count - taken =? 0 then Ok (true, cord ++ piece, r)
    else ReadCord_loop (r_rest r) (cord ++ piece) (count - taken) r
  else ReadCord_loop (r_rest r) cord count r.

(** What is still to be read. *)
Definition remaining (r : ProtoBufferReader) : bytes :=
  drop (Z.to_nat (len (r_slice r) - r_backup_count r)) (r_slice r) ++ concat (r_rest r).

(** ** The writer appends *)

Record writer_ok (w : ProtoBufferWriter) : Prop := {
  wo_count : byte_count_ w = len (written w);
  wo_block : 0 < block_size_ w <= INT_MAX;
  wo_total : total_size_ w <= INT_MAX;
  wo_backup : forall b, backup_slice_ w = Some b -> 0 < len b <= INT_MAX;
}.

Lemma len_app a b : len (a ++ b) = len a + len b.
Proof. unfold len. rewrite length_app. lia. Qed.

Lemma len_nonneg a : 0 <= len a.
Proof. unfold len. lia. Qed.

Lemma len_take n a : 0 <= n <= len a -> len (take (Z.to_nat n) a) = n.
Proof. unfold len. intros Hn. rewrite length_take. lia. Qed.

Lemma len_drop n a : 0 <= n <= len a -> len (drop (Z.to_nat n) a) = len a - n.
Proof. unfold len. intros Hn. rewrite length_drop. lia. Qed.

Lemma len_nil a : len a <= 0 -> a = [].
Proof. destruct a; [done|]. unfold len. cbn. lia. Qed.

Lemma concat_snoc (l : list bytes) s : concat (l ++ [s]) = concat l ++ s.
Proof. rewrite concat_app. cbn. by rewrite app_nil_r. Qed.

Create Rewrite HintDb streams.
#[local] Hint Rewrite len_app concat_snoc : streams.

Section writer_proofs.
Context {S : SliceLib} {Sok : SliceLib_ok S}.

(** Next gives memory at the end of the buffer. *)
Lemma Next_gives w :
  writer_ok w -> byte_count_ w < total_size_ w ->
  exists s w', writer_Next w = Ok (len s, w') /\ 0 < len s <= INT_MAX /\
    slice_buffer_ w' = slice_buffer_ w ++ [s] /\ slice_ w' = len s /\ backup_slice_ w' = None /\
    block_size_ w' = block_size_ w /\ total_size_ w' = total_size_ w /\ byte_count_ w' = byte_count_ w + len s.
Proof.
  intros [Hc Hb Ht Hk] Hlt. pose proof (len_nonneg (written w)).
  unfold writer_Next. rewrite (proj2 (Z.ltb_lt _ _)) by done. cbn.
  assert (u64 (total_size_ w - byte_count_ w) = total_size_ w - byte_count_ w) as ->
    by (apply wrapU_small; unfold INT_MAX in *; lia).
  set (s := match backup_slice_ w with Some b => _ | None => _ end).
  assert (0 < len s <= INT_MAX) as Hs.
  { subst s. destruct (backup_slice_ w) as [b|].
    - specialize (Hk b eq_refl). destruct (Z.gtb_spec (len b) (total_size_ w - byte_count_ w)); [|lia].
      rewrite len_take; lia.
    - unfold GRPC_SLICE_INLINED_SIZE, INT_MAX in *.
      rewrite malloc_length; rewrite !Z.gtb_ltb; repeat case_match; to_prop; lia. }
  exists s. eexists. rewrite (proj2 (Z.leb_le _ _)) by lia. cbn. by split_and!; try lia.
Qed.

(** Filling the last chunk and returning its unused end leaves the bytes. *)
Lemma BackUp_keeps w sb s d :
  writer_ok w -> slice_buffer_ w = sb ++ [s] -> slice_ w = len s -> backup_slice_ w = None -> len s <= INT_MAX ->
  len d <= len s -> d <> [] ->
  exists w', writer_BackUp (len s - len d) (fill_chunk d w) = Ok w' /\ writer_ok w' /\
    written w' = concat sb ++ d /\ total_size_ w' = total_size_ w.
Proof.
  intros [Hc Hb Ht _] Hsb Hs Hk Hi Hd Hn. unfold written in *. rewrite Hsb in Hc. autorewrite with streams in Hc.
  assert (0 < len d) as Hd0 by (destruct d; [done|]; unfold len; cbn; lia).
  unfold writer_BackUp, fill_chunk. cbn. rewrite Hsb, last_snoc, removelast_last. cbn [from_option id].
  destruct (Z.eqb_spec (len s - len d) 0) as [E|E].
  - eexists. split_and!; [done| |cbn|done].
    + split; cbn; unfold written; cbn; autorewrite with streams; try lia; [|by rewrite Hk].
      rewrite drop_ge by (unfold len in *; lia). unfold len in *. cbn. lia.
    + rewrite concat_snoc. rewrite drop_ge by (unfold len in *; lia). by rewrite app_nil_r.
  - rewrite Hs, (proj2 (Z.leb_le _ _)), (proj2 (Z.eqb_neq _ _)) by lia. cbn.
    replace (len s - (len s - len d)) with (len d) by lia.
    rewrite last_snoc, removelast_last. cbn [from_option id].
    replace (Z.to_nat (len d)) with (length d) by (unfold len; lia). rewrite take_app_length, drop_app_length.
    eexists. split_and!; [done| |cbn; by rewrite add_concat|done].
    split; cbn; unfold written; cbn; rewrite ?add_concat; autorewrite with streams; try lia.
    intros b. destruct (has_refcount _); [|done]. intros [= <-].
    replace (length d) with (Z.to_nat (len d)) by (unfold len; lia). rewrite len_drop; lia.
Qed.

Lemma fill_ok w sb s d :
  writer_ok w -> slice_buffer_ w = sb ++ [s] -> backup_slice_ w = None -> len d = len s ->
  writer_ok (fill_chunk d w) /\ written (fill_chunk d w) = concat sb ++ d.
Proof.
  intros [Hc Hb Ht Hk] Hsb Hn Hd. unfold fill_chunk, written in *. rewrite Hsb in *. autorewrite with streams in Hc.
  rewrite last_snoc, removelast_last. cbn [from_option id]. rewrite drop_ge by (unfold len in *; lia). rewrite app_nil_r.
  split; [split|]; cbn; unfold written; cbn; autorewrite with streams; try done. lia.
Qed.

Lemma Next_ok w n w' : writer_ok w -> byte_count_ w < total_size_ w -> writer_Next w = Ok (n, w') -> writer_ok w'.
Proof.
  intros Hw Hlt Hn. destruct (Next_gives w Hw Hlt) as (s & w'' & Hn' & Hs & Hsb & _ & Hk & Hb & Ht & Hc).
  rewrite Hn' in Hn. simplify_eq. destruct Hw. split; unfold written in *; rewrite ?Hsb, ?Hc, ?Hb, ?Ht, ?Hk;
    autorewrite with streams; try done. lia.
Qed.

Lemma writes_append bs w :
  writer_ok w -> len (written w) + len bs <= total_size_ w ->
  exists w', writes w bs w' /\ writer_ok w' /\ written w' = written w ++ bs /\ total_size_ w' = total_size_ w.
Proof.
  revert w. induction bs as [bs IH] using (well_founded_induction (Wf_nat.well_founded_ltof _ length)).
  intros w Hw Ht. destruct (decide (bs = [])) as [->|Hb].
  { exists w. rewrite app_nil_r. split_and!; [constructor|done..]. }
  assert (0 < len bs) as Hpos by (destruct bs; [done|]; unfold len; cbn; lia).
  assert (byte_count_ w < total_size_ w) as Hlt by (destruct Hw; lia).
  destruct (Next_gives w Hw Hlt) as (s & w1 & Hn & Hs & Hsb & Hs1 & Hk & _ & Ht1 & _).
  pose proof (Next_ok _ _ _ Hw Hlt Hn) as Hw1.
  destruct (Z.le_gt_cases (len bs) (len s)) as [Hle|Hgt].
  - destruct (BackUp_keeps w1 _ s bs Hw1 Hsb Hs1 Hk) as (w2 & H1 & H2 & H3 & H4); [lia..|done|].
    exists w2. split_and!; [by eapply writes_last|done|done|congruence].
  - assert (len (take (Z.to_nat (len s)) bs) = len s) as Ht' by (rewrite len_take; lia).
    destruct (fill_ok w1 _ s _ Hw1 Hsb Hk Ht') as [Hf Hfw].
    destruct (IH (drop (Z.to_nat (len s)) bs)) with (w := fill_chunk (take (Z.to_nat (len s)) bs) w1)
      as (w2 & H1 & H2 & H3 & H4).
    + unfold Wf_nat.ltof. rewrite length_drop. unfold len in *. lia.
    + done.
    + rewrite Hfw, len_app, Ht', len_drop by lia. cbn. rewrite Ht1. unfold written in Ht. lia.
    + exists w2. split_and!; [by eapply writes_more| done| |by rewrite H4].
      rewrite H3, Hfw, <- app_assoc, take_drop. done.
Qed.

Lemma Next_size w n w' : writer_Next w = Ok (n, w') -> 0 <= n.
Proof.
  unfold writer_Next. intros (_ & _ & (_ & _ & [= <- _])%bind_Ok_inv)%bind_Ok_inv. apply len_nonneg.
Qed.

Lemma writes_unique w bs w1 w2 : writes w bs w1 -> writes w bs w2 -> w1 = w2.
Proof.
  intros H1. revert w2.
  induction H1 as [w|w bs n w1 w1' Hb Hn Hl Hk|w bs n w1 w1' Hn Hl H1 IH]; intros w2 H2;
    inversion H2 as [|? ? m v ? ? Hm|? ? m v ? Hm]; subst; try done.
  all: try (pose proof (Next_size _ _ _ Hn)); try (pose proof (Next_size _ _ _ Hm)); try (unfold len in *; cbn in *; lia).
  all: rewrite Hm in Hn; simplify_eq; try lia; auto.
  congruence.
Qed.
End writer_proofs.

(** ** The reader is a cursor *)

Record reader_ok (r : ProtoBufferReader) : Prop := {
  ro_status : r_status r = true;
  ro_backup : 0 <= r_backup_count r <= len (r_slice r);
  ro_slices : Forall (fun s => len s <= INT_MAX) (r_slice r :: r_rest r);
}.

Lemma remaining_no_backup r : r_backup_count r <= 0 -> remaining r = concat (r_rest r).
Proof. intros Hb. unfold remaining. rewrite drop_ge; [done|]. unfold len. lia. Qed.

(** What a call of Next leaves, with the caller's right to return up to the chunk. *)
Definition reads (r : ProtoBufferReader) (c : bytes) (r' : ProtoBufferReader) : Prop :=
  reader_ok r' /\ remaining r = c ++ remaining r' /\ reader_ByteCount r' = reader_ByteCount r + len c.

Lemma reader_Next_spec r :
  reader_ok r ->
  (reader_Next r = Ok (None, r) /\ remaining r = [] /\ r_rest r = []) \/
  (exists c r', reader_Next r = Ok (Some c, r') /\ reads r c r' /\
    r_backup_count r' = 0 /\ drop (Z.to_nat (len (r_slice r') - len c)) (r_slice r') = c /\ len c <= len (r_slice r') /\
    ((0 < r_backup_count r /\ r_rest r' = r_rest r) \/ (r_backup_count r = 0 /\ exists s, r_rest r = s :: r_rest r'))).
Proof.
  intros [Hs Hb Hf]. inversion Hf as [|? ? Hl Hr]; subst. unfold reader_Next. rewrite Hs. cbn [negb].
  destruct (Z.gtb_spec (r_backup_count r) 0) as [Hp|Hp].
  - right. rewrite (proj2 (Z.leb_le _ _)) by lia. eexists _, _. split; [done|]. cbn.
    unfold reads, remaining, reader_ByteCount. cbn.
    rewrite len_drop by lia. rewrite (drop_ge (r_slice r) (Z.to_nat (len (r_slice r) - 0))) by (unfold len; lia).
    split_and!; try lia; try done; [|f_equal; lia|by left]. split; cbn; [done|lia|done].
  - destruct (r_rest r) as [|s rest] eqn:E; [left; rewrite remaining_no_backup, E by done; done|right].
    inversion Hr as [|? ? Hs1 Hr1]; subst. rewrite (proj2 (Z.leb_le _ _)) by lia. eexists _, _. split; [done|]. cbn.
    unfold reads. rewrite !remaining_no_backup by (cbn; lia). rewrite E. unfold reader_ByteCount. cbn. unfold INT_MAX in *.
    split_and!; try lia; try done; [| |right; split; [lia|eauto]].
    + split; cbn; [done|pose proof (len_nonneg s); lia|by constructor].
    + by rewrite Z.sub_diag.
Qed.

(** After Next: the end of the chunk can be returned. *)
Lemma reader_BackUp_spec r c r' n :
  reads r c r' -> r_backup_count r' = 0 -> drop (Z.to_nat (len (r_slice r') - len c)) (r_slice r') = c ->
  len c <= len (r_slice r') -> 0 <= n <= len c ->
  exists r2, reader_BackUp n r' = Ok r2 /\ r_rest r2 = r_rest r' /\ reads r (take (Z.to_nat (len c - n)) c) r2.
Proof.
  intros ([Hs Hb Hf] & Hr & Hc) H0 Hd Hl Hn. unfold reader_BackUp. rewrite (proj2 (Z.leb_le _ _)) by lia. cbn.
  eexists. split; [done|]. split; [done|]. unfold reads, reader_ByteCount in *. cbn. split_and!.
  - split; cbn; [done|lia|done].
  - rewrite Hr, remaining_no_backup by lia. unfold remaining. cbn.
    replace (drop (Z.to_nat (len (r_slice r') - n)) (r_slice r')) with (drop (Z.to_nat (len c - n)) c).
    + by rewrite app_assoc, take_drop.
    + rewrite <- Hd at 2. rewrite drop_drop. f_equal. unfold len in *. lia.
  - rewrite len_take by lia. lia.
Qed.

Lemma reads_trans r c r1 d r2 : reads r c r1 -> reads r1 d r2 -> reads r (c ++ d) r2.
Proof.
  intros (_ & H1 & H2) (Ho & H3 & H4). split_and!; [done|by rewrite H1, H3, app_assoc|rewrite len_app; lia].
Qed.

Lemma reads_refl r : reader_ok r -> reads r [] r.
Proof. intros Hr. split_and!; [done..|]. unfold len. cbn. lia. Qed.

Lemma reads_slice r s rest :
  reader_ok r -> r_rest r = s :: rest -> r_backup_count r = 0 ->
  let r' := mkReader (reader_ByteCount r + len s) (r_backup_count r) rest s (r_status r) in
  reader_ok r' /\ reads r s r'.
Proof.
  intros [Hs Hb Hf] Hr H0. rewrite Hr in Hf. inversion Hf as [|? ? ? Hf']; subst.
  assert (reader_ok (mkReader (reader_ByteCount r + len s) (r_backup_count r) rest s (r_status r))) as Hok.
  { split; cbn; [done|pose proof (len_nonneg s); lia|done]. }
  split; [done|]. split_and!; [done| |unfold reader_ByteCount; cbn; lia].
  rewrite !remaining_no_backup by (cbn; lia). by rewrite Hr.
Qed.

Lemma Skip_loop_spec fuel n r :
  reader_ok r -> 0 <= n -> (length (r_rest r) + (if r_backup_count r >? 0 then 1 else 0) < fuel)%nat ->
  exists b r' c, Skip_loop fuel n r = Ok (Some (b, r')) /\ reads r c r' /\
    if b : bool then len c = n else remaining r' = [] /\ len c <= n /\ (len c < n \/ n = 0).
Proof.
  revert n r. induction fuel as [|fuel IH]; intros n r Hr Hn Hf; [lia|]. cbn.
  destruct (reader_Next_spec r Hr) as [(-> & Hrem & _)|(c & r1 & -> & Hrd & H0 & Hd & Hl & Hm)]; cbn.
  - exists false, r, []. split_and!; try done; [by apply reads_refl|unfold len; cbn; lia..].
  - destruct (Z.leb_spec n (len c)) as [Hle|Hgt].
    + destruct (reader_BackUp_spec r c r1 (len c - n) Hrd H0 Hd Hl) as (r2 & -> & _ & H2); [lia|]. cbn.
      exists true, r2, (take (Z.to_nat n) c). replace (len c - (len c - n)) with n in H2 by lia.
      split_and!; [done|done|]. apply len_take. lia.
    + destruct (IH (n - len c) r1) as (b & r2 & d & -> & H2 & H3); [by destruct Hrd|lia| |].
      * rewrite H0. cbn. destruct Hm as [[Hb ->]|[Hb [s Hs]]].
        -- rewrite Z.gtb_ltb, (proj2 (Z.ltb_lt _ _)) in Hf by lia. lia.
        -- rewrite Hs in Hf. cbn in Hf. lia.
      * exists b, r2, (c ++ d). split_and!; [done|by eapply reads_trans|]. pose proof (len_nonneg d). rewrite len_app.
        destruct b; [lia|]. destruct H3 as (? & ? & ?). split_and!; [done|lia..].
Qed.

Lemma ReadCord_loop_spec rest cord n r :
  reader_ok r -> r_rest r = rest -> r_backup_count r = 0 -> 0 <= n ->
  exists b r' c, ReadCord_loop rest cord n r = Ok (b, cord ++ c, r') /\ reads r c r' /\
    if b : bool then len c = n else remaining r' = [] /\ len c < n.
Proof.
  revert cord n r. induction rest as [|s rest IH]; intros cord n r Hr Hrest H0 Hn; cbn.
  all: destruct (Z.leb_spec n 0) as [Hle|Hgt]; [replace n with 0 by lia; exists true, r, []; rewrite app_nil_r;
    split_and!; [done|by apply reads_refl|done]|].
  - exists false, r, []. rewrite app_nil_r, remaining_no_backup, Hrest by lia. by split_and!; [|apply reads_refl| |].
  - destruct (reads_slice r s rest Hr Hrest H0) as [Hr1 Hrd].
    destruct (Z.leb_spec (len s) n) as [Hle|Hlt].
    + destruct (IH (cord ++ s) (n - len s) _ Hr1 eq_refl H0) as (b & r2 & c & -> & H2 & H3); [lia|].
      exists b, r2, (s ++ c). rewrite <- app_assoc. split_and!; [done|by eapply reads_trans|]. rewrite len_app.
      destruct b; [lia|]. split; [by destruct H3|lia].
    + eexists true, _, (take (Z.to_nat n) s). split_and!; [done| |by apply len_take; lia].
      destruct Hr1 as [Hs1 Hb1 Hf1]. destruct Hrd as (_ & Hrem & Hc). inversion Hf1; subst. unfold reads, reader_ByteCount in *. cbn in *.
      split_and!.
      * split; cbn; [done|rewrite len_drop; lia|constructor; [rewrite len_drop; lia|done]].
      * rewrite Hrem, remaining_no_backup by (cbn; lia). unfold remaining. cbn.
        rewrite len_drop by lia. rewrite Z.sub_diag, drop_0, app_assoc, take_drop. done.
      * rewrite len_take by lia. lia.
Qed.

Lemma ReadCord_spec cord n r :
  reader_ok r -> 0 <= n ->
  exists b r' c, ReadCord cord n r = Ok (b, cord ++ c, r') /\ reads r c r' /\
    if b : bool then len c = n else remaining r' = [] /\ len c < n.
Proof.
  intros Hr Hn. unfold ReadCord. rewrite (ro_status _ Hr). cbn [negb].
  destruct (Z.gtb_spec (r_backup_count r) 0) as [Hp|Hp]; [|apply ReadCord_loop_spec; [done..|destruct Hr; lia|done]].
  pose proof Hr as [Hs Hb Hf]. inversion Hf as [|? ? Hl Hrest]; subst.
  set (tail := drop (Z.to_nat (len (r_slice r) - r_backup_count r)) (r_slice r)).
  assert (len tail = r_backup_count r) as Ht by (unfold tail; rewrite len_drop; lia).
  destruct (Z.leb_spec (r_backup_count r) n) as [Hle|Hgt].
  - rewrite Z.min_l by lia.
    set (r1 := mkReader _ _ _ _ _).
    assert (reads r tail r1) as H1.
    { unfold reads, reader_ByteCount. rewrite (remaining_no_backup r1) by (cbn; lia). cbn. split_and!; [|done|lia].
      split; cbn; [done|pose proof (len_nonneg (take (Z.to_nat (len (r_slice r) - r_backup_count r)) (r_slice r))); lia|].
      constructor; [rewrite len_take; lia|done]. }
    destruct (Z.eqb_spec (n - r_backup_count r) 0).
    + exists true, r1, tail. split_and!; [done..|lia].
    + destruct (ReadCord_loop_spec (r_rest r1) (cord ++ tail) (n - r_backup_count r) r1) as (b & r2 & c & -> & H2 & H3);
        [by destruct H1|done|cbn; lia|lia|].
      exists b, r2, (tail ++ c). rewrite <- app_assoc. split_and!; [done|by eapply reads_trans|]. rewrite len_app.
      destruct b; [lia|]. split; [by destruct H3|lia].
  - rewrite Z.min_r, Z.sub_diag by lia. cbn. eexists true, _, (take (Z.to_nat n) tail). split_and!; [done| |apply len_take; lia].
    unfold reads, reader_ByteCount. cbn. rewrite len_take by lia. split_and!; [split; cbn; [done|lia|done]| |lia].
    unfold remaining. cbn. fold tail.
    replace (drop (Z.to_nat (len (r_slice r) - (r_backup_count r - n))) (r_slice r)) with (drop (Z.to_nat n) tail).
    + by rewrite app_assoc, take_drop.
    + unfold tail. rewrite drop_drop. f_equal. unfold len in *. lia.
Qed.

(** C23: a caller that hands [bs] to the writer in the documented way, chunk by
    chunk, always finishes, and the buffer then holds what it held followed by
    exactly [bs], whatever was in fresh memory, whichever slices the buffer joined
    and whatever was returned by earlier calls: ProtoBufferWriter is an append-only
    list of bytes, and none of its checks fails while the announced size is kept. *)
Theorem writer_refines (S : SliceLib) (w : ProtoBufferWriter) (bs : bytes) :
  SliceLib_ok S -> writer_ok w -> len (written w) + len bs <= total_size_ w ->
  exists w', (forall w2, writes w bs w2 <-> w2 = w') /\
    writer_ok w' /\ written w' = written w ++ bs /\ writer_ByteCount w' = writer_ByteCount w + len bs.
Proof.
  intros Sok Hw Ht. destruct (writes_append bs w Hw Ht) as (w' & H1 & H2 & H3 & _). exists w'. split_and!; [|done|done|].
  - intros w2. split; [intros H; by eapply writes_unique|by intros ->].
  - unfold writer_ByteCount. destruct Hw, H2. rewrite wo_count0, wo_count1, H3, len_app. done.
Qed.

(** C24: ProtoBufferReader is a cursor in the bytes of the buffer: Next gives the
    bytes at the cursor and moves past them, or says that none are left; after it
    any part of the chunk can be returned; Skip and ReadCord pass over exactly the
    bytes asked for, or over all that are left; and ByteCount is the cursor's
    place.  Skip always ends. *)
Theorem reader_refines (r : ProtoBufferReader) (n : Z) (cord : bytes) :
  reader_ok r -> 0 <= n ->
  ((reader_Next r = Ok (None, r) /\ remaining r = []) \/
   exists c r', reader_Next r = Ok (Some c, r') /\ reads r c r' /\
     forall k, 0 <= k <= len c -> exists r2, reader_BackUp k r' = Ok r2 /\ reads r (take (Z.to_nat (len c - k)) c) r2) /\
  (exists b r' c, Skip n r = Ok (Some (b, r')) /\ reads r c r' /\
     if b : bool then len c = n else remaining r' = [] /\ len c <= n /\ (len c < n \/ n = 0)) /\
  (exists b r' c, ReadCord cord n r = Ok (b, cord ++ c, r') /\ reads r c r' /\
     if b : bool then len c = n else remaining r' = [] /\ len c < n).
Proof.
  intros Hr Hn. split_and!.
  - destruct (reader_Next_spec r Hr) as [(H1 & H2 & _)|(c & r1 & H1 & Hrd & H0 & Hd & Hl & _)]; [by left|right].
    exists c, r1. split_and!; [done..|]. intros k Hk.
    destruct (reader_BackUp_spec r c r1 k Hrd H0 Hd Hl Hk) as (r2 & H2 & _ & H3). eauto.
  - apply Skip_loop_spec; [done|lia|]. destruct (_ >? _); lia.
  - by apply ReadCord_spec.
Qed.

(** Slices that remember nothing, for the witnesses: memory is zeroed, every slice
    is counted, the buffer never joins. *)
Module plain.
#[local] Instance lib : SliceLib := {
  grpc_slice_malloc n := replicate (Z.to_nat n) 0;
  has_refcount _ := true;
  grpc_slice_buffer_add sb s := sb ++ [s];
}.

Lemma slices_ok : SliceLib_ok lib.
Proof. split; cbn; [intros n Hn; unfold len; rewrite length_replicate; lia|apply concat_snoc]. Qed.
End plain.

Lemma writer_refines_witness :
  exists w', writes (S := plain.lib) (writer_New 4 30) [1; 2; 3; 4; 5] w' /\ written w' = [1; 2; 3; 4; 5].
Proof.
  destruct (writer_refines plain.lib (writer_New 4 30) [1; 2; 3; 4; 5] plain.slices_ok) as (w' & H1 & _ & H2 & _).
  - split; cbn; unfold INT_MAX; first [done | lia].
  - vm_compute. congruence.
  - exists w'. split; [by apply H1|exact H2].
Defined.

Lemma reader_refines_witness :
  exists b r', Skip 3 (mkReader 4 2 [[5; 6]; [7]] [1; 2; 3; 4] true) = Ok (Some (b, r')) /\ b = true /\ remaining r' = [6; 7].
Proof.
  destruct (reader_refines (mkReader 4 2 [[5; 6]; [7]] [1; 2; 3; 4] true) 3 []) as (_ & (b & r' & c & H & _) & _).
  - split; cbn; [done|unfold len; cbn; lia|]. repeat constructor; vm_compute; congruence.
  - lia.
  - exists b, r'. split; [exact H|]. vm_compute in H. simplify_eq. by split.
Defined.
