(* ===== verification/Grpc.v ===== *)
(** * The remote calls

    How a client of the administration service reaches it, from
    src/DhNet_Server/DhNet_Ipc/generated/dhnet.grpc.pb.cc (the stub and the
    service protoc wrote), the gRPC headers under src/Tools/include/grpcpp that they
    instantiate (client_unary_call.h, method_handler.h, call_op_set.h,
    generic_serialize.h) and the overrides of AdminGrpcServer.cpp.

    A call: the stub serialises the request (Messages.v) into slices through a
    ProtoBufferWriter (Streams.v), the core carries path and bytes to the server,
    the handler registered for the path parses the request and calls the service's
    virtual function (Admin.v), the response is serialised and carried back only
    when the status is OK, and the stub parses it or reports that none came.

    gRPC's core and protobuf's parser are not part of the sources: [GrpcLib] and
    [GrpcCore].  [GrpcLib_ok] states the documented meaning of parsing, field by
    field, for strings that are UTF-8; [GrpcCore_ok] that the core calls the handler
    registered under the path and carries messages up to the documented limit.
    Metadata, deadlines, interceptors and the asynchronous calls are left out. *)

From S2P Require Import Prelude JobQueue Bytes Wire Messages Accessors Packets Slots Game Setting Admin Ipc Streams.
#[local] Open Scope Z_scope.

(** ** Status *)

Module Code.
Inductive StatusCode :=
| OK | CANCELLED | UNKNOWN | INVALID_ARGUMENT | DEADLINE_EXCEEDED | NOT_FOUND | ALREADY_EXISTS | PERMISSION_DENIED
| RESOURCE_EXHAUSTED | FAILED_PRECONDITION | ABORTED | OUT_OF_RANGE | UNIMPLEMENTED | INTERNAL | UNAVAILABLE | DATA_LOSS
| UNAUTHENTICATED | DO_NOT_USE.
End Code.

Record rpc_status := mkStatus { code_ : Code.StatusCode; error_message_ : list Z }.

Definition status_ok : rpc_status := mkStatus Code.OK [].
Definition ok (s : rpc_status) : bool := match code_ s with Code.OK => true | _ => false end.

(** The status an override of AdminServiceImpl builds. *)
Definition status_of (s : Admin.Status) : rpc_status :=
  match s with
  | StatusOK => status_ok
  | DEADLINE_EXCEEDED message => mkStatus Code.DEADLINE_EXCEEDED message
  | NOT_FOUND message => mkStatus Code.NOT_FOUND message
  end.

(** ** What the library does *)

(** ParseFromZeroCopyStream of each class, on the bytes the stream gives: whether
    it succeeded, and the message.  The requests without fields are [Message unit],
    all of whose functions are the library's.  [CodedOutputStream_write] puts bytes
    through a stream and says whether it had an error. *)
Class GrpcLib (L : ProtobufLib) := {
  utf8 : bytes -> bool;
  parse_HealthCheckResponse : bytes -> Message HealthCheckResponse -> bool * Message HealthCheckResponse;
  parse_BroadcastRequest : bytes -> Message BroadcastRequest -> bool * Message BroadcastRequest;
  parse_BroadcastResponse : bytes -> Message BroadcastResponse -> bool * Message BroadcastResponse;
  parse_KickPlayerRequest : bytes -> Message KickPlayerRequest -> bool * Message KickPlayerRequest;
  parse_KickPlayerResponse : bytes -> Message KickPlayerResponse -> bool * Message KickPlayerResponse;
  parse_ListRoomsResponse : bytes -> Message (RepeatedPtrField RoomInfo) -> bool * Message (RepeatedPtrField RoomInfo);
  parse_ListPlayersResponse : bytes -> Message (RepeatedPtrField PlayerInfo) -> bool * Message (RepeatedPtrField PlayerInfo);
  parse_ListLobbiesResponse : bytes -> Message (RepeatedPtrField LobbyInfo) -> bool * Message (RepeatedPtrField LobbyInfo);
  parse_empty : bytes -> Message unit -> bool * Message unit;
  size_empty : Message unit -> Z;
  serialize_empty : Message unit -> bytes;
  InitializationErrorString : bytes;
  slices :: SliceLib;
  CodedOutputStream_write : bytes -> ProtoBufferWriter -> outcome (bool * ProtoBufferWriter);
  grpc_byte_buffer_reader_init : list bytes -> bool;
}.

(** What a parsed message holds of the fields [l] read from its bytes: of each
    field the last occurrence, converted to its type. *)
Definition reads_as {L : ProtobufLib} {F} {G : Generated F} (l : list (Z * wire_value)) (m : Message F) : Prop :=
  Forall (fun s =>
    match s_value s with
    | SInt64 v => v = i64 (varint_in (s_number s) l)
    | SInt32 v => v = i32 (varint_in (s_number s) l)
    | SUInt64 v => v = varint_in (s_number s) l
    | SBool v => v = negb (varint_in (s_number s) l =? 0)
    | SText p => string_Get p = bytes_in (s_number s) l
    end) (slots (_impl_ m)).

(** Every field of the class that occurs has its class's wire type. *)
Definition well_typed {L : ProtobufLib} (sl : list slot) (l : list (Z * wire_value)) : Prop :=
  Forall (fun f => Forall (fun s => s_number s = f.1 ->
    match s_value s, f.2 with
    | SText _, WBytes _ => True
    | SText _, WVarint _ | _, WBytes _ => False
    | _, WVarint v => 0 <= v < 2 ^ 64
    end) sl) l.

Definition strings_of (l : list (Z * wire_value)) : list bytes :=
  omap (fun f => match f.2 with WBytes s => Some s | WVarint _ => None end) l.

(** proto3: a string that is not UTF-8 makes the message unreadable. *)
Definition parses {L : ProtobufLib} {F} {G : Generated F} (utf8 : bytes -> bool)
    (parse : bytes -> Message F -> bool * Message F) : Prop :=
  forall bs m l, len bs <= INT_MAX -> read_fields bs = Some l -> well_typed (slots (_impl_ (g_New (F := F)))) l ->
    Forall (fun f => f.1 ∈ s_number <$> slots (_impl_ (g_New (F := F)))) l ->
    (parse bs m).1 = forallb utf8 (strings_of l) /\ ((parse bs m).1 = true -> reads_as l (parse bs m).2).

(** The same for a list response: its elements, each from its own bytes. *)
Definition parses_list {L : ProtobufLib} {F} {G : Generated F} (utf8 : bytes -> bool)
    (parse : bytes -> Message (RepeatedPtrField F) -> bool * Message (RepeatedPtrField F)) : Prop :=
  forall bs m rows, len bs <= INT_MAX ->
    (exists bodies, read_fields bs = Some ((fun b => (1, WBytes b)) <$> bodies) /\
       Forall2 (fun b l => read_fields b = Some l) bodies rows) ->
    Forall (fun l => well_typed (slots (_impl_ (g_New (F := F)))) l /\
      Forall (fun f => f.1 ∈ s_number <$> slots (_impl_ (g_New (F := F)))) l) rows ->
    (parse bs m).1 = forallb utf8 (concat (strings_of <$> rows)) /\
    ((parse bs m).1 = true -> Forall2 reads_as rows (rep_elements (_impl_ (parse bs m).2))).

Class GrpcLib_ok {L : ProtobufLib} (P : GrpcLib L) := {
  utf8_ascii : forall s, Forall (fun b => 0 <= b < 128) s -> utf8 s = true;
  health_parses : parses utf8 parse_HealthCheckResponse;
  broadcast_request_parses : parses utf8 parse_BroadcastRequest;
  broadcast_response_parses : parses utf8 parse_BroadcastResponse;
  kick_request_parses : parses utf8 parse_KickPlayerRequest;
  kick_response_parses : parses utf8 parse_KickPlayerResponse;
  rooms_parse : parses_list utf8 parse_ListRoomsResponse;
  players_parse : parses_list utf8 parse_ListPlayersResponse;
  lobbies_parse : parses_list utf8 parse_ListLobbiesResponse;
  empty_parses : forall m, (parse_empty [] m).1 = true;
  empty_size : size_empty (new_message tt) = 0;
  empty_bytes : serialize_empty (new_message tt) = [];
  slices_ok :: SliceLib_ok slices;
  coded_writes : forall bs w w', writer_ok w -> len (written w) + len bs <= total_size_ w -> writes w bs w' ->
    CodedOutputStream_write bs w = Ok (false, w');
  reader_inits : forall sl, grpc_byte_buffer_reader_init sl = true;
}.

(** ** Serialisation *)

(** What gRPC asks of a message; ByteSizeLong caches sizes in it. *)
Class MessageLite (M : Type) := {
  ml_New : M;
  ml_ByteSizeLong : M -> Z * M;
  ml_Serialize : M -> bytes;
  ml_Parse : bytes -> M -> bool * M;
}.

Definition kProtoBufferWriterMaxBufferLength : Z := 1024 * 1024.

Section calls.
Context {L : ProtobufLib} {P : GrpcLib L}.

(** The slices of the buffer; None for an object without one. *)
Definition GenericSerialize {M} `{MessageLite M} (msg : M) : outcome (rpc_status * list bytes) :=
  let '(size, msg) := ml_ByteSizeLong msg in
  let byte_size := i32 size in
  if u64 byte_size <=? GRPC_SLICE_INLINED_SIZE then
    let slice := ml_Serialize msg in
    _ ← ABSL_CHECK (len slice =? byte_size);
    Ok (status_ok, [slice])
  else
    '(had_error, writer) ←
      CodedOutputStream_write (ml_Serialize msg) (writer_New kProtoBufferWriterMaxBufferLength byte_size);
    Ok (if negb had_error then status_ok else mkStatus Code.INTERNAL (text "Failed to serialize message"),
        slice_buffer_ writer).

(** The outer None is the null pointer, the inner one an invalid buffer. *)
Definition GenericDeserialize {M} `{MessageLite M} (buffer : option (option (list bytes))) (msg : M) : rpc_status * M :=
  match buffer with
  | None => (mkStatus Code.INTERNAL (text "No payload"), msg)
  | Some buffer =>
      let reader := reader_New grpc_byte_buffer_reader_init buffer in
      if negb (r_status reader) then
        (mkStatus Code.INTERNAL (text "Couldn't initialize byte buffer reader"), msg)
      else
        let '(parsed, msg) := ml_Parse (remaining reader) msg in
        (if negb parsed then mkStatus Code.INTERNAL InitializationErrorString else status_ok, msg)
  end.

(** CallOpSendMessage: SendMessagePtr keeps the message, AddOp serialises it. *)
Definition send_message {M} `{MessageLite M} (msg : M) : outcome (list bytes) :=
  '(status, buf) ← GenericSerialize msg;
  _ ← ABSL_CHECK (ok status);
  Ok buf.

(** CallOpRecvMessage::FinishOp, with AllowNoMessage: got_message, the batch's
    status and the message. *)
Definition recv_message {M} `{MessageLite M} (recv_buf : option (list bytes)) (status : bool) (message : M)
  : bool * bool * M :=
  match recv_buf with
  | Some buf =>
      if status then
        let '(st, message) := GenericDeserialize (Some (Some buf)) message in (ok st, ok st, message)
      else (false, status, message)
  | None => (false, status, message)
  end.

(** ** The client *)

Inductive RpcType := NORMAL_RPC | CLIENT_STREAMING | SERVER_STREAMING | BIDI_STREAMING.

Record RpcMethod := mkRpcMethod { name_ : bytes; method_type_ : RpcType }.

(** What a batch of operations brings back: whether the core completed it, the
    message if one came, and the status. *)
Record batch := mkBatch { b_ok : bool; b_message : option (list bytes); b_status : rpc_status }.

(** A channel: the call of a path with the bytes of a request. *)
Definition Channel := bytes -> bytes -> world -> outcome (batch * world).

Definition BlockingUnaryCall {Req Resp} `{MessageLite Req} `{MessageLite Resp} (channel : Channel) (method : RpcMethod)
    (request : Req) (result : Resp) (w : world) : outcome (rpc_status * Resp * world) :=
  buf ← send_message request;
  '(b, w) ← channel (name_ method) (concat buf) w;
  let '(got_message, _, result) := recv_message (b_message b) (b_ok b) result in
  Ok (if negb got_message && ok (b_status b)
      then mkStatus Code.UNIMPLEMENTED (text "No message returned for unary request") else b_status b,
      result, w).

(** ** The server *)

(** What the handler sends: the message, if any, and the status. *)
Record sent_ops := mkSent { so_message : option (list bytes); so_status : rpc_status }.

Record MethodHandler := mkHandler {
  h_request : Type;
  h_Deserialize : list bytes -> rpc_status * option h_request;
  h_RunHandler : rpc_status -> option h_request -> world -> outcome (sent_ops * world);
}.

Record RpcServiceMethod := mkServiceMethod { sm_method : RpcMethod; sm_handler : MethodHandler }.

(** An exception ([None]) ends the call with UNKNOWN. *)
Definition CatchingFunctionHandler (r : option rpc_status) : rpc_status :=
  match r with
  | Some status => status
  | None => mkStatus Code.UNKNOWN (text "Unexpected error in RPC handling")
  end.

Definition UnaryRunHandlerHelper {Resp} `{MessageLite Resp} (rsp : Resp) (status : rpc_status) : outcome sent_ops :=
  if ok status then buf ← send_message rsp; Ok (mkSent (Some buf) status_ok)
  else Ok (mkSent None status).

Definition UnaryDeserializeHelper {Req} `{MessageLite Req} (req : list bytes) (request : Req) : rpc_status * option Req :=
  let '(status, request) := GenericDeserialize (Some (Some req)) request in
  (status, if ok status then Some request else None).

(** [func]: the status or an exception, the response and the world. *)
Definition RpcMethodHandler {Req Resp} `{MessageLite Req} `{MessageLite Resp}
    (func : Req -> Resp -> world -> option rpc_status * Resp * world) : MethodHandler := {|
  h_request := Req;
  h_Deserialize req := UnaryDeserializeHelper req ml_New;
  h_RunHandler status request w :=
    let '(status, rsp, w) :=
      match request with
      | Some request =>
          if ok status then
            let '(r, rsp, w) := func request ml_New w in (CatchingFunctionHandler r, rsp, w)
          else (status, ml_New, w)
      | None => (status, ml_New, w)
      end in
    s ← UnaryRunHandlerHelper rsp status;
    Ok (s, w)
|}.

(** ** The messages *)

Context (bsr : bool) (room : nat -> Z -> bool).

Definition generated_lite {F} {G : Generated F} (parse : bytes -> Message F -> bool * Message F) : MessageLite (Message F) := {|
  ml_New := g_New;
  ml_ByteSizeLong := g_ByteSizeLong bsr;
  ml_Serialize := g_InternalSerialize (room 0%nat);
  ml_Parse := parse
|}.

Definition list_lite {F} {G : Generated F} (parse : bytes -> Message (RepeatedPtrField F) -> bool * Message (RepeatedPtrField F))
  : MessageLite (Message (RepeatedPtrField F)) := {|
  ml_New := list_New;
  ml_ByteSizeLong := list_ByteSizeLong bsr;
  ml_Serialize := list_InternalSerialize room;
  ml_Parse := parse
|}.

#[local] Instance empty_lite : MessageLite (Message unit) := {|
  ml_New := new_message tt;
  ml_ByteSizeLong m := (size_empty m, m);
  ml_Serialize := serialize_empty;
  ml_Parse := parse_empty
|}.
#[local] Instance health_lite : MessageLite (Message HealthCheckResponse) := generated_lite parse_HealthCheckResponse.
#[local] Instance broadcast_request_lite : MessageLite (Message BroadcastRequest) := generated_lite parse_BroadcastRequest.
#[local] Instance broadcast_response_lite : MessageLite (Message BroadcastResponse) := generated_lite parse_BroadcastResponse.
#[local] Instance kick_request_lite : MessageLite (Message KickPlayerRequest) := generated_lite parse_KickPlayerRequest.
#[local] Instance kick_response_lite : MessageLite (Message KickPlayerResponse) := generated_lite parse_KickPlayerResponse.
#[local] Instance rooms_lite : MessageLite (Message (RepeatedPtrField RoomInfo)) := list_lite parse_ListRoomsResponse.
#[local] Instance players_lite : MessageLite (Message (RepeatedPtrField PlayerInfo)) := list_lite parse_ListPlayersResponse.
#[local] Instance lobbies_lite : MessageLite (Message (RepeatedPtrField LobbyInfo)) := list_lite parse_ListLobbiesResponse.

(** ** AdminService, as generated *)

Definition AdminService_method_names : list bytes := [
  text "/dhnet.AdminService/HealthCheck";
  text "/dhnet.AdminService/ListRooms";
  text "/dhnet.AdminService/Broadcast";
  text "/dhnet.AdminService/ListPlayers";
  text "/dhnet.AdminService/KickPlayer";
  text "/dhnet.AdminService/ListLobbies"].

Definition method_name (i : nat) : bytes := default [] (AdminService_method_names !! i).

Record Stub := mkStub {
  channel_ : Channel;
  rpcmethod_HealthCheck_ : RpcMethod;
  rpcmethod_ListRooms_ : RpcMethod;
  rpcmethod_Broadcast_ : RpcMethod;
  rpcmethod_ListPlayers_ : RpcMethod;
  rpcmethod_KickPlayer_ : RpcMethod;
  rpcmethod_ListLobbies_ : RpcMethod;
}.

Definition NewStub (channel : Channel) : Stub :=
  mkStub channel
    (mkRpcMethod (method_name 0) NORMAL_RPC)
    (mkRpcMethod (method_name 1) NORMAL_RPC)
    (mkRpcMethod (method_name 2) NORMAL_RPC)
    (mkRpcMethod (method_name 3) NORMAL_RPC)
    (mkRpcMethod (method_name 4) NORMAL_RPC)
    (mkRpcMethod (method_name 5) NORMAL_RPC).

Definition Stub_HealthCheck (s : Stub) (request : Message unit) (response : Message HealthCheckResponse) :=
  BlockingUnaryCall (channel_ s) (rpcmethod_HealthCheck_ s) request response.
Definition Stub_ListRooms (s : Stub) (request : Message unit) (response : Message (RepeatedPtrField RoomInfo)) :=
  BlockingUnaryCall (channel_ s) (rpcmethod_ListRooms_ s) request response.
Definition Stub_Broadcast (s : Stub) (request : Message BroadcastRequest) (response : Message BroadcastResponse) :=
  BlockingUnaryCall (channel_ s) (rpcmethod_Broadcast_ s) request response.
Definition Stub_ListPlayers (s : Stub) (request : Message unit) (response : Message (RepeatedPtrField PlayerInfo)) :=
  BlockingUnaryCall (channel_ s) (rpcmethod_ListPlayers_ s) request response.
Definition Stub_KickPlayer (s : Stub) (request : Message KickPlayerRequest) (response : Message KickPlayerResponse) :=
  BlockingUnaryCall (channel_ s) (rpcmethod_KickPlayer_ s) request response.
Definition Stub_ListLobbies (s : Stub) (request : Message unit) (response : Message (RepeatedPtrField LobbyInfo)) :=
  BlockingUnaryCall (channel_ s) (rpcmethod_ListLobbies_ s) request response.

(** A virtual function of the service. *)
Definition rpc_function (Req Resp : Type) := Req -> Resp -> world -> rpc_status * Resp * world.

Record AdminService := mkService {
  s_HealthCheck : rpc_function (Message unit) (Message HealthCheckResponse);
  s_ListRooms : rpc_function (Message unit) (Message (RepeatedPtrField RoomInfo));
  s_Broadcast : rpc_function (Message BroadcastRequest) (Message BroadcastResponse);
  s_ListPlayers : rpc_function (Message unit) (Message (RepeatedPtrField PlayerInfo));
  s_KickPlayer : rpc_function (Message KickPlayerRequest) (Message KickPlayerResponse);
  s_ListLobbies : rpc_function (Message unit) (Message (RepeatedPtrField LobbyInfo));
}.

(** The functions of the base class. *)
Definition unimplemented {Req Resp} : rpc_function Req Resp :=
  fun request response w => (mkStatus Code.UNIMPLEMENTED [], response, w).

Definition Service_base : AdminService :=
  mkService unimplemented unimplemented unimplemented unimplemented unimplemented unimplemented.

(** The constructor registers a handler for each path that calls the virtual
    function; none of the functions below lets an exception out. *)
Definition AddMethod {Req Resp} `{MessageLite Req} `{MessageLite Resp} (name : bytes) (f : rpc_function Req Resp)
    (methods : list RpcServiceMethod) : list RpcServiceMethod :=
  methods ++ [mkServiceMethod (mkRpcMethod name NORMAL_RPC)
    (RpcMethodHandler (fun req resp w => let '(st, resp, w) := f req resp w in (Some st, resp, w)))].

Definition Service_methods (s : AdminService) : list RpcServiceMethod :=
  AddMethod (method_name 5) (s_ListLobbies s)
  (AddMethod (method_name 4) (s_KickPlayer s)
  (AddMethod (method_name 3) (s_ListPlayers s)
  (AddMethod (method_name 2) (s_Broadcast s)
  (AddMethod (method_name 1) (s_ListRooms s)
  (AddMethod (method_name 0) (s_HealthCheck s) []))))).

(** ** AdminServiceImpl *)

Definition impl_HealthCheck : rpc_function (Message unit) (Message HealthCheckResponse) :=
  fun _ resp w => (status_of (HealthCheck (Some (HealthCheckResponse_status resp))).1, fill_health resp, w).

Definition impl_ListRooms (c : caller) : rpc_function (Message unit) (Message (RepeatedPtrField RoomInfo)) :=
  fun _ resp w => let '(st, rows, w) := ListRooms c w in (status_of st, fill_rooms rows resp, w).

Definition impl_Broadcast (c : caller) : rpc_function (Message BroadcastRequest) (Message BroadcastResponse) :=
  fun req resp w =>
    let '(st, r, w) := Broadcast_call (BroadcastRequest_roomid req) (BroadcastRequest_message req) c w in
    (status_of st, fill_broadcast r resp, w).

Definition impl_ListPlayers (c : caller) : rpc_function (Message unit) (Message (RepeatedPtrField PlayerInfo)) :=
  fun _ resp w => let '(st, rows, w) := ListPlayers c w in (status_of st, fill_players rows resp, w).

Definition impl_KickPlayer (c : caller) : rpc_function (Message KickPlayerRequest) (Message KickPlayerResponse) :=
  fun req resp w =>
    let '(st, r, w) := KickPlayer (KickPlayerRequest_id req) c w in (status_of st, fill_kick r resp, w).

Definition impl_ListLobbies (c : caller) : rpc_function (Message unit) (Message (RepeatedPtrField LobbyInfo)) :=
  fun _ resp w => let '(st, rows, w) := ListLobbies c w in (status_of st, fill_lobbies rows resp, w).

(** [c]: the gRPC thread that runs the call. *)
Definition AdminServiceImpl (c : caller) : AdminService :=
  mkService impl_HealthCheck (impl_ListRooms c) (impl_Broadcast c) (impl_ListPlayers c) (impl_KickPlayer c)
    (impl_ListLobbies c).
(** ** The core *)

Definition GRPC_DEFAULT_MAX_RECV_MESSAGE_LENGTH : Z := 4 * 1024 * 1024.

(** [core_call]: a channel to a server with these methods; [carried]: what of the
    handler's operations reaches the client; [arrives]: the slices of a received
    message. *)
Class GrpcCore := {
  core_call : list RpcServiceMethod -> Channel;
  carried : sent_ops -> batch;
  arrives : bytes -> list bytes;
}.

(** The names under which methods are registered. *)
Definition names_of (ms : list RpcServiceMethod) : list bytes := (fun m => name_ (sm_method m)) <$> ms.

Class GrpcCore_ok (C : GrpcCore) := {
  arrives_all : forall bs, concat (arrives bs) = bs;
  call_registered : forall ms i m path req w,
    NoDup (names_of ms) -> ms !! i = Some m -> sm_method m = mkRpcMethod path NORMAL_RPC ->
    len req <= GRPC_DEFAULT_MAX_RECV_MESSAGE_LENGTH ->
    core_call ms path req w =
      (let '(status, request) := h_Deserialize (sm_handler m) (arrives req) in
       '(s, w) ← h_RunHandler (sm_handler m) status request w;
       Ok (carried s, w));
  call_unknown : forall ms path req w, path ∉ names_of ms ->
    core_call ms path req w = Ok (mkBatch true None (mkStatus Code.UNIMPLEMENTED []), w);
  carried_all : forall s,
    match so_message s with Some sl => len (concat sl) <= GRPC_DEFAULT_MAX_RECV_MESSAGE_LENGTH | None => True end ->
    carried s = mkBatch true ((fun sl => arrives (concat sl)) <$> so_message s) (so_status s);
}.

(** ** One call *)

Context {Lok : ProtobufLib_ok L} {Pok : GrpcLib_ok P} {C : GrpcCore} {Cok : GrpcCore_ok C}.

(** A message of which ByteSizeLong says its size is sent as its bytes. *)
Lemma sends {M} `{MessageLite M} (m m' : M) n bs :
  ml_ByteSizeLong m = (n, m') -> ml_Serialize m' = bs -> n = len bs -> n <= INT_MAX ->
  exists buf, send_message m = Ok buf /\ concat buf = bs.
Proof.
  intros Hs Hb Hn Hi. pose proof (len_nonneg bs). unfold send_message, GenericSerialize. rewrite Hs, Hb.
  assert (i32 n = n) as -> by (apply wrapS_small; unfold INT_MAX in *; lia).
  assert (u64 n = n) as -> by (apply wrapU_small; unfold INT_MAX in *; lia).
  destruct (Z.leb_spec n GRPC_SLICE_INLINED_SIZE).
  - rewrite Hn, Z.eqb_refl. cbn. exists [bs]. cbn. by rewrite app_nil_r.
  - assert (writer_ok (writer_New kProtoBufferWriterMaxBufferLength n)) as Hw0.
    { split; cbn; unfold INT_MAX, kProtoBufferWriterMaxBufferLength in *; try done; lia. }
    assert (len (written (writer_New kProtoBufferWriterMaxBufferLength n)) + len bs <= n) as Ht.
    { cbn. unfold len at 1. cbn. lia. }
    destruct (writes_append bs _ Hw0 Ht) as (w' & Hw & _ & Hc & _).
    rewrite (coded_writes _ _ _ Hw0 Ht Hw). cbn. exists (slice_buffer_ w'). by split; [|exact Hc].
Qed.

Lemma receives {M} `{MessageLite M} bs (m : M) :
  GenericDeserialize (Some (Some (arrives bs))) m =
    (if (ml_Parse bs m).1 then status_ok else mkStatus Code.INTERNAL InitializationErrorString, (ml_Parse bs m).2).
Proof.
  unfold GenericDeserialize, reader_New. rewrite reader_inits. cbn [r_status negb].
  rewrite remaining_no_backup by done. cbn [r_rest]. rewrite arrives_all. by destruct (ml_Parse bs m) as [[] m'].
Qed.

Section unary.
Context {Req Resp : Type} {Hreq : MessageLite Req} {Hresp : MessageLite Resp}.
Context (ms : list RpcServiceMethod) (i : nat) (path : bytes) (f : rpc_function Req Resp).
Context (Hnames : NoDup (names_of ms)).
Context (Hm : ms !! i = Some (mkServiceMethod (mkRpcMethod path NORMAL_RPC)
  (RpcMethodHandler (fun req resp w => let '(st, resp, w) := f req resp w in (Some st, resp, w))))).

(** A request that the server's parser refuses never reaches the service. *)
Lemma call_refused (request : Req) (response : Resp) w buf rb :
  send_message request = Ok buf -> concat buf = rb -> len rb <= GRPC_DEFAULT_MAX_RECV_MESSAGE_LENGTH ->
  (ml_Parse rb (ml_New (M := Req))).1 = false ->
  BlockingUnaryCall (core_call ms) (mkRpcMethod path NORMAL_RPC) request response w =
    Ok (mkStatus Code.INTERNAL InitializationErrorString, response, w).
Proof.
  intros Hs Hb Hl Hp. unfold BlockingUnaryCall. rewrite Hs. cbn -[core_call]. rewrite Hb.
  rewrite (call_registered _ _ _ _ _ _ Hnames Hm eq_refl Hl). cbn. unfold UnaryDeserializeHelper. rewrite receives, Hp. cbn.
  by rewrite carried_all.
Qed.

(** The service's function is called on the parsed request; without OK nothing but
    the status comes back. *)
Lemma call_failed (request : Req) (response : Resp) w buf rb rq st resp w' :
  send_message request = Ok buf -> concat buf = rb -> len rb <= GRPC_DEFAULT_MAX_RECV_MESSAGE_LENGTH ->
  ml_Parse rb (ml_New (M := Req)) = (true, rq) -> f rq ml_New w = (st, resp, w') -> ok st = false ->
  BlockingUnaryCall (core_call ms) (mkRpcMethod path NORMAL_RPC) request response w = Ok (st, response, w').
Proof.
  intros Hs Hb Hl Hp Hf Hst. unfold BlockingUnaryCall. rewrite Hs. cbn -[core_call]. rewrite Hb.
  rewrite (call_registered _ _ _ _ _ _ Hnames Hm eq_refl Hl). cbn. unfold UnaryDeserializeHelper. rewrite receives, Hp. cbn.
  rewrite Hf. cbn. unfold UnaryRunHandlerHelper. rewrite Hst. cbn. rewrite carried_all by done. cbn. by rewrite Hst.
Qed.

Lemma call_answered (request : Req) (response : Resp) w buf rb rq st resp w' sbuf sb :
  send_message request = Ok buf -> concat buf = rb -> len rb <= GRPC_DEFAULT_MAX_RECV_MESSAGE_LENGTH ->
  ml_Parse rb (ml_New (M := Req)) = (true, rq) -> f rq ml_New w = (st, resp, w') -> ok st = true ->
  send_message resp = Ok sbuf -> concat sbuf = sb -> len sb <= GRPC_DEFAULT_MAX_RECV_MESSAGE_LENGTH ->
  BlockingUnaryCall (core_call ms) (mkRpcMethod path NORMAL_RPC) request response w =
    Ok (if (ml_Parse sb response).1 then status_ok
        else mkStatus Code.UNIMPLEMENTED (text "No message returned for unary request"),
        (ml_Parse sb response).2, w').
Proof.
  intros Hs Hb Hl Hp Hf Hst Hs2 Hb2 Hl2. unfold BlockingUnaryCall. rewrite Hs. cbn -[core_call]. rewrite Hb.
  rewrite (call_registered _ _ _ _ _ _ Hnames Hm eq_refl Hl). cbn. unfold UnaryDeserializeHelper. rewrite receives, Hp. cbn.
  rewrite Hf. cbn. unfold UnaryRunHandlerHelper. rewrite Hst, Hs2. cbn. rewrite carried_all by (cbn; by rewrite Hb2).
  cbn -[GenericDeserialize]. rewrite Hb2, receives. by destruct (ml_Parse sb response) as [[] ?].
Qed.
End unary.

(** ** Messages that are sent and parsed *)

Section parsed.
Context {F : Type} {G : Generated F} {Gok : Generated_ok F}.
Context (Hdistinct : NoDup (s_number <$> slots (_impl_ (g_New (F := F))))).

Lemma present_elem f l : f ∈ present l -> exists s, s ∈ l /\ f = (s_number s, wire_of (s_value s)).
Proof.
  unfold present. intros (s & Hs & Hf)%list_elem_of_omap. exists s. split; [done|].
  unfold field_value in Hf. by destruct (is_default (s_value s)); cbn in Hf; simplify_eq.
Qed.

(** A message sends only the fields of its class, with their types. *)
Lemma present_known (e : Message F) :
  Forall (fun f => f.1 ∈ s_number <$> slots (_impl_ (g_New (F := F)))) (present (slots (_impl_ e))).
Proof.
  apply Forall_forall. intros f (s & Hs & ->)%present_elem. cbn.
  pose proof (slots_same (_impl_ g_New) (_impl_ e)) as Hsame. apply list_elem_of_lookup in Hs as [j Hj].
  destruct (Forall2_lookup_r _ _ _ _ _ Hsame Hj) as (t & Ht & Hn & _). apply list_elem_of_lookup. exists j.
  by rewrite list_lookup_fmap, Ht, <- Hn.
Qed.

Lemma wire_typed t s :
  same_field t s -> fits (s_value s) ->
  match s_value t, wire_of (s_value s) with
  | SText _, WBytes _ => True
  | SText _, WVarint _ | _, WBytes _ => False
  | _, WVarint v => 0 <= v < 2 ^ 64
  end.
Proof.
  intros (_ & _ & Hk) Hf. destruct (s_value s) as [v|v|v|[]|p], (s_value t); try done; cbn; try apply u64_range; lia.
Qed.

Lemma present_typed (e : Message F) :
  Forall (fun s => fits (s_value s)) (slots (_impl_ e)) ->
  well_typed (slots (_impl_ (g_New (F := F)))) (present (slots (_impl_ e))).
Proof.
  intros Hf. apply Forall_forall. intros f (s & Hs & ->)%present_elem. apply Forall_forall. intros t Ht Hn.
  apply list_elem_of_lookup in Ht as [k Hk]. pose proof Hs as [j Hj]%list_elem_of_lookup.
  destruct (Forall2_lookup_r _ _ _ _ _ (slots_same (_impl_ g_New) (_impl_ e)) Hj) as (u & Hu & Hsame).
  assert (k = j) as ->.
  { eapply NoDup_lookup; [exact Hdistinct| |]; rewrite list_lookup_fmap, ?Hk, ?Hu; [done|]. cbn.
    by rewrite Hn, (proj1 Hsame). }
  simplify_eq. apply wire_typed; [done|]. by eapply (proj1 (Forall_forall _ _) Hf).
Qed.

Lemma parsed_as parse r (e m : Message F) :
  parses utf8 parse -> consistent e -> Forall (fun s => fits (s_value s)) (slots (_impl_ e)) ->
  have_unknown_fields (_internal_metadata_ e) = false ->
  let bs := g_InternalSerialize r e in
  len bs <= INT_MAX ->
  (parse bs m).1 = forallb utf8 (strings_of (present (slots (_impl_ e)))) /\
  ((parse bs m).1 = true -> reads_as (present (slots (_impl_ e))) (parse bs m).2).
Proof.
  intros Hp Hc Hf Hu bs Hl. apply Hp; [done|by apply serialized_reads|by apply present_typed|apply present_known].
Qed.

Lemma generated_sends parse (e : Message F) :
  Forall (fun s => fits (s_value s)) (slots (_impl_ e)) -> len (g_InternalSerialize (room 0%nat) e) <= INT_MAX ->
  exists buf, send_message (H := generated_lite parse) e = Ok buf /\ concat buf = g_InternalSerialize (room 0%nat) e.
Proof.
  intros Hf Hl. destruct (g_ByteSizeLong bsr e) as [n e'] eqn:Es.
  apply (sends (H := generated_lite parse) e e' n); [done| | |].
  - cbn. pose proof (sized_serialize bsr (room 0%nat) e) as Hs. by rewrite Es in Hs.
  - pose proof (byte_size_exact bsr (room 0%nat) e Hf) as Hs. by rewrite Es in Hs.
  - pose proof (byte_size_exact bsr (room 0%nat) e Hf) as Hs. rewrite Es in Hs. cbn in Hs. unfold len in Hl. lia.
Qed.
End parsed.

(** The empty request is no bytes. *)
Lemma empty_sends : exists buf, send_message (new_message tt) = Ok buf /\ concat buf = [].
Proof.
  apply (sends (new_message tt) (new_message tt) 0); cbn; [by rewrite empty_size|apply empty_bytes|done|done].
Qed.

(** What a parsed message shows is the row its bytes carry. *)
Lemma carries_view {F R} {G : Generated F} {Gok : Generated_ok F} (view : list (Z * wire_value) -> R) row (e : Message F) :
  carries (fun bs => view <$> read_fields bs) row e -> view (present (slots (_impl_ e))) = row.
Proof.
  intros [Hc Hu [Hf _] Hd]. rewrite serialized_reads in Hd by done. cbn in Hd. by simplify_eq.
Qed.

(** Field by field. *)
Ltac reads H := unfold reads_as in H; cbn [slots] in H;
  repeat (let H1 := fresh in apply Forall_cons in H as [H1 H]; cbn in H1); repeat f_equal; assumption.

Lemma reads_result_b l (m : Message BroadcastResponse) :
  reads_as l m -> (BroadcastResponse_success m, BroadcastResponse_detail m) = (negb (varint_in 1 l =? 0), bytes_in 2 l).
Proof. intros H. unfold BroadcastResponse_success, BroadcastResponse_detail. reads H. Qed.

Lemma reads_result_k l (m : Message KickPlayerResponse) :
  reads_as l m -> (KickPlayerResponse_success m, KickPlayerResponse_detail m) = (negb (varint_in 1 l =? 0), bytes_in 2 l).
Proof. intros H. unfold KickPlayerResponse_success, KickPlayerResponse_detail. reads H. Qed.

(** What a client reads of a row. *)
Definition room_row (m : Message RoomInfo) : Z * list Z * Z * Z :=
  (RoomInfo_id m, RoomInfo_name m, RoomInfo_playercount m, RoomInfo_capacity m).
Definition player_row (m : Message PlayerInfo) : Z * list Z * Z * Z :=
  (PlayerInfo_id m, PlayerInfo_name m, PlayerInfo_lobbyindex m, PlayerInfo_roomindex m).
Definition lobby_row (m : Message LobbyInfo) : Z * Z * Z := (LobbyInfo_id m, LobbyInfo_playercount m, LobbyInfo_capacity m).

Lemma reads_room l (m : Message RoomInfo) :
  reads_as l m -> room_row m = (i64 (varint_in 1 l), bytes_in 2 l, i32 (varint_in 3 l), i32 (varint_in 4 l)).
Proof. intros H. unfold room_row, RoomInfo_id, RoomInfo_name, RoomInfo_playercount, RoomInfo_capacity. reads H. Qed.

Lemma reads_player l (m : Message PlayerInfo) :
  reads_as l m -> player_row m = (varint_in 1 l, bytes_in 2 l, i32 (varint_in 3 l), i32 (varint_in 4 l)).
Proof. intros H. unfold player_row, PlayerInfo_id, PlayerInfo_name, PlayerInfo_lobbyindex, PlayerInfo_roomindex. reads H. Qed.

Lemma reads_lobby l (m : Message LobbyInfo) :
  reads_as l m -> lobby_row m = (i32 (varint_in 1 l), i32 (varint_in 2 l), i32 (varint_in 3 l)).
Proof. intros H. unfold lobby_row, LobbyInfo_id, LobbyInfo_playercount, LobbyInfo_capacity. reads H. Qed.

(** ** The calls of the service *)

Context (c : caller) (Hcaller : c_current c = None).

Definition admin_methods : list RpcServiceMethod := Service_methods (AdminServiceImpl c).
Definition admin_stub : Stub := NewStub (core_call admin_methods).

Lemma names_distinct s : NoDup (names_of (Service_methods s)).
Proof.
  change (names_of (Service_methods s)) with AdminService_method_names.
  apply (bool_decide_unpack _). vm_compute. exact I.
Qed.

(** A request a client can send: its own fields only, in range and in size. *)
Record request_fits {F} {G : Generated F} (req : Message F) : Prop := {
  rf_consistent : consistent req;
  rf_fits : Forall (fun s => fits (s_value s)) (slots (_impl_ req));
  rf_known : have_unknown_fields (_internal_metadata_ req) = false;
  rf_size : len (g_InternalSerialize (room 0%nat) req) <= GRPC_DEFAULT_MAX_RECV_MESSAGE_LENGTH;
}.

Ltac distinct := cbn; apply (bool_decide_unpack _); vm_compute; exact I.

Lemma max_fits n : n <= GRPC_DEFAULT_MAX_RECV_MESSAGE_LENGTH -> n <= INT_MAX.
Proof. unfold GRPC_DEFAULT_MAX_RECV_MESSAGE_LENGTH, INT_MAX. lia. Qed.

(** The request as the server's handler sees it. *)
Lemma broadcast_request (req : Message BroadcastRequest) m :
  request_fits req -> int64 (BroadcastRequest_roomid req) ->
  let bs := g_InternalSerialize (room 0%nat) req in
  (parse_BroadcastRequest bs m).1 = utf8 (BroadcastRequest_message req) /\
  ((parse_BroadcastRequest bs m).1 = true ->
   BroadcastRequest_roomid (parse_BroadcastRequest bs m).2 = BroadcastRequest_roomid req /\
   BroadcastRequest_message (parse_BroadcastRequest bs m).2 = BroadcastRequest_message req).
Proof.
  intros [Hc Hf Hu Hs] Hi bs.
  destruct (parsed_as (F := BroadcastRequest) ltac:(distinct) parse_BroadcastRequest (room 0%nat) req m
    broadcast_request_parses Hc Hf Hu (max_fits _ Hs))
    as [H1 H2].
  split.
  - etransitivity; [exact H1|]. cbn. unfold present, field_value, BroadcastRequest_message. cbn.
    destruct (brq_roomid (_impl_ req) =? 0), (string_Get (brq_message (_impl_ req))) eqn:Es; cbn;
      rewrite ?andb_true_r; try done; symmetry; by apply utf8_ascii.
  - intros Hp. specialize (H2 Hp). unfold reads_as in H2. cbn [slots] in H2.
    apply Forall_cons in H2 as [Hr H2]. apply Forall_cons in H2 as [Ht _]. cbn [s_value s_number] in Hr, Ht. split.
    + etransitivity; [exact Hr|]. erewrite (varint_value 1); [|distinct|reflexivity|by eexists]. by apply i64_u64.
    + etransitivity; [exact Ht|]. by erewrite (bytes_value 2); [|distinct|reflexivity].
Qed.

Lemma kick_request (req : Message KickPlayerRequest) m :
  request_fits req ->
  let bs := g_InternalSerialize (room 0%nat) req in
  (parse_KickPlayerRequest bs m).1 = true /\ KickPlayerRequest_id (parse_KickPlayerRequest bs m).2 = KickPlayerRequest_id req.
Proof.
  intros [Hc Hf Hu Hs] bs.
  destruct (parsed_as (F := KickPlayerRequest) ltac:(distinct) parse_KickPlayerRequest (room 0%nat) req m
    kick_request_parses Hc Hf Hu (max_fits _ Hs))
    as [H1 H2].
  assert ((parse_KickPlayerRequest bs m).1 = true) as Hp.
  { etransitivity; [exact H1|]. cbn. unfold present, field_value. cbn. by destruct (kpq_id (_impl_ req) =? 0). }
  split; [done|]. specialize (H2 Hp). apply Forall_cons in H2 as [Hr _]. cbn [s_value s_number] in Hr.
  etransitivity; [exact Hr|]. by erewrite (varint_value 1); [|distinct|reflexivity|by eexists].
Qed.

(** A response whose bytes carry a row, and whose strings are readable, arrives as
    that row. *)
Section answer.
Context {Req F R : Type} {Hreq : MessageLite Req} {G : Generated F} {Gok : Generated_ok F}.
Context (parse : bytes -> Message F -> bool * Message F) (Hparse : parses utf8 parse).
Context (view : list (Z * wire_value) -> R) (get : Message F -> R) (Hget : forall l m, reads_as l m -> get m = view l).
Context (Hdistinct : NoDup (s_number <$> slots (_impl_ (g_New (F := F))))).

Lemma row_arrives ms i path (f : rpc_function Req (Message F)) (request : Req) (response : Message F) w buf rb rq row e w' n :
  NoDup (names_of ms) ->
  ms !! i = Some (mkServiceMethod (mkRpcMethod path NORMAL_RPC)
    (RpcMethodHandler (H0 := generated_lite parse) (fun req resp w => let '(st, resp, w) := f req resp w in (Some st, resp, w)))) ->
  send_message request = Ok buf -> concat buf = rb -> len rb <= GRPC_DEFAULT_MAX_RECV_MESSAGE_LENGTH ->
  ml_Parse rb (ml_New (M := Req)) = (true, rq) -> f rq g_New w = (status_ok, e, w') ->
  carries (fun bs => view <$> read_fields bs) row e ->
  (length (slots (_impl_ e)) <= 4)%nat -> sum ((fun s => text_length (s_value s)) <$> slots (_impl_ e)) <= n -> n < 2 ^ 20 ->
  forallb utf8 (strings_of (present (slots (_impl_ e)))) = true ->
  exists m, BlockingUnaryCall (H0 := generated_lite parse) (core_call ms) (mkRpcMethod path NORMAL_RPC) request response w =
      Ok (status_ok, m, w') /\ get m = row.
Proof.
  intros Hn Hm Hs Hb Hl Hp Hf Hca H4 Hsum Hlt H8. pose proof Hca as [Hc Hu [Hfits _] _].
  assert (len (g_InternalSerialize (room 0%nat) e) <= GRPC_DEFAULT_MAX_RECV_MESSAGE_LENGTH) as Hmax.
  { unfold GRPC_DEFAULT_MAX_RECV_MESSAGE_LENGTH, len. rewrite serialize_slots. unfold unknown_bytes. rewrite Hu, app_nil_r.
    pose proof (slots_length (room 0%nat) (_has_bits_ e) _ (slots_numbered _) Hfits Hc). lia. }
  destruct (generated_sends parse e Hfits (max_fits _ Hmax)) as (sbuf & Hs2 & Hb2).
  rewrite (call_answered (Hresp := generated_lite parse) ms i path f Hn Hm request response w _ _ _ status_ok e w' sbuf _
    Hs Hb Hl Hp Hf eq_refl Hs2 Hb2 Hmax).
  destruct (parsed_as Hdistinct parse (room 0%nat) e response Hparse Hc Hfits Hu (max_fits _ Hmax)) as [H1 H2].
  rewrite H8 in H1. cbn [ml_Parse generated_lite]. rewrite H1. eexists. split; [done|].
  rewrite (Hget _ _ (H2 H1)). by apply carries_view.
Qed.
End answer.

(** The texts the service answers with. *)
Lemma result_strings b detail n1 m1 n2 m2 p :
  string_Get p = detail -> utf8 detail = true ->
  forallb utf8 (strings_of (present [Slot n1 m1 (SBool b); Slot n2 m2 (SText p)])) = true.
Proof.
  intros <- Hu. unfold present, field_value. cbn. by destruct b, (string_Get p); cbn; rewrite ?Hu.
Qed.

Lemma health_carries (e : Message HealthCheckResponse) :
  consistent e -> have_unknown_fields (_internal_metadata_ e) = false ->
  carries (fun bs => bytes_in 1 <$> read_fields bs) (text "OK") (fill_health e).
Proof.
  intros Hc Hu. eapply (slots_carry _ _ _ _ 2); [|done|reflexivity|..|done|].
  - by apply HealthCheckResponse_setters.
  - repeat constructor. cbn. by rewrite string_set.
  - cbn. lia.
  - cbn. by rewrite string_set.
  - erewrite (bytes_value 1); [|distinct|reflexivity]. apply string_set.
Qed.

(** A request without fields reaches the function. *)
Lemma empty_request : exists rq, ml_Parse (M := Message unit) [] ml_New = (true, rq).
Proof.
  pose proof (empty_parses (new_message tt)) as Hp. cbn. destruct (parse_empty [] (new_message tt)) as [b rq].
  cbn in Hp. subst. by exists rq.
Qed.

Lemma HealthCheck_arrives resp w :
  exists m, Stub_HealthCheck admin_stub (new_message tt) resp w = Ok (status_ok, m, w) /\
    HealthCheckResponse_status m = text "OK".
Proof.
  destruct empty_sends as (buf & Hs & Hb). destruct empty_request as [rq Hp].
  apply (row_arrives parse_HealthCheckResponse health_parses (fun l => bytes_in 1 l) HealthCheckResponse_status)
    with (ms := admin_methods) (i := 0%nat) (f := impl_HealthCheck) (buf := buf) (rb := []) (rq := rq)
      (e := fill_health HealthCheckResponse_New) (n := 2); try done.
  - intros l m H. unfold HealthCheckResponse_status. reads H.
  - distinct.
  - apply names_distinct.
  - apply health_carries; [exact (proj1 (new_consistent (F := HealthCheckResponse)))|apply metadata_new].
  - cbn. lia.
  - cbn. by rewrite string_set.
  - unfold present, field_value. cbn. rewrite string_set. cbn. rewrite utf8_ascii; [done|]. by repeat constructor.
Qed.

Lemma Broadcast_arrives (req : Message BroadcastRequest) resp w :
  request_fits req -> int64 (BroadcastRequest_roomid req) ->
  let r := Broadcast_call (BroadcastRequest_roomid req) (BroadcastRequest_message req) c w in
  if utf8 (BroadcastRequest_message req)
  then exists m, Stub_Broadcast admin_stub req resp w = Ok (status_ok, m, r.2) /\
         (BroadcastResponse_success m, BroadcastResponse_detail m) = r.1.2
  else Stub_Broadcast admin_stub req resp w =
         Ok (mkStatus Code.INTERNAL InitializationErrorString, resp, w).
Proof.
  intros Hreq Hi r. destruct (broadcast_request req BroadcastRequest_New Hreq Hi) as [H1 H2].
  pose proof Hreq as [_ Hf _ Hmax].
  destruct (generated_sends parse_BroadcastRequest req Hf (max_fits _ Hmax)) as (buf & Hs & Hb).
  destruct (utf8 (BroadcastRequest_message req)).
  - specialize (H2 H1). destruct (parse_BroadcastRequest _ _) as [b rq] eqn:Ep. cbn in H1, H2. subst b. destruct H2 as [Hid Hmsg].
    assert (exists d, r.1 = (StatusOK, d) /\ (length d.2 <= 20)%nat /\ utf8 d.2 = true) as (d & Hd & Hlen & Hu).
    { subst r. unfold Broadcast_call, command. rewrite dispatch_outside by done. unfold dispatched, broadcast_fn.
      destruct (length (BroadcastRequest_message req) =? 0)%nat;
        [|destruct (AdminBroadcast (BroadcastRequest_roomid req) (BroadcastRequest_message req) w) as [[] acts]];
        (eexists; split; [done|]; cbn; split; [lia|apply utf8_ascii; by repeat constructor]). }
    apply (row_arrives parse_BroadcastResponse broadcast_response_parses
        (fun l => (negb (varint_in 1 l =? 0), bytes_in 2 l)) (fun m => (BroadcastResponse_success m, BroadcastResponse_detail m)))
      with (ms := admin_methods) (i := 2%nat) (f := impl_Broadcast c) (buf := buf)
        (rb := g_InternalSerialize (room 0%nat) req) (rq := rq)
        (e := fill_broadcast d BroadcastResponse_New) (n := 20); try done.
    + apply reads_result_b.
    + distinct.
    + apply names_distinct.
    + unfold impl_Broadcast. rewrite Hid, Hmsg. subst r.
      destruct (Broadcast_call _ _ c w) as [[st d'] w']. cbn in Hd. by simplify_eq.
    + rewrite Hd. apply (broadcast_carries d); [lia
      |exact (proj1 (new_consistent (F := BroadcastResponse)))|apply metadata_new].
    + cbn. lia.
    + cbn. rewrite string_set. lia.
    + apply (result_strings d.1 d.2 1 0x2 2 0x1); [apply string_set|done].
  - apply (call_refused admin_methods 2%nat (method_name 2) (impl_Broadcast c) (names_distinct _) eq_refl req resp w buf _ Hs Hb Hmax).
    exact H1.
Qed.

Lemma KickPlayer_arrives (req : Message KickPlayerRequest) resp w :
  request_fits req ->
  let '(st, r, w') := KickPlayer (KickPlayerRequest_id req) c w in
  match st with
  | StatusOK => exists m, Stub_KickPlayer admin_stub req resp w = Ok (status_ok, m, w') /\
      (KickPlayerResponse_success m, KickPlayerResponse_detail m) = r
  | _ => Stub_KickPlayer admin_stub req resp w = Ok (status_of st, resp, w')
  end.
Proof.
  intros Hreq. destruct (kick_request req KickPlayerRequest_New Hreq) as [H1 H2]. pose proof Hreq as [_ Hf _ Hmax].
  destruct (generated_sends parse_KickPlayerRequest req Hf (max_fits _ Hmax)) as (buf & Hs & Hb).
  destruct (parse_KickPlayerRequest _ _) as [b rq] eqn:Ep. cbn in H1, H2. subst b.
  destruct (KickPlayer (KickPlayerRequest_id req) c w) as [[st r] w'] eqn:Ek.
  assert (impl_KickPlayer c rq KickPlayerResponse_New w = (status_of st, fill_kick r KickPlayerResponse_New, w')) as Hf'.
  { unfold impl_KickPlayer. by rewrite H2, Ek. }
  assert (match st with StatusOK => r = (true, text "OK") | _ => True end) as Hr.
  { unfold KickPlayer, command in Ek. rewrite dispatch_outside in Ek by done. unfold dispatched, kick_fn in Ek.
    by destruct (AdminKickPlayer (KickPlayerRequest_id req) w) as [[] acts]; cbn in Ek; simplify_eq. }
  destruct st; [|by eapply (call_failed admin_methods 4%nat (method_name 4) (impl_KickPlayer c) (names_distinct _) eq_refl)..].
  apply (row_arrives parse_KickPlayerResponse kick_response_parses
      (fun l => (negb (varint_in 1 l =? 0), bytes_in 2 l)) (fun m => (KickPlayerResponse_success m, KickPlayerResponse_detail m)))
    with (ms := admin_methods) (i := 4%nat) (f := impl_KickPlayer c) (buf := buf)
      (rb := g_InternalSerialize (room 0%nat) req) (rq := rq) (e := fill_kick r KickPlayerResponse_New) (n := 2); subst r; try done.
  - apply reads_result_k.
  - distinct.
  - apply names_distinct.
  - apply (kick_carries (true, text "OK")); [done|exact (proj1 (new_consistent (F := KickPlayerResponse)))|apply metadata_new].
  - cbn. lia.
  - cbn. by rewrite string_set.
  - apply (result_strings true (text "OK") 1 0x2 2 0x1); [apply string_set|]. apply utf8_ascii. by repeat constructor.
Qed.

(** ** The lists *)

Section rows_arrive.
Context {F R : Type} {G : Generated F} {Gok : Generated_ok F}.
Context (parse : bytes -> Message (RepeatedPtrField F) -> bool * Message (RepeatedPtrField F)).
Context (Hparse : parses_list utf8 parse).
Context (set : R -> Message F -> Message F) (row_fits : R -> Prop).
Context (view : list (Z * wire_value) -> R) (get : Message F -> R) (Hget : forall l m, reads_as l m -> get m = view l).
Context (Hdistinct : NoDup (s_number <$> slots (_impl_ (g_New (F := F))))).
Context (set_carries : forall row e, row_fits row -> consistent e ->
  have_unknown_fields (_internal_metadata_ e) = false -> carries (fun bs => view <$> read_fields bs) row (set row e)).
Context (readable : R -> bool).
Context (Hreadable : forall e : Message F,
  forallb utf8 (strings_of (present (slots (_impl_ e)))) = readable (view (present (slots (_impl_ e))))).

Lemma rows_parsed rows es :
  Forall2 (carries (fun bs => view <$> read_fields bs)) rows es ->
  let ls := (fun e => present (slots (_impl_ e))) <$> es in
  Forall2 (fun b l => read_fields b = Some l) (g_InternalSerialize (fun _ => true) <$> es) ls /\
  Forall (fun l => well_typed (slots (_impl_ (g_New (F := F)))) l /\
    Forall (fun f => f.1 ∈ s_number <$> slots (_impl_ (g_New (F := F)))) l) ls /\
  view <$> ls = rows /\ forallb utf8 (concat (strings_of <$> ls)) = forallb readable rows.
Proof.
  induction 1 as [|row e rows es Hca _ IH]; [done|]. cbn. destruct IH as (H1 & H2 & H3 & H4).
  pose proof (carries_view view row e Hca) as Hv. pose proof Hca as [Hc Hu [Hf _] _]. split_and!.
  - constructor; [|done]. by apply serialized_reads.
  - constructor; [|done]. split; [by apply present_typed|apply present_known].
  - by rewrite Hv, H3.
  - rewrite forallb_app. f_equal; [|done]. by rewrite Hreadable, Hv.
Qed.

Lemma rows_arrive ms i path (f : rpc_function (Message unit) (Message (RepeatedPtrField F))) response w rows w' :
  NoDup (names_of ms) ->
  ms !! i = Some (mkServiceMethod (mkRpcMethod path NORMAL_RPC)
    (RpcMethodHandler (H0 := list_lite parse) (fun req resp w => let '(st, resp, w) := f req resp w in (Some st, resp, w)))) ->
  (forall rq, f rq list_New w = (status_ok, fill set rows list_New, w')) ->
  Forall row_fits rows -> len (sent bsr room (fill set rows list_New)) <= GRPC_DEFAULT_MAX_RECV_MESSAGE_LENGTH ->
  exists m, BlockingUnaryCall (H0 := list_lite parse) (core_call ms) (mkRpcMethod path NORMAL_RPC) (new_message tt) response w =
      Ok (if forallb readable rows then status_ok
          else mkStatus Code.UNIMPLEMENTED (text "No message returned for unary request"), m, w') /\
    (forallb readable rows = true -> get <$> rep_elements (_impl_ m) = rows).
Proof.
  intros Hn Hm Hf Hrows Hmax. destruct empty_sends as (buf & Hs & Hb). destruct empty_request as [rq Hp].
  destruct (fill_carries set _ row_fits set_carries rows list_New Hrows list_New_consistent) as (Hc & Hmeta & es & Hes & Hca).
  cbn in Hes. assert (have_unknown_fields (_internal_metadata_ (fill set rows list_New)) = false) as Hu.
  { rewrite Hmeta. apply metadata_new. }
  destruct (rows_parsed rows es Hca) as (H1 & H2 & H3 & H4).
  pose proof (list_bytes bsr room (fill set rows list_New) Hc) as Hbytes. rewrite Hes in Hbytes.
  specialize (Hbytes ltac:(eapply Forall2_Forall_r; [exact Hca|]; apply Forall_true; by intros ? ? []) Hu).
  unfold sent in Hmax. destruct (list_ByteSizeLong bsr (fill set rows list_New)) as [n m'] eqn:Esize.
  destruct Hbytes as [Hsize Hread]. cbn [snd] in Hmax.
  destruct (sends (H := list_lite parse) (fill set rows list_New) m' n _ Esize eq_refl Hsize) as (sbuf & Hs2 & Hb2).
  { apply max_fits. cbn. unfold len in Hmax. lia. }
  rewrite (call_answered (Hresp := list_lite parse) ms i path f Hn Hm (new_message tt) response w _ _ _ _ _ w' sbuf _
    Hs Hb ltac:(done) Hp (Hf rq) eq_refl Hs2 Hb2 Hmax). cbn [ml_Parse list_lite].
  destruct (Hparse (list_InternalSerialize room m') response ((fun e => present (slots (_impl_ e))) <$> es)) as [Hp1 Hp2];
    [by apply max_fits| |done|].
  { exists (g_InternalSerialize (fun _ => true) <$> es). split; [|done]. by rewrite Hread, <- list_fmap_compose. }
  cbn [ml_Serialize list_lite]. rewrite Hp1, H4. eexists. split; [done|]. intros Hok.
  rewrite Hp1, H4 in Hp2. specialize (Hp2 Hok). rewrite <- H3. clear -Hp2 Hget.
  induction Hp2 as [|l m ls ms Hr _ IH]; [done|]. cbn. by rewrite (Hget l m Hr), IH.
Qed.
End rows_arrive.

(** A row's only string is its name. *)
Lemma utf8_nil : utf8 [] = true.
Proof. by apply utf8_ascii. Qed.

Lemma strings_readable (l : list slot) :
  forallb utf8 (strings_of (present l)) =
    forallb (fun s => match s_value s with SText p => utf8 (string_Get p) | _ => true end) l.
Proof.
  induction l as [|s l IH]; [done|]. rewrite present_cons. cbn [forallb].
  destruct (s_value s) as [v|v|v|v|p] eqn:Es; cbn [is_default].
  1-3: by destruct (v =? 0).
  - by destruct v.
  - destruct (string_Get p) eqn:Ep; cbn; [by rewrite utf8_nil|]. rewrite Ep. by f_equal.
Qed.

Lemma room_readable (e : Message RoomInfo) :
  forallb utf8 (strings_of (present (slots (_impl_ e)))) = utf8 (bytes_in 2 (present (slots (_impl_ e)))).
Proof.
  rewrite strings_readable. erewrite (bytes_value 2); [|distinct|reflexivity]. cbn. by rewrite andb_true_r.
Qed.

Lemma player_readable (e : Message PlayerInfo) :
  forallb utf8 (strings_of (present (slots (_impl_ e)))) = utf8 (bytes_in 2 (present (slots (_impl_ e)))).
Proof.
  rewrite strings_readable. erewrite (bytes_value 2); [|distinct|reflexivity]. cbn. by rewrite andb_true_r.
Qed.

Lemma lobby_readable (e : Message LobbyInfo) : forallb utf8 (strings_of (present (slots (_impl_ e)))) = true.
Proof. by rewrite strings_readable. Qed.

Lemma digits_ascii fuel n : Forall (fun b => 0 <= b < 128) (dec_digits fuel n).
Proof.
  revert n. induction fuel as [|fuel IH]; intros n; [constructor|]. cbn [dec_digits].
  apply Forall_app. split; [by destruct (n <? 10)|]. constructor; [|constructor].
  pose proof (Z.mod_pos_bound n 10). lia.
Qed.

Lemma room_names_readable w : forallb (fun row => utf8 row.1.1.2) (list_rooms_fn w).1.2 = true.
Proof.
  apply Is_true_true_1, forallb_True, Forall_fmap, Forall_true. intros [[id n] k]. apply Is_true_true_2. cbn. apply utf8_ascii.
  do 5 (constructor; [done|]). unfold to_string. destruct (id <? 0); [constructor; [done|]|]; apply digits_ascii.
Qed.

(** What the calls answer with, for the limit on the size of a message. *)
Definition room_answer (w : world) : Message (RepeatedPtrField RoomInfo) :=
  fill_rooms (list_rooms_fn w).1.2 ListRoomsResponse_New.
Definition player_answer (w : world) : Message (RepeatedPtrField PlayerInfo) :=
  fill_players (AdminListPlayers w) ListPlayersResponse_New.
Definition lobby_answer (w : world) : Message (RepeatedPtrField LobbyInfo) :=
  fill_lobbies (AdminListLobbies w) ListLobbiesResponse_New.

Lemma ListRooms_arrives resp w :
  Forall room_fits (list_rooms_fn w).1.2 -> len (sent bsr room (room_answer w)) <= GRPC_DEFAULT_MAX_RECV_MESSAGE_LENGTH ->
  exists m, Stub_ListRooms admin_stub (new_message tt) resp w = Ok (status_ok, m, w) /\
    room_row <$> rep_elements (_impl_ m) = (list_rooms_fn w).1.2.
Proof.
  intros Hf Hmax.
  destruct (rows_arrive parse_ListRoomsResponse rooms_parse set_room_info room_fits _ room_row reads_room ltac:(distinct)
    room_carries (fun row => utf8 row.1.1.2) room_readable admin_methods 1%nat (method_name 1) (impl_ListRooms c) resp w
    (list_rooms_fn w).1.2 w (names_distinct _) eq_refl) as (m & H1 & H2); [|done|done|].
  - intros rq. unfold impl_ListRooms, ListRooms. by rewrite (list_call_outside list_rooms_fn c w _ Hcaller eq_refl).
  - rewrite room_names_readable in H1, H2. eauto.
Qed.

Lemma ListPlayers_arrives resp w :
  Forall player_fits (AdminListPlayers w) -> len (sent bsr room (player_answer w)) <= GRPC_DEFAULT_MAX_RECV_MESSAGE_LENGTH ->
  exists m, Stub_ListPlayers admin_stub (new_message tt) resp w =
      Ok (if forallb (fun row => utf8 row.1.1.2) (AdminListPlayers w) then status_ok
          else mkStatus Code.UNIMPLEMENTED (text "No message returned for unary request"), m, w) /\
    (forallb (fun row => utf8 row.1.1.2) (AdminListPlayers w) = true ->
     player_row <$> rep_elements (_impl_ m) = AdminListPlayers w).
Proof.
  intros Hf Hmax.
  apply (rows_arrive parse_ListPlayersResponse players_parse set_player_info player_fits _ player_row reads_player ltac:(distinct)
    player_carries (fun row => utf8 row.1.1.2) player_readable admin_methods 3%nat (method_name 3) (impl_ListPlayers c) resp w
    (AdminListPlayers w) w (names_distinct _) eq_refl); [|done|done].
  intros rq. unfold impl_ListPlayers, ListPlayers. by rewrite (list_call_outside list_players_fn c w _ Hcaller eq_refl).
Qed.

Lemma ListLobbies_arrives resp w :
  Forall lobby_fits (AdminListLobbies w) -> len (sent bsr room (lobby_answer w)) <= GRPC_DEFAULT_MAX_RECV_MESSAGE_LENGTH ->
  exists m, Stub_ListLobbies admin_stub (new_message tt) resp w = Ok (status_ok, m, w) /\
    lobby_row <$> rep_elements (_impl_ m) = AdminListLobbies w.
Proof.
  intros Hf Hmax.
  destruct (rows_arrive parse_ListLobbiesResponse lobbies_parse set_lobby_info lobby_fits _ lobby_row reads_lobby ltac:(distinct)
    lobby_carries (fun _ => true) lobby_readable admin_methods 5%nat (method_name 5) (impl_ListLobbies c) resp w
    (AdminListLobbies w) w (names_distinct _) eq_refl) as (m & H1 & H2); [|done|done|].
  - intros rq. unfold impl_ListLobbies, ListLobbies. by rewrite (list_call_outside list_lobbies_fn c w _ Hcaller eq_refl).
  - assert (forallb (fun _ : Z * Z * Z => true) (AdminListLobbies w) = true) as E
      by (by apply Is_true_true_1, forallb_True, Forall_true).
    rewrite E in H1, H2. eauto.
Qed.

(** A server that overrides nothing. *)
Lemma base_answers r1 r2 r3 r4 w :
  let stub := NewStub (core_call (Service_methods Service_base)) in
  let st := mkStatus Code.UNIMPLEMENTED [] in
  Stub_HealthCheck stub (new_message tt) r1 w = Ok (st, r1, w) /\
  Stub_ListRooms stub (new_message tt) r2 w = Ok (st, r2, w) /\
  Stub_ListPlayers stub (new_message tt) r3 w = Ok (st, r3, w) /\
  Stub_ListLobbies stub (new_message tt) r4 w = Ok (st, r4, w).
Proof.
  destruct empty_sends as (buf & Hs & Hb). destruct empty_request as [rq Hp].
  split_and!;
    [eapply (call_failed _ 0%nat (method_name 0) unimplemented (names_distinct Service_base) eq_refl)
    |eapply (call_failed _ 1%nat (method_name 1) unimplemented (names_distinct Service_base) eq_refl)
    |eapply (call_failed _ 3%nat (method_name 3) unimplemented (names_distinct Service_base) eq_refl)
    |eapply (call_failed _ 5%nat (method_name 5) unimplemented (names_distinct Service_base) eq_refl)];
    try exact Hs; try exact Hb; try exact Hp; done.
Qed.

End calls.
Arguments request_fits {L} room {F G} req.

(** C21: a command called through the generated stub is the command in the game.
    A health check answers OK; a kick returns NOT_FOUND with the service's text and
    leaves the caller's response as it was, or starts the disconnect and returns its
    result; a broadcast is carried out as the client asked, unless its text is not
    UTF-8, when the server refuses the request and the game is untouched.  And a
    server that overrides nothing answers UNIMPLEMENTED. *)
Theorem commands_reach_game (L : ProtobufLib) (P : GrpcLib L) (C : GrpcCore) (bsr : bool) (room : nat -> Z -> bool)
    (c : caller) (w : world) (kick : Message KickPlayerRequest) (kicked : Message KickPlayerResponse)
    (say : Message BroadcastRequest) (said : Message BroadcastResponse) (health : Message HealthCheckResponse) :
  ProtobufLib_ok L -> GrpcLib_ok P -> GrpcCore_ok C -> c_current c = None ->
  request_fits room kick -> request_fits room say -> int64 (BroadcastRequest_roomid say) ->
  let stub := admin_stub bsr room c in
  (exists m, Stub_HealthCheck bsr room stub (new_message tt) health w = Ok (status_ok, m, w) /\
     HealthCheckResponse_status m = text "OK") /\
  match PlayerSystem_Find (KickPlayerRequest_id kick) w with
  | None => Stub_KickPlayer bsr room stub kick kicked w =
      Ok (mkStatus Code.NOT_FOUND (text "Player not found"), kicked, w)
  | Some p => exists m, Stub_KickPlayer bsr room stub kick kicked w =
      Ok (status_ok, m, start (match GetOwnerSession p w with Some s => [ADisconnect s] | None => [] end) w) /\
      (KickPlayerResponse_success m, KickPlayerResponse_detail m) = (true, text "OK")
  end /\
  (let r := Broadcast_call (BroadcastRequest_roomid say) (BroadcastRequest_message say) c w in
   if utf8 (BroadcastRequest_message say)
   then exists m, Stub_Broadcast bsr room stub say said w = Ok (status_ok, m, r.2) /\
          (BroadcastResponse_success m, BroadcastResponse_detail m) = r.1.2
   else Stub_Broadcast bsr room stub say said w =
          Ok (mkStatus Code.INTERNAL InitializationErrorString, said, w)) /\
  Stub_HealthCheck bsr room (NewStub (core_call (Service_methods bsr room Service_base))) (new_message tt) health w =
    Ok (mkStatus Code.UNIMPLEMENTED [], health, w).
Proof.
  intros Lok Pok Cok Hc Hkick Hsay Hi stub. split_and!.
  - by apply HealthCheck_arrives.
  - pose proof (KickPlayer_arrives bsr room c Hc kick kicked w Hkick) as H.
    unfold KickPlayer, command in H. rewrite dispatch_outside in H by done. unfold dispatched, kick_fn, AdminKickPlayer in H.
    destruct (PlayerSystem_Find (KickPlayerRequest_id kick) w); exact H.
  - by apply Broadcast_arrives.
  - by apply (base_answers bsr room health list_New list_New list_New w).
Qed.

(** C22: the lists of the administration service as a client of the generated stub
    sees them: every room and every lobby of the game with its numbers; and every
    player, provided every registered name is UTF-8.  One name that is not makes the
    whole list unreadable: the call ends with UNIMPLEMENTED although the server
    answered OK. *)
Theorem lists_reach_client (L : ProtobufLib) (P : GrpcLib L) (C : GrpcCore) (bsr : bool) (room : nat -> Z -> bool)
    (c : caller) (w : world) (rooms : Message (RepeatedPtrField RoomInfo)) (players : Message (RepeatedPtrField PlayerInfo))
    (lobbies : Message (RepeatedPtrField LobbyInfo)) :
  ProtobufLib_ok L -> GrpcLib_ok P -> GrpcCore_ok C -> c_current c = None -> game_reach w ->
  Z.of_nat (length (w_rooms w)) < 2 ^ 31 -> Z.of_nat (length (w_lobbies w)) < 2 ^ 31 ->
  Forall player_fits (AdminListPlayers w) ->
  len (sent bsr room (room_answer w)) <= GRPC_DEFAULT_MAX_RECV_MESSAGE_LENGTH ->
  len (sent bsr room (player_answer w)) <= GRPC_DEFAULT_MAX_RECV_MESSAGE_LENGTH ->
  len (sent bsr room (lobby_answer w)) <= GRPC_DEFAULT_MAX_RECV_MESSAGE_LENGTH ->
  let stub := admin_stub bsr room c in
  let names_readable := forallb (fun row => utf8 row.1.1.2) (AdminListPlayers w) in
  (exists m, Stub_ListRooms bsr room stub (new_message tt) rooms w = Ok (status_ok, m, w) /\
     room_row <$> rep_elements (_impl_ m) = (list_rooms_fn w).1.2) /\
  (exists m, Stub_ListLobbies bsr room stub (new_message tt) lobbies w = Ok (status_ok, m, w) /\
     lobby_row <$> rep_elements (_impl_ m) = AdminListLobbies w) /\
  (exists m, Stub_ListPlayers bsr room stub (new_message tt) players w =
     Ok (if names_readable then status_ok
         else mkStatus Code.UNIMPLEMENTED (text "No message returned for unary request"), m, w) /\
     (names_readable = true -> player_row <$> rep_elements (_impl_ m) = AdminListPlayers w)).
Proof.
  intros Lok Pok Cok Hc Hr Hrooms Hlobbies Hp H1 H2 H3 stub names_readable. split_and!.
  - apply ListRooms_arrives; try done. by apply room_rows_fit.
  - apply ListLobbies_arrives; try done. by apply lobby_rows_fit.
  - by apply ListPlayers_arrives.
Qed.

(** ** A library and a core, for the witnesses *)

Module local.
#[local] Existing Instance toy.lib.
#[local] Existing Instance toy.lib_ok.
#[local] Existing Instance plain.lib.
#[local] Existing Instance plain.slices_ok.

(** Only ASCII is read. *)
Definition ascii (s : bytes) : bool := forallb (fun b => (0 <=? b) && (b <? 128)) s.

Section parse.
Context {F : Type} {G : Generated F} (build : list (Z * wire_value) -> Message F).

Definition parse (bs : bytes) (m : Message F) : bool * Message F :=
  match read_fields bs with
  | Some l => if forallb ascii (strings_of l) then (true, build l) else (false, m)
  | None => (false, m)
  end.

Definition parse_list (bs : bytes) (m : Message (RepeatedPtrField F)) : bool * Message (RepeatedPtrField F) :=
  match l ← read_fields bs; mapM read_fields (strings_of l) with
  | Some rows =>
      if forallb ascii (concat (strings_of <$> rows)) then (true, new_message (mkRepeated (build <$> rows) [])) else (false, m)
  | None => (false, m)
  end.

Context (Hbuild : forall l, reads_as l (build l)).

Lemma parse_ok : parses ascii parse.
Proof.
  intros bs m l _ Hl _ _. unfold parse. rewrite Hl. by destruct (forallb ascii (strings_of l)).
Qed.

Lemma parse_list_ok : parses_list ascii parse_list.
Proof.
  intros bs m rows _ (bodies & Hb & Hrows) _. unfold parse_list. rewrite Hb. cbn.
  assert (strings_of ((fun b => (1, WBytes b)) <$> bodies) = bodies) as ->.
  { clear. induction bodies as [|b bodies IH]; [done|]. unfold strings_of in *. cbn. by rewrite IH. }
  assert (mapM read_fields bodies = Some rows) as -> by (by apply mapM_Some_2).
  destruct (forallb ascii (concat (strings_of <$> rows))); cbn; [|done]. split; [done|]. intros _.
  clear -Hbuild. induction rows; by constructor.
Qed.
End parse.

Fixpoint write (fuel : nat) (bs : bytes) (w : ProtoBufferWriter) : outcome (bool * ProtoBufferWriter) :=
  match bs, fuel with
  | [], _ => Ok (false, w)
  | _, O => Ok (true, w)
  | _, S fuel =>
      '(n, w1) ← writer_Next w;
      if len bs <=? n then w2 ← writer_BackUp (n - len bs) (fill_chunk bs w1); Ok (false, w2)
      else write fuel (drop (Z.to_nat n) bs) (fill_chunk (take (Z.to_nat n) bs) w1)
  end.

Lemma write_ok fuel bs w w' :
  writer_ok w -> len (written w) + len bs <= total_size_ w -> writes w bs w' -> (length bs <= fuel)%nat ->
  write fuel bs w = Ok (false, w').
Proof.
  intros Hw Ht Hs. revert fuel Hw Ht. induction Hs as [w|w bs n w1 w2 Hb Hn Hl Hk|w bs n w1 w2 Hn Hl Hs IH]; intros fuel Hw Ht Hf.
  - by destruct fuel.
  - destruct bs as [|b bs]; [done|]. destruct fuel as [|fuel]; [cbn in Hf; lia|]. cbn -[len]. rewrite Hn. cbn -[len].
    rewrite (proj2 (Z.leb_le _ _)) by done. by rewrite Hk.
  - assert (0 < len bs) as Hpos by (pose proof (Next_size _ _ _ Hn); lia).
    assert (byte_count_ w < total_size_ w) as Hlt by (destruct Hw; lia).
    destruct (Next_gives w Hw Hlt) as (s & w1' & Hn' & Hs1 & Hsb & _ & Hk & _ & Ht1 & _).
    pose proof (Next_ok _ _ _ Hw Hlt Hn) as Hw1. rewrite Hn in Hn'. simplify_eq.
    assert (len (take (Z.to_nat (len s)) bs) = len s) as Hlen by (rewrite len_take; lia).
    destruct (fill_ok w1' _ s _ Hw1 Hsb Hk Hlen) as [Hf1 Hf2].
    destruct bs as [|b bs]; [unfold len in Hpos; cbn in Hpos; lia|]. destruct fuel as [|fuel]; [cbn in Hf; lia|].
    cbn -[len take drop]. rewrite Hn. cbn -[len take drop]. rewrite (proj2 (Z.leb_gt _ _)) by done.
    apply IH; [done| |].
    + rewrite Hf2, len_app, Hlen, len_drop by lia. cbn [total_size_ fill_chunk]. rewrite Ht1. unfold written in Ht. lia.
    + rewrite length_drop. unfold len in *. lia.
Qed.

Definition build_health l := HealthCheckResponse_set_status (bytes_in 1 l) HealthCheckResponse_New.
Definition build_say l :=
  BroadcastRequest_set_message (bytes_in 2 l) (BroadcastRequest_set_roomid (i64 (varint_in 1 l)) BroadcastRequest_New).
Definition build_said l := fill_broadcast (negb (varint_in 1 l =? 0), bytes_in 2 l) BroadcastResponse_New.
Definition build_kick l := KickPlayerRequest_set_id (varint_in 1 l) KickPlayerRequest_New.
Definition build_kicked l := fill_kick (negb (varint_in 1 l =? 0), bytes_in 2 l) KickPlayerResponse_New.
Definition build_room l :=
  set_room_info (i64 (varint_in 1 l), bytes_in 2 l, i32 (varint_in 3 l), i32 (varint_in 4 l)) RoomInfo_New.
Definition build_player l :=
  set_player_info (varint_in 1 l, bytes_in 2 l, i32 (varint_in 3 l), i32 (varint_in 4 l)) PlayerInfo_New.
Definition build_lobby l := set_lobby_info (i32 (varint_in 1 l), i32 (varint_in 2 l), i32 (varint_in 3 l)) LobbyInfo_New.

#[local] Instance lib : GrpcLib toy.lib := {
  utf8 := ascii;
  parse_HealthCheckResponse := parse build_health;
  parse_BroadcastRequest := parse build_say;
  parse_BroadcastResponse := parse build_said;
  parse_KickPlayerRequest := parse build_kick;
  parse_KickPlayerResponse := parse build_kicked;
  parse_ListRoomsResponse := parse_list build_room;
  parse_ListPlayersResponse := parse_list build_player;
  parse_ListLobbiesResponse := parse_list build_lobby;
  parse_empty _ m := (true, m);
  size_empty _ := 0;
  serialize_empty _ := [];
  InitializationErrorString := [];
  slices := plain.lib;
  CodedOutputStream_write bs w := write (length bs) bs w;
  grpc_byte_buffer_reader_init _ := true;
}.

Lemma grpc_ok : GrpcLib_ok lib.
Proof.
  split; try done.
  - intros s Hs. apply Is_true_true_1, forallb_True. eapply Forall_impl; [exact Hs|]. intros b Hb. apply Is_true_true_2.
    apply andb_true_iff. cbn in Hb. split; [apply Z.leb_le|apply Z.ltb_lt]; lia.
  - apply parse_ok. intros l. by repeat constructor.
  - apply parse_ok. intros l. by repeat constructor.
  - apply parse_ok. intros l. by repeat constructor.
  - apply parse_ok. intros l. by repeat constructor.
  - apply parse_ok. intros l. by repeat constructor.
  - apply parse_list_ok. intros l. by repeat constructor.
  - apply parse_list_ok. intros l. by repeat constructor.
  - apply parse_list_ok. intros l. by repeat constructor.
  - exact plain.slices_ok.
  - intros bs w w' Hw Ht Hs. by eapply write_ok.
Qed.

(** A server in the same process. *)
Definition run (m : RpcServiceMethod) (req : bytes) (w : world) : outcome (batch * world) :=
  let '(status, request) := h_Deserialize (sm_handler m) [req] in
  '(s, w) ← h_RunHandler (sm_handler m) status request w;
  Ok (mkBatch true ((fun sl => [concat sl]) <$> so_message s) (so_status s), w).

#[local] Instance core : GrpcCore := {
  core_call ms path req w :=
    match list_find (fun m => name_ (sm_method m) = path) ms with
    | Some (_, m) => run m req w
    | None => Ok (mkBatch true None (mkStatus Code.UNIMPLEMENTED []), w)
    end;
  carried s := mkBatch true ((fun sl => [concat sl]) <$> so_message s) (so_status s);
  arrives bs := [bs];
}.

Lemma core_ok : GrpcCore_ok core.
Proof.
  split; cbn; [intros bs; apply app_nil_r| | |done].
  - intros ms i m path req w Hn Hi Hm _. destruct (list_find _ ms) as [[j m']|] eqn:E.
    + apply list_find_Some in E as (Hj & Hp & _). assert (j = i) as ->; [|by simplify_eq].
      eapply NoDup_lookup; [exact Hn| |]; unfold names_of; rewrite list_lookup_fmap, ?Hi, ?Hj; [done|]. cbn. by rewrite Hm, Hp.
    + apply list_find_None in E. rewrite Forall_lookup in E. specialize (E i m Hi). by rewrite Hm in E.
  - intros ms path req w Hn. destruct (list_find _ ms) as [[j m]|] eqn:E; [|done].
    apply list_find_Some in E as (Hj & <- & _). exfalso. apply Hn. unfold names_of.
    apply list_elem_of_fmap. exists m. split; [done|]. by eapply list_elem_of_lookup_2.
Qed.
End local.

#[local] Existing Instance toy.lib.
#[local] Existing Instance toy.lib_ok.
#[local] Existing Instance local.lib.
#[local] Existing Instance local.core.

Definition kick_7 : Message KickPlayerRequest := KickPlayerRequest_set_id 7 KickPlayerRequest_New.
Definition say_200 : Message BroadcastRequest := BroadcastRequest_set_message [200] BroadcastRequest_New.

Lemma kick_7_fits : request_fits (fun _ _ => true) kick_7.
Proof.
  split; [|by repeat constructor|done|by vm_compute].
  apply (KickPlayerRequest_setters (Lok := toy.lib_ok)).
  exact (proj1 (new_consistent (Lok := toy.lib_ok) (F := KickPlayerRequest))).
Qed.

Lemma say_200_fits : request_fits (fun _ _ => true) say_200.
Proof.
  split; [|by repeat constructor|done|by vm_compute].
  apply (BroadcastRequest_setters (Lok := toy.lib_ok) _ 0).
  exact (proj1 (new_consistent (Lok := toy.lib_ok) (F := BroadcastRequest))).
Qed.

Lemma commands_reach_game_witness :
  let stub := admin_stub true (fun _ _ => true) grpc_thread in
  Stub_KickPlayer true (fun _ _ => true) stub kick_7 KickPlayerResponse_New one_player =
    Ok (mkStatus Code.NOT_FOUND (text "Player not found"), KickPlayerResponse_New, one_player) /\
  Stub_Broadcast true (fun _ _ => true) stub say_200 BroadcastResponse_New one_player =
    Ok (mkStatus Code.INTERNAL [], BroadcastResponse_New, one_player).
Proof.
  destruct (commands_reach_game toy.lib local.lib local.core true (fun _ _ => true) grpc_thread one_player kick_7
    KickPlayerResponse_New say_200 BroadcastResponse_New HealthCheckResponse_New toy.lib_ok local.grpc_ok local.core_ok
    eq_refl kick_7_fits say_200_fits) as (_ & H1 & H2 & _).
  - unfold int64. cbn. lia.
  - replace (PlayerSystem_Find (KickPlayerRequest_id kick_7) one_player) with (@None nat) in H1 by (vm_compute; reflexivity).
    split; [exact H1|exact H2].
Defined.

Lemma lists_reach_client_witness :
  let stub := admin_stub true (fun _ _ => true) grpc_thread in
  exists m, Stub_ListPlayers true (fun _ _ => true) stub (new_message tt) ListPlayersResponse_New one_player =
      Ok (status_ok, m, one_player) /\ player_row <$> rep_elements (_impl_ m) = [(100, [65], 0, -1)].
Proof.
  destruct (lists_reach_client toy.lib local.lib local.core true (fun _ _ => true) grpc_thread one_player
    ListRoomsResponse_New ListPlayersResponse_New ListLobbiesResponse_New toy.lib_ok local.grpc_ok local.core_ok
    eq_refl (final_reach _)) as (_ & _ & m & H1 & H2).
  - vm_compute; reflexivity.
  - vm_compute; reflexivity.
  - replace (AdminListPlayers one_player) with [(100, [65], 0, -1)] by (vm_compute; reflexivity).
    constructor; [|constructor]. unfold player_fits, int32. cbn. lia.
  - vm_compute. discriminate.
  - vm_compute. discriminate.
  - vm_compute. discriminate.
  - replace (AdminListPlayers one_player) with [(100, [65], 0, -1)] in H1, H2 by (vm_compute; reflexivity).
    exists m. split; [exact H1|exact (H2 eq_refl)].
Defined.
