(* ===== verification/Scenario.v ===== *)
(** * The load generator

    src/DhNet_Client/DhNet_StressTest: ScenarioState.h, ScenarioConfig.h,
    ScenarioStateRegistry.cpp, ScenarioHandlers.cpp, the counters of
    MetricsAggregator.cpp and the service churn of main.cpp.

    Times are steady_clock ticks (nanoseconds).  Every callback decides under the
    registry lock and acts after releasing it: a [stress_step] is one critical
    section or one of the effects that follow it, in any interleaving of the
    threads.  Packets are their number; their bytes are Packets.v. *)

From S2P Require Import Prelude Packets.

(** ** ScenarioConfig.h, ScenarioState.h *)

Record ScenarioConfig := mkCfg {
  lobbyChatCount : Z;
  lobbyChatIntervalMs : Z;
  roomChatCount : Z;
  roomChatIntervalMs : Z;
  roomActionTimeoutMs : Z;
  maxRoomActionRetries : Z;
  pingIntervalMs : Z;
  pingTimeoutMs : Z;
}.

Definition g_scenarioConfig : ScenarioConfig := mkCfg 2 1000 5 1000 5000 3 200 3000.

Inductive ScenarioPhase := Handshaking | InLobby | AwaitingRoomEnter | InRoom | AwaitingRoomExit | Stuck.

Inductive ScenarioAction :=
| ActNone | SendLobbyChat | SendRoomEnter | SendRoomChat | SendRoomExit | LogStuckRoomEnter | LogStuckRoomExit.

#[global] Instance ScenarioPhase_eq_dec : EqDecision ScenarioPhase.
Proof. solve_decision. Defined.
#[global] Instance ScenarioAction_eq_dec : EqDecision ScenarioAction.
Proof. solve_decision. Defined.

Record ScenarioState := mkState {
  phase : ScenarioPhase;
  phaseStartTime : Z;
  lastActionTime : Z;
  lobbyChatsSent : Z;
  roomChatsSent : Z;
  actionRetries : Z;
  pingInFlight : bool;
  pingSentTime : Z;
  lastPingSentTime : Z;
}.

Definition ScenarioState_new : ScenarioState := mkState Handshaking 0 0 0 0 0 false 0 0.

Definition milliseconds (n : Z) : Z := n * 1000000.

(** ** The callbacks run under the registry lock *)

Definition ResLobbyEnter_apply (now : Z) (st : ScenarioState) : ScenarioState :=
  mkState InLobby now now 0 (roomChatsSent st) (actionRetries st)
    (pingInFlight st) (pingSentTime st) (lastPingSentTime st).

Definition NotiRoomEnter_apply (now : Z) (st : ScenarioState) : ScenarioState :=
  mkState InRoom now now (lobbyChatsSent st) 0 (actionRetries st)
    (pingInFlight st) (pingSentTime st) (lastPingSentTime st).

(** The phase part of the state, the ping part being kept. *)
Definition set_phase (ph : ScenarioPhase) (start last lobby room retries : Z) (st : ScenarioState) : ScenarioState :=
  mkState ph start last lobby room retries (pingInFlight st) (pingSentTime st) (lastPingSentTime st).

Definition AdvanceScenario_apply (cfg : ScenarioConfig) (_now : Z) (st : ScenarioState)
  : ScenarioAction * ScenarioState :=
  match phase st with
  | InLobby =>
      if (lobbyChatsSent st <? lobbyChatCount cfg) &&
         (milliseconds (lobbyChatIntervalMs cfg) <=? _now - lastActionTime st)
      then (SendLobbyChat, set_phase InLobby (phaseStartTime st) _now (lobbyChatsSent st + 1)
                             (roomChatsSent st) (actionRetries st) st)
      else if lobbyChatCount cfg <=? lobbyChatsSent st
      then (SendRoomEnter, set_phase AwaitingRoomEnter _now (lastActionTime st) (lobbyChatsSent st)
                             (roomChatsSent st) 0 st)
      else (ActNone, st)
  | AwaitingRoomEnter =>
      if milliseconds (roomActionTimeoutMs cfg) <=? _now - phaseStartTime st then
        if maxRoomActionRetries cfg <=? actionRetries st
        then (LogStuckRoomEnter, set_phase Stuck (phaseStartTime st) (lastActionTime st) (lobbyChatsSent st)
                                   (roomChatsSent st) (actionRetries st) st)
        else (SendRoomEnter, set_phase AwaitingRoomEnter _now (lastActionTime st) (lobbyChatsSent st)
                               (roomChatsSent st) (actionRetries st + 1) st)
      else (ActNone, st)
  | InRoom =>
      if (roomChatsSent st <? roomChatCount cfg) &&
         (milliseconds (roomChatIntervalMs cfg) <=? _now - lastActionTime st)
      then (SendRoomChat, set_phase InRoom (phaseStartTime st) _now (lobbyChatsSent st)
                            (roomChatsSent st + 1) (actionRetries st) st)
      else if roomChatCount cfg <=? roomChatsSent st
      then (SendRoomExit, set_phase AwaitingRoomExit _now (lastActionTime st) (lobbyChatsSent st)
                            (roomChatsSent st) 0 st)
      else (ActNone, st)
  | AwaitingRoomExit =>
      if milliseconds (roomActionTimeoutMs cfg) <=? _now - phaseStartTime st then
        if maxRoomActionRetries cfg <=? actionRetries st
        then (LogStuckRoomExit, set_phase Stuck (phaseStartTime st) (lastActionTime st) (lobbyChatsSent st)
                                  (roomChatsSent st) (actionRetries st) st)
        else (SendRoomExit, set_phase AwaitingRoomExit _now (lastActionTime st) (lobbyChatsSent st)
                              (roomChatsSent st) (actionRetries st + 1) st)
      else (ActNone, st)
  | Stuck | Handshaking => (ActNone, st)
  end.

Definition set_ping (inFlight : bool) (sent last : Z) (st : ScenarioState) : ScenarioState :=
  mkState (phase st) (phaseStartTime st) (lastActionTime st) (lobbyChatsSent st) (roomChatsSent st)
    (actionRetries st) inFlight sent last.

(** The result: shouldRecordTimeout, shouldSendPing, the state. *)
Definition AdvancePing_apply (cfg : ScenarioConfig) (_now : Z) (st : ScenarioState)
  : bool * bool * ScenarioState :=
  let shouldRecordTimeout :=
    pingInFlight st && (milliseconds (pingTimeoutMs cfg) <=? _now - pingSentTime st) in
  let st := if shouldRecordTimeout then set_ping false (pingSentTime st) (lastPingSentTime st) st else st in
  if negb (pingInFlight st) && (milliseconds (pingIntervalMs cfg) <=? _now - lastPingSentTime st)
  then (shouldRecordTimeout, true, set_ping true _now _now st)
  else (shouldRecordTimeout, false, st).

(** The result: the round trip time to record, if any. *)
Definition ResTest_apply (now : Z) (st : ScenarioState) : option Z * ScenarioState :=
  if negb (pingInFlight st) then (None, st)
  else (Some (now - pingSentTime st), set_ping false (pingSentTime st) (lastPingSentTime st) st).

(** ** MetricsAggregator *)

(** The samples in nanoseconds; the statistics of a snapshot are in Report.v. *)
Record MetricsAggregator := mkMetrics {
  m_rttSamples : list Z;
  m_successCount : Z;
  m_timeoutCount : Z;
  m_stuckCount : Z;
  m_totalConnections : Z;
}.

Definition MetricsAggregator_new : MetricsAggregator := mkMetrics [] 0 0 0 0.

Definition RecordRtt (rtt : Z) (m : MetricsAggregator) : MetricsAggregator :=
  mkMetrics (m_rttSamples m ++ [rtt]) (u64 (m_successCount m + 1)) (m_timeoutCount m) (m_stuckCount m)
    (m_totalConnections m).
Definition RecordTimeout (m : MetricsAggregator) : MetricsAggregator :=
  mkMetrics (m_rttSamples m) (m_successCount m) (u64 (m_timeoutCount m + 1)) (m_stuckCount m) (m_totalConnections m).
Definition RecordStuck (m : MetricsAggregator) : MetricsAggregator :=
  mkMetrics (m_rttSamples m) (m_successCount m) (m_timeoutCount m) (u64 (m_stuckCount m + 1)) (m_totalConnections m).
Definition RecordConnection (m : MetricsAggregator) : MetricsAggregator :=
  mkMetrics (m_rttSamples m) (m_successCount m) (m_timeoutCount m) (m_stuckCount m) (u64 (m_totalConnections m + 1)).

Record MetricsSnapshot := mkSnapshot {
  successCount : Z;
  timeoutCount : Z;
  stuckCount : Z;
  sampleCount : Z;
}.

Definition GetSnapshotAndReset (m : MetricsAggregator) : MetricsSnapshot * MetricsAggregator :=
  (mkSnapshot (m_successCount m) (m_timeoutCount m) (m_stuckCount m) (Z.of_nat (length (m_rttSamples m))),
   mkMetrics [] 0 0 0 (m_totalConnections m)).

(** ** Everything together *)

(** What a thread does after it has released the registry lock. *)
Inductive effect :=
| ESend (s : nat) (pk : PacketEnum)
| ERecordRtt (rtt : Z)
| ERecordTimeout
| ERecordStuck
| ERecordConnection.

Record stress := mkStress {
  m_states : gmap nat ScenarioState;       (* ScenarioStateRegistry, by Session* *)
  s_metrics : MetricsAggregator;
  s_threads : list (list effect);
  s_sent : list (nat * PacketEnum);
  s_reports : list MetricsSnapshot;
  s_lost : Z;                              (* pings in flight when their session went *)
}.

Definition stress_new : stress := mkStress ∅ MetricsAggregator_new [] [] [] 0.

Definition in_flight (o : option ScenarioState) : Z :=
  match o with Some st => if pingInFlight st then 1 else 0 | None => 0 end.

(** ScenarioStateRegistry::Register, Unregister, Apply *)
Definition Register (s : nat) (w : stress) : stress :=
  mkStress (<[s := ScenarioState_new]> (m_states w)) (s_metrics w) (s_threads w) (s_sent w) (s_reports w)
    (s_lost w + in_flight (m_states w !! s)).
Definition Unregister (s : nat) (w : stress) : stress :=
  mkStress (delete s (m_states w)) (s_metrics w) (s_threads w) (s_sent w) (s_reports w)
    (s_lost w + in_flight (m_states w !! s)).
Definition Apply (s : nat) (f : ScenarioState -> list effect * ScenarioState) (w : stress) : stress :=
  match m_states w !! s with
  | None => w
  | Some st =>
      let '(es, st) := f st in
      mkStress (<[s := st]> (m_states w)) (s_metrics w) (es :: s_threads w) (s_sent w) (s_reports w) (s_lost w)
  end.

Definition spawn (es : list effect) (w : stress) : stress :=
  mkStress (m_states w) (s_metrics w) (es :: s_threads w) (s_sent w) (s_reports w) (s_lost w).

(** The second switch of AdvanceScenario. *)
Definition action_effects (s : nat) (a : ScenarioAction) : list effect :=
  match a with
  | SendLobbyChat => [ESend s Req_LobbyChat]
  | SendRoomEnter => [ESend s Req_RoomEnter]
  | SendRoomChat => [ESend s Req_RoomChat]
  | SendRoomExit => [ESend s Req_RoomExit]
  | LogStuckRoomEnter | LogStuckRoomExit => [ERecordStuck]
  | ActNone => []
  end.

Definition AdvanceScenario (cfg : ScenarioConfig) (s : nat) (_now : Z) (w : stress) : stress :=
  Apply s (fun st => let '(a, st) := AdvanceScenario_apply cfg _now st in (action_effects s a, st)) w.

Definition AdvancePing (cfg : ScenarioConfig) (s : nat) (_now : Z) (w : stress) : stress :=
  Apply s (fun st =>
    let '(shouldRecordTimeout, shouldSendPing, st) := AdvancePing_apply cfg _now st in
    ((if shouldRecordTimeout : bool then [ERecordTimeout] else []) ++
     (if shouldSendPing : bool then [ESend s Test] else []), st)) w.

Definition Scenario_HandleResLobbyEnterPacket (s : nat) (now : Z) (w : stress) : stress :=
  Apply s (fun st => ([], ResLobbyEnter_apply now st)) w.

(** [own]: the packet's m_playerId is the session's. *)
Definition Scenario_HandleNotiRoomEnterPacket (own : bool) (s : nat) (now : Z) (w : stress) : stress :=
  if own then Apply s (fun st => ([], NotiRoomEnter_apply now st)) w else w.

Definition Scenario_HandleResTestPacket (s : nat) (now : Z) (w : stress) : stress :=
  Apply s (fun st =>
    let '(rtt, st) := ResTest_apply now st in
    (match rtt with Some r => [ERecordRtt r] | None => [] end, st)) w.

Definition run_effect (e : effect) (w : stress) : stress :=
  let set_metrics m := mkStress (m_states w) m (s_threads w) (s_sent w) (s_reports w) (s_lost w) in
  match e with
  | ESend s pk => mkStress (m_states w) (s_metrics w) (s_threads w) (s_sent w ++ [(s, pk)]) (s_reports w) (s_lost w)
  | ERecordRtt r => set_metrics (RecordRtt r (s_metrics w))
  | ERecordTimeout => set_metrics (RecordTimeout (s_metrics w))
  | ERecordStuck => set_metrics (RecordStuck (s_metrics w))
  | ERecordConnection => set_metrics (RecordConnection (s_metrics w))
  end.

Definition set_sthreads (t : list (list effect)) (w : stress) : stress :=
  mkStress (m_states w) (s_metrics w) t (s_sent w) (s_reports w) (s_lost w).

Inductive stress_step (cfg : ScenarioConfig) : stress -> stress -> Prop :=
| s_connected w s : stress_step cfg w (spawn [ERecordConnection] (Register s w))   (* SetOnConnectedExtra *)
| s_disconnected w s : stress_step cfg w (Unregister s w)
| s_scenario w s now : stress_step cfg w (AdvanceScenario cfg s now w)
| s_ping w s now : stress_step cfg w (AdvancePing cfg s now w)
| s_lobby w s now : stress_step cfg w (Scenario_HandleResLobbyEnterPacket s now w)
| s_room w own s now : stress_step cfg w (Scenario_HandleNotiRoomEnterPacket own s now w)
| s_pong w s now : stress_step cfg w (Scenario_HandleResTestPacket s now w)
| s_effect w k e es :
    s_threads w !! k = Some (e :: es) ->
    stress_step cfg w (set_sthreads (<[k := es]> (s_threads w)) (run_effect e w))
| s_report w r m :    (* ReportManager::ReportInterval *)
    GetSnapshotAndReset (s_metrics w) = (r, m) ->
    stress_step cfg w (mkStress (m_states w) m (s_threads w) (s_sent w) (s_reports w ++ [r]) (s_lost w)).

Definition stress_reach (cfg : ScenarioConfig) : stress -> Prop :=
  reach (fun w => w = stress_new) (stress_step cfg) (fun _ => True).

(** ** How much a session may send between two answers *)

(** The main loop's ticks on one session while nothing arrives for it. *)
Fixpoint ticks (cfg : ScenarioConfig) (nows : list Z) (st : ScenarioState) : list ScenarioAction * ScenarioState :=
  match nows with
  | [] => ([], st)
  | now :: nows' =>
      let '(a, st) := AdvanceScenario_apply cfg now st in
      let '(acts, st) := ticks cfg nows' st in
      (a :: acts, st)
  end.

Definition times (a : ScenarioAction) (acts : list ScenarioAction) : Z :=
  zsum (fun b => if decide (a = b) then 1 else 0) acts.

(** How often an action can still be taken without an answer. *)
Definition allowance (cfg : ScenarioConfig) (st : ScenarioState) (a : ScenarioAction) : Z :=
  match a, phase st with
  | SendLobbyChat, InLobby => Z.max 0 (lobbyChatCount cfg - lobbyChatsSent st)
  | SendRoomEnter, InLobby => 1 + Z.max 0 (maxRoomActionRetries cfg)
  | SendRoomEnter, AwaitingRoomEnter => Z.max 0 (maxRoomActionRetries cfg - actionRetries st)
  | LogStuckRoomEnter, (InLobby | AwaitingRoomEnter) => 1
  | SendRoomChat, InRoom => Z.max 0 (roomChatCount cfg - roomChatsSent st)
  | SendRoomExit, InRoom => 1 + Z.max 0 (maxRoomActionRetries cfg)
  | SendRoomExit, AwaitingRoomExit => Z.max 0 (maxRoomActionRetries cfg - actionRetries st)
  | LogStuckRoomExit, (InRoom | AwaitingRoomExit) => 1
  | _, _ => 0
  end.

(** One tick spends what it does. *)
Lemma tick_spends cfg now st act st' a :
  a <> ActNone -> AdvanceScenario_apply cfg now st = (act, st') ->
  (if decide (a = act) then 1 else 0) + allowance cfg st' a = allowance cfg st a.
Proof.
  intros Ha E. unfold AdvanceScenario_apply in E.
  destruct (phase st) eqn:Ep;
    repeat match type of E with context [if ?b then _ else _] => destruct b eqn:? end;
    injection E as <- <-; to_prop; unfold allowance; rewrite ?Ep; cbn; destruct a; cbn; try done;
    repeat case_decide; try done; lia.
Qed.

(** whatever the times of the ticks, while a session gets no answer from
    the server it sends at most the configured number of chats, one room (or
    exit) request plus the configured retries, and reports itself stuck at most
    once; what it has sent and what it may still send add up exactly. *)
Theorem scenario_budget cfg nows st acts st' a :
  a <> ActNone -> ticks cfg nows st = (acts, st') ->
  times a acts + allowance cfg st' a = allowance cfg st a.
Proof.
  intros Ha. revert st acts. induction nows as [|now nows IH]; intros st acts; cbn [ticks].
  { by intros [= <- <-]. }
  destruct (AdvanceScenario_apply cfg now st) as [act st1] eqn:E1.
  destruct (ticks cfg nows st1) as [acts1 st2] eqn:E2. intros [= <- <-].
  specialize (tick_spends _ _ _ _ _ a Ha E1). specialize (IH _ _ E2). unfold times in *. cbn [zsum]. lia.
Qed.

Definition in_lobby (t : Z) : ScenarioState := ResLobbyEnter_apply t ScenarioState_new.

Lemma scenario_budget_witness :
  times SendRoomEnter (fst (ticks g_scenarioConfig (map milliseconds [1000; 2000; 3000; 8000; 8001; 13000; 90000]) (in_lobby 0)))
  = 4.
Proof.
  specialize (scenario_budget g_scenarioConfig (map milliseconds [1000; 2000; 3000; 8000; 8001; 13000; 90000]) (in_lobby 0)
    _ _ SendRoomEnter ltac:(discriminate) (surjective_pairing _)) as H.
  vm_compute in H. vm_compute. exact H.
Defined.

(** Ticks at least [d] apart, the first one [d] after [t]. *)
Fixpoint spaced (d t : Z) (nows : list Z) : Prop :=
  match nows with
  | [] => True
  | now :: nows' => t + d <= now /\ spaced d now nows'
  end.

Section unanswered.
Context (cfg : ScenarioConfig) (d : Z).
Context (Hd : 0 <= d /\ milliseconds (lobbyChatIntervalMs cfg) <= d /\ milliseconds (roomActionTimeoutMs cfg) <= d).

Lemma awaiting_gives_up n nows t st :
  phase st = AwaitingRoomEnter -> phaseStartTime st <= t -> spaced d t nows ->
  maxRoomActionRetries cfg - actionRetries st = Z.of_nat n -> length nows = S n ->
  exists st', ticks cfg nows st = (replicate n SendRoomEnter ++ [LogStuckRoomEnter], st') /\ phase st' = Stuck.
Proof.
  revert nows t st. induction n as [|n IH]; intros [|now nows] t st Hp Ht Hs Hr Hl; try done;
    cbn in Hs, Hl; destruct Hs as [Hnow Hs]; cbn [ticks]; unfold AdvanceScenario_apply; rewrite Hp;
    rewrite (proj2 (Z.leb_le _ _)) by lia.
  - rewrite (proj2 (Z.leb_le (maxRoomActionRetries cfg) _)) by lia.
    destruct nows; [|done]. eexists. split; [reflexivity|done].
  - rewrite (proj2 (Z.leb_gt (maxRoomActionRetries cfg) _)) by lia.
    edestruct (IH nows now) as (st' & E & Hst); [| | | | |rewrite E; eauto]; cbn; try done; lia.
Qed.

Lemma lobby_gives_up n m nows t st :
  phase st = InLobby -> lastActionTime st <= t -> spaced d t nows ->
  lobbyChatCount cfg - lobbyChatsSent st = Z.of_nat n -> maxRoomActionRetries cfg = Z.of_nat m ->
  length nows = (n + m + 2)%nat ->
  exists st', ticks cfg nows st =
    (replicate n SendLobbyChat ++ replicate (S m) SendRoomEnter ++ [LogStuckRoomEnter], st') /\ phase st' = Stuck.
Proof.
  revert nows t st. induction n as [|n IH]; intros [|now nows] t st Hp Ht Hs Hn Hm Hl; try (cbn in Hl; lia);
    cbn in Hs, Hl; destruct Hs as [Hnow Hs]; cbn [ticks]; unfold AdvanceScenario_apply; rewrite Hp.
  - rewrite (proj2 (Z.ltb_ge _ _)) by lia. cbn [andb]. rewrite (proj2 (Z.leb_le _ _)) by lia.
    edestruct (awaiting_gives_up m nows now) as (st' & E & Hst); [| | | | |rewrite E; eauto]; cbn; try done; lia.
  - rewrite (proj2 (Z.ltb_lt _ _)) by lia. rewrite (proj2 (Z.leb_le _ _)) by lia. cbn [andb].
    edestruct (IH nows now) as (st' & E & Hst); [| | | | | |rewrite E; eauto]; cbn; try done; lia.
Qed.
End unanswered.

(** a session the server stops answering always gives up: with ticks no
    closer than the configured intervals it sends its remaining lobby chats, one
    room request and every retry, reports itself stuck and is stuck, after
    exactly that many ticks. *)
Theorem scenario_gives_up cfg d n m nows t st :
  0 <= d -> milliseconds (lobbyChatIntervalMs cfg) <= d -> milliseconds (roomActionTimeoutMs cfg) <= d ->
  phase st = InLobby -> lastActionTime st <= t -> spaced d t nows ->
  lobbyChatCount cfg - lobbyChatsSent st = Z.of_nat n -> maxRoomActionRetries cfg = Z.of_nat m ->
  length nows = (n + m + 2)%nat ->
  exists st', ticks cfg nows st =
    (replicate n SendLobbyChat ++ replicate (S m) SendRoomEnter ++ [LogStuckRoomEnter], st') /\ phase st' = Stuck.
Proof. intros ? ? ?. by apply lobby_gives_up. Qed.

Lemma scenario_gives_up_witness :
  exists st', ticks g_scenarioConfig (map milliseconds [5000; 10000; 15000; 20000; 25000; 30000; 35000]) (in_lobby 0) =
    (replicate 2 SendLobbyChat ++ replicate 4 SendRoomEnter ++ [LogStuckRoomEnter], st') /\ phase st' = Stuck.
Proof.
  apply (scenario_gives_up g_scenarioConfig (milliseconds 5000) 2 3 _ 0);
    vm_compute; repeat split; first [reflexivity|discriminate].
Defined.

(** ** Pings *)

(** With the interval no longer than the timeout (200 ms and 3 s by
    default), the call that times a ping out sends the next one in the same
    critical section, so the ping is never "not in flight" in between and an
    answer to the old ping, however late, is recorded as an answer to the new
    one: its round trip is reported too short by at least the timeout. *)
Theorem late_pong_misattributed cfg st now late :
  milliseconds (pingIntervalMs cfg) <= milliseconds (pingTimeoutMs cfg) ->
  pingInFlight st = true -> lastPingSentTime st = pingSentTime st ->
  milliseconds (pingTimeoutMs cfg) <= now - pingSentTime st ->
  let '(timedOut, sends, st1) := AdvancePing_apply cfg now st in
  timedOut = true /\ sends = true /\
  exists rtt st2, ResTest_apply late st1 = (Some rtt, st2) /\ rtt = late - now /\
    rtt + milliseconds (pingTimeoutMs cfg) <= late - pingSentTime st.
Proof.
  intros Hc Hf Hl Ht. unfold AdvancePing_apply. rewrite Hf. rewrite (proj2 (Z.leb_le _ _)) by lia. cbn.
  rewrite Hl. rewrite (proj2 (Z.leb_le _ _)) by lia. split_and!; [done|done|].
  eexists _, _. split; [reflexivity|]. cbn. lia.
Qed.

Lemma late_pong_misattributed_witness :
  exists rtt st2,
    ResTest_apply (milliseconds 3350)
      (snd (AdvancePing_apply g_scenarioConfig (milliseconds 3300) (set_ping true (milliseconds 200) (milliseconds 200) (in_lobby 0))))
    = (Some rtt, st2) /\ rtt = milliseconds 50.
Proof.
  specialize (late_pong_misattributed g_scenarioConfig
    (set_ping true (milliseconds 200) (milliseconds 200) (in_lobby 0)) (milliseconds 3300) (milliseconds 3350)) as H.
  destruct H as (_ & _ & rtt & st2 & E & -> & _);
    [vm_compute; discriminate|reflexivity|reflexivity|vm_compute; discriminate|].
  eexists _, st2. split; [exact E|vm_compute; reflexivity].
Defined.

(** *** Every ping is accounted for *)

Definition flights (w : stress) : Z := zsum (fun kv => in_flight (Some (snd kv))) (map_to_list (m_states w)).

Definition is_ping (sp : nat * PacketEnum) : Z := if decide (snd sp = Test) then 1 else 0.

(** Sends and records a thread has still to do. *)
Definition owes (f : effect -> Z) (w : stress) : Z := zsum (zsum f) (s_threads w).
Definition owes_ping (e : effect) : Z := match e with ESend s pk => is_ping (s, pk) | _ => 0 end.
Definition owes_rtt (e : effect) : Z := match e with ERecordRtt _ => 1 | _ => 0 end.
Definition owes_timeout (e : effect) : Z := match e with ERecordTimeout => 1 | _ => 0 end.

Definition reported (w : stress) : Z :=
  m_successCount (s_metrics w) + m_timeoutCount (s_metrics w) +
  zsum (fun r => successCount r + timeoutCount r) (s_reports w).

(** Pings sent or about to be sent. *)
Definition pings (w : stress) : Z := zsum is_ping (s_sent w) + owes owes_ping w.

Record metrics_inv (w : stress) : Prop := mkMetricsInv {
  mi_lost : 0 <= s_lost w;
  mi_counts : 0 <= m_successCount (s_metrics w) /\ 0 <= m_timeoutCount (s_metrics w) /\
    Forall (fun r => 0 <= successCount r /\ 0 <= timeoutCount r) (s_reports w);
  mi_pings : pings w = reported w + owes owes_rtt w + owes owes_timeout w + flights w + s_lost w;
  mi_samples : Z.of_nat (length (m_rttSamples (s_metrics w))) = m_successCount (s_metrics w) /\
    Forall (fun r => sampleCount r = successCount r) (s_reports w);
}.

Lemma zsum_perm {A} (f : A -> Z) l1 l2 : l1 ≡ₚ l2 -> zsum f l1 = zsum f l2.
Proof. induction 1; cbn; lia. Qed.

Lemma flights_insert (m : gmap nat ScenarioState) s st :
  zsum (fun kv => in_flight (Some (snd kv))) (map_to_list (<[s := st]> m)) =
  zsum (fun kv => in_flight (Some (snd kv))) (map_to_list m) - in_flight (m !! s) + in_flight (Some st).
Proof.
  rewrite <- (insert_delete_eq m). rewrite (zsum_perm _ _ _ (map_to_list_insert _ _ _ (lookup_delete_eq m s))).
  destruct (m !! s) as [st0|] eqn:E.
  - rewrite (zsum_perm _ _ _ (symmetry (map_to_list_delete m s st0 E))). cbn. lia.
  - rewrite delete_id by done. cbn. lia.
Qed.

Lemma zsum_all_nonneg {A} (f : A -> Z) l : (forall x, 0 <= f x) -> 0 <= zsum f l.
Proof. intros H. apply zsum_nonneg. auto. Qed.

Lemma in_flight_nonneg o : 0 <= in_flight o.
Proof. destruct o as [st|]; cbn; [destruct (pingInFlight st)|]; lia. Qed.

Lemma flights_nonneg w : 0 <= flights w.
Proof. apply zsum_all_nonneg. intros. apply in_flight_nonneg. Qed.

Lemma owes_nonneg f w : (forall e, 0 <= f e) -> 0 <= owes f w.
Proof. intros H. apply zsum_all_nonneg. intros. by apply zsum_all_nonneg. Qed.

Lemma owes_ping_nonneg e : 0 <= owes_ping e.
Proof. destruct e; cbn; [unfold is_ping; case_decide|..]; lia. Qed.
Lemma owes_rtt_nonneg e : 0 <= owes_rtt e.
Proof. destruct e; cbn; lia. Qed.
Lemma owes_timeout_nonneg e : 0 <= owes_timeout e.
Proof. destruct e; cbn; lia. Qed.

(** A thread doing its next effect owes that much less. *)
Lemma owes_run f w k e es :
  s_threads w !! k = Some (e :: es) ->
  owes f (set_sthreads (<[k := es]> (s_threads w)) (run_effect e w)) = owes f w - f e.
Proof.
  intros H. unfold owes, set_sthreads. cbn [s_threads]. rewrite (zsum_insert (zsum f) _ _ _ _ H). cbn. lia.
Qed.

(** A callback keeps the books when it sends a ping for every ping it puts in
    flight and records every one it takes out. *)
Lemma Apply_inv s f w :
  (forall st es st', f st = (es, st') ->
     zsum owes_ping es = zsum owes_rtt es + zsum owes_timeout es + in_flight (Some st') - in_flight (Some st)) ->
  metrics_inv w -> metrics_inv (Apply s f w).
Proof.
  intros Hf Hi. unfold Apply. destruct (m_states w !! s) as [st|] eqn:E; [|done].
  destruct (f st) as [es st'] eqn:Ef. specialize (Hf _ _ _ Ef). destruct Hi as [Hl Hc Hp Hs].
  split; [done|done| |done].
  unfold pings, reported, owes, flights in *. cbn [s_sent s_threads s_metrics s_reports s_lost m_states zsum].
  rewrite flights_insert, E. lia.
Qed.

Lemma AdvancePing_books cfg s now st es st' :
  (let '(shouldRecordTimeout, shouldSendPing, st) := AdvancePing_apply cfg now st in
   ((if shouldRecordTimeout : bool then [ERecordTimeout] else []) ++
    (if shouldSendPing : bool then [ESend s Test] else []), st)) = (es, st') ->
  zsum owes_ping es = zsum owes_rtt es + zsum owes_timeout es + in_flight (Some st') - in_flight (Some st).
Proof.
  unfold AdvancePing_apply.
  destruct (pingInFlight st) eqn:Ef; cbn [andb negb];
    repeat (match goal with |- context [Z.leb ?a ?b] => destruct (Z.leb a b) end; cbn [set_ping pingInFlight negb andb]);
    rewrite ?Ef; cbn [andb negb];
    repeat (match goal with |- context [Z.leb ?a ?b] => destruct (Z.leb a b) end; cbn [set_ping pingInFlight negb andb]);
    intros [= <- <-]; cbn; unfold is_ping; cbn; rewrite ?Ef; try lia; repeat case_decide; try done; lia.
Qed.

Lemma AdvanceScenario_books cfg s now st es st' :
  (let '(a, st) := AdvanceScenario_apply cfg now st in (action_effects s a, st)) = (es, st') ->
  zsum owes_ping es = zsum owes_rtt es + zsum owes_timeout es + in_flight (Some st') - in_flight (Some st).
Proof.
  unfold AdvanceScenario_apply.
  destruct (phase st); repeat match goal with |- context [if ?b then _ else _] => destruct b end;
    intros [= <- <-]; cbn; unfold is_ping; cbn; destruct (pingInFlight st); try lia; repeat case_decide; try done; lia.
Qed.

Lemma ResTest_books now st es st' :
  (let '(rtt, st) := ResTest_apply now st in (match rtt with Some r => [ERecordRtt r] | None => [] end, st)) = (es, st') ->
  zsum owes_ping es = zsum owes_rtt es + zsum owes_timeout es + in_flight (Some st') - in_flight (Some st).
Proof.
  unfold ResTest_apply. destruct (pingInFlight st) eqn:E; cbn [negb]; intros [= <- <-]; cbn; rewrite ?E; lia.
Qed.

(** The connection callbacks lose the ping that was in flight. *)
Lemma Register_inv s w : metrics_inv w -> metrics_inv (spawn [ERecordConnection] (Register s w)).
Proof.
  intros [Hl Hc Hp Hs]. specialize (in_flight_nonneg (m_states w !! s)) as Hn. split; [cbn; lia|done| |done].
  unfold pings, reported, owes, flights in *. cbn [s_sent s_threads s_metrics s_reports s_lost m_states zsum spawn Register].
  rewrite flights_insert. change (in_flight (Some ScenarioState_new)) with 0. cbn [owes_ping owes_rtt owes_timeout]. lia.
Qed.

Lemma Unregister_inv s w : metrics_inv w -> metrics_inv (Unregister s w).
Proof.
  intros [Hl Hc Hp Hs]. specialize (in_flight_nonneg (m_states w !! s)) as Hn. split; [cbn; lia|done| |done].
  unfold pings, reported, owes, flights in *. cbn [s_sent s_threads s_metrics s_reports s_lost m_states Unregister].
  destruct (m_states w !! s) as [st|] eqn:E; [|rewrite delete_id by done; change (in_flight None) with 0; lia].
  rewrite Hp, <- (zsum_perm _ _ _ (map_to_list_delete _ s st E)). cbn [zsum snd]. lia.
Qed.

Lemma effect_inv w k e es :
  s_threads w !! k = Some (e :: es) -> metrics_inv w -> pings w < 2 ^ 64 ->
  metrics_inv (set_sthreads (<[k := es]> (s_threads w)) (run_effect e w)).
Proof.
  intros Hk [Hl (Hc1 & Hc2 & Hc3) Hp [Hs1 Hs2]] Hb.
  specialize (owes_run owes_ping _ _ _ _ Hk) as Ep. specialize (owes_run owes_rtt _ _ _ _ Hk) as Er.
  specialize (owes_run owes_timeout _ _ _ _ Hk) as Et.
  specialize (flights_nonneg w) as Hf.
  specialize (owes_nonneg owes_rtt w owes_rtt_nonneg) as Hor.
  specialize (owes_nonneg owes_timeout w owes_timeout_nonneg) as Hot.
  assert (owes_rtt e <= owes owes_rtt w) as Ger.
  { specialize (zsum_ge (zsum owes_rtt) (s_threads w) k _ ltac:(intros; apply zsum_all_nonneg, owes_rtt_nonneg) Hk) as H.
    unfold owes. cbn in H. specialize (zsum_all_nonneg owes_rtt es owes_rtt_nonneg). lia. }
  assert (owes_timeout e <= owes owes_timeout w) as Get.
  { specialize (zsum_ge (zsum owes_timeout) (s_threads w) k _ ltac:(intros; apply zsum_all_nonneg, owes_timeout_nonneg) Hk) as H.
    unfold owes. cbn in H. specialize (zsum_all_nonneg owes_timeout es owes_timeout_nonneg). lia. }
  assert (0 <= zsum (fun r => successCount r + timeoutCount r) (s_reports w)) as Hrep.
  { apply zsum_nonneg. intros r Hr. rewrite Forall_forall in Hc3. specialize (Hc3 r Hr). lia. }
  unfold reported in Hp.
  split; [by destruct e| | |]; unfold pings, reported; rewrite ?Ep, ?Er, ?Et; clear Ep Er Et.
  - destruct e; cbn in *; try done; rewrite wrapU_small; lia || (split_and!; [lia|lia|done]).
  - assert (flights (set_sthreads (<[k := es]> (s_threads w)) (run_effect e w)) = flights w) as -> by (by destruct e).
    unfold pings in *.
    destruct e; cbn [run_effect set_sthreads s_sent s_metrics s_reports s_lost RecordRtt RecordTimeout RecordStuck
      RecordConnection m_successCount m_timeoutCount owes_ping owes_rtt owes_timeout] in *;
      rewrite ?zsum_app, ?wrapU_small by lia; cbn [zsum]; lia.
  - destruct e; cbn in *; try done; rewrite wrapU_small by lia. split; [rewrite length_app; cbn; lia|done].
Qed.

Lemma pings_mono cfg w w' : stress_step cfg w w' -> pings w <= pings w'.
Proof.
  assert (forall s f, pings w <= pings (Apply s f w)) as HA.
  { intros s f. unfold Apply. destruct (m_states w !! s); [|lia]. destruct (f s0) as [es st'].
    unfold pings, owes. cbn [s_sent s_threads zsum]. specialize (zsum_all_nonneg owes_ping es owes_ping_nonneg). lia. }
  destruct 1 as [w s|w s|w s now|w s now|w s now|w own s now|w s now|w k e es Hk|w r m Hr]; try apply HA.
  - unfold pings, owes. cbn [spawn Register s_sent s_threads zsum owes_ping]. lia.
  - done.
  - destruct own; [apply HA|apply Z.le_refl].
  - unfold pings. rewrite (owes_run _ _ _ _ _ Hk).
    destruct e; cbn [run_effect set_sthreads s_sent owes_ping]; rewrite ?zsum_app; cbn [zsum]; lia.
  - done.
Qed.

Lemma stress_step_inv cfg w w' : metrics_inv w -> stress_step cfg w w' -> pings w' < 2 ^ 64 -> metrics_inv w'.
Proof.
  intros Hi Hst Hb. specialize (pings_mono _ _ _ Hst) as Hm.
  destruct Hst as [w s|w s|w s now|w s now|w s now|w own s now|w s now|w k e es Hk|w r m Hr].
  - by apply Register_inv.
  - by apply Unregister_inv.
  - apply Apply_inv; [|done]. apply AdvanceScenario_books.
  - apply Apply_inv; [|done]. apply AdvancePing_books.
  - apply Apply_inv; [|done]. intros st es st' [= <- <-]. cbn. lia.
  - destruct own; [|done]. apply Apply_inv; [|done]. intros st es st' [= <- <-]. cbn. lia.
  - apply Apply_inv; [|done]. apply ResTest_books.
  - apply effect_inv; [done|done|lia].
  - destruct Hi as [Hl (Hc1 & Hc2 & Hc3) Hp [Hs1 Hs2]]. unfold GetSnapshotAndReset in Hr. injection Hr as <- <-.
    split; [done| | |].
    + cbn. split_and!; [done|done|]. apply Forall_app. split; [done|]. repeat constructor; done.
    + unfold pings, reported, owes, flights in *.
      cbn [s_sent s_threads s_metrics s_reports s_lost m_states m_successCount m_timeoutCount].
      rewrite zsum_app. cbn [zsum successCount timeoutCount]. lia.
    + cbn. split; [done|]. apply Forall_app. split; [done|]. repeat constructor; done.
Qed.

Lemma metrics_start : metrics_inv stress_new.
Proof. split; cbn; [lia|repeat constructor; lia|done|by repeat constructor]. Qed.

Lemma stress_reach_inv cfg w : stress_reach cfg w -> pings w < 2 ^ 64 -> metrics_inv w.
Proof.
  apply (reach_invariant _ _ _ (fun w => pings w < 2 ^ 64 -> metrics_inv w)).
  - intros ? -> _. apply metrics_start.
  - intros s s' Hi Hst _ Hb. eapply stress_step_inv; [|done|done]. apply Hi.
    specialize (pings_mono _ _ _ Hst). lia.
Qed.

(** whenever no thread is between a decision and its effect, every ping
    that was sent has been reported once, as answered or as timed out, in a
    snapshot or in the running counters, or is still in flight, or was lost with
    its session; and each report counts as many samples as answers.  For any
    interleaving of ticks, packets, connects, disconnects and reports, while
    fewer than 2^64 pings have been sent. *)
Theorem pings_accounted cfg w :
  stress_reach cfg w -> zsum is_ping (s_sent w) < 2 ^ 64 -> Forall (fun t => t = []) (s_threads w) ->
  zsum is_ping (s_sent w) = reported w + flights w + s_lost w /\
  Forall (fun r => sampleCount r = successCount r) (s_reports w).
Proof.
  intros Hr Hb Ht.
  assert (forall f, owes f w = 0) as Ho.
  { intros f. apply zsum_zero. intros t Hin. rewrite Forall_forall in Ht. by rewrite (Ht t Hin). }
  destruct (stress_reach_inv _ _ Hr) as [_ _ Hp [_ Hs]]; [unfold pings; rewrite Ho; lia|].
  unfold pings in Hp. rewrite !Ho in Hp. split; [lia|done].
Qed.

(** A session connects, pings, is answered, pings again and disconnects. *)
Definition stress_demo : stress :=
  let w := spawn [ERecordConnection] (Register 1 stress_new) in
  let w := AdvancePing g_scenarioConfig 1 (milliseconds 200) w in
  let w := Scenario_HandleResTestPacket 1 (milliseconds 230) w in
  let w := AdvancePing g_scenarioConfig 1 (milliseconds 400) w in
  let w := set_sthreads (<[0%nat := []]> (s_threads w)) (run_effect (ESend 1 Test) w) in
  let w := set_sthreads (<[1%nat := []]> (s_threads w)) (run_effect (ERecordRtt (milliseconds 30)) w) in
  let w := set_sthreads (<[2%nat := []]> (s_threads w)) (run_effect (ESend 1 Test) w) in
  let w := set_sthreads (<[3%nat := []]> (s_threads w)) (run_effect ERecordConnection w) in
  Unregister 1 w.

Lemma stress_demo_reach : stress_reach g_scenarioConfig stress_demo.
Proof.
  unfold stress_demo.
  eapply reach_step; [|apply s_disconnected|done].
  do 4 (eapply reach_step; [|eapply s_effect; vm_compute; reflexivity|done]).
  eapply reach_step; [|apply s_ping|done]. eapply reach_step; [|apply s_pong|done].
  eapply reach_step; [|apply s_ping|done]. eapply reach_step; [|apply s_connected|done].
  by apply reach_init.
Qed.

Lemma pings_accounted_witness :
  zsum is_ping (s_sent stress_demo) = reported stress_demo + flights stress_demo + s_lost stress_demo /\
  reported stress_demo = 1 /\ s_lost stress_demo = 1.
Proof.
  split; [|split; vm_compute; reflexivity].
  apply (pings_accounted g_scenarioConfig stress_demo stress_demo_reach); vm_compute; [reflexivity|repeat constructor].
Defined.

(** ** Service churn (main.cpp) *)

Section churn.
Context {S : Type}.

(** One in ten of the services, at least one, is ended and replaced; [make i]
    is the i-th service made. *)
Definition toRecycle (services : list S) : nat := Nat.max 1 (length services / 10).

Fixpoint erase_front (n : nat) (services : list S) : list S :=
  match n, services with
  | Datatypes.S n', _ :: services' => erase_front n' services'
  | _, _ => services
  end.

Definition churn (make : nat -> S) (services : list S) : list S :=
  let n := toRecycle services in erase_front n services ++ map make (seq 0 n).

Lemma erase_front_drop n (services : list S) : erase_front n services = drop n services.
Proof. revert services. induction n as [|n IH]; intros [|x l]; cbn; auto. Qed.

(** The pool keeps its size, oldest services first out; an empty pool grows. *)
Lemma churn_length make (services : list S) :
  length (churn make services) = Nat.max 1 (length services).
Proof.
  unfold churn, toRecycle. rewrite length_app, length_map, length_seq, erase_front_drop, length_drop.
  specialize (Nat.Div0.div_le_upper_bound (length services) 10 (length services)). lia.
Qed.
End churn.
