(* ===== verification/Report.v ===== *)
(** * The load generator's statistics and reports

    src/DhNet_Client/DhNet_StressTest/MetricsAggregator.cpp ([Percentile], the
    statistics of [GetSnapshotAndReset]), ReportManager.h/.cpp, and
    [GracefulShutdown] and [ConsoleHandler] of main.cpp.

    Samples are round trips in nanoseconds; the code keeps them as doubles in
    milliseconds, and the conversion is monotone, so sorting and picking by index
    are the same.  The index itself is computed in doubles, and so it is here:
    [fmul] multiplies two binary64 numbers and rounds to nearest, ties to even.
    The averages are in Average.v. *)

From stdpp Require Import sorting.
From S2P Require Import Prelude Scenario.
#[local] Open Scope Z_scope.

(** ** Binary64 *)

(** A non-negative double: mantissa below 2^53 and exponent, [f_mant * 2 ^ f_exp]. *)
Record float64 := mkFloat { f_mant : Z; f_exp : Z }.

(** Round [m * 2 ^ e] to 53 significant bits, to nearest, ties to even. *)
Definition round53 (m e : Z) : float64 :=
  let s := Z.log2 m - 52 in
  if s <=? 0 then mkFloat m e
  else
    let q := m / 2 ^ s in
    let r := m mod 2 ^ s in
    let half := 2 ^ (s - 1) in
    let up := (half <? r) || ((r =? half) && Z.odd q) in
    mkFloat (if up then q + 1 else q) (e + s).

Definition fmul (a b : float64) : float64 := round53 (f_mant a * f_mant b) (f_exp a + f_exp b).

(** [static_cast<double>] of a size_t. *)
Definition of_size (n : Z) : float64 := round53 n 0.

(** [static_cast<size_t>]: towards zero. *)
Definition to_size (a : float64) : Z :=
  if 0 <=? f_exp a then f_mant a * 2 ^ f_exp a else f_mant a / 2 ^ (- f_exp a).

(** The literals 0.50, 0.95, 0.99: the nearest doubles. *)
Definition f050 : float64 := mkFloat 1 (-1).
Definition f095 : float64 := mkFloat 8556839292003942 (-53).
Definition f099 : float64 := mkFloat 8917127262193582 (-53).

(** ** Percentile and the statistics of a snapshot *)

Definition percentile_index (_p : float64) (size : nat) : nat :=
  Z.to_nat (to_size (fmul _p (of_size (Z.of_nat size - 1)))).

Definition Percentile (_sorted : list Z) (_p : float64) : outcome Z :=
  match _sorted with
  | [] => Ok 0
  | _ =>
      match _sorted !! percentile_index _p (length _sorted) with
      | Some x => Ok x
      | None => Crash "vector subscript out of range"
      end
  end.

Record Stats := mkStats { minMs : Z; maxMs : Z; p50Ms : Z; p95Ms : Z; p99Ms : Z }.

Definition snapshot_stats (samples : list Z) : outcome Stats :=
  match samples with
  | [] => Ok (mkStats 0 0 0 0 0)
  | _ =>
      let samples := merge_sort Z.le samples in
      p50 ← Percentile samples f050;
      p95 ← Percentile samples f095;
      p99 ← Percentile samples f099;
      Ok (mkStats (default 0 (head samples)) (default 0 (last samples)) p50 p95 p99)
  end.

(** ** The index in doubles is the exact index *)

(** Rounding is to the nearest multiple of the last place. *)
Lemma round53_near m e :
  0 < m -> 53 <= Z.log2 m ->
  let s := Z.log2 m - 52 in
  f_exp (round53 m e) = e + s /\
  m / 2 ^ s <= f_mant (round53 m e) /\
  f_mant (round53 m e) * 2 ^ s <= m + 2 ^ (s - 1) /\
  (2 ^ s - 2 ^ (s - 1) < m mod 2 ^ s -> f_mant (round53 m e) = m / 2 ^ s + 1).
Proof.
  intros Hm Hl s. unfold round53. fold s.
  assert (0 < s) as Hs by (unfold s; lia). destruct (s <=? 0) eqn:E; to_prop; [lia|].
  assert (2 ^ s = 2 * 2 ^ (s - 1)) as E2 by (rewrite <- Z.pow_succ_r by lia; f_equal; lia).
  assert (0 < 2 ^ (s - 1)) by lia. cbn [f_exp f_mant].
  pose proof (Z.div_mod m (2 ^ s) ltac:(lia)) as Hd. pose proof (Z.mod_pos_bound m (2 ^ s) ltac:(lia)).
  split_and!; [done|case_match; lia| |].
  - destruct ((2 ^ (s - 1) <? m mod 2 ^ s) || _) eqn:Eu; [|lia].
    apply orb_true_iff in Eu as [Eu|Eu]; [to_prop; lia|].
    apply andb_true_iff in Eu as [Eu _]. to_prop. lia.
  - intros Hr. assert ((2 ^ (s - 1) <? m mod 2 ^ s) = true) as -> by (apply Z.ltb_lt; lia). done.
Qed.

Lemma of_size_exact n : 0 <= n < 2 ^ 53 -> of_size n = mkFloat n 0.
Proof.
  intros Hn. unfold of_size, round53.
  destruct (Z.leb_spec (Z.log2 n - 52) 0) as [_|H]; [done|].
  destruct (decide (n = 0)) as [->|]; [cbn in H; lia|].
  assert (Z.log2 n < 53); [|lia]. apply Z.log2_lt_pow2; lia.
Qed.

(** A literal just below [a / b]: [b * m = a * 2^53 - c] with [2 c < a]. *)
Section ratio.
Context (a b c m : Z).
Hypothesis Hlit : b * m = a * 2 ^ 53 - c.
Hypothesis Hab : 0 < a < b /\ b <= 100 /\ 0 < c /\ 2 * c < a.
Hypothesis Hnodiv : b mod a <> 0.

Lemma ratio_mant_range : 0 < m < 2 ^ 53.
Proof.
  assert (b * 0 < b * m /\ b * m < b * 2 ^ 53) as [H1 H2] by lia.
  split; eapply Z.mul_lt_mono_pos_l; [|exact H1| |exact H2]; lia.
Qed.

(** The product before rounding, between the exact index and the next. *)
Lemma ratio_product n :
  0 < n < 2 ^ 40 ->
  let K := a * n / b in let r := (a * n) mod b in let P := m * n in
  0 <= K /\ 0 < P < 2 ^ 93 /\ b * P <= b * (K * 2 ^ 53) + (b - 1) * 2 ^ 53 /\
  (r <> 0 -> K * 2 ^ 53 <= P) /\
  (r = 0 -> 0 < K * 2 ^ 53 - P /\ (K * 2 ^ 53 - P) * 2 ^ 54 <= P /\ K <> 1).
Proof.
  intros Hn K r P. pose proof ratio_mant_range as Hm.
  change (2 ^ 54) with (2 * 2 ^ 53). change (2 ^ 93) with (2 ^ 53 * 2 ^ 40).
  assert (2 ^ 53 = 8192 * 2 ^ 40) as ET by reflexivity. assert (0 < 2 ^ 40) as HN by reflexivity.
  revert Hn Hm ET HN Hlit. generalize (2 ^ 53) as T. generalize (2 ^ 40) as N. intros N T Hn Hm ET HN Hlit'.
  assert (a * n = b * K + r) as HK by (apply Z.div_mod; lia).
  assert (0 <= r < b) as Hr by (apply Z.mod_pos_bound; lia).
  assert (b * P = (a * T - c) * n) as HP0 by (unfold P; rewrite <- Hlit'; ring).
  assert (b * P = (b * K + r) * T - c * n) as HP by (rewrite HP0, <- HK; ring).
  assert (0 <= a * n) as Han by (apply Z.mul_nonneg_nonneg; lia).
  assert (0 <= K) as HK0 by (apply Z.div_pos; lia).
  assert (0 < c * n) as Hcn by (apply Z.mul_pos_pos; lia).
  assert (c * n <= 50 * N) as Hcn' by (apply Z.mul_le_mono_nonneg; lia).
  assert (0 < P) as HP1 by (apply Z.mul_pos_pos; lia).
  assert (P < T * N) as HP2 by (apply Z.mul_lt_mono_nonneg; lia).
  assert (forall x y, b * x <= b * y -> x <= y) as Hcancel by (intros x y; apply Z.mul_le_mono_pos_l; lia).
  assert (r * T <= (b - 1) * T) by (apply Z.mul_le_mono_nonneg_r; lia).
  split_and!; try done.
  - rewrite HP, Z.mul_add_distr_r, Z.mul_assoc. lia.
  - intros Hr0. apply Hcancel. rewrite HP, Z.mul_add_distr_r, Z.mul_assoc.
    assert (1 * T <= r * T) by (apply Z.mul_le_mono_nonneg_r; lia). lia.
  - intros Hr0. assert (b * (K * T - P) = c * n) as Hd by (rewrite Z.mul_sub_distr_l, HP, Hr0; ring).
    split_and!.
    + apply (Z.mul_lt_mono_pos_l b); lia.
    + apply Hcancel. rewrite Z.mul_assoc, Hd, HP0.
      replace (c * n * (2 * T)) with (2 * c * T * n) by ring. apply Z.mul_le_mono_nonneg_r; [lia|].
      assert ((2 * c + 1) * T <= a * T) by (apply Z.mul_le_mono_nonneg_r; lia). lia.
    + intros HK1. apply Hnodiv. rewrite HK1, Hr0 in HK. replace b with (n * a) by lia. apply Z.mod_mul. lia.
Qed.

(** Dividing a product rounded to a multiple of [B] by [A]: the quotient is [K] when
    the product is less than half a unit below [K] or above it by less than 1. *)
Lemma rounded_quotient (d P K V A B H : Z) :
  0 < d -> 0 < A -> 0 < H -> B = 2 * H -> d * H < A * B ->
  d * P <= d * (K * (A * B)) + (d - 1) * (A * B) -> K * (A * B) - P < H ->
  P / B <= V -> V * B <= P + H -> (B - H < P mod B -> V = P / B + 1) -> V / A = K.
Proof.
  intros Hb HA HH EB HbH Hup HdH Hlo Hhi Hround.
  assert (V * B < (K + 1) * A * B) as Hhi'.
  { apply (Z.mul_lt_mono_pos_l d); [lia|].
    apply (Z.le_lt_trans _ (d * (P + H))); [apply Z.mul_le_mono_nonneg_l; lia|].
    replace (d * ((K + 1) * A * B)) with (d * (K * (A * B)) + d * (A * B)) by ring.
    rewrite Z.mul_add_distr_l. lia. }
  apply Z.mul_lt_mono_pos_r in Hhi'; [|lia].
  enough (K * A <= V) by (symmetry; apply (Z.div_unique _ _ _ (V - A * K)); [left|]; lia).
  destruct (Z.le_gt_cases (K * (A * B)) P) as [Hle|Hgt].
  { etransitivity; [|exact Hlo]. apply Z.div_le_lower_bound; lia. }
  assert (P / B = K * A - 1 /\ P mod B = B - (K * (A * B) - P)) as [Eq Er].
  { split; [symmetry; eapply (Z.div_unique _ _ _ (B - (K * (A * B) - P)))|
            symmetry; eapply (Z.mod_unique _ _ (K * A - 1))]; [left; lia|lia|left; lia|lia]. }
  rewrite Hround, Eq by lia. lia.
Qed.

Lemma ratio_index n : 0 <= n < 2 ^ 40 -> to_size (fmul (mkFloat m (-53)) (of_size n)) = a * n / b.
Proof.
  intros Hn. rewrite of_size_exact by lia. unfold fmul. cbn [f_mant f_exp].
  destruct (decide (n = 0)) as [->|Hn0]; [by rewrite !Z.mul_0_r|].
  destruct (ratio_product n ltac:(lia)) as (HK & HP & Hup & Hpos & Hzero).
  set (K := a * n / b) in *. set (r := (a * n) mod b) in *. set (P := m * n) in *.
  change (-53 + 0) with (-53).
  destruct (Z.lt_ge_cases (Z.log2 P) 53) as [HL|HL].
  - (* no rounding *)
    assert (P < 2 ^ 53) as HP53 by (apply Z.log2_lt_pow2; lia).
    unfold round53. destruct (Z.leb_spec (Z.log2 P - 52) 0); [|lia]. unfold to_size. cbn [f_exp f_mant Z.leb Z.compare].
    change (- -53) with 53. rewrite Z.div_small by lia.
    destruct (decide (r = 0)) as [E|E]; [destruct (Hzero E) as (? & ? & ?)|specialize (Hpos E)]; nia.
  - pose proof (round53_near P (-53) ltac:(lia) HL) as (He & Hlo & Hhi & Hround).
    pose proof (Z.log2_spec P ltac:(lia)) as [_ HPL].
    assert (Z.log2 P < 93) as HL2 by (apply Z.log2_lt_pow2; lia).
    set (s := Z.log2 P - 52) in *. set (V := f_mant (round53 P (-53))) in *.
    assert (0 < 2 ^ (s - 1) /\ 2 ^ s = 2 * 2 ^ (s - 1)) as [HH EB].
    { split; [lia|]. rewrite <- Z.pow_succ_r by lia. f_equal. lia. }
    assert (2 ^ (s - 1) <= 2 ^ 39) as HH39 by (apply Z.pow_le_mono_r; lia).
    assert (2 ^ (53 - s) * 2 ^ s = 2 ^ 53) as EAB by (rewrite <- Z.pow_add_r by lia; f_equal; lia).
    assert (2 ^ 54 * 2 ^ (s - 1) = 2 ^ Z.succ (Z.log2 P)) as EL by (rewrite <- Z.pow_add_r by lia; f_equal; lia).
    unfold to_size. rewrite He. fold V. destruct (Z.leb_spec 0 (-53 + s)) as [?|_]; [lia|].
    replace (- (-53 + s)) with (53 - s) by lia.
    assert (0 < 2 ^ (53 - s)) as HA by lia.
    rewrite <- EAB in Hup, Hpos, Hzero. assert (2 ^ 53 = 2 ^ (53 - s) * 2 ^ s) as ET by done.
    assert (100 * 2 ^ 39 < 2 ^ 53) as H100 by reflexivity. rewrite ET in H100.
    assert (0 < 2 ^ 54) as H54 by reflexivity.
    apply (rounded_quotient b P _ _ _ (2 ^ s) (2 ^ (s - 1))); try done; [lia| |].
    + apply (Z.le_lt_trans _ (100 * 2 ^ 39)); [apply Z.mul_le_mono_nonneg; lia|done].
    + destruct (decide (r = 0)) as [E|E]; [|specialize (Hpos E); lia].
      destruct (Hzero E) as (_ & Hd & _). apply (Z.mul_lt_mono_pos_r (2 ^ 54)); lia.
Qed.
End ratio.

Lemma half_index n : 0 <= n < 2 ^ 40 -> to_size (fmul f050 (of_size n)) = n / 2.
Proof.
  intros Hn. rewrite of_size_exact by lia. unfold fmul, f050. cbn [f_mant f_exp].
  rewrite Z.mul_1_l. change (-1 + 0) with (-1). unfold round53.
  destruct (Z.leb_spec (Z.log2 n - 52) 0) as [_|H]; [done|].
  destruct (decide (n = 0)) as [->|]; [cbn in H; lia|].
  assert (Z.log2 n < 40); [|lia]. apply Z.log2_lt_pow2; lia.
Qed.

(** The rank the code means: [floor (k * (size - 1) / 100)]. *)
Definition rank (k : Z) (size : nat) : nat := Z.to_nat (k * (Z.of_nat size - 1) / 100).

Lemma percentile_index_rank (size : nat) :
  (0 < size)%nat -> Z.of_nat size < 2 ^ 40 ->
  percentile_index f050 size = rank 50 size /\
  percentile_index f095 size = rank 95 size /\
  percentile_index f099 size = rank 99 size.
Proof.
  intros H0 Hs. unfold percentile_index, rank. split_and!; f_equal.
  - rewrite half_index by lia.
    change 100 with (50 * 2). rewrite Z.div_mul_cancel_l by lia. done.
  - unfold f095. rewrite (ratio_index 19 20 8) by (done || lia).
    rewrite <- (Z.div_mul_cancel_l _ 20 5) by lia. f_equal. lia.
  - unfold f099. by rewrite (ratio_index 99 100 8) by (done || lia).
Qed.

Lemma rank_mono k1 k2 size : 0 <= k1 <= k2 -> (0 < size)%nat -> (rank k1 size <= rank k2 size)%nat.
Proof.
  intros Hk Hs. unfold rank. apply Z2Nat.inj_le; try (apply Z.div_pos; nia).
  apply Z.div_le_mono; [lia|]. nia.
Qed.

Lemma rank_lt k size : 0 <= k <= 100 -> (0 < size)%nat -> (rank k size <= size - 1)%nat.
Proof.
  intros Hk Hs. unfold rank. apply Nat2Z.inj_le. rewrite Z2Nat.id by (apply Z.div_pos; nia).
  apply Z.div_le_upper_bound; nia.
Qed.

Lemma sorted_lookup (l : list Z) (i j : nat) x y :
  StronglySorted Z.le l -> (i <= j)%nat -> l !! i = Some x -> l !! j = Some y -> x <= y.
Proof.
  intros Hs. revert i j. induction Hs as [|z l Hl IH Hz]; intros [|i] [|j] Hij Hi Hj; cbn in *; simplify_eq; try lia.
  - rewrite Forall_forall in Hz. by eapply Hz, list_elem_of_lookup_2.
  - by eapply (IH i j); [lia|..].
Qed.

(** A percentile of a non-empty sorted sample is the sample at its rank. *)
Lemma Percentile_at (l : list Z) p k :
  (0 < length l)%nat -> 0 <= k <= 100 -> percentile_index p (length l) = rank k (length l) ->
  exists x, Percentile l p = Ok x /\ l !! rank k (length l) = Some x.
Proof.
  intros Hl Hk Hp. unfold Percentile.
  destruct (lookup_lt_is_Some_2 l (rank k (length l))) as [x Hx]; [pose proof (rank_lt k (length l) Hk Hl); lia|].
  exists x. split; [|done]. destruct l as [|y l]; [cbn in Hl; lia|]. rewrite Hp. by rewrite Hx.
Qed.

(** ** Properties of the statistics *)

(** the index Percentile computes in binary64 - 0.95 and 0.99 are not
    representable and every product is rounded - is the exact rank
    floor(k * (size - 1) / 100), for every sample of fewer than 2^40 values. *)
Theorem percentile_index_exact (size : nat) :
  (0 < size)%nat -> Z.of_nat size < 2 ^ 40 ->
  percentile_index f050 size = rank 50 size /\
  percentile_index f095 size = rank 95 size /\
  percentile_index f099 size = rank 99 size.
Proof. apply percentile_index_rank. Qed.

(** the statistics of a snapshot never index outside the samples, are samples
    (0 without any), and are ordered: min <= p50 <= p95 <= p99 <= max, with every
    sample between min and max. *)
Theorem snapshot_stats_ordered (samples : list Z) :
  Z.of_nat (length samples) < 2 ^ 40 ->
  exists st, snapshot_stats samples = Ok st /\
  minMs st <= p50Ms st <= p95Ms st /\ p95Ms st <= p99Ms st <= maxMs st /\
  Forall (fun x => minMs st <= x <= maxMs st) samples /\
  (samples <> [] -> Forall (fun x => x ∈ samples) [minMs st; p50Ms st; p95Ms st; p99Ms st; maxMs st]).
Proof.
  intros Hlen. destruct samples as [|x0 xs] eqn:Es; [eexists; split; [done|cbn; split_and!; try done]|].
  rewrite <- Es in *. set (l := merge_sort Z.le samples).
  assert (l ≡ₚ samples) as Hp by apply merge_sort_Permutation.
  assert (StronglySorted Z.le l) as Hs by (apply StronglySorted_merge_sort; apply _).
  assert (length l = length samples) as Hll by (by rewrite Hp).
  assert (0 < length l)%nat as Hl by (rewrite Hll, Es; cbn; lia).
  destruct (percentile_index_rank (length l) Hl ltac:(lia)) as (H50 & H95 & H99).
  destruct (Percentile_at l f050 50 Hl ltac:(lia) H50) as (p50 & E50 & L50).
  destruct (Percentile_at l f095 95 Hl ltac:(lia) H95) as (p95 & E95 & L95).
  destruct (Percentile_at l f099 99 Hl ltac:(lia) H99) as (p99 & E99 & L99).
  destruct (lookup_lt_is_Some_2 l 0 Hl) as [mn Lmn].
  destruct (lookup_lt_is_Some_2 l (length l - 1) ltac:(lia)) as [mx Lmx].
  exists (mkStats mn mx p50 p95 p99). split.
  { unfold snapshot_stats. rewrite Es. rewrite <- Es. fold l. rewrite E50. cbn. rewrite E95. cbn. rewrite E99. cbn.
    rewrite head_lookup, Lmn, last_lookup. replace (Nat.pred (length l)) with (length l - 1)%nat by lia.
    rewrite Lmx. done. }
  cbn [minMs maxMs p50Ms p95Ms p99Ms].
  pose proof (rank_mono 50 95 (length l) ltac:(lia) Hl). pose proof (rank_mono 95 99 (length l) ltac:(lia) Hl).
  pose proof (rank_lt 99 (length l) ltac:(lia) Hl).
  assert (forall i j x y, (i <= j)%nat -> l !! i = Some x -> l !! j = Some y -> x <= y) as Hmono
    by (intros; by eapply sorted_lookup).
  split_and!; try (eapply Hmono; [|eassumption..]; lia).
  - apply Forall_forall. intros x Hx. rewrite <- Hp in Hx. apply list_elem_of_lookup_1 in Hx as [i Hi].
    pose proof (lookup_lt_Some _ _ _ Hi). split; [eapply (Hmono 0%nat i)|eapply (Hmono i (length l - 1)%nat)]; try done; lia.
  - intros _. apply Forall_forall. intros x Hx. rewrite <- Hp.
    rewrite !elem_of_cons in Hx. destruct Hx as [->|[->|[->|[->|[->|Hx]]]]]; try (by eapply list_elem_of_lookup_2).
    by apply elem_of_nil in Hx.
Qed.

Lemma percentile_index_exact_witness :
  percentile_index f050 21 = rank 50 21 /\ percentile_index f095 21 = rank 95 21 /\
  percentile_index f099 21 = rank 99 21.
Proof. apply (percentile_index_exact 21); [lia|reflexivity]. Defined.

Definition rtts : list Z := [700; 200; 900; 100; 400].

Lemma snapshot_stats_ordered_witness :
  snapshot_stats rtts = Ok (mkStats 100 900 400 700 700) /\
  exists st, snapshot_stats rtts = Ok st /\ minMs st <= p50Ms st <= p95Ms st /\ p95Ms st <= p99Ms st <= maxMs st.
Proof.
  split; [vm_compute; reflexivity|].
  destruct (snapshot_stats_ordered rtts ltac:(reflexivity)) as (st & H & H1 & H2 & _).
  exists st. exact (conj H (conj H1 H2)).
Defined.

(** ** ReportManager and GracefulShutdown *)

Record IntervalReport := mkReport {
  timestamp : Z;
  totalConnections : Z;
  snapshot : MetricsSnapshot;
  stats : Stats;
}.

(** The CSV file: the summary has the last row's connections and the totals. *)
Inductive csv_line :=
| CsvHeader
| CsvRow (r : IntervalReport)
| CsvSummary (connections totalSuccess totalTimeout totalStuck : Z).

Inductive counter := CSuccess | CTimeout | CStuck.

#[global] Instance counter_eq_dec : EqDecision counter.
Proof. solve_decision. Defined.

Definition snap_count (k : counter) (s : MetricsSnapshot) : Z :=
  match k with CSuccess => successCount s | CTimeout => timeoutCount s | CStuck => stuckCount s end.
Definition metrics_count (k : counter) (m : MetricsAggregator) : Z :=
  match k with CSuccess => m_successCount m | CTimeout => m_timeoutCount m | CStuck => m_stuckCount m end.

(** [total += s.count] over the history, in uint64_t. *)
Definition total_of (k : counter) (history : list IntervalReport) : Z :=
  fold_left (fun t r => u64 (t + snap_count k (snapshot r))) history 0.

Definition csv (history : list IntervalReport) : list csv_line :=
  CsvHeader :: map CsvRow history ++
  [CsvSummary (from_option totalConnections 0 (last history))
     (total_of CSuccess history) (total_of CTimeout history) (total_of CStuck history)].

(** What is left to do in a thread: the lines of ReportInterval, of WriteFinalReport
    ([RCopy], [RWrite]) and of GracefulShutdown.  GetSnapshotAndReset is one step
    ([RSnapshot]) on a thread with an id, whose WRITE_LOCK keeps the recording
    threads out.  The console handler's thread has id 0, with which the lock keeps
    nobody out (Lock.v): there its lines are steps of their own ([RMove], [RRead],
    [RZero]), between which others record. *)
Inductive ract :=
| RSnapshot
| RMove
| RRead (samples : list Z)
| RZero (s : MetricsSnapshot) (samples : list Z)
| RTotals (s : MetricsSnapshot) (st : Stats)
| RPush (r : IntervalReport)
| RCopy
| RWrite (history : list IntervalReport)
| RShutdown (hasId : bool)
| RExit.

(** [rp_main]: the main thread's report or shutdown under way; [rp_console]: the
    threads of the console handler; [rp_unlocked]: one of them has begun its
    snapshot. *)
Record reporting := mkReporting {
  rp_metrics : MetricsAggregator;
  m_history : list IntervalReport;
  s_shuttingDown : bool;
  rp_files : list (list csv_line);
  rp_exited : bool;
  rp_main : list ract;
  rp_console : list (list ract);
  rp_unlocked : bool;
  rp_calls : counter -> Z;         (* RecordRtt, RecordTimeout and RecordStuck calls so far *)
}.

Definition reporting_new : reporting :=
  mkReporting MetricsAggregator_new [] false [] false [] [] false (fun _ => 0).

Definition ReportInterval (hasId : bool) : list ract := if hasId then [RSnapshot] else [RMove].
Definition WriteFinalReport (hasId : bool) : list ract := ReportInterval hasId ++ [RCopy].

Definition set_metrics (m : MetricsAggregator) (p : reporting) : reporting :=
  mkReporting m (m_history p) (s_shuttingDown p) (rp_files p) (rp_exited p) (rp_main p) (rp_console p)
    (rp_unlocked p) (rp_calls p).
Definition set_main (t : list ract) (p : reporting) : reporting :=
  mkReporting (rp_metrics p) (m_history p) (s_shuttingDown p) (rp_files p) (rp_exited p) t (rp_console p)
    (rp_unlocked p) (rp_calls p).
Definition set_console (t : list (list ract)) (p : reporting) : reporting :=
  mkReporting (rp_metrics p) (m_history p) (s_shuttingDown p) (rp_files p) (rp_exited p) (rp_main p) t
    (rp_unlocked p) (rp_calls p).

(** [if (s_shuttingDown.exchange(true)) return;], the report, the exit. *)
Definition GracefulShutdown (hasId : bool) (p : reporting) : list ract * reporting :=
  let was := s_shuttingDown p in
  let p := mkReporting (rp_metrics p) (m_history p) true (rp_files p) (rp_exited p) (rp_main p) (rp_console p)
             (rp_unlocked p) (rp_calls p) in
  (if was then [] else WriteFinalReport hasId ++ [RExit], p).

(** Control-C, control-break and closing the console end the run. *)
Definition CTRL_C_EVENT : Z := 0.
Definition CTRL_BREAK_EVENT : Z := 1.
Definition CTRL_CLOSE_EVENT : Z := 2.
Definition ConsoleHandler (_signal : Z) : list ract :=
  if (_signal =? CTRL_C_EVENT) || (_signal =? CTRL_BREAK_EVENT) || (_signal =? CTRL_CLOSE_EVENT)
  then [RShutdown false] else [].

(** [now] is the clock, [opened] whether the file could be created. *)
Definition exec_ract (a : ract) (now : Z) (opened : bool) (p : reporting) : outcome (list ract * reporting) :=
  let m := rp_metrics p in
  match a with
  | RSnapshot =>
      st ← snapshot_stats (m_rttSamples m);
      let '(s, m) := GetSnapshotAndReset m in
      Ok ([RTotals s st], set_metrics m p)
  | RMove =>
      Ok ([RRead (m_rttSamples m)],
          mkReporting (mkMetrics [] (m_successCount m) (m_timeoutCount m) (m_stuckCount m) (m_totalConnections m))
            (m_history p) (s_shuttingDown p) (rp_files p) (rp_exited p) (rp_main p) (rp_console p) true (rp_calls p))
  | RRead samples =>
      Ok ([RZero (mkSnapshot (m_successCount m) (m_timeoutCount m) (m_stuckCount m) (Z.of_nat (length samples))) samples], p)
  | RZero s samples =>
      st ← snapshot_stats samples;
      Ok ([RTotals s st], set_metrics (mkMetrics (m_rttSamples m) 0 0 0 (m_totalConnections m)) p)
  | RTotals s st => Ok ([RPush (mkReport now (m_totalConnections m) s st)], p)
  | RPush r =>
      Ok ([], mkReporting m (m_history p ++ [r]) (s_shuttingDown p) (rp_files p) (rp_exited p)
                (rp_main p) (rp_console p) (rp_unlocked p) (rp_calls p))
  | RCopy => Ok ([RWrite (m_history p)], p)
  | RWrite history =>
      Ok ([], mkReporting m (m_history p) (s_shuttingDown p)
                (if opened then rp_files p ++ [csv history] else rp_files p) (rp_exited p)
                (rp_main p) (rp_console p) (rp_unlocked p) (rp_calls p))
  | RShutdown hasId => Ok (GracefulShutdown hasId p)
  | RExit =>
      Ok ([], mkReporting m (m_history p) (s_shuttingDown p) (rp_files p) true
                (rp_main p) (rp_console p) (rp_unlocked p) (rp_calls p))
  end.

(** A session records an answered ping, a timeout, a session given up. *)
Definition record (k : counter) (rtt : Z) (p : reporting) : reporting :=
  let p := set_metrics
    (match k with
     | CSuccess => RecordRtt rtt (rp_metrics p)
     | CTimeout => RecordTimeout (rp_metrics p)
     | CStuck => RecordStuck (rp_metrics p)
     end) p in
  mkReporting (rp_metrics p) (m_history p) (s_shuttingDown p) (rp_files p) (rp_exited p) (rp_main p) (rp_console p)
    (rp_unlocked p) (fun k' => if decide (k = k') then rp_calls p k' + 1 else rp_calls p k').

(** The main loop reports every ten seconds and ends the run after its duration, one
    after the other on its own thread; a signal gets a thread of its own. *)
Inductive report_step : reporting -> reporting -> Prop :=
| rs_record p k rtt : rp_exited p = false -> report_step p (record k rtt p)
| rs_timer p : rp_exited p = false -> rp_main p = [] -> report_step p (set_main (ReportInterval true) p)
| rs_duration p : rp_exited p = false -> rp_main p = [] -> report_step p (set_main [RShutdown true] p)
| rs_signal p sig : rp_exited p = false -> report_step p (set_console (rp_console p ++ [ConsoleHandler sig]) p)
| rs_main p a k now opened acts p' :
    rp_exited p = false -> rp_main p = a :: k -> exec_ract a now opened p = Ok (acts, p') ->
    report_step p (set_main (acts ++ k) p')
| rs_console p t1 a k t2 now opened acts p' :
    rp_exited p = false -> rp_console p = t1 ++ (a :: k) :: t2 -> exec_ract a now opened p = Ok (acts, p') ->
    report_step p (set_console (t1 ++ (acts ++ k) :: t2) p').

(** Fewer than 2^64 calls of each kind: the counters do not wrap. *)
Definition calls_fit (p : reporting) : Prop := forall k, rp_calls p k < 2 ^ 64.
Definition report_reach : reporting -> Prop := reach (fun p => p = reporting_new) report_step calls_fit.

(** *** The file is written once *)

Definition writer1 (a : ract) : Z := match a with RCopy | RWrite _ => 1 | _ => 0 end.

(** Threads that will still write the file, and the files there are. *)
Definition writers (p : reporting) : Z :=
  zsum writer1 (rp_main p) + zsum (zsum writer1) (rp_console p) + Z.of_nat (length (rp_files p)).

Definition once (p : reporting) : Prop := writers p <= Z.b2z (s_shuttingDown p).

Lemma exec_once a now opened p acts p' :
  exec_ract a now opened p = Ok (acts, p') ->
  rp_main p' = rp_main p /\ rp_console p' = rp_console p /\
  zsum writer1 acts + Z.of_nat (length (rp_files p')) - Z.b2z (s_shuttingDown p') <=
    writer1 a + Z.of_nat (length (rp_files p)) - Z.b2z (s_shuttingDown p).
Proof.
  intros E. destruct a; cbn [exec_ract] in E; try apply bind_Ok_inv in E as (st & _ & E); cbn in E; simplify_eq;
    cbn; try (split_and!; (done || lia)).
  - destruct opened; rewrite ?length_app; cbn; split_and!; (done || lia).
  - destruct (s_shuttingDown p), hasId; cbn; split_and!; (done || lia).
Qed.

Lemma once_step p p' : once p -> report_step p p' -> once p'.
Proof.
  unfold once, writers.
  intros Hi Hs. destruct Hs as [p k rtt _|p _ Hm|p _ Hm|p sig _|p a k t o acts p' _ Hm E|p t1 a k t2 t o acts p' _ Hc E];
    cbn [set_main set_console record rp_main rp_console rp_files s_shuttingDown].
  - by destruct k.
  - rewrite Hm in Hi. done.
  - rewrite Hm in Hi. done.
  - rewrite zsum_app. unfold ConsoleHandler. case_match; cbn; lia.
  - apply exec_once in E as (E1 & E2 & E3). rewrite Hm in Hi. rewrite E2, zsum_app. cbn [zsum] in Hi. lia.
  - apply exec_once in E as (E1 & E2 & E3). rewrite Hc in Hi. rewrite E1.
    rewrite zsum_app in Hi |- *. cbn [zsum] in *. rewrite zsum_app. lia.
Qed.

(** *** What is counted, as long as every snapshot is taken under the lock *)

(** What an interval taken but not yet filed counts. *)
Definition hand1 (k : counter) (a : ract) : Z :=
  match a with RTotals s _ => snap_count k s | RPush r => snap_count k (snapshot r) | _ => 0 end.
Definition filed (k : counter) (h : list IntervalReport) : Z := zsum (fun r => snap_count k (snapshot r)) h.

(** Where the main thread can be. *)
Inductive main_at : list ract -> Prop :=
| at_loop : main_at []
| at_end : main_at [RShutdown true]
| at_interval a rest :
    match a with RSnapshot | RTotals _ _ | RPush _ => True | _ => False end ->
    rest = [] \/ rest = [RCopy; RExit] -> main_at (a :: rest)
| at_copy : main_at [RCopy; RExit]
| at_write h : main_at [RWrite h; RExit]
| at_exit : main_at [RExit].

Record locked_inv (p : reporting) : Prop := mkLockedInv {
  li_main : main_at (rp_main p);
  li_console : Forall (fun t => t = [] \/ t = [RShutdown false] \/ t = [RMove; RCopy; RExit]) (rp_console p);
  li_count : forall k, rp_calls p k = metrics_count k (rp_metrics p) + zsum (hand1 k) (rp_main p) + filed k (m_history p);
  li_nonneg : forall k, 0 <= metrics_count k (rp_metrics p) /\ Forall (fun a => 0 <= hand1 k a) (rp_main p) /\
    Forall (fun r => 0 <= snap_count k (snapshot r)) (m_history p);
  li_write : forall h, rp_main p = [RWrite h; RExit] -> h = m_history p;
  li_files : forall f, f ∈ rp_files p ->
    f = csv (m_history p) /\ (rp_main p = [RExit] \/ (rp_main p = [] /\ rp_exited p = true));
}.

Lemma filed_nonneg k h : Forall (fun r => 0 <= snap_count k (snapshot r)) h -> 0 <= filed k h.
Proof. intros H. apply zsum_nonneg. by apply Forall_forall. Qed.

(** No file yet, unless the main thread is past writing it. *)
Lemma no_file p :
  locked_inv p -> rp_exited p = false -> rp_main p <> [RExit] -> rp_files p = [].
Proof.
  intros Hi He Hn. destruct (rp_files p) as [|f l] eqn:Ef; [done|].
  destruct (li_files p Hi f) as [_ [?|[_ ?]]]; [rewrite Ef; by left|done|congruence].
Qed.

Lemma record_inv p k rtt : locked_inv p -> calls_fit (record k rtt p) -> locked_inv (record k rtt p).
Proof.
  intros [H0 Hc H1 H2 H3 H4] Hb. split; try done.
  - intros k'. specialize (Hb k). cbn in Hb. destruct (decide (k = k)); [|done].
    destruct (H2 k) as (Hm & Hh & Hf). apply filed_nonneg in Hf.
    assert (0 <= zsum (hand1 k) (rp_main p)) as Hh'.
    { apply zsum_nonneg. by apply Forall_forall. }
    assert (0 <= metrics_count k (rp_metrics p) + 1 < 2 ^ 64) as Hr by (specialize (H1 k); lia).
    cbn [record set_metrics rp_metrics m_history rp_main rp_calls]. rewrite H1. destruct (decide (k = k')) as [<-|Hne].
    + destruct k; cbn [metrics_count RecordRtt RecordTimeout RecordStuck m_successCount m_timeoutCount m_stuckCount] in *;
        rewrite (wrapU_small 64) by lia; lia.
    + destruct k, k'; try done; cbn; lia.
  - intros k'. specialize (H2 k'). destruct H2 as (Hm & ? & ?). split_and!; try done.
    destruct k, k'; cbn in *; try lia; apply (wrapU_range 64); lia.
Qed.

Lemma main_inv p a k now opened acts p' :
  locked_inv p -> rp_exited p = false -> rp_main p = a :: k -> exec_ract a now opened p = Ok (acts, p') ->
  locked_inv (set_main (acts ++ k) p').
Proof.
  intros Hi He Hm E. pose proof (no_file p Hi He) as Hnf. destruct Hi as [H0 Hc H1 H2 H3 H4].
  rewrite Hm in *. assert (forall c, 0 <= hand1 c a /\ Forall (fun b => 0 <= hand1 c b) k) as Hk.
  { intros c. destruct (H2 c) as (_ & Hf & _). by apply Forall_cons in Hf. }
  inversion H0 as [| |a' rest Ha Hrest|h|h|]; subst.
  - rewrite Hnf in H4 by done. cbn in E. simplify_eq. destruct (s_shuttingDown p); cbn.
    + split; cbn; [exact at_loop|done|intros c; specialize (H1 c); unfold filed in *; cbn in *; lia| |done|].
      * intros c. destruct (H2 c) as (? & _ & ?). by split_and!.
      * rewrite Hnf by done. set_solver.
    + split; cbn; [by constructor; [|right]|done|intros c; specialize (H1 c); unfold filed in *; cbn in *; lia| |done|].
      * intros c. destruct (H2 c) as (? & _ & ?). split_and!; [done|by repeat constructor|done].
      * rewrite Hnf by done. set_solver.
  - assert (a :: k <> [RExit]) as Hne by (by destruct a).
    specialize (Hnf Hne). destruct a; try done; cbn [exec_ract] in E; cbn in E.
    + apply bind_Ok_inv in E as (st & _ & E). cbn in E. simplify_eq.
      split; cbn; [by constructor|done| | |by destruct Hrest as [->| ->]|rewrite Hnf; set_solver].
      * intros c. specialize (H1 c). unfold filed in *. cbn [zsum hand1] in H1.
        destruct c; cbn [metrics_count snap_count m_successCount m_timeoutCount m_stuckCount successCount
          timeoutCount stuckCount] in *; lia.
      * intros c. destruct (H2 c) as (? & _ & ?), (Hk c). split_and!; [by destruct c| |done].
        constructor; [|done]. by destruct c.
    + simplify_eq. split; cbn; [by constructor|done| | |by destruct Hrest as [->| ->]|rewrite Hnf; set_solver].
      * intros c. specialize (H1 c). unfold filed in *. cbn in *. lia.
      * intros c. destruct (H2 c) as (? & _ & ?), (Hk c). split_and!; [done| |done]. by constructor.
    + simplify_eq. split; cbn; [destruct Hrest as [->| ->]; [exact at_loop|exact at_copy]|done| | |by destruct Hrest as [->| ->]|rewrite Hnf; set_solver].
      * intros c. specialize (H1 c). unfold filed in *. rewrite zsum_app. cbn in *. lia.
      * intros c. destruct (H2 c) as (? & _ & ?), (Hk c). split_and!; [done|done|].
        apply Forall_app. split; [done|by repeat constructor].
  - cbn in E. simplify_eq. rewrite Hnf in H4 by done.
    split; cbn; [apply at_write|done|intros c; specialize (H1 c); unfold filed in *; cbn in *; lia| |intros h [= <-]; done|rewrite Hnf by done; set_solver].
    intros c. destruct (H2 c) as (? & _ & ?). split_and!; [done|by repeat constructor|done].
  - cbn in E. simplify_eq. specialize (H3 h eq_refl). subst h. specialize (Hnf ltac:(done)).
    split; cbn; [exact at_exit|done|intros c; specialize (H1 c); unfold filed in *; cbn in *; lia| |done|].
    + intros c. destruct (H2 c) as (? & _ & ?). split_and!; [done|by repeat constructor|done].
    + intros f. rewrite Hnf. destruct opened; cbn; [|set_solver]. rewrite list_elem_of_singleton. intros ->. auto.
  - cbn in E. simplify_eq.
    split; cbn; [exact at_loop|done|intros c; specialize (H1 c); unfold filed in *; cbn in *; lia| |done|].
    + intros c. destruct (H2 c) as (? & _ & ?). by split_and!.
    + intros f Hf. destruct (H4 f Hf) as [-> _]. auto.
Qed.

(** A console thread up to its snapshot. *)
Lemma console_inv p t1 a k t2 now opened acts p' :
  locked_inv p -> rp_console p = t1 ++ (a :: k) :: t2 -> exec_ract a now opened p = Ok (acts, p') ->
  rp_unlocked p' = false -> locked_inv (set_console (t1 ++ (acts ++ k) :: t2) p').
Proof.
  intros [H0 Hc H1 H2 H3 H4] Ht E Hu. rewrite Ht in Hc. apply Forall_app in Hc as [Hc1 Hc2].
  apply Forall_cons in Hc2 as [Ha Hc2]. destruct Ha as [|[|]]; simplify_eq; cbn in E; simplify_eq; try done.
  split; cbn; try done. rewrite Forall_app, Forall_cons. split_and!; try done. destruct (s_shuttingDown p); auto.
Qed.

Lemma unlocked_stays a now opened p acts p' :
  exec_ract a now opened p = Ok (acts, p') -> rp_unlocked p' = false -> rp_unlocked p = false.
Proof.
  intros E. destruct a; cbn [exec_ract] in E; try apply bind_Ok_inv in E as (st & _ & E); cbn in E; by simplify_eq.
Qed.

Lemma locked_step p p' :
  (rp_unlocked p = false -> locked_inv p) -> report_step p p' -> calls_fit p' ->
  rp_unlocked p' = false -> locked_inv p'.
Proof.
  intros Hi Hs Hb Hu.
  destruct Hs as [p k rtt _|p He Hm|p He Hm|p sig _|p a k t o acts p' He Hm E|p t1 a k t2 t o acts p' _ Hc E].
  - apply record_inv; [by apply Hi|done].
  - pose proof (no_file p (Hi Hu) He) as Hnf. destruct (Hi Hu) as [H0 Hc H1 H2 H3 H4].
    rewrite Hm in *. specialize (Hnf ltac:(done)).
    split; cbn; [by constructor; [|left]|done|intros c; specialize (H1 c); unfold filed in *; cbn in *; lia| |done|rewrite Hnf; set_solver].
    intros c. destruct (H2 c) as (? & _ & ?). split_and!; [done|by repeat constructor|done].
  - pose proof (no_file p (Hi Hu) He) as Hnf. destruct (Hi Hu) as [H0 Hc H1 H2 H3 H4].
    rewrite Hm in *. specialize (Hnf ltac:(done)).
    split; cbn; [exact at_end|done|intros c; specialize (H1 c); unfold filed in *; cbn in *; lia| |done|rewrite Hnf; set_solver].
    intros c. destruct (H2 c) as (? & _ & ?). split_and!; [done|by repeat constructor|done].
  - destruct (Hi Hu) as [H0 Hc H1 H2 H3 H4]. split; try done. cbn. apply Forall_app. split; [done|].
    constructor; [|done]. unfold ConsoleHandler. case_match; auto.
  - eapply main_inv; [|done..|exact E]. apply Hi. by eapply unlocked_stays.
  - eapply console_inv; [|exact Hc|exact E|exact Hu]. apply Hi. by eapply unlocked_stays.
Qed.

Lemma report_reach_inv p : report_reach p -> once p /\ (rp_unlocked p = false -> locked_inv p).
Proof.
  intros Hr. induction Hr as [p ->|p p' _ [IH1 IH2] Hs Hb].
  - split; [done|]. intros _. split; cbn; try done; [constructor|intros []; reflexivity| |set_solver].
    intros []; cbn; split_and!; (lia || constructor).
  - split; [by eapply once_step|by eapply locked_step].
Qed.

(** The totals do not wrap. *)
Lemma total_filed k h :
  Forall (fun r => 0 <= snap_count k (snapshot r)) h -> filed k h < 2 ^ 64 -> total_of k h = filed k h.
Proof.
  intros Hn Hb. unfold total_of.
  enough (forall t, 0 <= t -> t + filed k h < 2 ^ 64 ->
    fold_left (fun t r => u64 (t + snap_count k (snapshot r))) h t = t + filed k h) as H by (rewrite H; lia).
  clear Hb. induction Hn as [|r h Hr Hh IH]; intros t Ht Hb; cbn [fold_left filed zsum] in *; [unfold filed; cbn; lia|].
  unfold filed in *. cbn [zsum] in Hb. pose proof (filed_nonneg k h Hh) as Hf. unfold filed in Hf.
  rewrite (wrapU_small 64) by lia. rewrite IH by lia. lia.
Qed.

(** *** Properties *)

(** C40: the final report.  Over every interleaving of recording sessions, the main
    loop's reports and end of run, and console signals, the file is written at most
    once.  As long as no console signal has got as far as its snapshot, which it
    takes without the lock, the file holds the whole history, and for each of the
    three counters the total in its summary and what was recorded after the last
    snapshot add up to the number of calls: nothing recorded before that snapshot
    is missing or counted twice. *)
Theorem final_report_accounts (p : reporting) :
  report_reach p ->
  (length (rp_files p) <= 1)%nat /\
  (rp_unlocked p = false -> forall f, f ∈ rp_files p ->
   f = csv (m_history p) /\
   forall k, total_of k (m_history p) + metrics_count k (rp_metrics p) = rp_calls p k /\
             0 <= metrics_count k (rp_metrics p)).
Proof.
  intros Hr. assert (calls_fit p) as Hb.
  { destruct Hr as [p ->|? ? _ _ Hb]; [intros []; reflexivity|exact Hb]. }
  apply report_reach_inv in Hr as [H1 H2]. split.
  - unfold once, writers in H1.
    assert (forall t, 0 <= zsum writer1 t) as Hw by (intros t; apply zsum_nonneg; intros [] _; cbn; lia).
    specialize (Hw (rp_main p)) as Hw1.
    assert (0 <= zsum (zsum writer1) (rp_console p)) by (apply zsum_nonneg; intros; apply Hw).
    destruct (s_shuttingDown p); cbn in H1; lia.
  - intros Hu f Hf. destruct (H2 Hu) as [_ _ Hcount Hnn _ Hfile]. destruct (Hfile f Hf) as [-> Hmain].
    split; [done|]. intros k. destruct (Hnn k) as (Hm & _ & Hn). specialize (Hcount k). specialize (Hb k).
    assert (zsum (hand1 k) (rp_main p) = 0) as Hz by (destruct Hmain as [->|[-> _]]; done).
    pose proof (filed_nonneg k _ Hn). rewrite total_filed by (done || lia). lia.
Qed.

(** A run: two answers and a timeout are recorded, the timer reports, one more
    answer comes in, the run's duration ends it, and a control-C then is ignored. *)
Definition next_main (p : reporting) : reporting :=
  match rp_main p with
  | a :: k => match exec_ract a 0 true p with Ok (acts, p') => set_main (acts ++ k) p' | Crash _ => p end
  | [] => p
  end.

Definition next_console (i : nat) (p : reporting) : reporting :=
  match rp_console p !! i with
  | Some (a :: k) =>
      match exec_ract a 0 true p with
      | Ok (acts, p') => set_console (take i (rp_console p) ++ (acts ++ k) :: drop (S i) (rp_console p)) p'
      | Crash _ => p
      end
  | _ => p
  end.

Definition signalled (p : reporting) : reporting := set_console (rp_console p ++ [ConsoleHandler CTRL_C_EVENT]) p.

Definition rp_demo : reporting :=
  let p := record CTimeout 0 (record CSuccess 300 (record CSuccess 200 reporting_new)) in
  let p := next_main (next_main (next_main (set_main (ReportInterval true) p))) in
  let p := record CSuccess 250 p in
  let p := next_main (set_main [RShutdown true] p) in
  let p := next_console 0 (signalled p) in
  next_main (next_main (next_main (next_main (next_main (next_main p))))).

Lemma next_main_reach p :
  report_reach p -> rp_exited p = false -> calls_fit (next_main p) -> report_reach (next_main p).
Proof.
  intros Hr He Hb. unfold next_main in *. destruct (rp_main p) as [|a k] eqn:E; [done|].
  destruct (exec_ract a 0 true p) as [[acts p']|] eqn:Ee; [|done].
  by eapply reach_step; [done|eapply rs_main|].
Qed.

Lemma next_console_reach i p :
  report_reach p -> rp_exited p = false -> calls_fit (next_console i p) -> report_reach (next_console i p).
Proof.
  intros Hr He Hb. unfold next_console in *. destruct (rp_console p !! i) as [[|a k]|] eqn:E; try done.
  destruct (exec_ract a 0 true p) as [[acts p']|] eqn:Ee; [|done].
  eapply reach_step; [done|eapply rs_console; [done| |exact Ee]|exact Hb]. by rewrite take_drop_middle.
Qed.

Lemma few_calls (p : reporting) :
  rp_calls p CSuccess < 10 -> rp_calls p CTimeout < 10 -> rp_calls p CStuck < 10 -> calls_fit p.
Proof. intros ? ? ? []; lia. Qed.

(** Goes back one step of a run that is spelt out. *)
Ltac run_back :=
  lazymatch goal with
  | |- report_reach (next_main ?p) =>
      refine (next_main_reach p _ _ _); [|vm_compute; reflexivity|apply few_calls; vm_compute; reflexivity]
  | |- report_reach (next_console ?i ?p) =>
      refine (next_console_reach i p _ _ _); [|vm_compute; reflexivity|apply few_calls; vm_compute; reflexivity]
  | |- report_reach (record ?k ?r ?p) =>
      refine (reach_step _ _ _ p _ _ (rs_record p k r _) _); [change (report_reach p)|vm_compute; reflexivity|apply few_calls; vm_compute; reflexivity]
  | |- report_reach (signalled ?p) =>
      refine (reach_step _ _ _ p _ _ (rs_signal p CTRL_C_EVENT _) _); [change (report_reach p)|vm_compute; reflexivity|apply few_calls; vm_compute; reflexivity]
  | |- report_reach (set_main (ReportInterval true) ?p) =>
      refine (reach_step _ _ _ p _ _ (rs_timer p _ _) _); [change (report_reach p)|vm_compute; reflexivity..|apply few_calls; vm_compute; reflexivity]
  | |- report_reach (set_main [RShutdown true] ?p) =>
      refine (reach_step _ _ _ p _ _ (rs_duration p _ _) _); [change (report_reach p)|vm_compute; reflexivity..|apply few_calls; vm_compute; reflexivity]
  end.

Lemma rp_demo_reach : report_reach rp_demo.
Proof. unfold rp_demo. cbv zeta. repeat run_back. by apply reach_init. Qed.

Lemma rp_demo_file :
  rp_files rp_demo = [csv (m_history rp_demo)] /\ rp_unlocked rp_demo = false /\
  last (csv (m_history rp_demo)) = Some (CsvSummary 0 3 1 0) /\ rp_calls rp_demo CSuccess = 3.
Proof. vm_compute. split_and!; reflexivity. Qed.

Lemma final_report_accounts_witness :
  rp_files rp_demo = [csv (m_history rp_demo)] /\ (length (rp_files rp_demo) <= 1)%nat /\
  total_of CSuccess (m_history rp_demo) + metrics_count CSuccess (rp_metrics rp_demo) = 3.
Proof.
  destruct (final_report_accounts rp_demo rp_demo_reach) as [H1 H2], rp_demo_file as (E & Hu & _ & Hc).
  assert (csv (m_history rp_demo) ∈ rp_files rp_demo) as Hf by (rewrite E; apply list_elem_of_here).
  destruct (H2 Hu _ Hf) as [_ H3]. split; [exact E|]. split; [exact H1|].
  rewrite <- Hc. exact (proj1 (H3 CSuccess)).
Defined.

(** A control-C loses a count: an answer recorded while the console handler's
    thread is between reading the counters and clearing them is in no interval and
    in no counter. *)
Definition lost_demo : reporting :=
  let p := next_console 0 (next_console 0 (next_console 0 (signalled reporting_new))) in
  let p := record CSuccess 200 p in
  next_console 0 (next_console 0 (next_console 0 (next_console 0 (next_console 0 (next_console 0 p))))).

Theorem console_report_loses_count :
  report_reach lost_demo /\ rp_exited lost_demo = true /\ rp_calls lost_demo CSuccess = 1 /\
  total_of CSuccess (m_history lost_demo) = 0 /\ metrics_count CSuccess (rp_metrics lost_demo) = 0 /\
  rp_files lost_demo = [csv (m_history lost_demo)].
Proof.
  split; [|vm_compute; split_and!; reflexivity].
  unfold lost_demo. cbv zeta. repeat run_back. by apply reach_init.
Qed.
