(* ===== verification/Average.v ===== *)
(** * The average round trip

    The two averages of the load generator's report, as the code computes them in
    doubles: [avgMs] of MetricsAggregator::GetSnapshotAndReset
    (src/DhNet_Client/DhNet_StressTest/MetricsAggregator.cpp) and the overall
    average of ReportManager::WriteFinalReport.

    Sums, products and quotients are those of Report.v's binary64: exact results
    rounded to 53 bits, to nearest, ties to even.  The range of exponents is not
    bounded in the model: round trips in milliseconds and their sums are far inside
    that of a double.

    Every rounding changes a value by a factor within 1 - 2^-53 and 1 + 2^-53
    ([round53_close]); [close k] counts such factors. *)

From Stdlib Require Import QArith Qpower Qabs Lqa.
From S2P Require Import Prelude Report.
#[local] Open Scope Q_scope.

(** ** Sum and quotient of doubles *)

Definition fzero : float64 := mkFloat 0 0.

Definition fadd (a b : float64) : float64 :=
  let e := Z.min (f_exp a) (f_exp b) in
  round53 (f_mant a * 2 ^ (f_exp a - e) + f_mant b * 2 ^ (f_exp b - e)) e.

(** The quotient to more than 54 bits, with a last bit that says whether it is
    exact, rounded once. *)
Definition fdiv (a b : float64) : float64 :=
  let k := (56 + Z.log2 (f_mant b))%Z in
  let n := (f_mant a * 2 ^ k)%Z in
  let q := (n / f_mant b)%Z in
  let sticky := (if n mod f_mant b =? 0 then 0 else 1)%Z in
  round53 (2 * q + sticky) (f_exp a - f_exp b - k - 1).

(** ** The averages *)

(** [std::accumulate(samples, 0.0) / samples.size()]. *)
Definition avgMs (samples : list float64) : float64 :=
  match samples with
  | [] => fzero
  | _ => fdiv (foldl fadd fzero samples) (of_size (Z.of_nat (length samples)))
  end.

(** The loop of WriteFinalReport over the average and the count of each interval. *)
Definition weighted_sum (history : list (float64 * Z)) : float64 :=
  foldl (fun acc s => fadd acc (fmul (fst s) (of_size (snd s)))) fzero history.

Definition total_samples (history : list (float64 * Z)) : Z :=
  foldl (fun acc s => u64 (acc + snd s)) 0%Z history.

Definition overallAvgRtt (history : list (float64 * Z)) : float64 :=
  if (0 <? total_samples history)%Z then fdiv (weighted_sum history) (of_size (total_samples history)) else fzero.

(** ** Values *)

Definition pow2 (e : Z) : Q := Qpower 2 e.
Definition value (a : float64) : Q := inject_Z (f_mant a) * pow2 (f_exp a).

(** The unit roundoff. *)
Definition u : Q := 1 # 9007199254740992.

Fixpoint qpow (x : Q) (n : nat) : Q := match n with O => 1 | S n => x * qpow x n end.

(** [y] is [x] up to [k] roundings. *)
Definition close (k : nat) (x y : Q) : Prop := qpow (1 - u) k * x <= y /\ y <= qpow (1 + u) k * x.

Lemma pow2_pos e : 0 < pow2 e.
Proof. apply Qpower_0_lt. reflexivity. Qed.

Lemma pow2_add a b : pow2 (a + b) == pow2 a * pow2 b.
Proof. apply Qpower_plus. discriminate. Qed.

Lemma pow2_Z e : (0 <= e)%Z -> pow2 e == inject_Z (2 ^ e).
Proof.
  intros He. unfold pow2. symmetry. by apply (Zpower_Qpower 2).
Qed.

Lemma qpow_pos x n : 0 < x -> 0 < qpow x n.
Proof. intros Hx. induction n as [|n IH]; cbn; [reflexivity|]. by apply Qmult_lt_0_compat. Qed.

Lemma qpow_add x m n : qpow x (m + n) == qpow x m * qpow x n.
Proof. induction m as [|m IH]; cbn; [ring|]. rewrite IH. ring. Qed.

Lemma lo_pos k : 0 < qpow (1 - u) k.
Proof. by apply qpow_pos. Qed.

Lemma hi_pos k : 0 < qpow (1 + u) k.
Proof. by apply qpow_pos. Qed.

(** ** Counting roundings *)

Lemma close_refl x y : x == y -> close 0 x y.
Proof. intros E. unfold close. cbn. split; lra. Qed.

Lemma close_proper k x x' y y' : x == x' -> y == y' -> close k x y -> close k x' y'.
Proof. intros E1 E2 [H1 H2]. unfold close. rewrite <- E1, <- E2. done. Qed.

Lemma mul_le c x y : 0 <= c -> x <= y -> c * x <= c * y.
Proof. intros Hc Hx. rewrite !(Qmult_comm c). by apply Qmult_le_compat_r. Qed.

Lemma close_nonneg k x y : 0 <= x -> close k x y -> 0 <= y.
Proof.
  intros Hx [H1 _]. eapply Qle_trans; [|exact H1]. apply Qmult_le_0_compat; [apply Qlt_le_weak, lo_pos|done].
Qed.

Lemma close_trans j k x y z : close j x y -> close k y z -> close (j + k) x z.
Proof.
  intros [H1 H2] [H3 H4]. unfold close. rewrite !qpow_add. split.
  - eapply Qle_trans; [|exact H3]. rewrite (Qmult_comm (qpow _ j)), <- Qmult_assoc.
    apply mul_le; [apply Qlt_le_weak, lo_pos|done].
  - eapply Qle_trans; [exact H4|]. rewrite (Qmult_comm (qpow _ j)), <- Qmult_assoc.
    apply mul_le; [apply Qlt_le_weak, hi_pos|done].
Qed.

Lemma close_S k x y : 0 <= x -> close k x y -> close (S k) x y.
Proof.
  intros Hx [H1 H2]. unfold close. cbn [qpow].
  pose proof (lo_pos k). pose proof (hi_pos k).
  assert (0 <= qpow (1 - u) k * x) by (apply Qmult_le_0_compat; lra).
  assert (0 <= qpow (1 + u) k * x) by (apply Qmult_le_0_compat; lra).
  rewrite <- !Qmult_assoc. unfold u in *. split; lra.
Qed.

Lemma close_mono j k x y : (j <= k)%nat -> 0 <= x -> close j x y -> close k x y.
Proof. intros Hjk Hx. induction Hjk; [done|]. intros. by apply close_S, IHHjk. Qed.

Lemma close_add k x x' y y' : close k x y -> close k x' y' -> close k (x + x') (y + y').
Proof. intros [H1 H2] [H3 H4]. unfold close. rewrite !Qmult_plus_distr_r. split; lra. Qed.

Lemma close_scale k c x y : 0 <= c -> close k x y -> close k (x * c) (y * c).
Proof.
  intros Hc [H1 H2]. unfold close. rewrite !Qmult_assoc. split; by apply Qmult_le_compat_r.
Qed.

(** ** One rounding *)

Lemma inject_le a b : (a <= b)%Z -> inject_Z a <= inject_Z b.
Proof. by rewrite <- Zle_Qle. Qed.

Lemma inject_lt a b : (a < b)%Z -> inject_Z a < inject_Z b.
Proof. by rewrite <- Zlt_Qlt. Qed.

(** How far the rounded mantissa is from the exact one. *)
Lemma round53_error m e :
  (0 < m)%Z -> (53 <= Z.log2 m)%Z ->
  let s := (Z.log2 m - 52)%Z in
  f_exp (round53 m e) = (e + s)%Z /\
  (m - 2 ^ (s - 1) <= f_mant (round53 m e) * 2 ^ s <= m + 2 ^ (s - 1))%Z /\
  ((2 <= s)%Z -> Z.odd m = true -> (m - 2 ^ (s - 1) < f_mant (round53 m e) * 2 ^ s < m + 2 ^ (s - 1))%Z).
Proof.
  intros Hm Hl s. unfold round53. fold s.
  assert (0 < s)%Z as Hs by (unfold s; lia). destruct (Z.leb_spec s 0); [lia|]. cbn [f_exp f_mant].
  assert (2 ^ s = 2 * 2 ^ (s - 1))%Z as E2 by (rewrite <- Z.pow_succ_r by lia; f_equal; lia).
  assert (0 < 2 ^ (s - 1))%Z as Hp by (apply Z.pow_pos_nonneg; lia).
  pose proof (Z.div_mod m (2 ^ s) ltac:(lia)) as Hd. pose proof (Z.mod_pos_bound m (2 ^ s) ltac:(lia)) as Hr.
  set (h := (2 ^ (s - 1))%Z) in *. set (r := (m mod 2 ^ s)%Z) in *. set (q := (m / 2 ^ s)%Z) in *.
  assert ((2 <= s)%Z -> Z.odd m = true -> r <> h /\ r <> 0%Z) as Hodd.
  { intros H2 Ho. assert (h = 2 * 2 ^ (s - 2))%Z as Eh.
    { unfold h. rewrite <- Z.pow_succ_r by lia. f_equal. lia. }
    rewrite Hd, E2, Z.odd_add, <- Z.mul_assoc, Z.odd_mul in Ho.
    change (Z.odd 2) with false in Ho. rewrite andb_false_l, xorb_false_l in Ho.
    split; intros E; rewrite E in Ho; [rewrite Eh, Z.odd_mul in Ho|]; done. }
  split; [done|]. destruct ((h <? r) || ((r =? h) && Z.odd q))%Z eqn:Eu; split; try (intros H2 Ho; specialize (Hodd H2 Ho)).
  all: try (apply orb_true_iff in Eu as [Eu|Eu]; [|apply andb_true_iff in Eu as [Eu _]]); to_prop; nia.
Qed.

Lemma round53_small m e : (Z.log2 m <= 52)%Z -> round53 m e = mkFloat m e.
Proof. intros Hl. unfold round53. destruct (Z.leb_spec (Z.log2 m - 52) 0); [done|lia]. Qed.

Lemma half_ulp m : (0 < m)%Z -> (53 <= Z.log2 m)%Z -> inject_Z (2 ^ (Z.log2 m - 53)) <= u * inject_Z m.
Proof.
  intros Hm Hl. pose proof (Z.log2_spec m Hm) as [H1 _].
  assert (2 ^ (Z.log2 m - 53) * 2 ^ 53 <= m)%Z as H2.
  { rewrite <- Z.pow_add_r by lia. replace (Z.log2 m - 53 + 53)%Z with (Z.log2 m) by lia. done. }
  apply inject_le in H2. rewrite inject_Z_mult in H2. unfold u. change (inject_Z (2 ^ 53)) with (9007199254740992 # 1) in H2. lra.
Qed.

Lemma round53_close m e : (0 <= m)%Z -> close 1 (inject_Z m * pow2 e) (value (round53 m e)).
Proof.
  intros Hm. destruct (decide (Z.log2 m <= 52)%Z) as [Hl|Hl].
  { rewrite round53_small by done. apply close_S; [|by apply close_refl].
    apply Qmult_le_0_compat; [by apply (inject_le 0)|apply Qlt_le_weak, pow2_pos]. }
  assert (0 < m)%Z as Hpos by (destruct (decide (m = 0%Z)) as [->|]; [cbn in Hl; lia|lia]).
  destruct (round53_error m e Hpos ltac:(lia)) as (He & Hr & _). unfold value. rewrite He.
  set (s := (Z.log2 m - 52)%Z) in *.
  assert (inject_Z (f_mant (round53 m e)) * pow2 (e + s) == inject_Z (f_mant (round53 m e) * 2 ^ s) * pow2 e) as Ev.
  { rewrite pow2_add, (pow2_Z s), inject_Z_mult by (unfold s; lia). ring. }
  eapply close_proper; [reflexivity|symmetry; exact Ev|]. apply close_scale; [apply Qlt_le_weak, pow2_pos|].
  pose proof (half_ulp m Hpos ltac:(lia)) as Hu. replace (Z.log2 m - 53)%Z with (s - 1)%Z in Hu by (unfold s; lia).
  destruct Hr as [H1 H2]. apply inject_le in H1, H2. set (h := (2 ^ (s - 1))%Z) in *.
  rewrite inject_Z_plus in H2. unfold Z.sub in H1. rewrite inject_Z_plus, inject_Z_opp in H1. unfold close. cbn [qpow]. unfold u in *. split; lra.
Qed.

(** ** One operation, one rounding *)

Definition nonneg (a : float64) : Prop := (0 <= f_mant a)%Z.

Lemma value_nonneg a : nonneg a -> 0 <= value a.
Proof. intros Ha. apply Qmult_le_0_compat; [by apply (inject_le 0)|apply Qlt_le_weak, pow2_pos]. Qed.

Lemma round53_nonneg m e : (0 <= m)%Z -> nonneg (round53 m e).
Proof.
  intros Hm. unfold round53, nonneg. destruct (Z.leb_spec (Z.log2 m - 52) 0); [done|]. cbn [f_mant].
  pose proof (Z.div_pos m (2 ^ (Z.log2 m - 52)) Hm ltac:(apply Z.pow_pos_nonneg; lia)). case_match; lia.
Qed.

Lemma scaled_value a e : (e <= f_exp a)%Z -> inject_Z (f_mant a * 2 ^ (f_exp a - e)) * pow2 e == value a.
Proof.
  intros He. rewrite inject_Z_mult, <- pow2_Z, <- Qmult_assoc, <- pow2_add by lia.
  unfold value. by replace (f_exp a - e + e)%Z with (f_exp a) by lia.
Qed.

Lemma fadd_exact_nonneg a b :
  nonneg a -> nonneg b -> let e := Z.min (f_exp a) (f_exp b) in
  (0 <= f_mant a * 2 ^ (f_exp a - e) + f_mant b * 2 ^ (f_exp b - e))%Z.
Proof. intros Ha Hb e. apply Z.add_nonneg_nonneg; apply Z.mul_nonneg_nonneg; try done; apply Z.pow_nonneg; lia. Qed.

Lemma fadd_close a b : nonneg a -> nonneg b -> close 1 (value a + value b) (value (fadd a b)).
Proof.
  intros Ha Hb. set (e := Z.min (f_exp a) (f_exp b)).
  eapply close_proper; [|reflexivity|apply (round53_close _ e), fadd_exact_nonneg; done].
  fold e. rewrite inject_Z_plus, Qmult_plus_distr_l, !scaled_value by lia. reflexivity.
Qed.

Lemma fadd_nonneg a b : nonneg a -> nonneg b -> nonneg (fadd a b).
Proof. intros Ha Hb. by apply round53_nonneg, fadd_exact_nonneg. Qed.

Lemma fmul_close a b : nonneg a -> nonneg b -> close 1 (value a * value b) (value (fmul a b)).
Proof.
  intros Ha Hb. eapply close_proper; [|reflexivity|apply round53_close, Z.mul_nonneg_nonneg; done].
  rewrite inject_Z_mult, pow2_add. unfold value. ring.
Qed.

Lemma fmul_nonneg a b : nonneg a -> nonneg b -> nonneg (fmul a b).
Proof. intros. by apply round53_nonneg, Z.mul_nonneg_nonneg. Qed.

Lemma value_size n : (0 <= n < 2 ^ 53)%Z -> value (of_size n) == inject_Z n.
Proof. intros Hn. rewrite of_size_exact by done. unfold value, pow2. cbn. ring. Qed.

(** An odd last bit that stands for a remainder does not change the rounding. *)
Lemma sticky_close m e x :
  (0 < m)%Z -> (54 <= Z.log2 m)%Z -> Z.odd m = true -> inject_Z m - 1 <= x -> x <= inject_Z m + 1 ->
  close 1 (x * pow2 e) (value (round53 m e)).
Proof.
  intros Hm Hl Ho Hx1 Hx2. destruct (round53_error m e Hm ltac:(lia)) as (He & _ & Hr). unfold value. rewrite He.
  set (s := (Z.log2 m - 52)%Z) in *. specialize (Hr ltac:(lia) Ho).
  assert (inject_Z (f_mant (round53 m e)) * pow2 (e + s) == inject_Z (f_mant (round53 m e) * 2 ^ s) * pow2 e) as Ev.
  { rewrite pow2_add, (pow2_Z s), inject_Z_mult by (unfold s; lia). ring. }
  eapply close_proper; [reflexivity|symmetry; exact Ev|]. apply close_scale; [apply Qlt_le_weak, pow2_pos|].
  assert (2 ^ (s - 1) * 2 ^ 53 <= m - 1)%Z as Hu.
  { pose proof (Z.log2_spec m Hm) as [H1 _]. rewrite <- Z.pow_add_r by lia.
    replace (s - 1 + 53)%Z with (Z.succ (Z.log2 m - 1)) by (unfold s; lia).
    replace (Z.log2 m) with (Z.succ (Z.log2 m - 1)) in H1 by lia. rewrite Z.pow_succ_r in * by lia.
    apply Z.odd_spec in Ho as [j ->]. lia. }
  set (h := (2 ^ (s - 1))%Z) in *. destruct Hr as [H1 H2].
  assert (m + - h + 1 <= f_mant (round53 m e) * 2 ^ s)%Z as H3 by lia.
  assert (f_mant (round53 m e) * 2 ^ s <= m + h + -1)%Z as H4 by lia.
  assert (h * 2 ^ 53 <= m + -1)%Z as H5 by lia. apply inject_le in H3, H4, H5.
  rewrite (inject_Z_plus (m + - h)), (inject_Z_plus m), inject_Z_opp in H3.
  rewrite (inject_Z_plus (m + h)), (inject_Z_plus m) in H4. rewrite inject_Z_plus, (inject_Z_mult h) in H5.
  change (inject_Z (2 ^ 53)) with (9007199254740992 # 1) in H5. change (inject_Z 1) with (1 # 1) in *.
  change (inject_Z (-1)) with (-1 # 1) in *. unfold close. cbn [qpow]. unfold u in *. split; lra.
Qed.

Lemma pow2_opp e : pow2 (- e) == / pow2 e.
Proof. apply Qpower_opp. Qed.

Lemma pow2_nonzero e : ~ pow2 e == 0.
Proof. pose proof (pow2_pos e). lra. Qed.

Lemma inject_nonzero n : (0 < n)%Z -> ~ inject_Z n == 0.
Proof. intros Hn H. apply (inject_Z_injective n 0) in H. lia. Qed.

Lemma quotient_value a b k :
  (0 <= k)%Z -> (0 < f_mant b)%Z ->
  value a / value b == 2 * inject_Z (f_mant a * 2 ^ k) / inject_Z (f_mant b) * pow2 (f_exp a - f_exp b - k - 1).
Proof.
  intros Hk Hb. unfold value, Z.sub. rewrite inject_Z_mult, <- (pow2_Z k), !pow2_add, !pow2_opp by done.
  change (pow2 1) with 2. field. repeat split; try apply pow2_nonzero. by apply inject_nonzero.
Qed.

Lemma fdiv_close a b : nonneg a -> (0 < f_mant b)%Z -> close 1 (value a / value b) (value (fdiv a b)).
Proof.
  intros Ha Hb. unfold fdiv. set (k := (56 + Z.log2 (f_mant b))%Z). set (n := (f_mant a * 2 ^ k)%Z).
  assert (0 <= k)%Z as Hk by (pose proof (Z.log2_nonneg (f_mant b)); lia).
  assert (0 < inject_Z (f_mant b)) as Hbq by by apply (inject_lt 0).
  eapply close_proper; [symmetry; by apply (quotient_value a b k)|reflexivity|]. fold n.
  pose proof (Z.div_mod n (f_mant b) ltac:(lia)) as Hd. pose proof (Z.mod_pos_bound n (f_mant b) Hb) as Hr.
  assert (0 <= n)%Z as Hn by (apply Z.mul_nonneg_nonneg; [done|apply Z.pow_nonneg; lia]).
  set (q := (n / f_mant b)%Z) in *. set (r := (n mod f_mant b)%Z) in *.
  assert (2 * inject_Z n / inject_Z (f_mant b) == 2 * inject_Z q + 2 * (inject_Z r / inject_Z (f_mant b))) as Ex.
  { rewrite Hd, inject_Z_plus, inject_Z_mult. field. lra. }
  destruct (Z.eqb_spec r 0) as [Er|Er].
  - eapply close_proper; [|reflexivity|apply round53_close; apply (Z.div_pos n) in Hb; lia].
    rewrite Ex, Er, Z.add_0_r, inject_Z_mult. change (inject_Z 2) with 2. change (inject_Z 0) with 0. field. lra.
  - assert (0 < f_mant a)%Z as Ha'.
    { destruct (decide (f_mant a = 0)%Z) as [E|]; [|unfold nonneg in Ha; lia].
      exfalso. apply Er. unfold r, n. by rewrite E, Z.mul_0_l, Z.mod_0_l by lia. }
    assert (2 ^ 55 <= q)%Z as Hq.
    { apply Z.div_le_lower_bound; [done|]. pose proof (Z.log2_spec (f_mant b) Hb) as [_ H].
      assert (2 ^ k = 2 ^ 55 * 2 ^ Z.succ (Z.log2 (f_mant b)))%Z as E.
      { rewrite <- Z.pow_add_r by (pose proof (Z.log2_nonneg (f_mant b)); lia). f_equal. unfold k. lia. }
      unfold n. nia. }
    assert (0 < inject_Z r / inject_Z (f_mant b) /\ inject_Z r / inject_Z (f_mant b) < 1) as [Hf1 Hf2].
    { split; [apply Qlt_shift_div_l|apply Qlt_shift_div_r]; try done.
      - rewrite Qmult_0_l. apply (inject_lt 0). lia.
      - rewrite Qmult_1_l. apply inject_lt. lia. }
    apply sticky_close; [lia| |by rewrite Z.odd_add, Z.odd_mul| |].
    { apply Z.log2_le_pow2; lia. }
    all: rewrite inject_Z_plus, inject_Z_mult, Ex; change (inject_Z 2) with 2; change (inject_Z 1) with 1; lra.
Qed.

(** ** Sums *)

Definition qsum (l : list float64) : Q := foldr (fun a acc => value a + acc) 0 l.

Lemma qsum_nil : qsum [] = 0.
Proof. done. Qed.

Lemma qsum_cons a l : qsum (a :: l) = value a + qsum l.
Proof. done. Qed.

Lemma qsum_nonneg l : Forall nonneg l -> 0 <= qsum l.
Proof.
  induction 1 as [|a l Ha _ IH]; [by rewrite qsum_nil|]. rewrite qsum_cons. pose proof (value_nonneg a Ha). lra.
Qed.

Lemma qsum_app l l' : qsum (l ++ l') == qsum l + qsum l'.
Proof.
  induction l as [|a l IH]; cbn [app]; rewrite ?qsum_nil, ?qsum_cons; [ring|]. rewrite IH. ring.
Qed.

Lemma sum_nonneg l acc : nonneg acc -> Forall nonneg l -> nonneg (foldl fadd acc l).
Proof. intros Ha Hl. revert acc Ha. induction Hl; cbn; intros acc Ha; [done|]. by apply IHHl, fadd_nonneg. Qed.

Lemma sum_close l acc :
  nonneg acc -> Forall nonneg l -> close (length l) (value acc + qsum l) (value (foldl fadd acc l)).
Proof.
  intros Ha Hl. revert acc Ha. induction Hl as [|a l Hn Hl IH]; intros acc Ha; cbn [length foldl].
  - apply close_refl. rewrite qsum_nil. ring.
  - apply (close_trans 1 (length l) _ (value (fadd acc a) + qsum l)); [|by apply IH, fadd_nonneg].
    apply (close_proper 1 (value acc + value a + qsum l) _ (value (fadd acc a) + qsum l)); [rewrite qsum_cons; ring|reflexivity|].
    apply close_add; [by apply fadd_close|]. apply close_S; [by apply qsum_nonneg|by apply close_refl].
Qed.

Lemma size_mant n : (0 < n < 2 ^ 53)%Z -> (0 < f_mant (of_size n))%Z.
Proof. intros Hn. rewrite of_size_exact by lia. cbn. lia. Qed.

(** A sum known up to [k] roundings over a size, as the code divides. *)
Lemma quotient_close k x a n :
  nonneg a -> (0 < n < 2 ^ 53)%Z -> close k x (value a) -> close (k + 1) (x / inject_Z n) (value (fdiv a (of_size n))).
Proof.
  intros Ha Hn Hk. apply (close_trans k 1 _ (value a / inject_Z n)).
  - apply close_scale; [|done]. apply Qlt_le_weak, Qinv_lt_0_compat, (inject_lt 0). lia.
  - eapply close_proper; [|reflexivity|by apply fdiv_close, size_mant]. by rewrite value_size by lia.
Qed.

Lemma avgMs_nonneg l : Forall nonneg l -> (Z.of_nat (length l) < 2 ^ 53)%Z -> nonneg (avgMs l).
Proof.
  intros Hl Hn. destruct l as [|a l]; [done|]. unfold avgMs. set (s := foldl _ _ _).
  assert (nonneg s) as Hs by by apply sum_nonneg. assert (0 < f_mant (of_size (Z.of_nat (length (a :: l)))))%Z as Hb.
  { apply size_mant. cbn [length] in *. lia. }
  apply round53_nonneg. set (b := f_mant (of_size _)) in *.
  assert (0 <= f_mant s * 2 ^ (56 + Z.log2 b) / b)%Z.
  { apply Z.div_pos; [|done]. apply Z.mul_nonneg_nonneg; [done|apply Z.pow_nonneg; lia]. }
  case_match; lia.
Qed.

(** The average of an interval times its size is the sum of its samples. *)
Lemma avgMs_close l :
  Forall nonneg l -> l <> [] -> (Z.of_nat (length l) < 2 ^ 53)%Z ->
  close (length l + 1) (qsum l / inject_Z (Z.of_nat (length l))) (value (avgMs l)).
Proof.
  intros Hl Hne Hn. destruct l as [|a l]; [done|]. apply quotient_close; [by apply sum_nonneg|cbn [length] in *; lia|].
  eapply close_proper; [|reflexivity|by apply sum_close]. unfold value at 1. cbn [f_mant f_exp fzero]. ring.
Qed.

Lemma product_close l :
  Forall nonneg l -> (Z.of_nat (length l) < 2 ^ 53)%Z ->
  close (length l + 2) (qsum l) (value (fmul (avgMs l) (of_size (Z.of_nat (length l))))).
Proof.
  intros Hl Hn. destruct (decide (l = [])) as [->|Hne].
  { apply (close_mono 0); [lia|by rewrite qsum_nil|by apply close_refl]. }
  assert (0 < Z.of_nat (length l))%Z as Hpos by (destruct l; [done|cbn; lia]).
  replace (length l + 2)%nat with ((length l + 1) + 1)%nat by lia.
  apply (close_trans _ 1 _ (value (avgMs l) * inject_Z (Z.of_nat (length l)))).
  - apply (close_proper _ (qsum l / inject_Z (Z.of_nat (length l)) * inject_Z (Z.of_nat (length l))) _
            (value (avgMs l) * inject_Z (Z.of_nat (length l)))); [|reflexivity|].
    { field. by apply inject_nonzero. }
    apply close_scale; [by apply (inject_le 0); lia|by apply avgMs_close].
  - eapply close_proper; [|reflexivity|apply fmul_close; [by apply avgMs_nonneg|apply round53_nonneg; lia]].
    by rewrite value_size by lia.
Qed.

Lemma products_close (ls : list (list float64)) n :
  Forall (fun l => Forall nonneg l /\ (length l <= n)%nat /\ (Z.of_nat (length l) < 2 ^ 53)%Z) ls ->
  close (n + 2) (qsum (concat ls)) (qsum (map (fun l => fmul (avgMs l) (of_size (Z.of_nat (length l)))) ls)).
Proof.
  induction 1 as [|l ls (Hl & Hn & Hs) Hls IH].
  - apply (close_mono 0); [lia|done|by apply close_refl].
  - cbn [concat map]. rewrite qsum_cons. eapply close_proper; [symmetry; apply qsum_app|reflexivity|].
    apply close_add; [|exact IH]. apply (close_mono (length l + 2)); [lia|by apply qsum_nonneg|by apply product_close].
Qed.

(** ** What the report says *)

(** The history of intervals with the given samples. *)
Definition interval_history (ls : list (list float64)) : list (float64 * Z) :=
  map (fun l => (avgMs l, Z.of_nat (length l))) ls.

Lemma weighted_sum_products ls :
  weighted_sum (interval_history ls) =
  foldl fadd fzero (map (fun l => fmul (avgMs l) (of_size (Z.of_nat (length l)))) ls).
Proof. unfold weighted_sum, interval_history. generalize fzero. induction ls as [|l ls IH]; intros acc; cbn; [done|apply IH]. Qed.

Lemma total_samples_concat ls :
  (Z.of_nat (length (concat ls)) < 2 ^ 64)%Z -> total_samples (interval_history ls) = Z.of_nat (length (concat ls)).
Proof.
  unfold total_samples, interval_history. rewrite <- (Z.add_0_l (Z.of_nat _)).
  assert (0 <= 0)%Z as H0 by done. revert H0. generalize 0%Z at 2 3 4 5.
  induction ls as [|l ls IH]; intros acc Hacc; cbn [concat map foldl]; rewrite ?length_app; intros Hlt; [cbn; lia|].
  cbn [snd]. rewrite (wrapU_small 64 (acc + _)) by lia. rewrite IH; lia.
Qed.

(** [k] roundings are a relative error of at most [2 * k * u]. *)
Lemma lo_bernoulli k : 1 - inject_Z (Z.of_nat k) * u <= qpow (1 - u) k.
Proof.
  induction k as [|k IH]; [by vm_compute|]. cbn [qpow]. pose proof (inject_le 0 (Z.of_nat k) ltac:(lia)) as Hk.
  rewrite Nat2Z.inj_succ, <- Z.add_1_r, inject_Z_plus. change (inject_Z 1) with 1. change (inject_Z 0) with 0 in Hk.
  apply (mul_le (1 - u)) in IH; [|by vm_compute]. eapply Qle_trans; [|exact IH]. unfold u. lra.
Qed.

Lemma hi_bernoulli k : (Z.of_nat k <= 2 ^ 52)%Z -> qpow (1 + u) k <= 1 + 2 * inject_Z (Z.of_nat k) * u.
Proof.
  induction k as [|k IH]; intros Hlt; [by vm_compute|]. cbn [qpow]. specialize (IH ltac:(lia)).
  assert (inject_Z (Z.of_nat k) <= inject_Z (2 ^ 52)) as Hk by (apply inject_le; lia).
  rewrite Nat2Z.inj_succ, <- Z.add_1_r, inject_Z_plus. change (inject_Z 1) with 1.
  change (inject_Z (2 ^ 52)) with (4503599627370496 # 1) in Hk.
  apply (mul_le (1 + u)) in IH; [|by vm_compute]. eapply Qle_trans; [exact IH|]. unfold u. lra.
Qed.

(** [y] is [x] with a relative error of at most [k] times 2^-52. *)
Definition accurate (k : nat) (x y : Q) : Prop := Qabs (y - x) <= inject_Z (Z.of_nat k) * (1 # 4503599627370496) * x.

Lemma close_accurate k x y : (Z.of_nat k <= 2 ^ 52)%Z -> 0 <= x -> close k x y -> accurate k x y.
Proof.
  intros Hk Hx [H1 H2]. pose proof (lo_bernoulli k) as L. pose proof (hi_bernoulli k Hk) as H.
  apply (Qmult_le_compat_r _ _ x) in L, H; [|done..]. pose proof (inject_le 0 (Z.of_nat k) ltac:(lia)) as Hk0.
  change (inject_Z 0) with 0 in Hk0. unfold accurate. set (c := inject_Z (Z.of_nat k)) in *.
  assert (0 <= c * x) as Hc by by apply Qmult_le_0_compat.
  apply Qabs_Qle_condition. unfold u in *. split; lra.
Qed.

(** C28: the averages of the report are accurate.  The average of an interval of n samples is the mean of
    its samples with a relative error of at most n + 1 times 2^-52, and the overall average, computed from
    the rounded averages of the intervals and their counts, is the mean of all samples with a relative
    error of at most n + h + 3 times 2^-52, where n bounds the samples of an interval and h is the number
    of intervals; the total of the counts does not wrap.  An empty interval has average 0 and does not
    disturb the total, and a history without a sample gives 0. *)
Theorem averages_accurate (ls : list (list float64)) (n : nat) :
  Forall (fun l => Forall nonneg l /\ (length l <= n)%nat) ls ->
  (Z.of_nat (length (concat ls)) < 2 ^ 53)%Z -> (Z.of_nat (n + length ls + 3) <= 2 ^ 52)%Z ->
  Forall (fun l => if decide (l = []) then avgMs l = fzero
                   else accurate (length l + 1) (qsum l / inject_Z (Z.of_nat (length l))) (value (avgMs l))) ls /\
  total_samples (interval_history ls) = Z.of_nat (length (concat ls)) /\
  (if decide (concat ls = []) then overallAvgRtt (interval_history ls) = fzero
   else accurate (n + length ls + 3) (qsum (concat ls) / inject_Z (Z.of_nat (length (concat ls))))
          (value (overallAvgRtt (interval_history ls)))).
Proof.
  intros Hls Hlen Hk.
  assert (Forall (fun l => Forall nonneg l /\ (length l <= n)%nat /\ (Z.of_nat (length l) < 2 ^ 53)%Z) ls) as Hls'.
  { apply Forall_forall. intros l Hin. destruct (proj1 (Forall_forall _ _) Hls l Hin). repeat split; try done.
    apply list_elem_of_split in Hin as (l1 & l2 & ->). rewrite concat_app in Hlen. cbn in Hlen.
    rewrite !length_app in Hlen. lia. }
  assert (Forall nonneg (concat ls)) as Hall.
  { apply Forall_concat. eapply Forall_impl; [exact Hls|]. by intros l [H _]. }
  split; [|split].
  - eapply Forall_impl; [exact Hls'|]. cbn beta. intros l (Hl & Hn & Hs). destruct (decide (l = [])) as [->|Hne]; [done|].
    apply close_accurate; [lia| |by apply avgMs_close].
    apply Qmult_le_0_compat; [by apply qsum_nonneg|]. apply Qinv_le_0_compat, (inject_le 0). lia.
  - apply total_samples_concat. lia.
  - unfold overallAvgRtt. rewrite total_samples_concat by lia.
    destruct (decide (concat ls = [])) as [->|Hne]; [done|].
    assert (0 < Z.of_nat (length (concat ls)))%Z as Hpos by (destruct (concat ls); [done|cbn; lia]).
    destruct (Z.ltb_spec 0 (Z.of_nat (length (concat ls)))); [|lia]. rewrite weighted_sum_products.
    apply close_accurate; [lia|apply Qmult_le_0_compat; [by apply qsum_nonneg|]; apply Qinv_le_0_compat, (inject_le 0); lia|].
    set (ps := map _ ls). assert (Forall nonneg ps) as Hps.
    { apply Forall_map. eapply Forall_impl; [exact Hls'|]. intros l (Hl & _ & Hs).
      apply fmul_nonneg; [by apply avgMs_nonneg|apply round53_nonneg; lia]. }
    replace (n + length ls + 3)%nat with ((n + 2) + length ps + 1)%nat by (unfold ps; rewrite length_map; lia).
    apply quotient_close; [by apply sum_nonneg|lia|].
    apply (close_trans (n + 2) _ _ (qsum ps)); [by apply products_close|].
    eapply close_proper; [|reflexivity|by apply sum_close]. unfold value at 1. cbn [f_mant f_exp fzero]. ring.
Qed.

(** Two intervals, of 100, 250.5 and 0.1 milliseconds and of 3 milliseconds, and an empty one. *)
Definition demo_intervals : list (list float64) :=
  [[mkFloat 3602879701896397 (-55); mkFloat 25 2; mkFloat 501 (-1)]; []; [mkFloat 3 0]].

Lemma averages_accurate_witness :
  total_samples (interval_history demo_intervals) = 4%Z /\
  accurate 9 (qsum (concat demo_intervals) / 4) (value (overallAvgRtt (interval_history demo_intervals))).
Proof.
  destruct (averages_accurate demo_intervals 3) as (_ & H2 & H3).
  - repeat constructor; by vm_compute.
  - by vm_compute.
  - by vm_compute.
  - split; [exact H2|exact H3].
Defined.
