(* ===== verification/Stress.v ===== *)
(** * The load generator's main program

    src/DhNet_Client/DhNet_StressTest/main.cpp: the command line, the pool of
    services, the timers of the main loop and the dispatch threads' turn.

    _wtoi is strtol of base 10 that saturates and gives 0 without digits.  Clock
    readings are nanoseconds of steady_clock. *)

From stdpp Require Import sorting.
From S2P Require Import Prelude Setting Scenario Report.
#[local] Open Scope Z_scope.

(** ** The command line *)

Definition wtoi (s : list Z) : Z :=
  let '(neg, s) := read_sign (skip_space s) in
  let v := digits_value (read_digits s) in
  Z.max (-2147483648) (Z.min 2147483647 (if neg : bool then - v else v)).

Record StressConfig := mkStressConfig {
  ip : list Z;
  port : Z;
  services : Z;
  sessionsPerService : Z;
  churnIntervalSec : Z;
  runDurationSec : Z;
}.

Definition StressConfig_new : StressConfig := mkStressConfig (text "127.0.0.1") 7777 10 100 30 0.

(** [if (argc > k) field = _wtoi(argv[k])]; [args] is argv without the program. *)
Definition arg (args : list (list Z)) (k : nat) (dflt : Z) : Z :=
  match args !! (k - 1)%nat with Some s => wtoi s | None => dflt end.

Definition parse_args (args : list (list Z)) : StressConfig * ScenarioConfig :=
  let d := StressConfig_new in
  let g := g_scenarioConfig in
  (mkStressConfig (default (ip d) (args !! 0%nat))
     (match args !! 1%nat with Some s => u16 (wtoi s) | None => port d end)
     (arg args 3 (services d)) (arg args 4 (sessionsPerService d)) (arg args 5 (churnIntervalSec d))
     (arg args 10 (runDurationSec d)),
   mkCfg (arg args 6 (lobbyChatCount g)) (arg args 7 (lobbyChatIntervalMs g))
     (arg args 8 (roomChatCount g)) (arg args 9 (roomChatIntervalMs g))
     (roomActionTimeoutMs g) (maxRoomActionRetries g) (pingIntervalMs g) (pingTimeoutMs g)).

(** ** The services *)

(** [services.reserve(cfg.services)] of an int, then one started service per turn;
    [start i] is what the i-th Start returns. *)
Definition make_services (cfg : StressConfig) (start : nat -> outcome bool) : outcome nat :=
  if services cfg <? 0 then Crash "std::length_error"
  else
    let n := Z.to_nat (services cfg) in
    fold_left (fun acc i => k ← acc; ok ← start i; _ ← ASSERT_CRASH ok; Ok (S k)) (seq 0 n) (Ok 0%nat).

(** A dispatch thread's turn: the service whose port it waits on, and its next
    index; nothing while the pool is empty. *)
Definition dispatch_turn (size : nat) (idx : Z) : option nat * Z :=
  if (size =? 0)%nat then (None, idx)
  else (Some (Z.to_nat (idx mod Z.of_nat size)), u64 (idx + 1)).

Fixpoint dispatch_turns (n size : nat) (idx : Z) : list (option nat) :=
  match n with
  | O => []
  | S n => let '(svc, idx) := dispatch_turn size idx in svc :: dispatch_turns n size idx
  end.

(** The ports of the services and the threads that wait on them: Dispatch() has no
    timeout, so a thread stays with its service until that one has an event. *)
Record ports := mkPorts { pt_events : list nat; pt_idx : list Z }.

Inductive port_step : ports -> ports -> Prop :=
| ps_arrive p s n :
    pt_events p !! s = Some n -> port_step p (mkPorts (<[s := S n]> (pt_events p)) (pt_idx p))
| ps_dispatch p i idx s idx' n :
    pt_idx p !! i = Some idx -> dispatch_turn (length (pt_events p)) idx = (Some s, idx') ->
    pt_events p !! s = Some (S n) ->
    port_step p (mkPorts (<[s := n]> (pt_events p)) (<[i := idx']> (pt_idx p))).

(** ** The main loop *)

Definition kReportIntervalSec : Z := 10.

Record timers := mkTimers { lastChurn : Z; lastReport : Z; startTime : Z }.

(** [duration_cast<seconds>(d).count()] *)
Definition seconds (d : Z) : Z := Z.quot d 1000000000.

Inductive tick_event := Churn | Report | Shutdown.

(** The part of a turn after the sleep, at the two clock readings it makes. *)
Definition main_tick (cfg : StressConfig) (nowChurn nowReport : Z) (t : timers) : list tick_event * timers :=
  let churn := churnIntervalSec cfg <=? seconds (nowChurn - lastChurn t) in
  let report := kReportIntervalSec <=? seconds (nowReport - lastReport t) in
  let stop := (0 <? runDurationSec cfg) && (runDurationSec cfg <=? seconds (nowReport - startTime t)) in
  ((if churn then [Churn] else []) ++ (if report then [Report] else []) ++ (if stop then [Shutdown] else []),
   mkTimers (if churn then nowChurn else lastChurn t) (if report then nowReport else lastReport t) (startTime t)).

Fixpoint main_loop (cfg : StressConfig) (clock : list (Z * Z)) (t : timers) : list (list tick_event) * timers :=
  match clock with
  | [] => ([], t)
  | (n1, n2) :: clock =>
      let '(es, t) := main_tick cfg n1 n2 t in
      let '(rest, t) := main_loop cfg clock t in
      (es :: rest, t)
  end.

(** ** Properties *)

(** Where std::stoi gives a number, _wtoi gives the same. *)
Lemma wtoi_stoi s n : stoi s = Ok n -> wtoi s = n.
Proof.
  unfold stoi, wtoi. destruct (read_sign (skip_space s)) as [neg s'].
  destruct (read_digits s') as [|c ds]; [done|].
  destruct (_ && _) eqn:E; [|done]. intros [= <-]. apply andb_true_iff in E as [E1 E2]. to_prop. lia.
Qed.

Lemma wtoi_decimal n : -2147483648 <= n <= 2147483647 -> wtoi (to_string n) = n.
Proof. intros H. apply wtoi_stoi. by apply stoi_decimal. Qed.

(** the command line round-trips: a configuration of ints written out in the
    order of the documentation is the configuration the program runs with; the
    port keeps its low 16 bits. *)
Theorem args_roundtrip (addr : list Z) (p sv sp ch lc li rc ri rd : Z) :
  Forall (fun n => -2147483648 <= n <= 2147483647) [p; sv; sp; ch; lc; li; rc; ri; rd] ->
  parse_args (addr :: map to_string [p; sv; sp; ch; lc; li; rc; ri; rd]) =
    (mkStressConfig addr (u16 p) sv sp ch rd, mkCfg lc li rc ri 5000 3 200 3000).
Proof.
  intros H. repeat match goal with H : Forall _ (_ :: _) |- _ => apply Forall_cons in H as [? H] end.
  unfold parse_args, arg. cbn [map lookup list_lookup Nat.sub]. by rewrite !wtoi_decimal by done.
Qed.

(** Every start succeeds and none is skipped, or the process ends. *)
Lemma start_fold (start : nat -> outcome bool) n k :
  fold_left (fun acc i => k ← acc; ok ← start i; _ ← ASSERT_CRASH ok; Ok (S k)) (seq k n) (Ok k) = Ok (k + n)%nat \/
  is_Ok (fold_left (fun acc i => k ← acc; ok ← start i; _ ← ASSERT_CRASH ok; Ok (S k)) (seq k n) (Ok k)) = false.
Proof.
  assert (forall l c, fold_left (fun acc i => k ← acc; ok ← start i; _ ← ASSERT_CRASH ok; Ok (S k)) l (@Crash nat c) = Crash c) as Hc
    by (intros l c; induction l; by cbn).
  revert k. induction n as [|n IH]; intros k; [left; cbn; f_equal; lia|]. cbn.
  destruct (start k) as [[]|c]; cbn; [|right; by rewrite Hc..].
  destruct (IH (S k)) as [E|E]; [left; rewrite E; f_equal; lia|by right].
Qed.

(** The pool has the configured size or the process ended; a negative number of
    services ends it at once. *)
Theorem services_all_started (cfg : StressConfig) (start : nat -> outcome bool) (n : nat) :
  make_services cfg start = Ok n -> 0 <= services cfg /\ Z.of_nat n = services cfg.
Proof.
  unfold make_services. destruct (services cfg <? 0) eqn:E; [done|]. to_prop. intros H.
  destruct (start_fold start (Z.to_nat (services cfg)) 0) as [E'|E']; rewrite H in E'; [|done].
  simplify_eq. cbn. lia.
Qed.

Lemma dispatch_turns_map n size idx :
  (0 < size)%nat -> 0 <= idx -> idx + Z.of_nat n <= 2 ^ 64 ->
  dispatch_turns n size idx = map (fun i => fst (dispatch_turn size (idx + Z.of_nat i))) (seq 0 n).
Proof.
  intros Hs. revert idx. induction n as [|n IH]; intros idx Hi Hb; [done|].
  rewrite <- cons_seq, <- fmap_S_seq. cbn [dispatch_turns map]. change (fmap S) with (map S). rewrite map_map.
  unfold dispatch_turn at 1. destruct (Nat.eqb_spec size 0); [lia|]. f_equal.
  - unfold dispatch_turn. destruct (Nat.eqb_spec size 0); [lia|]. cbn [fst Z.of_nat]. by rewrite Z.add_0_r.
  - destruct n as [|n]; [done|]. rewrite wrapU_small by lia. rewrite IH by lia. apply map_ext. intros i.
    do 2 f_equal. lia.
Qed.

(** a dispatch thread is fair: in as many turns as there are services it waits
    on each of them exactly once, never outside the pool. *)
Theorem dispatch_round_robin (size : nat) (idx : Z) :
  (0 < size)%nat -> 0 <= idx -> idx + Z.of_nat size <= 2 ^ 64 ->
  dispatch_turns size size idx ≡ₚ map Some (seq 0 size).
Proof.
  intros Hs Hi Hb. rewrite (dispatch_turns_map size size idx) by lia. set (f := fun i => Z.to_nat ((idx + Z.of_nat i) mod Z.of_nat size)).
  assert (forall i, fst (dispatch_turn size (idx + Z.of_nat i)) = Some (f i)) as Ef.
  { intros i. unfold dispatch_turn. destruct (Nat.eqb_spec size 0); [lia|done]. }
  rewrite (map_ext _ (fun i => Some (f i))) by done. rewrite <- (map_map f Some). apply Permutation_map.
  assert (forall i, (f i < size)%nat) as Hf.
  { intros i. unfold f. pose proof (Z.mod_pos_bound (idx + Z.of_nat i) (Z.of_nat size) ltac:(lia)). lia. }
  symmetry. apply submseteq_length_Permutation; [|by rewrite length_map].
  assert (NoDup (map f (seq 0 size))) as Hn.
  { apply NoDup_fmap_2_strong; [|apply NoDup_seq]. intros x y [_ Hx]%elem_of_seq [_ Hy]%elem_of_seq E.
    unfold f in E. apply Z2Nat.inj in E; try (apply Z.mod_pos_bound; lia).
    pose proof (Z.div_mod (idx + Z.of_nat x) (Z.of_nat size) ltac:(lia)) as Dx.
    pose proof (Z.div_mod (idx + Z.of_nat y) (Z.of_nat size) ltac:(lia)) as Dy. rewrite <- E in Dy. clear E.
    revert Dx Dy. generalize ((idx + Z.of_nat x) / Z.of_nat size) as a, ((idx + Z.of_nat y) / Z.of_nat size) as b,
      ((idx + Z.of_nat x) mod Z.of_nat size) as r. intros a b r Dx Dy.
    destruct (Z.lt_trichotomy a b) as [Hab|[->|Hab]]; [nia|lia|nia]. }
  assert (map f (seq 0 size) ⊆+ seq 0 size) as Hsub.
  { apply NoDup_submseteq; [done|]. intros j (i & -> & _)%list_elem_of_fmap. apply elem_of_seq. specialize (Hf i). lia. }
  rewrite (submseteq_length_Permutation _ _ Hsub); [done|]. by rewrite length_map.
Qed.

(** ... but it waits on one service at a time, without a timeout, and all threads
    begin with the first: however many events the other services have, none is
    dispatched until one arrives for the first. *)
Theorem dispatch_starves_others (threads : nat) (events : list nat) (p : ports) :
  events !! 0%nat = Some 0%nat -> port_step (mkPorts events (replicate threads 0)) p ->
  pt_idx p = replicate threads 0 /\ exists s n, events !! s = Some n /\ pt_events p = <[s := S n]> events.
Proof.
  intros H0 Hs. inversion Hs as [? s n E|? i idx s idx' n Ei Ed E]; subst; cbn in *.
  - split; [done|]. eauto.
  - apply lookup_replicate in Ei as [-> _]. unfold dispatch_turn in Ed.
    destruct (Nat.eqb_spec (length events) 0); [done|]. injection Ed as <- _. rewrite Z.mod_0_l in E by lia. change (Z.to_nat 0) with 0%nat in E. congruence.
Qed.

(** *** The timers *)

Definition reports (es : list (list tick_event)) : Z :=
  zsum (zsum (fun e => match e with Report => 1 | _ => 0 end)) es.

(** Readings that do not go back and are at most [d] apart, from [from] to [till]. *)
Fixpoint paced (d from : Z) (clock : list (Z * Z)) (till : Z) : Prop :=
  match clock with
  | [] => from = till
  | (_, n2) :: clock => from <= n2 <= from + d /\ paced d n2 clock till
  end.

Lemma seconds_ge k d : 0 < k -> (k <= seconds d <-> k * 1000000000 <= d).
Proof.
  intros Hk. unfold seconds. destruct (Z.lt_ge_cases d 0) as [Hd|Hd].
  - split; [|lia]. intros H. pose proof (Z.quot_opp_l d 1000000000 ltac:(lia)).
    pose proof (Z.quot_pos (- d) 1000000000 ltac:(lia) ltac:(lia)). lia.
  - rewrite Z.quot_div_nonneg by lia. split; intros H.
    + pose proof (Z.mul_div_le d 1000000000 ltac:(lia)). lia.
    + apply Z.div_le_lower_bound; lia.
Qed.

Lemma tick_reports cfg n1 n2 t :
  let '(es, t') := main_tick cfg n1 n2 t in
  (zsum (fun e => match e with Report => 1 | _ => 0 end) es = 1 /\ lastReport t' = n2 /\
     10000000000 <= n2 - lastReport t) \/
  (zsum (fun e => match e with Report => 1 | _ => 0 end) es = 0 /\ lastReport t' = lastReport t /\
     n2 - lastReport t < 10000000000).
Proof.
  unfold main_tick, kReportIntervalSec. rewrite !zsum_app. cbn [lastReport].
  set (c := churnIntervalSec cfg <=? _). set (s := (0 <? runDurationSec cfg) && _).
  destruct (Z.leb_spec 10 (seconds (n2 - lastReport t))) as [E|E].
  - left. apply (seconds_ge 10 (n2 - lastReport t) ltac:(lia)) in E. destruct c, s; cbn; lia.
  - right. assert (~ 10 * 1000000000 <= n2 - lastReport t).
    { intros H. apply (seconds_ge 10 _ ltac:(lia)) in H. lia. }
    destruct c, s; cbn; lia.
Qed.

(** the interval reports come at their rate: over any run of the main loop
    with readings at most [d] apart, reports are at least ten seconds apart, and
    at most ten seconds and [d] pass without one. *)
Theorem reports_at_rate (cfg : StressConfig) (clock : list (Z * Z)) (d till : Z) (t t' : timers)
    (es : list (list tick_event)) :
  0 <= d -> paced d (lastReport t) clock till -> main_loop cfg clock t = (es, t') ->
  10000000000 * reports es <= lastReport t' - lastReport t /\
  till - lastReport t < (reports es + 1) * (10000000000 + d).
Proof.
  intros Hd Hp Hl.
  enough (forall from, from - lastReport t < 10000000000 -> paced d from clock till ->
    10000000000 * reports es <= lastReport t' - lastReport t /\
    till - lastReport t < reports es * (10000000000 + d) + 10000000000) as H.
  { specialize (H (lastReport t) ltac:(lia) Hp). lia. }
  clear Hp. revert t es Hl. induction clock as [|[n1 n2] clock IH]; intros t es Hl from Hf Hp.
  - cbn in *. simplify_eq. cbn. lia.
  - cbn [main_loop] in Hl. cbn in Hp. destruct Hp as [Hn Hp]. pose proof (tick_reports cfg n1 n2 t) as Ht.
    destruct (main_tick cfg n1 n2 t) as [e t1]. destruct (main_loop cfg clock t1) as [rest t2] eqn:E. simplify_eq.
    unfold reports in *. cbn [zsum].
    destruct Ht as [(Hz & Hlast & Hge)|(Hz & Hlast & Hlt)];
      destruct (IH t1 rest E n2) as [I1 I2]; try (rewrite Hlast; lia); try done; rewrite Hz, Hlast in *; nia.
Qed.

(** The run's end: with a duration the shutdown is asked for exactly from that
    many seconds on, without one never. *)
Theorem shutdown_at_duration (cfg : StressConfig) (n1 n2 : Z) (t : timers) :
  Shutdown ∈ fst (main_tick cfg n1 n2 t) <->
  0 < runDurationSec cfg /\ runDurationSec cfg * 1000000000 <= n2 - startTime t.
Proof.
  unfold main_tick. cbn [fst].
  destruct (Z.ltb_spec 0 (runDurationSec cfg)) as [H|H]; cbn [andb].
  - rewrite <- (seconds_ge (runDurationSec cfg) (n2 - startTime t) H).
    destruct (Z.leb_spec (runDurationSec cfg) (seconds (n2 - startTime t))); repeat case_match; set_solver by lia.
  - repeat case_match; set_solver by lia.
Qed.

Lemma args_roundtrip_witness :
  parse_args (text "10.0.0.1" :: map to_string [7900; 20; 50; -1; 2; 500; 4; 250; 3600]) =
    (mkStressConfig (text "10.0.0.1") 7900 20 50 (-1) 3600, mkCfg 2 500 4 250 5000 3 200 3000).
Proof.
  apply (args_roundtrip (text "10.0.0.1") 7900 20 50 (-1) 2 500 4 250 3600).
  rewrite !Forall_cons. split_and!; try lia. constructor.
Defined.

Lemma dispatch_round_robin_witness :
  dispatch_turns 3 3 7 = [Some 1%nat; Some 2%nat; Some 0%nat] /\ dispatch_turns 3 3 7 ≡ₚ map Some (seq 0 3).
Proof. split; [reflexivity|]. apply (dispatch_round_robin 3 7); lia. Defined.

Definition clock1 : list (Z * Z) :=
  [(4000000000, 4000000000); (9000000000, 9000000000); (13000000000, 13000000000); (17000000000, 17000000000)].

Lemma reports_at_rate_witness :
  10000000000 * 1 <= 13000000000 - 0 /\ 17000000000 - 0 < (1 + 1) * (10000000000 + 5000000000).
Proof.
  apply (reports_at_rate StressConfig_new clock1 5000000000 17000000000 (mkTimers 0 0 0) (mkTimers 0 13000000000 0)
           [[]; []; [Report]; []]); [lia|cbn; lia|vm_compute; reflexivity].
Defined.
