(* ===== verification/Server.v ===== *)
(** * Packet dispatch, and the programs that meet over the wire

    src/DhNet_Server/ServerCore/Handler.h and PacketHandler.h, the handler tables
    of GameServer::RegisterPacket, of the client's main.cpp and of the load
    generator's RegisterHandlers; and what the parts of the other files mean for
    each other: which packets the server sends and whether the clients can take
    them (Game.v), and what the load generator's first ping does to the
    handshake (Scenario.v, Crypto.v). *)

From stdpp Require Import sorting.
From S2P Require Import Prelude Bytes Packets Crypto Slots Game Scenario.
#[local] Open Scope Z_scope.

(** ** Handler.h *)

Section handler.
Context {T : Type}.

(** try_emplace: a number that is already registered keeps its handler. *)
Definition Handler_Register (_packetNum : Z) (_type : T) (m_packetList : gmap Z T) : bool * gmap Z T :=
  match m_packetList !! _packetNum with
  | Some _ => (false, m_packetList)
  | None => (true, <[_packetNum := _type]> m_packetList)
  end.

(** [run]: calling the handler on the packet and the session. *)
Definition Handler_Process {A} (run : T -> A -> outcome (bool * A)) (_packetNum : Z) (m_packetList : gmap Z T)
    (a : A) : outcome (bool * A) :=
  match m_packetList !! _packetNum with
  | None => Ok (false, a)
  | Some h => run h a
  end.

Fixpoint register_all (l : list (PacketEnum * T)) (m : gmap Z T) : gmap Z T :=
  match l with
  | [] => m
  | (num, h) :: l' => register_all l' (snd (Handler_Register (packet_num num) h m))
  end.
End handler.

(** ** The tables *)

Inductive server_handler :=
| HandleTest | HandleReqRoomEnter | HandleReqLogin | HandleReqRoomChat | HandleReqRoomExit
| HandleReqLobbyChat | HandleReqRoomList.

(** GameServer::RegisterPacket *)
Definition RegisterPacket : gmap Z server_handler :=
  register_all
    [(Test, HandleTest); (Req_RoomEnter, HandleReqRoomEnter); (Req_Login, HandleReqLogin);
     (Req_RoomChat, HandleReqRoomChat); (Req_RoomExit, HandleReqRoomExit);
     (Req_LobbyChat, HandleReqLobbyChat); (Req_RoomList, HandleReqRoomList)] ∅.

Inductive client_handler :=
| RecvTest | HandleResLogin | HandleResLoginFailed | HandleResLobbyEnter | HandleNotiLobbyPlayerEnter
| HandleNotiLobbyPlayerExit | HandleNotiLobbyChat | HandleResRoomEnter | HandleNotiRoomEnter
| HandleNotiRoomChat | HandleNotiRoomExit.

(** DhNet_Client's main *)
Definition client_table : gmap Z client_handler :=
  register_all
    [(Test, RecvTest); (Res_Login, HandleResLogin); (Res_LoginFailed, HandleResLoginFailed);
     (Res_LobbyEnter, HandleResLobbyEnter); (Noti_LobbyPlayerEnter, HandleNotiLobbyPlayerEnter);
     (Noti_LobbyPlayerExit, HandleNotiLobbyPlayerExit); (Noti_LobbyChat, HandleNotiLobbyChat);
     (Res_RoomEnter, HandleResRoomEnter); (Noti_RoomEnter, HandleNotiRoomEnter);
     (Noti_RoomChat, HandleNotiRoomChat); (Noti_RoomExit, HandleNotiRoomExit)] ∅.

Inductive stress_handler :=
| SResLogin | SResLoginFailed | SResLobbyEnter | SNotiRoomEnter | SResTest | SIgnored.

(** DhNet_StressTest's RegisterHandlers *)
Definition RegisterHandlers : gmap Z stress_handler :=
  register_all
    [(Res_Login, SResLogin); (Res_LoginFailed, SResLoginFailed); (Res_LobbyEnter, SResLobbyEnter);
     (Noti_RoomEnter, SNotiRoomEnter); (Test, SResTest); (Noti_LobbyChat, SIgnored);
     (Noti_LobbyPlayerEnter, SIgnored); (Noti_LobbyPlayerExit, SIgnored); (Noti_RoomChat, SIgnored);
     (Noti_RoomExit, SIgnored)] ∅.

(** ** The clients' handlers *)

(** What they change: the session's player, [g_inRoom], packets sent, and
    whether the session was disconnected. *)
Record client := mkClient {
  c_playerId : Z;
  c_playerName : list Z;
  g_inRoom : bool;
  c_out : list packet;
  c_connected : bool;
}.

Definition HandleResLoginPacket (id : Z) (name : list Z) (c : client) : client :=
  mkClient id name (g_inRoom c) (c_out c) (c_connected c).
Definition HandleResLoginFailedPacket (c : client) : client :=
  mkClient (c_playerId c) (c_playerName c) (g_inRoom c) (c_out c) false.
Definition HandleResLobbyEnterPacket (c : client) : client :=
  mkClient (c_playerId c) (c_playerName c) (g_inRoom c) (c_out c ++ [ReqRoomEnter]) (c_connected c).
Definition HandleResRoomEnterPacket (isSuccess : bool) (c : client) : client :=
  if isSuccess then c else mkClient (c_playerId c) (c_playerName c) false (c_out c) (c_connected c).
Definition HandleNotiRoomEnterPacket (c : client) : client :=
  mkClient (c_playerId c) (c_playerName c) true (c_out c) (c_connected c).
Definition HandleNotiRoomExitPacket (id : Z) (c : client) : client :=
  if id =? c_playerId c then mkClient (c_playerId c) (c_playerName c) false (c_out c) (c_connected c) else c.

(** The client on a packet from the server: no handler, and OnRecv's false ends
    the session (Session::ProcessRecv's "OnRead Error"). *)
Definition client_recv (pk : packet) (c : client) : client :=
  match client_table !! packet_num (packet_enum pk) with
  | None => mkClient (c_playerId c) (c_playerName c) (g_inRoom c) (c_out c) false
  | Some _ =>
      match pk with
      | ResLogin id name => HandleResLoginPacket id name c
      | ResLoginFailed => HandleResLoginFailedPacket c
      | ResLobbyEnter _ _ => HandleResLobbyEnterPacket c
      | ResRoomEnter ok => HandleResRoomEnterPacket ok c
      | NotiRoomEnter _ _ => HandleNotiRoomEnterPacket c
      | NotiRoomExit id _ => HandleNotiRoomExitPacket id c
      | TestPacket _ => mkClient (c_playerId c) (c_playerName c) (g_inRoom c)
                          (c_out c ++ [TestPacket [84; 101; 115; 116; 40; 67; 108; 105; 101; 110; 116; 41]]) (c_connected c)
      | _ => c
      end
  end.

(** TestController.cpp: the reply the server's HandleTestPacket hands to Send,
    written into the chunk Sender::Alloc returned. *)
Definition HandleTestPacket (chunk : option (list Z)) : outcome (list Z) :=
  match chunk with
  | None => Crash "null SenderRef dereferenced"
  | Some buf => encode (TestPacket [84; 101; 115; 116; 40; 83; 101; 114; 118; 101; 114; 41]) buf
  end.

(** ** What the server sends *)

Definition sent_by_server (pk : packet) : Prop :=
  match pk with
  | ResLogin _ _ | ResLoginFailed | ResLobbyEnter _ _ | NotiLobbyPlayerEnter _ _ | NotiLobbyPlayerExit _ _
  | NotiLobbyChat _ _ _ | NotiRoomEnter _ _ | NotiRoomChat _ _ _ | NotiRoomExit _ _ | ResRoomList _ => True
  | _ => False
  end.

Definition job_sends (j : job) : Prop := match j with RoomBroadcast pk => sent_by_server pk | _ => True end.
Definition act_sends (a : act) : Prop :=
  match a with APost _ j => job_sends j | ASend _ pk => sent_by_server pk | _ => True end.

Record sends_inv (w : world) : Prop := mkSendsInv {
  si_out : Forall (fun sp => sent_by_server (snd sp)) (w_out w);
  si_jobs : forall q b, get_box q w = Some b -> Forall job_sends (b_jobs b);
  si_acts : Forall (Forall act_sends) (w_threads w);
}.

(** The invariant only reads the log, the boxes and the threads. *)
Lemma sends_inv_ext w w' :
  w_out w' = w_out w -> w_threads w' = w_threads w -> (forall q, get_box q w' = get_box q w) ->
  sends_inv w -> sends_inv w'.
Proof. intros Ho Ht Hg [H1 H2 H3]. split; rewrite ?Ho, ?Ht; [done| |done]. intros q b. rewrite Hg. apply H2. Qed.

Lemma sends_send s pk w : sent_by_server pk -> sends_inv w -> sends_inv (send s pk w).
Proof.
  intros Hp [H1 H2 H3]. split; [|intros q b; rewrite get_box_send; apply H2|done].
  cbn. apply Forall_app. split; [done|]. by repeat constructor.
Qed.

Lemma sends_Broadcast pk ps w : sent_by_server pk -> sends_inv w -> sends_inv (Broadcast pk ps w).
Proof.
  intros Hp. revert w. induction ps as [|p ps IH]; intros w Hi; cbn; [done|].
  apply IH. case_match; [by apply sends_send|done].
Qed.

Lemma sends_set_box q b w : Forall job_sends (b_jobs b) -> sends_inv w -> sends_inv (set_box q b w).
Proof.
  intros Hb [H1 H2 H3]. split; [by destruct q| |by destruct q].
  intros q' b'. rewrite get_set_box. case_decide; [|apply H2]. subst q'.
  destruct (get_box q w) eqn:E; [|done]. cbn. by intros [= <-].
Qed.

Lemma sends_SetCurrentLobby p l w : sends_inv w -> sends_inv (SetCurrentLobby p l w).
Proof. apply sends_inv_ext; unfold SetCurrentLobby; case_match; try done; intros q; by destruct q. Qed.
Lemma sends_SetCurrentRoom p r w : sends_inv w -> sends_inv (SetCurrentRoom p r w).
Proof. apply sends_inv_ext; unfold SetCurrentRoom; case_match; try done; intros q; by destruct q. Qed.

#[local] Hint Resolve sends_send sends_Broadcast sends_set_box sends_SetCurrentLobby sends_SetCurrentRoom : dhnet.

Lemma sends_EnterRoom p w : sends_inv w -> sends_inv (Player_EnterRoom p w).
Proof.
  intros Hi. unfold Player_EnterRoom. destruct (w_players w !! p) as [pl|]; [|done].
  destruct (m_currentRoom pl) as [r|]; [|done]. destruct (w_rooms w !! r) as [b|] eqn:E; [|done].
  apply sends_set_box; [|done]. cbn. apply Forall_app. split; [|by repeat constructor].
  by apply (si_jobs _ Hi (QRoom r)).
Qed.

Lemma sends_run_job q b j w :
  Forall job_sends (b_jobs b) -> job_sends j -> sends_inv w -> sends_inv (run_job q b j w).
Proof.
  intros Hb Hj Hi.
  destruct q as [i|i], j; cbn [run_job]; auto with dhnet;
    unfold Lobby_Enter, Lobby_Exit, Lobby_Chat, Room_Enter, Room_Leave; repeat case_match; auto 8 with dhnet;
    try (apply sends_EnterRoom); auto with dhnet.
Qed.

Lemma sends_post q j b w :
  get_box q w = Some b -> job_sends j -> sends_inv w ->
  sends_inv (set_box q (mkBox (b_players b) (b_avail b) (b_jobs b ++ [j])) w).
Proof.
  intros Hb Hj Hi. apply sends_set_box; [|done]. cbn. apply Forall_app. split; [by apply (si_jobs _ Hi q)|]. constructor; [done|constructor].
Qed.

Lemma sends_reserve q w : sends_inv w -> sends_inv (snd (reserve q w)).
Proof.
  intros Hi. unfold reserve. destruct (get_box q w) as [b|] eqn:E; [|done].
  destruct (TryReserveSlot (b_avail b)) as [ok avail]. apply sends_set_box; [|done]. cbn. by apply (si_jobs _ Hi q).
Qed.

Lemma sends_reserve_then q j sc w acts w' :
  act_sends sc -> job_sends j -> sends_inv w ->
  (let '(ok, w1) := reserve q w in if ok then ([APost q j], w1) else ([sc], w1)) = (acts, w') ->
  Forall act_sends acts /\ sends_inv w'.
Proof.
  intros Hsc Hj Hi E. specialize (sends_reserve q w Hi). destruct (reserve q w) as [ok w1]. cbn.
  destruct ok; injection E as <- <-; intros; split; try done; by repeat constructor.
Qed.

Lemma sends_MakeRoom w : sends_inv w -> sends_inv (snd (MakeRoom w)).
Proof.
  intros [H1 H2 H3]. unfold MakeRoom. destruct (TryReserveSlot _) as [ok avail]. split; [done| |done].
  intros [i|i] b; cbn; [apply (H2 (QLobby i))|]. rewrite lookup_app. destruct (w_rooms w !! i) eqn:E.
  - intros [= <-]. by apply (H2 (QRoom i)).
  - intros Hb. apply list_elem_of_lookup_2, list_elem_of_singleton in Hb as ->. constructor.
Qed.

Lemma sends_exec_act hint a w acts w' :
  act_sends a -> sends_inv w -> exec_act hint a w = (acts, w') -> Forall act_sends acts /\ sends_inv w'.
Proof.
  intros Ha Hi.
  assert (forall w1, w_out w1 = w_out w -> w_threads w1 = w_threads w -> w_lobbies w1 = w_lobbies w ->
    w_rooms w1 = w_rooms w -> sends_inv w1) as Hext.
  { intros w1 Ho Ht Hl Hr. eapply sends_inv_ext; [done|done| |done]. intros [i|i]; cbn; congruence. }
  destruct a; cbn [exec_act]; try (destruct hint as [l|]);
    try (by intros E; eapply sends_reserve_then; [..|exact E]).
  all: unfold PlayerSystem_Add, SetPlayer; repeat case_match; intros E; simplify_eq; (split; [try by repeat constructor|]); auto with dhnet.
  all: try (by eapply sends_post). all: try (by apply Hext).
  all: try match goal with E : reserve ?q ?x = (_, _) |- _ => specialize (sends_reserve q x Hi); by rewrite E end.
  all: try match goal with E : MakeRoom ?x = (_, _) |- _ => specialize (sends_MakeRoom x Hi); by rewrite E end.
  all: unfold OnDisconnected; case_match; by repeat constructor.
Qed.

Lemma sends_on_event e w acts w' :
  sends_inv w -> on_event e w = (acts, w') -> Forall act_sends acts /\ sends_inv w'.
Proof.
  intros Hi.
  assert (forall (h : option (list act)) s, (forall l, h = Some l -> Forall act_sends l) ->
            (default [ADisconnect s] h, w) = (acts, w') -> Forall act_sends acts /\ sends_inv w') as Hd.
  { intros h s Hh [= <- <-]. split; [|done]. destruct h; cbn; [by apply Hh|by repeat constructor]. }
  destruct e; cbn [on_event];
    try (apply Hd; intros l; unfold HandleReqRoomEnterPacket, HandleReqRoomChatPacket, HandleReqRoomExitPacket,
           HandleReqLobbyChatPacket, HandleReqRoomListPacket; destruct (GetPlayer s w); cbn; [|done];
         intros [= <-]; by repeat constructor).
  - unfold OnLoginResult. case_decide; intros [= <- <-];
      (split; [by repeat constructor|]); try done; apply (sends_inv_ext w); try done; by intros [|].
  - intros [= <- <-]. split; [by repeat constructor|done].
  - unfold AdminKickPlayer. repeat case_match; intros [= <- <-]; split; try done; by repeat constructor.
  - unfold AdminBroadcast. repeat case_match; intros [= <- <-]; split; try done; by repeat constructor.
Qed.

Lemma sends_step w w' : sends_inv w -> game_step w w' -> sends_inv w'.
Proof.
  assert (forall t w, Forall (Forall act_sends) t -> sends_inv w -> sends_inv (set_threads t w)) as Ht.
  { intros t w0 Ht [H1 H2 _]. split; [done| |done]. intros q b. rewrite get_box_threads. apply H2. }
  intros Hi Hs. destruct Hs as [w s Hn|w e acts w' E|w k a rest hint acts w' Hk E|w q b j js Hb Hj|w s Hn].
  - apply (sends_inv_ext w); [done|done| |done]. by intros [|].
  - destruct (sends_on_event _ _ _ _ Hi E) as [Ha Hi']. apply Ht; [|done]. constructor; [done|apply Hi'].
  - specialize (Forall_lookup_1 _ _ _ _ (si_acts _ Hi) Hk) as Hall. apply Forall_cons in Hall as [Ha Hrest].
    destruct (sends_exec_act _ _ _ _ _ Ha Hi E) as [Hacts Hi']. apply Ht; [|done].
    apply Forall_insert; [apply Hi'|]. by apply Forall_app.
  - specialize (si_jobs _ Hi q b Hb) as Hjobs. rewrite Hj in Hjobs. apply Forall_cons in Hjobs as [Hj1 Hjs].
    cbv zeta. apply sends_run_job; [done|done|]. by apply sends_set_box.
  - apply (sends_inv_ext w); [done|done| |done]. by intros [|].
Qed.

Lemma sends_reach w : game_reach w -> sends_inv w.
Proof.
  apply reach_invariant.
  - intros ? ->. split; cbn; [constructor| |constructor]. intros [i|i] b; cbn; [|done].
    intros Hb. apply list_elem_of_lookup_2 in Hb. repeat (apply elem_of_cons in Hb as [->|Hb]; [constructor|]).
    by apply elem_of_nil in Hb.
  - intros. by eapply sends_step.
Qed.

(** every packet the game server ever sends, in any interleaving of its
    threads, has a handler in the client's table and in the load generator's, so
    neither drops its own session on it; the only exception is Res_RoomList,
    which answers Req_RoomList and which neither registers. *)
Theorem clients_handle_server_packets w s pk :
  game_reach w -> (s, pk) ∈ w_out w -> (forall rooms, pk <> ResRoomList rooms) ->
  is_Some (client_table !! packet_num (packet_enum pk)) /\ is_Some (RegisterHandlers !! packet_num (packet_enum pk)).
Proof.
  intros Hr Hin Hne. specialize (si_out _ (sends_reach _ Hr)) as Ho. rewrite Forall_forall in Ho.
  specialize (Ho _ Hin). cbn in Ho. destruct pk; try done; try (by vm_compute; eauto). by destruct (Hne rooms).
Qed.

(** The first player's login ends with Res_LobbyEnter. *)
Lemma demo_out :
  game_reach (final (sc_login 0 100)) /\ (0%nat, ResLobbyEnter 0 [(100, [65])]) ∈ w_out (final (sc_login 0 100)).
Proof.
  split; [apply final_reach|]. apply (list_elem_of_lookup_2 _ 1). vm_compute. reflexivity.
Qed.

Lemma clients_handle_server_packets_witness :
  is_Some (client_table !! packet_num Res_LobbyEnter) /\ is_Some (RegisterHandlers !! packet_num Res_LobbyEnter).
Proof.
  exact (clients_handle_server_packets (final (sc_login 0 100)) 0 (ResLobbyEnter 0 [(100, [65])])
    (proj1 demo_out) (proj2 demo_out) ltac:(discriminate)).
Defined.

(** ** The load generator's first ping *)

(** As soon as its session is registered the load generator pings it, also
    while the key exchange is under way; the ping then leaves in the clear, and
    the server disconnects the session on it whether or not it has finished its
    half of the handshake. *)
Theorem ping_in_handshake_disconnects {O : OpenSSL} {W} (Process : Z -> list Z -> gsession -> W -> outcome (bool * gsession * W))
    env chunk rand cfg now pkt c s w :
  milliseconds (pingIntervalMs cfg) <= now ->
  m_handshakeDone c = false -> m_packetNum (packet_bytes pkt) = packet_num Test ->
  AdvancePing_apply cfg now ScenarioState_new = (false, true, set_ping true now now ScenarioState_new) /\
  ServerSession_Send chunk rand pkt c = Ok (Session_Send pkt c) /\
  GameSession_OnRecv Process env (packet_bytes pkt) s w = Ok (false, Disconnect s, w).
Proof.
  intros Hn Hc Hp. split_and!.
  - unfold AdvancePing_apply. cbn. rewrite (proj2 (Z.leb_le _ _)) by lia. done.
  - unfold ServerSession_Send. by rewrite Hc.
  - unfold GameSession_OnRecv. rewrite Hp. by destruct (m_handshakeDone s).
Qed.

Lemma ping_in_handshake_disconnects_witness :
  @GameSession_OnRecv toy.ssl nat toy_process (@mkEnv toy.ssl None None []) [0; 0; 4; 0] (@gs_new toy.ssl) 0%nat =
  Ok (false, @Disconnect toy.ssl (@gs_new toy.ssl), 0%nat).
Proof.
  apply (@ping_in_handshake_disconnects toy.ssl nat toy_process (@mkEnv toy.ssl None None []) None None
    g_scenarioConfig (milliseconds 250) [0; 0; 4; 0] (@gs_new toy.ssl) (@gs_new toy.ssl) 0%nat);
    [vm_compute; discriminate|reflexivity|reflexivity].
Defined.
