(* ===== verification/Link.v ===== *)
(** * The whole path of a packet

    What the other files prove of the parts, put together: a packet written by
    one program (Packets.v) is sealed by its session (Crypto.v), sent, cut into
    chunks by the network, reassembled (RecvBuffer.v), opened by the other
    session and given to the handler of its number (Server.v), which acts on the
    game (Game.v).

    [ChannelEnd] is what the two session classes, src/DhNet_Server/DhNet_Server/
    GameSession.cpp and src/DhNet_Client/DhNet_Client/ServerSession.cpp, promise
    to their peer; the theorems on delivery are proved against it.  [program] and
    [server_process] are the server behind the channel: GameSession::OnRecv's call
    of PacketHandler::Process and the handlers of GameServer::RegisterPacket. *)

From S2P Require Import Prelude Bytes Packets RecvBuffer Crypto Auth Slots Game Server.
#[local] Open Scope Z_scope.

(** ** The two ends *)

Section ends.
Context {O : OpenSSL} {OK : OpenSSL_ok O}.
Context {W : Type} (Process : Z -> list Z -> gsession -> W -> outcome (bool * gsession * W)).

(** One end of a channel: its Send, its OnRecv and the 1280 bytes of the stack
    the [k]-th call decrypts into. *)
Class ChannelEnd := {
  end_send : option (list Z) -> option (list Z) -> list Z -> gsession -> outcome gsession;
  end_recv : nat -> list Z -> gsession -> W -> outcome (bool * gsession * W);
  end_stack : nat -> list Z;
}.

(** What an end promises: packets go out in one envelope each; an envelope is
    opened and handed to [Process]; nothing past an envelope is read. *)
Class ChannelEnd_ok (E : ChannelEnd) := {
  end_sends : forall key nonce inner buf c t s,
    established key s -> length nonce = 12%nat -> (1312 <= length buf)%nat ->
    4 <= m_dataSize inner <= MAX_PLAIN_PACKET_SIZE -> m_dataSize inner <= Z.of_nat (length inner) ->
    GCM_seal key nonce (packet_bytes inner) = Some (c, t) ->
    exists wire, envelope wire nonce c t /\
      end_send (Some buf) (Some nonce) inner s =
        Ok (mkGs (m_connected s) (m_handshakeDone s) (m_cipher s) (m_myPrivKey s) (gs_sent s ++ [wire]));
  end_receives : forall k key nonce plain c t wire s w,
    established key s -> GCM_seal key nonce plain = Some (c, t) -> envelope wire nonce c t ->
    (4 <= length plain <= Z.to_nat MAX_PLAIN_PACKET_SIZE)%nat ->
    end_recv k wire s w = Process (m_packetNum plain) (write_bytes 0 plain (end_stack k)) s w;
  end_local : forall k n mem s w,
    m_packetNum mem = packet_num Encrypted -> m_dataSize mem = Z.of_nat n -> (4 <= n <= length mem)%nat ->
    end_recv k mem s w = end_recv k (take n mem) s w;
}.

(** GameSession and ServerSession; what the calls take from their surroundings
    is given for each call. *)
Definition game_end (env : nat -> recv_env) : ChannelEnd :=
  {| end_send := GameSession_Send;
     end_recv k := GameSession_OnRecv Process (env k);
     end_stack k := e_stack (env k) |}.

Definition server_end (lenv : nat -> login_env) (stack : nat -> list Z) : ChannelEnd :=
  {| end_send := ServerSession_Send;
     end_recv k := ServerSession_OnRecv Process (lenv k) (stack k);
     end_stack := stack |}.

(** *** Both keep the promise *)

Lemma header_take n mem :
  (4 <= n)%nat -> m_packetNum (take n mem) = m_packetNum mem /\ m_dataSize (take n mem) = m_dataSize mem.
Proof. intros Hn. unfold m_packetNum, m_dataSize, rd_u16. by rewrite !read_take by lia. Qed.

Lemma Decrypt_local key n mem out :
  m_dataSize mem = Z.of_nat n ->
  Decrypt key off_payload (take n mem) (m_dataSize mem - Z.of_nat sizeof_PacketHeader) out =
  Decrypt key off_payload mem (m_dataSize mem - Z.of_nat sizeof_PacketHeader) out.
Proof.
  intros Hd. unfold Decrypt, sizeof_PacketHeader, off_payload. rewrite Hd.
  destruct (Z.ltb_spec (Z.of_nat n - Z.of_nat 4) 28); [done|].
  by rewrite !read_take by lia.
Qed.

Lemma packet_num_plain plain out :
  (4 <= length plain)%nat -> m_packetNum (write_bytes 0 plain out) = m_packetNum plain.
Proof. intros Hl. unfold m_packetNum, rd_u16. by rewrite read_write_0 by lia. Qed.

Lemma envelope_sends key nonce inner buf c t (s : gsession) :
  established key s -> length nonce = 12%nat -> (1312 <= length buf)%nat ->
  4 <= m_dataSize inner <= MAX_PLAIN_PACKET_SIZE -> m_dataSize inner <= Z.of_nat (length inner) ->
  GCM_seal key nonce (packet_bytes inner) = Some (c, t) ->
  exists wire, envelope wire nonce c t /\
    SendEncrypted (Some buf) (Some nonce) inner s =
      Ok (mkGs (m_connected s) (m_handshakeDone s) (m_cipher s) (m_myPrivKey s) (gs_sent s ++ [wire])).
Proof using OK.
  intros [_ Hk] Hn Hb Hd Hl Hs.
  destruct (SendEncrypted_envelope key nonce inner buf c t s Hk Hn Hd Hl Hb Hs) as (wire & Hw & He). eauto.
Qed.

#[global] Instance game_end_ok env : ChannelEnd_ok (game_end env).
Proof using OK.
  split; cbn [end_send end_recv end_stack game_end].
  - intros key nonce inner buf c t s He **.
    destruct (envelope_sends key nonce inner buf c t s) as (wire & Hw & Hs); try done.
    exists wire. split; [done|]. unfold GameSession_Send. by rewrite (proj1 He) at 1.
  - intros k key nonce plain c t wire s w [Hd Hk] Hs He Hl.
    destruct (Decrypt_envelope key nonce plain c t wire [] (e_stack (env k)) Hs He) as (HD & HN & HP).
    rewrite app_nil_r in *. unfold GameSession_OnRecv. rewrite Hd, HN, Z.eqb_refl, Hk, HD, HP. cbn [negb].
    unfold MAX_PLAIN_PACKET_SIZE in *.
    destruct (Z.ltb_spec (Z.of_nat (length plain) + 28) 28); [lia|].
    destruct (Z.gtb_spec (Z.of_nat (length plain) + 28) (1280 + 28)); [lia|].
    cbn [orb]. by rewrite packet_num_plain by lia.
  - intros k n mem s w Hn Hd Hl. destruct (header_take n mem ltac:(lia)) as [E1 E2].
    unfold GameSession_OnRecv. rewrite E1, E2, Hn. destruct (m_handshakeDone s); cbn [negb]; [|done].
    destruct (_ || _); [done|]. destruct (m_cipher s); [|done]. by rewrite Decrypt_local.
Qed.

#[global] Instance server_end_ok lenv stack : ChannelEnd_ok (server_end lenv stack).
Proof using OK.
  split; cbn [end_send end_recv end_stack server_end].
  - intros key nonce inner buf c t s He **.
    destruct (envelope_sends key nonce inner buf c t s) as (wire & Hw & Hs); try done.
    exists wire. split; [done|]. unfold ServerSession_Send. by rewrite (proj1 He) at 1.
  - intros k key nonce plain c t wire s w [Hd Hk] Hs He Hl.
    destruct (Decrypt_envelope key nonce plain c t wire [] (stack k) Hs He) as (HD & HN & HP).
    rewrite app_nil_r in *. unfold ServerSession_OnRecv. rewrite Hd, HN, Z.eqb_refl, Hk, HD, HP. cbn [negb].
    unfold MAX_PLAIN_PACKET_SIZE in *.
    destruct (Z.ltb_spec (Z.of_nat (length plain) + 28) 28); [lia|].
    destruct (Z.gtb_spec (Z.of_nat (length plain) + 28) (1280 + 28)); [lia|].
    cbn [orb]. by rewrite packet_num_plain by lia.
  - intros k n mem s w Hn Hd Hl. destruct (header_take n mem ltac:(lia)) as [E1 E2].
    unfold ServerSession_OnRecv. rewrite E1, E2, Hn. destruct (m_handshakeDone s); cbn [negb]; [|done].
    destruct (_ || _); [done|]. destruct (m_cipher s); [|done]. by rewrite Decrypt_local.
Qed.
End ends.

(** ** Sending *)

Section sending.
Context {O : OpenSSL} {W : Type} (Process : Z -> list Z -> gsession -> W -> outcome (bool * gsession * W)).

(** A packet to send, with the chunk and the nonce its envelope gets. *)
Record message := mkMessage { g_inner : list Z; g_buf : list Z; g_nonce : list Z }.

Definition plain_of (m : message) : list Z := packet_bytes (g_inner m).

Definition sendable (key : list Z) (m : message) : Prop :=
  length (g_nonce m) = 12%nat /\ (1312 <= length (g_buf m))%nat /\
  4 <= m_dataSize (g_inner m) <= MAX_PLAIN_PACKET_SIZE /\ m_dataSize (g_inner m) <= Z.of_nat (length (g_inner m)) /\
  is_Some (GCM_seal key (g_nonce m) (plain_of m)).

Fixpoint send_messages (E : ChannelEnd (W := W)) (ms : list message) (s : gsession) : outcome gsession :=
  match ms with
  | [] => Ok s
  | m :: ms' => s ← end_send (Some (g_buf m)) (Some (g_nonce m)) (g_inner m) s; send_messages E ms' s
  end.

Definition sealed (key wire plain : list Z) : Prop :=
  exists nonce c t, GCM_seal key nonce plain = Some (c, t) /\ envelope wire nonce c t /\
    (4 <= length plain <= Z.to_nat MAX_PLAIN_PACKET_SIZE)%nat.

Lemma length_plain m key : sendable key m -> Z.of_nat (length (plain_of m)) = m_dataSize (g_inner m).
Proof.
  intros (_ & _ & Hd & Hl & _). unfold plain_of, packet_bytes, MAX_PLAIN_PACKET_SIZE in *.
  rewrite length_take. lia.
Qed.

Lemma send_messages_ok E (EK : ChannelEnd_ok Process E) key ms s :
  established key s -> Forall (sendable key) ms ->
  exists wires, Forall2 (sealed key) wires (map plain_of ms) /\
    send_messages E ms s =
      Ok (mkGs (m_connected s) (m_handshakeDone s) (m_cipher s) (m_myPrivKey s) (gs_sent s ++ wires)).
Proof using Type.
  intros He Hms. revert s He. induction Hms as [|m ms Hm _ IH]; intros s He.
  { exists []. split; [constructor|]. cbn. rewrite app_nil_r. by destruct s. }
  pose proof (length_plain m key Hm) as Hlen.
  destruct Hm as (Hn & Hb & Hd & Hl & [[c t] Hs]). cbn [send_messages map].
  destruct (end_sends Process key (g_nonce m) (g_inner m) (g_buf m) c t s He Hn Hb Hd Hl Hs) as (wire & Hw & ->).
  cbn [mbind outcome_bind]. edestruct IH as (wires & Hws & ->); [exact He|]. cbn.
  exists (wire :: wires). split; [|by rewrite <- app_assoc].
  constructor; [|done]. exists (g_nonce m), c, t. split_and!; [done|done|..];
    unfold MAX_PLAIN_PACKET_SIZE in *; lia.
Qed.
End sending.

(** ** A session behind its receive buffer *)

Section delivery.
Context {O : OpenSSL} {OK : OpenSSL_ok O}.
Context {W : Type} (Process : Z -> list Z -> gsession -> W -> outcome (bool * gsession * W)).
(** What OnDisconnected does to the program. *)
Context (closed : W -> W).

(** [x_calls]: the calls of OnRecv so far; [x_crash]: the cause, once the process
    has ended in one of them. *)
Record conn_end := mkEnd {
  x_sess : gsession;
  x_world : W;
  x_calls : nat;
  x_crash : option string;
}.

(** Session::Disconnect: the exchange of m_connected, then OnDisconnected. *)
Definition end_Disconnect (e : conn_end) : conn_end :=
  mkEnd (Disconnect (x_sess e)) (if m_connected (x_sess e) then closed (x_world e) else x_world e)
    (x_calls e) (x_crash e).

(** The end after a call of OnRecv; a Disconnect inside it has run OnDisconnected. *)
Definition settle (e : conn_end) (r : outcome (bool * gsession * W)) : bool * conn_end :=
  match r with
  | Ok (go, s, w) =>
      (go, mkEnd s (if m_connected (x_sess e) && negb (m_connected s) then closed w else w)
             (S (x_calls e)) (x_crash e))
  | Crash cause => (false, mkEnd (x_sess e) (x_world e) (S (x_calls e)) (Some cause))
  end.

#[local] Instance end_ops (E : ChannelEnd) : SessionOps conn_end :=
  {| OnRecv e mem := settle e (end_recv (x_calls e) mem (x_sess e) (x_world e));
     RecvBuffer.Disconnect _ e := end_Disconnect e;
     IsConnected e := m_connected (x_sess e) |}.

(** ** The reference: messages, without bytes *)

(** The handlers run on one message after the other, until one returns false. *)
Fixpoint handle (E : ChannelEnd (W := W)) (msgs : list (list Z)) (e : conn_end) : bool * conn_end :=
  match msgs with
  | [] => (true, e)
  | plain :: msgs' =>
      let '(go, e1) := settle e (Process (m_packetNum plain) (write_bytes 0 plain (end_stack (x_calls e)))
                                   (x_sess e) (x_world e)) in
      if go : bool then handle E msgs' e1 else (false, end_Disconnect e1)
  end.

(** [k] of the envelopes are complete in the bytes received. *)
Definition complete (wires : list (list Z)) (bs : list Z) (k : nat) : Prop :=
  (k <= length wires)%nat /\ (length (concat (take k wires)) <= length bs)%nat /\
  (k < length wires -> length bs < length (concat (take (S k) wires)))%nat.

(** ** Receiving *)

Lemma sealed_frame key wire plain :
  sealed key wire plain ->
  m_packetNum wire = packet_num Encrypted /\ m_dataSize wire = Z.of_nat (length wire) /\ (4 <= length wire)%nat.
Proof. intros (nonce & c & t & _ & (H1 & H2 & H3 & _) & _). rewrite H2, H3. split_and!; [done|done|lia]. Qed.

(** Bytes that end inside the first envelope are left for later. *)
Lemma stream_short (E : ChannelEnd (W := W)) key wire plain bs more (e : conn_end) :
  sealed key wire plain -> bs ++ more = wire -> more <> [] -> stream_run e bs = Rest e bs.
Proof using Type.
  intros Hs <- Hm. apply sealed_frame in Hs as (_ & Hd & _). rewrite stream_run_step. cbv zeta.
  destruct (Nat.ltb_spec (length bs) 4); [done|].
  rewrite m_dataSize_app in Hd by done. rewrite Hd, Nat2Z.id, length_app.
  destruct more; [done|]. cbn [length].
  destruct (Nat.ltb_spec (length bs + S (length more)) 4); [lia|].
  by rewrite (proj2 (Nat.ltb_lt _ _)) by lia.
Qed.

Context (E : ChannelEnd (W := W)) (EK : ChannelEnd_ok Process E) (key : list Z).
Context (handlers_keep_channel : forall num buf s w go s' w',
  established key s -> Process num buf s w = Ok (go, s', w') -> established key s').

Lemma settle_established num buf e :
  established key (x_sess e) ->
  established key (x_sess (snd (settle e (Process num buf (x_sess e) (x_world e))))).
Proof using handlers_keep_channel.
  intros He. destruct (Process _ _ _ _) as [[[go s] w]|] eqn:Ep; cbn; [|done]. by eapply handlers_keep_channel.
Qed.

Lemma stream_first wire plain bs e :
  sealed key wire plain -> established key (x_sess e) ->
  stream_run e (wire ++ bs) =
    match settle e (Process (m_packetNum plain) (write_bytes 0 plain (end_stack (x_calls e))) (x_sess e) (x_world e)) with
    | (true, e1) => stream_run e1 bs
    | (false, e1) => Stop (end_Disconnect e1)
    end.
Proof using EK.
  intros Hs He. pose proof (sealed_frame _ _ _ Hs) as (_ & Hd & Hl). rewrite stream_run_step. cbv zeta.
  rewrite m_dataSize_app, Hd, Nat2Z.id, length_app by done.
  rewrite !(proj2 (Nat.ltb_ge _ _)) by lia.
  rewrite take_app_length, drop_app_length. cbn [OnRecv end_ops].
  destruct Hs as (nonce & c & t & Hgcm & Henv & Hlen).
  by rewrite (end_receives Process (x_calls e) key nonce plain c t wire).
Qed.

Lemma complete_cons wire wires bs k : complete wires bs k -> complete (wire :: wires) (wire ++ bs) (S k).
Proof using Type.
  intros (H1 & H2 & H3). unfold complete. cbn [take concat length] in *. rewrite !length_app.
  split_and!; [lia..|]. intros Hk. specialize (H3 ltac:(lia)). lia.
Qed.

Lemma stream_handles wires plains bs more e :
  Forall2 (sealed key) wires plains -> concat wires = bs ++ more -> established key (x_sess e) ->
  exists k, complete wires bs k /\
    stream_run e bs =
      match handle E (take k plains) e with
      | (true, e') => Rest e' (drop (length (concat (take k wires))) bs)
      | (false, e') => Stop e'
      end.
Proof using EK handlers_keep_channel.
  intros Hw. revert bs e. induction Hw as [|wire plain wires plains Hs Hw IH]; intros bs e Hc He.
  { symmetry in Hc. apply app_nil in Hc as [-> _]. exists 0%nat. by split. }
  cbn [concat] in Hc. destruct (decide (length bs < length wire)%nat) as [Hlt|Hge].
  { exists 0%nat. split; [unfold complete; cbn [take concat length]; rewrite ?app_nil_r; split_and!; lia|].
    cbn [take handle concat length]. rewrite drop_0.
    apply (stream_short E key wire plain bs (drop (length bs) wire)); [done| |].
    - apply (f_equal (take (length bs))) in Hc. rewrite take_app_length, take_app_le in Hc by lia.
      rewrite <- Hc at 1. apply take_drop.
    - intros Hn%(f_equal length). rewrite length_drop in Hn. cbn in Hn. lia. }
  assert (bs = wire ++ drop (length wire) bs) as Hbs.
  { apply (f_equal (take (length wire))) in Hc. rewrite take_app_length, take_app_le in Hc by lia.
    rewrite Hc at 1. by rewrite take_drop. }
  rewrite Hbs in Hc |- *. rewrite <- app_assoc in Hc. apply app_inv_head in Hc.
  set (bs' := drop (length wire) bs) in *.
  rewrite (stream_first _ _ _ _ Hs He).
  pose proof (settle_established (m_packetNum plain) (write_bytes 0 plain (end_stack (x_calls e))) e He) as He1.
  destruct (settle e _) as [go e1] eqn:Est. cbn [snd] in He1.
  destruct (IH bs' e1 Hc He1) as (k & Hk & Hrun).
  exists (S k). split; [by apply complete_cons|].
  cbn [take handle concat length]. rewrite Est. destruct go; [|done].
  rewrite Hrun. destruct (handle E (take k plains) e1) as [[] e2]; [|done].
  f_equal. rewrite length_app. by rewrite drop_app_add'.
Qed.

Lemma frames_wires wires plains : Forall2 (sealed key) wires plains -> frames (concat wires) = wires.
Proof using Type.
  induction 1 as [|wire plain wires plains Hs _ IH]; [done|]. cbn [concat].
  apply sealed_frame in Hs as (_ & Hd & Hl). rewrite frames_step. cbv zeta.
  rewrite m_dataSize_app, Hd, Nat2Z.id, length_app by done.
  rewrite !(proj2 (Nat.ltb_ge _ _)) by lia. cbn [orb].
  by rewrite take_app_length, drop_app_length, IH.
Qed.

Definition is_envelope (pk : list Z) : Prop := m_packetNum pk = packet_num Encrypted.

Lemma prefix_envelopes wires plains bs more :
  Forall2 (sealed key) wires plains -> concat wires = bs ++ more -> Forall is_envelope (frames bs).
Proof using Type.
  intros Hw Hc. destruct (frames_app_l bs more) as [l Hl]. rewrite <- Hc, (frames_wires _ _ Hw) in Hl.
  assert (Forall is_envelope wires) as Ha.
  { clear -Hw. induction Hw as [|wire plain wires plains Hs _ IH]; [done|].
    constructor; [|done]. exact (proj1 (sealed_frame _ _ _ Hs)). }
  rewrite Hl in Ha. by apply Forall_app in Ha as [Ha _].
Qed.

Lemma end_ops_local (e : conn_end) (mem : list Z) :
  let n := Z.to_nat (m_dataSize mem) in
  (4 <= n <= length mem)%nat -> is_envelope (take n mem) -> OnRecv e mem = OnRecv e (take n mem).
Proof using EK.
  intros n Hn Henv. cbn [OnRecv end_ops]. f_equal. apply end_local with Process.
  - exact EK.
  - unfold is_envelope in Henv. by rewrite (proj1 (header_take n mem ltac:(lia))) in Henv.
  - unfold n. lia.
  - done.
Qed.

(** A connection in the state [e] with a receive posted, whatever has gone through
    its buffer before: the handshake has, before a channel is established. *)
Definition receiving (e : conn_end) (c : conn conn_end) : Prop := c_state c = e /\ armed c.

(** One that has just been accepted or made: nothing received yet. *)
Definition fresh (e : conn_end) : conn conn_end :=
  mkConn e (RecvBuffer_new BUFFER_SIZE) (Some (FreeSize (RecvBuffer_new BUFFER_SIZE))).

Lemma fresh_receiving e : receiving e (fresh e) /\ data (c_buf (fresh e)) = [].
Proof using Type. split; [|done]. split; [done|]. split; [apply RecvBuffer_new_wf|done]. Qed.

Lemma link_delivers {W1} (Process1 : Z -> list Z -> gsession -> W1 -> outcome (bool * gsession * W1))
    (E1 : ChannelEnd) (EK1 : ChannelEnd_ok Process1 E1) (ms : list message) (s : gsession) (e : conn_end) :
  established key s -> established key (x_sess e) -> Forall (sendable key) ms ->
  exists wires s', send_messages E1 ms s = Ok s' /\ gs_sent s' = gs_sent s ++ wires /\ length wires = length ms /\
  forall c0 chunks more c,
    let bs := data (c_buf c0) ++ concat chunks in
    receiving e c0 -> chunks <> [] -> Forall (Forall is_byte) chunks -> concat wires = bs ++ more ->
    @recv_steps _ (end_ops E) c0 chunks c ->
    exists k, complete wires bs k /\
      let '(go, e') := handle E (map plain_of (take k ms)) e in
      c_state c = e' /\
      if go : bool
      then data (c_buf c) = drop (length (concat (take k wires))) bs /\
           c_posted c = (if m_connected (x_sess e') then Some (FreeSize (c_buf c)) else None)
      else c_posted c = None.
Proof using EK handlers_keep_channel.
  intros Hs He Hms. destruct (send_messages_ok Process1 E1 EK1 key ms s Hs Hms) as (wires & Hw & Hsend).
  exists wires. eexists. split; [exact Hsend|]. split; [done|].
  split; [by rewrite (Forall2_length _ _ _ Hw), length_map|].
  intros c0 chunks more c bs [<- Ha] Hne Hb Hc Hrun.
  destruct (stream_handles wires _ bs more (c_state c0) Hw Hc He) as (k & Hk & Hst).
  exists k. split; [done|]. rewrite <- firstn_map.
  pose proof (@recv_steps_refines _ (end_ops E) (fun _ => True) is_envelope (fun _ _ H => H)
    (fun e mem _ => end_ops_local e mem) c0 c chunks Hrun I) as Href.
  subst bs. rewrite Hst in Href.
  specialize (Href (or_introl Ha) Hb (prefix_envelopes _ _ _ _ Hw Hc) Hne).
  destruct (handle E _ (c_state c0)) as [[] e']; [|done].
  destruct Href as (H1 & H2 & H3). split_and!; [done|done|]. cbn [IsConnected end_ops] in H3.
  destruct (m_connected (x_sess e')); [apply H3|done].
Qed.

(** C5: what one program sends, the other program's handlers get: packets sent
    through an established channel, cut into chunks in any way and received up to
    any point, have the effect of running the handlers on exactly those packets
    whose envelopes have arrived completely, in the order they were sent, each
    once, until a handler refuses; the bytes of the next envelope wait in the
    buffer and the next receive is posted.  This holds for both directions, and
    whatever the receive buffer has been used for before. *)
Theorem link_refines_messages {W1} (Process1 : Z -> list Z -> gsession -> W1 -> outcome (bool * gsession * W1))
    (E1 : ChannelEnd) (EK1 : ChannelEnd_ok Process1 E1) (ms : list message) (s : gsession) (e : conn_end) :
  established key s -> established key (x_sess e) -> Forall (sendable key) ms ->
  exists wires s', send_messages E1 ms s = Ok s' /\ gs_sent s' = gs_sent s ++ wires /\ length wires = length ms /\
  forall c0 chunks more c,
    let bs := data (c_buf c0) ++ concat chunks in
    receiving e c0 -> chunks <> [] -> Forall (Forall is_byte) chunks -> concat wires = bs ++ more ->
    @recv_steps _ (end_ops E) c0 chunks c ->
    exists k, complete wires bs k /\
      let '(go, e') := handle E (map plain_of (take k ms)) e in
      c_state c = e' /\
      if go : bool
      then data (c_buf c) = drop (length (concat (take k wires))) bs /\
           c_posted c = (if m_connected (x_sess e') then Some (FreeSize (c_buf c)) else None)
      else c_posted c = None.
Proof using EK handlers_keep_channel. by apply (link_delivers Process1). Qed.
End delivery.

(** ** Packets instead of bytes *)

(** Reading a packet takes nothing but the packet's own bytes. *)
Definition agree (n : nat) (b b' : list Z) : Prop :=
  forall off k, (off + k <= n)%nat -> read_bytes off k b' = read_bytes off k b.

Lemma get_players_agree n b b' count off :
  agree n b b' -> (off + count * sizeof_PlayerInfo <= n)%nat -> get_players count off b' = get_players count off b.
Proof.
  intros Ha. revert off. induction count as [|count IH]; intros off Ho; [done|].
  cbn [get_players]. unfold Get_string, rd_u64, sizeof_PlayerInfo in *.
  rewrite !Ha, IH by lia. done.
Qed.

Lemma get_players_length count off b l : get_players count off b = Some l -> length l = count.
Proof.
  revert off l. induction count as [|count IH]; intros off l E; cbn in E; [by simplify_eq|].
  destruct (Get_string _ _ _); [|done]. cbn in E. destruct (get_players _ _ _) eqn:Eg; [|done].
  cbn in E. simplify_eq. cbn. f_equal. by eapply IH.
Qed.

Lemma get_rooms_agree n b b' count off :
  agree n b b' -> (off + count * sizeof_RoomInfo <= n)%nat -> get_rooms count off b' = get_rooms count off b.
Proof.
  intros Ha. revert off. induction count as [|count IH]; intros off Ho; [done|].
  cbn [get_rooms]. unfold rd_i32, sizeof_RoomInfo in *. rewrite !Ha, IH by lia. done.
Qed.

Lemma get_rooms_length count off b : length (get_rooms count off b) = count.
Proof. revert off. induction count as [|count IH]; intros off; cbn; [done|by rewrite IH]. Qed.

Lemma decode_agree p b b' :
  m_packetNum b = packet_num (packet_enum p) -> decode b = Some (wire_view p) ->
  agree (sizeof (packet_enum p)) b b' -> decode b' = Some (wire_view p).
Proof.
  intros Hn Hd Ha. assert (m_packetNum b' = m_packetNum b) as Hn'.
  { unfold m_packetNum, rd_u16. apply f_equal, Ha. unfold sizeof, sizeof_PacketHeader. lia. }
  unfold decode in *. rewrite Hn' in *. rewrite Hn in *.
  destruct p as [u pw| |i n| |f|i n|m|i n m| |f|i n|l ps|i n|i n|m|i n m| |rs|t];
    cbn [packet_enum wire_view] in *; cbn [find all_packets packet_num Z.eqb Pos.eqb mbind option_bind] in *;
    unfold Get_string, Get_playerName, Get_playerId, Get_string, rd_u64, rd_i32, rd_u8 in *; unfold_fields;
    try (rewrite !Ha by (vm_compute; lia)); try done.
  - destruct (get_players _ _ b) as [l'|] eqn:Eg; [|done]. pose proof (get_players_length _ _ _ _ Eg) as Hl.
    cbn in Hd. injection Hd as Hi Hps. rewrite Hps, length_map, length_take in Hl.
    rewrite (get_players_agree _ b b' _ _ Ha).
    2:{ rewrite <- Hl. change (sizeof Res_LobbyEnter) with 1212%nat. unfold sizeof_PlayerInfo. lia. }
    rewrite Eg. cbn. by rewrite Hi, Hps.
  - injection Hd as Hrs. pose proof (f_equal length Hrs) as Hl.
    rewrite get_rooms_length, length_map, length_take in Hl.
    rewrite (get_rooms_agree _ b b' _ _ Ha); [by rewrite Hrs|].
    rewrite Hl. change (sizeof Res_RoomList) with 248%nat. unfold sizeof_RoomInfo. lia.
Qed.

(** The message [m] is a chunk filled for the packet [p]. *)
Definition carries_packet (p : packet) (m : message) : Prop :=
  text_fits p /\ exists chunk, (sizeof (packet_enum p) <= length chunk)%nat /\ encode p chunk = Ok (g_inner m).

(** What the envelope of a message needs. *)
Definition wrapped {O : OpenSSL} (key : list Z) (m : message) : Prop :=
  length (g_nonce m) = 12%nat /\ (1312 <= length (g_buf m))%nat /\ is_Some (GCM_seal key (g_nonce m) (plain_of m)).

Lemma sizeof_bounds e : e <> Encrypted -> (4 <= sizeof e <= 1280)%nat.
Proof. destruct e; try done; intros _; vm_compute; lia. Qed.

Lemma packet_enum_plain p : packet_enum p <> Encrypted.
Proof. by destruct p. Qed.

Lemma carries_plain p m :
  carries_packet p m ->
  m_dataSize (g_inner m) = Z.of_nat (sizeof (packet_enum p)) /\
  (sizeof (packet_enum p) <= length (g_inner m))%nat /\
  m_packetNum (plain_of m) = packet_num (packet_enum p) /\
  forall stack, decode (write_bytes 0 (plain_of m) stack) = Some (wire_view p).
Proof.
  intros (Ht & chunk & Hc & He). destruct (encode_carries p chunk Ht Hc) as (b & Hb & (Hl & _ & Hn & Hd) & Hdec).
  rewrite He in Hb. injection Hb as <-.
  pose proof (sizeof_bounds _ (packet_enum_plain p)) as Hs.
  assert (plain_of m = take (sizeof (packet_enum p)) (g_inner m)) as Hp.
  { unfold plain_of, packet_bytes. by rewrite Hd, Nat2Z.id. }
  split_and!; [done|lia| |].
  - rewrite Hp. by rewrite (proj1 (header_take (sizeof (packet_enum p)) (g_inner m) ltac:(lia))).
  - intros stack. apply (decode_agree p (g_inner m)); [done|done|]. intros off k Hok.
    rewrite Hp, read_write_0 by (rewrite length_take; lia). by rewrite read_take.
Qed.

Lemma carries_sendable {O : OpenSSL} key p m : carries_packet p m -> wrapped key m -> sendable key m.
Proof.
  intros Hc (Hn & Hb & Hs). destruct (carries_plain p m Hc) as (Hd & Hl & _).
  pose proof (sizeof_bounds _ (packet_enum_plain p)). unfold sendable, MAX_PLAIN_PACKET_SIZE.
  rewrite Hd. split_and!; try done; lia.
Qed.

Section packets.
Context {O : OpenSSL} {OK : OpenSSL_ok O}.
Context {W : Type} (Process : Z -> list Z -> gsession -> W -> outcome (bool * gsession * W)).
Context (closed : W -> W) (E2 : ChannelEnd (W := W)) (EK2 : ChannelEnd_ok Process E2) (key : list Z).
(** The program at the other end, and its session class. *)
Context {W1 : Type} (Process1 : Z -> list Z -> gsession -> W1 -> outcome (bool * gsession * W1)).
Context (E1 : ChannelEnd (W := W1)) (EK1 : ChannelEnd_ok Process1 E1).
Context (handlers_keep_channel : forall num buf s w go s' w',
  established key s -> Process num buf s w = Ok (go, s', w') -> established key s').
(** The handlers, on a packet's content. *)
Context (h : packet -> gsession -> W -> outcome (bool * gsession * W)).
Context (Process_reads : forall buf p s w,
  decode buf = Some p -> Process (packet_num (packet_enum p)) buf s w = h p s w).

(** The reference: the handlers on one packet after the other. *)
Fixpoint run_packets (ps : list packet) (e : conn_end) : bool * conn_end (W := W) :=
  match ps with
  | [] => (true, e)
  | p :: ps' =>
      let '(go, e1) := settle closed e (h (wire_view p) (x_sess e) (x_world e)) in
      if go : bool then run_packets ps' e1 else (false, end_Disconnect closed e1)
  end.

Lemma handle_packets ps ms e :
  Forall2 carries_packet ps ms -> handle Process closed E2 (map plain_of ms) e = run_packets ps e.
Proof using Process_reads.
  intros Hps. revert e. induction Hps as [|p m ps ms Hc _ IH]; intros e; [done|].
  cbn [map handle run_packets]. destruct (carries_plain p m Hc) as (_ & _ & -> & Hdec).
  replace (packet_enum p) with (packet_enum (wire_view p)) by (by destruct p).
  rewrite (Process_reads _ _ _ _ (Hdec _)).
  destruct (settle closed e _) as [[] e1]; [apply IH|done].
Qed.

Lemma complete_all (wires : list (list Z)) k :
  complete wires (concat wires) k -> k = length wires.
Proof using Type.
  intros (Hk & Hle & Hlt). destruct (decide (k = length wires)) as [|Hn]; [done|].
  specialize (Hlt ltac:(lia)). rewrite <- (take_drop (S k) wires) in Hlt at 1.
  rewrite concat_app, length_app in Hlt. lia.
Qed.

Lemma packets_arrive (ps : list packet) (ms : list message) (s : gsession) (e : conn_end) :
  established key s -> established key (x_sess e) -> Forall2 carries_packet ps ms -> Forall (wrapped key) ms ->
  exists wires s', send_messages E1 ms s = Ok s' /\ gs_sent s' = gs_sent s ++ wires /\
  forall c0 chunks c,
    receiving e c0 -> data (c_buf c0) = [] -> Forall (Forall is_byte) chunks -> concat chunks = concat wires ->
    @recv_steps _ (end_ops closed E2) c0 chunks c -> c_state c = snd (run_packets ps e).
Proof using EK1 EK2 handlers_keep_channel Process_reads.
  intros Hs He Hps Hms.
  assert (Forall (sendable key) ms) as Hsend.
  { clear -Hps Hms. induction Hps; [done|]. apply Forall_cons in Hms as [? ?].
    constructor; [by eapply carries_sendable|auto]. }
  destruct (link_delivers Process closed E2 EK2 key handlers_keep_channel Process1 E1 EK1 ms s e Hs He Hsend)
    as (wires & s' & H1 & H2 & Hlen & Hrecv).
  exists wires, s'. split_and!; [done|done|]. intros c0 chunks c Hr Hd Hb Hc Hrun.
  destruct chunks as [|chunk chunks].
  { inversion Hrun; subst. destruct ms as [|m ms]; [inversion Hps; subst; apply Hr|].
    destruct (send_messages_ok Process1 E1 EK1 key (m :: ms) s Hs Hsend) as (ws & Hws & Heq).
    rewrite H1 in Heq. injection Heq as ->. cbn in H2. apply app_inv_head in H2 as ->.
    inversion Hws as [|? ? ? ? Hw]; subst. apply sealed_frame in Hw as (_ & _ & Hw).
    apply (f_equal length) in Hc. cbn [concat] in Hc. rewrite length_app in Hc. cbn in Hc. lia. }
  destruct (Hrecv c0 (chunk :: chunks) [] c) as (k & Hk & Hst); [done|done|done|by rewrite Hd, app_nil_r|done|].
  rewrite Hd, Hc in Hk. cbn [app] in Hk. apply complete_all in Hk as ->. rewrite Hlen, take_ge in Hst by done.
  rewrite (handle_packets ps ms e Hps) in Hst.
  by destruct (run_packets ps e) as [[] e'], Hst as [-> _].
Qed.

(** packets arrive: whatever packets one program fills and sends through an
    established channel, once all their bytes have been received - cut in any way -
    the other program's handlers have run on the contents of exactly these
    packets, in order (strings cut to their fields), until one refused. *)
Theorem packets_delivered (ps : list packet) (ms : list message) (s : gsession) (e : conn_end) :
  established key s -> established key (x_sess e) -> Forall2 carries_packet ps ms -> Forall (wrapped key) ms ->
  exists wires s', send_messages E1 ms s = Ok s' /\ gs_sent s' = gs_sent s ++ wires /\
  forall c0 chunks c,
    receiving e c0 -> data (c_buf c0) = [] -> Forall (Forall is_byte) chunks -> concat chunks = concat wires ->
    @recv_steps _ (end_ops closed E2) c0 chunks c -> c_state c = snd (run_packets ps e).
Proof using EK1 EK2 handlers_keep_channel Process_reads. apply packets_arrive. Qed.
End packets.

(** ** The server behind the channel *)

(** The game, the logins handed to the database, and what handlers answered
    directly; [g_db]: whether there is a DbSystem; [g_alloc]: the chunk Sender::Alloc
    returns for the n-th direct answer, none when the send pool is exhausted. *)
Record program := mkProgram {
  g_world : world;
  g_logins : list (nat * list Z * list Z);
  g_replies : list (nat * packet);
  g_db : bool;
  g_alloc : nat -> option (list Z);
}.

Definition set_world (w : world) (g : program) : program :=
  mkProgram w (g_logins g) (g_replies g) (g_db g) (g_alloc g).
Definition add_login (sid : nat) (u p : list Z) (g : program) : program :=
  mkProgram (g_world g) (g_logins g ++ [(sid, u, p)]) (g_replies g) (g_db g) (g_alloc g).

(** A thread that starts on an event of the session. *)
Definition start_event (ev : game_event) (g : program) : program :=
  let '(acts, w) := on_event ev (g_world g) in set_world (set_threads (acts :: w_threads w) w) g.

(** A handler that answers: the chunk it gets, filled and handed to Send. *)
Definition reply (sid : nat) (pk : packet) (g : program) : outcome program :=
  match g_alloc g (length (g_replies g)) with
  | None => Crash "null SenderRef dereferenced"
  | Some buf =>
      _ ← encode pk buf;
      Ok (mkProgram (g_world g) (g_logins g) (g_replies g ++ [(sid, pk)]) (g_db g) (g_alloc g))
  end.

Section server.
Context {O : OpenSSL} {OK : OpenSSL_ok O}.
Context (sid : nat).

Abbreviation result := (outcome (bool * (gsession * program))).

(** [if (!player) return false;] *)
Definition with_player (ev : game_event) (s : gsession) (g : program) : result :=
  match GetPlayer sid (g_world g) with
  | None => Ok (false, (s, g))
  | Some _ => Ok (true, (s, start_event ev g))
  end.

(** The chat handlers make a std::string of [m_message], which stops at the first
    NUL, inside the field or not. *)
Definition with_message (ev : list Z -> game_event) (_header : list Z) (s : gsession) (g : program) : result :=
  match GetPlayer sid (g_world g) with
  | None => Ok (false, (s, g))
  | Some _ =>
      match c_string (drop off_m_message _header) with
      | None => Crash "read past the buffer"
      | Some m => Ok (true, (s, start_event (ev m) g))
      end
  end.

Definition queue_login (a : login_action) (s : gsession) (g : program) : result :=
  match a with
  | RejectNow => g ← reply sid ResLoginFailed g; Ok (true, (s, g))
  | Queue u p => Ok (true, (s, add_login sid u p g))
  end.

Definition test_reply : packet := TestPacket [84; 101; 115; 116; 40; 83; 101; 114; 118; 101; 114; 41].

(** A handler of the table on the decrypted packet. *)
Definition run_handler (hd : server_handler) (_header : list Z) (a : gsession * program) : result :=
  let '(s, g) := a in
  match hd with
  | HandleTest => g ← reply sid test_reply g; Ok (true, (s, g))
  | HandleReqLogin => act ← HandleReqLoginPacket (g_db g) _header; queue_login act s g
  | HandleReqRoomEnter => with_player (EvRoomEnter sid) s g
  | HandleReqRoomChat => with_message (EvRoomChat sid) _header s g
  | HandleReqRoomExit => with_player (EvRoomExit sid) s g
  | HandleReqLobbyChat => with_message (EvLobbyChat sid) _header s g
  | HandleReqRoomList => with_player (EvRoomList sid) s g
  end.

(** PacketHandler::Instance().Process(inner->m_packetNum, inner, session) *)
Definition server_process (num : Z) (_header : list Z) (s : gsession) (g : program)
  : outcome (bool * gsession * program) :=
  r ← Handler_Process (fun hd => run_handler hd _header) num RegisterPacket (s, g);
  let '(go, (s, g)) := r in Ok (go, s, g).

(** OnDisconnected *)
Definition server_closed (g : program) : program := start_event (EvDisconnect sid) g.

(** *** The handlers on a packet's content *)

Definition server_packet (p : packet) (s : gsession) (g : program) : outcome (bool * gsession * program) :=
  let known ev := match GetPlayer sid (g_world g) with
                  | None => Ok (false, s, g)
                  | Some _ => Ok (true, s, start_event ev g)
                  end in
  match p with
  | TestPacket _ => g ← reply sid test_reply g; Ok (true, s, g)
  | ReqLogin u pw =>
      if (4 <=? length u)%nat && (length u <=? 16)%nat && (8 <=? length pw)%nat && (length pw <=? 64)%nat && g_db g
      then Ok (true, s, add_login sid u pw g)
      else g ← reply sid ResLoginFailed g; Ok (true, s, g)
  | ReqRoomEnter => known (EvRoomEnter sid)
  | ReqRoomChat m => known (EvRoomChat sid m)
  | ReqRoomExit => known (EvRoomExit sid)
  | ReqLobbyChat m => known (EvLobbyChat sid m)
  | ReqRoomList => known (EvRoomList sid)
  | _ => Ok (false, s, g)
  end.

Lemma c_string_take n l m : c_string (take n l) = Some m -> c_string l = Some m /\ cprefix n l = m.
Proof.
  revert l m. induction n as [|n IH]; intros [|b l] m; cbn; try done.
  destruct (b =? 0); [by intros [= <-]|]. destruct (c_string (take n l)) as [m'|] eqn:E; [|done].
  intros [= <-]. destruct (IH _ _ E) as [-> ->]. done.
Qed.

Lemma login_reads buf u pw s g :
  Get_string off_m_username 16 buf = Some u -> Get_string off_m_password 64 buf = Some pw ->
  (act ← HandleReqLoginPacket (g_db g) buf; queue_login act s g) =
    ('(go, s, g) ← server_packet (ReqLogin u pw) s g; Ok (go, (s, g))).
Proof.
  intros Hu%c_string_take Hp%c_string_take. unfold HandleReqLoginPacket. rewrite read_credentials_ok.
  cbn [mbind outcome_bind]. destruct Hu as [_ ->], Hp as [_ ->]. unfold server_packet.
  destruct (Nat.leb_spec 4 (length u)), (Nat.leb_spec (length u) 16),
    (Nat.leb_spec 8 (length pw)), (Nat.leb_spec (length pw) 64); cbn [andb];
    destruct (Z.ltb_spec (Z.of_nat (length u)) 4), (Z.gtb_spec (Z.of_nat (length u)) 16),
      (Z.ltb_spec (Z.of_nat (length pw)) 8), (Z.gtb_spec (Z.of_nat (length pw)) 64); try lia;
    try (cbn; by destruct (reply sid ResLoginFailed g)).
  destruct (g_db g) eqn:Eg; cbn; [done|by destruct (reply sid ResLoginFailed g)].
Qed.

Definition handler_of (e : PacketEnum) : option server_handler :=
  match e with
  | Test => Some HandleTest | Req_RoomEnter => Some HandleReqRoomEnter | Req_Login => Some HandleReqLogin
  | Req_RoomChat => Some HandleReqRoomChat | Req_RoomExit => Some HandleReqRoomExit
  | Req_LobbyChat => Some HandleReqLobbyChat | Req_RoomList => Some HandleReqRoomList
  | _ => None
  end.

Lemma RegisterPacket_lookup e : RegisterPacket !! packet_num e = handler_of e.
Proof. by destruct e; vm_compute. Qed.

(** What decode says of the fields the server's handlers read. *)
Lemma decode_reads buf p :
  decode buf = Some p ->
  match p with
  | ReqLogin u pw => Get_string off_m_username 16 buf = Some u /\ Get_string off_m_password 64 buf = Some pw
  | ReqRoomChat m | ReqLobbyChat m => c_string (drop off_m_message buf) = Some m
  | _ => True
  end.
Proof.
  intros Hd. unfold decode in Hd. destruct (find _ _) as [en|]; [|discriminate]. cbn [mbind option_bind] in Hd.
  destruct p; try exact I; destruct en; try discriminate Hd;
    repeat match type of Hd with
    | mbind _ ?x = _ => destruct x eqn:?; cbn [mbind option_bind] in Hd; try discriminate Hd
    end; injection Hd as; subst; auto;
    match goal with H : Get_string _ _ _ = Some _ |- _ => apply c_string_take in H as [H _]; exact H end.
Qed.

Lemma server_reads buf p s g :
  decode buf = Some p -> server_process (packet_num (packet_enum p)) buf s g = server_packet p s g.
Proof.
  intros Hd%decode_reads. unfold server_process, Handler_Process. rewrite RegisterPacket_lookup.
  destruct p; cbn [packet_enum handler_of run_handler]; try done;
    try (unfold with_player, with_message, server_packet; rewrite ?Hd; by destruct (GetPlayer sid (g_world g))).
  - destruct Hd as [Hu Hp]. rewrite (login_reads _ _ _ s g Hu Hp). unfold server_packet.
    case_match; [done|]. by destruct (reply sid ResLoginFailed g).
  - unfold server_packet. by destruct (reply sid test_reply g).
Qed.

Lemma server_keeps_session num buf s g go s' g' : server_process num buf s g = Ok (go, s', g') -> s' = s.
Proof.
  unfold server_process, Handler_Process. intros E.
  destruct (RegisterPacket !! num) as [hd|]; cbn in E; [|by simplify_eq].
  apply bind_Ok_inv in E as ([go1 [s1 g1]] & E & [= -> -> ->]).
  destruct hd; cbn in E; try (apply bind_Ok_inv in E as (act & _ & E); destruct act);
    cbn in E; try apply bind_Ok_inv in E as (? & _ & E);
    unfold with_player, with_message in E; repeat case_match; by simplify_eq/=.
Qed.

(** ** Properties *)

Context (env : nat -> recv_env).

(** The server's session [sid]. *)
Definition server_ops : SessionOps (conn_end (W := program)) :=
  end_ops server_closed (game_end server_process env).

(** *** Whatever arrives: only what is sealed under the session's key acts *)

(** [wire] is an envelope a holder of the key has sealed around [plain]. *)
Definition opened (key wire plain : list Z) : Prop :=
  exists nonce c t, GCM_seal key nonce plain = Some (c, t) /\ envelope wire nonce c t /\
    Z.of_nat (length plain) <= MAX_PLAIN_PACKET_SIZE.

(** The stack of the [k]-th OnRecv with a decrypted packet at its beginning. *)
Definition plainBuf (plain : list Z) (k : nat) : list Z := write_bytes 0 plain (e_stack (env k)).

(** A complete packet on an established session is opened and handed to Process, or
    it is not one of the key's holder and ends the session. *)
Lemma OnRecv_gate key k pk s g :
  established key s -> m_dataSize pk = Z.of_nat (length pk) -> (4 <= length pk)%nat ->
  (exists plain, opened key pk plain /\
     GameSession_OnRecv server_process (env k) pk s g =
       server_process (m_packetNum (plainBuf plain k)) (plainBuf plain k) s g) \/
  ((forall plain, ~ opened key pk plain) /\
     GameSession_OnRecv server_process (env k) pk s g = Ok (false, Disconnect s, g)).
Proof using OK.
  intros [Hd Hk] Hsz Hl. unfold GameSession_OnRecv. rewrite Hd, Hk. cbn [negb].
  destruct (Z.eqb_spec (m_packetNum pk) (packet_num Encrypted)) as [He|He]; cbn [negb].
  2:{ right. split; [|done]. by intros plain (nonce & c & t & _ & (H & _) & _). }
  destruct (_ || _) eqn:Er.
  { right. split; [|done]. intros plain (nonce & c & t & Hs & (_ & Hd' & _) & Hp).
    destruct (gcm_lengths _ _ _ _ _ Hs) as [Hc _]. unfold sizeof_PacketHeader, MAX_PLAIN_PACKET_SIZE in *.
    apply orb_true_iff in Er as [Er|Er]; [apply Z.ltb_lt in Er|apply Z.gtb_lt in Er]; lia. }
  rewrite Z.gtb_ltb in Er. to_prop. unfold Decrypt, sizeof_PacketHeader, off_payload, MAX_PLAIN_PACKET_SIZE in *.
  rewrite (proj2 (Z.ltb_ge _ _)) by lia.
  replace (Z.to_nat (m_dataSize pk - Z.of_nat 4 - 28)) with (length pk - 32)%nat by lia.
  destruct (GCM_open key _ _ _) as [plain|] eqn:Eo; cbn [negb].
  - left. exists plain. split; [|done]. apply gcm_authentic in Eo as Es.
    destruct (gcm_lengths _ _ _ _ _ Es) as [Hc _]. rewrite length_read in Hc by lia.
    do 3 eexists. split; [exact Es|]. split; [|unfold MAX_PLAIN_PACKET_SIZE; lia].
    unfold envelope. rewrite length_read by lia. split_and!; try done; lia.
  - right. split; [|done]. intros plain (nonce & c & t & Hs & (_ & _ & Hlen & Hn & Hc & Ht) & _).
    apply gcm_decrypts in Hs. change (4 + 12)%nat with 16%nat in Eo.
    replace (length pk - 32)%nat with (length c) in Eo by lia. congruence.
Qed.

(** The reference: the handlers on one opened packet after the other. *)
Fixpoint obey (plains : list (list Z)) (e : conn_end) : bool * conn_end (W := program) :=
  match plains with
  | [] => (true, e)
  | plain :: plains' =>
      let buf := plainBuf plain (x_calls e) in
      let '(go, e1) := settle server_closed e (server_process (m_packetNum buf) buf (x_sess e) (x_world e)) in
      if go : bool then obey plains' e1 else (false, end_Disconnect server_closed e1)
  end.

(** The session is over, and nothing else has happened. *)
Definition dropped (e e' : conn_end (W := program)) : Prop :=
  x_sess e' = Disconnect (x_sess e) /\ x_crash e' = x_crash e /\
  x_world e' = (if m_connected (x_sess e) then server_closed (x_world e) else x_world e).

Lemma settle_dropped e : 
  dropped e (end_Disconnect server_closed
    (snd (settle server_closed e (Ok (false, Disconnect (x_sess e), x_world e))))).
Proof using Type. destruct e as [[] ? ? ?]. cbn. unfold dropped. cbn. by destruct m_connected. Qed.

Definition holds (key : list Z) (e : conn_end (W := program)) : Prop := established key (x_sess e).

Lemma server_ops_holds key (e : conn_end) mem : holds key e -> holds key (snd (@OnRecv _ server_ops e mem)).
Proof using Type.
  intros He. cbn [OnRecv server_ops end_ops end_recv game_end].
  destruct (GameSession_OnRecv _ _ _ _ _) as [[[go s'] g']|] eqn:E; [|done].
  unfold holds. cbn [settle snd x_sess]. unfold GameSession_OnRecv in E. destruct He as [Hd Hk].
  rewrite Hd, Hk in E. cbn [negb] in E. repeat case_match; simplify_eq/=; try done.
  apply server_keeps_session in E as ->. done.
Qed.

Lemma server_ops_local key (e : conn_end) mem :
  let n := Z.to_nat (m_dataSize mem) in
  holds key e -> (4 <= n <= length mem)%nat -> True -> @OnRecv _ server_ops e mem = @OnRecv _ server_ops e (take n mem).
Proof using OK.
  intros n [Hd Hk] Hn _. cbn [OnRecv server_ops end_ops end_recv game_end]. f_equal.
  destruct (Z.eq_dec (m_packetNum mem) (packet_num Encrypted)) as [He|He].
  - apply (end_local server_process (E := game_end server_process env)); [done|unfold n; lia|done].
  - unfold GameSession_OnRecv. rewrite (proj1 (header_take n mem ltac:(lia))), Hd. cbn [negb].
    by rewrite (proj2 (Z.eqb_neq _ _)).
Qed.

Lemma hostile_stream key bs (e : conn_end) :
  holds key e ->
  exists k plains, Forall2 (opened key) (take k (frames bs)) plains /\
  match @stream_run _ server_ops e bs with
  | Rest e' _ => k = length (frames bs) /\ obey plains e = (true, e')
  | Stop e' =>
      obey plains e = (false, e') \/
      exists e1, obey plains e = (true, e1) /\ dropped e1 e' /\
        forall pk plain, frames bs !! k = Some pk -> ~ opened key pk plain
  end.
Proof using OK.
  remember (length bs) as m eqn:Hm. revert bs Hm e. induction (lt_wf m) as [m _ IH]. intros bs -> e He.
  rewrite stream_run_step, frames_step. cbv zeta.
  destruct (Nat.ltb_spec (length bs) 4); [by exists 0%nat, []|].
  destruct (Nat.ltb_spec (Z.to_nat (m_dataSize bs)) 4).
  { exists 0%nat, []. split; [constructor|]. right. exists e. split; [done|]. split; [|done].
    destruct e as [[] ? ? ?]. by split_and!. }
  destruct (Nat.ltb_spec (length bs) (Z.to_nat (m_dataSize bs))); [by exists 0%nat, []|]. cbn [orb].
  set (n := Z.to_nat (m_dataSize bs)) in *. set (pk := take n bs).
  assert (length pk = n) as Hlen by (unfold pk; rewrite length_take; lia).
  assert (m_dataSize pk = Z.of_nat (length pk)) as Hsz.
  { unfold pk at 1. rewrite (proj2 (header_take n bs ltac:(lia))), Hlen. unfold n. lia. }
  cbn [OnRecv server_ops end_ops end_recv game_end].
  destruct (OnRecv_gate key (x_calls e) pk (x_sess e) (x_world e) He Hsz ltac:(lia))
    as [(plain & Hop & Heq)|(Hno & Heq)].
  2:{ rewrite Heq. exists 0%nat, []. split; [constructor|]. cbn [settle]. right. exists e. split; [done|].
      split; [exact (settle_dropped e)|]. intros pk' plain Hpk. cbn in Hpk. simplify_eq. apply Hno. }
  pose proof (server_ops_holds key e pk He) as He1. cbn [OnRecv server_ops end_ops end_recv game_end] in He1.
  rewrite Heq in He1 |- *. destruct (settle server_closed e _) as [go e1] eqn:Es. cbn [snd] in He1.
  destruct go.
  - destruct (IH (length (drop n bs)) ltac:(rewrite length_drop; lia) (drop n bs) eq_refl e1 He1) as (k & plains & Hf & Hr).
    exists (S k), (plain :: plains). split; [by constructor|]. cbn [obey length lookup list_lookup]. rewrite Es.
    destruct (@stream_run _ server_ops e1 (drop n bs)); [by destruct Hr as [-> ->]|exact Hr].
  - exists 1%nat, [plain]. split; [constructor; [exact Hop|constructor]|]. left. cbn [obey]. by rewrite Es.
Qed.

(** Before the handshake, without a key exchange. *)
Definition no_exchange (pk : list Z) : Prop := m_packetNum pk <> packet_num Req_KeyExchange.
Definition waits (e : conn_end (W := program)) : Prop := m_handshakeDone (x_sess e) = false.

Lemma exchange_local (e : conn_end) mem :
  let n := Z.to_nat (m_dataSize mem) in
  True -> (4 <= n <= length mem)%nat -> no_exchange (take n mem) ->
  @OnRecv _ server_ops e mem = @OnRecv _ server_ops e (take n mem).
Proof using OK.
  intros n _ Hn Hx. cbn [OnRecv server_ops end_ops end_recv game_end]. f_equal.
  unfold no_exchange in Hx. rewrite (proj1 (header_take n mem ltac:(lia))) in Hx.
  destruct (Z.eq_dec (m_packetNum mem) (packet_num Encrypted)) as [He|He].
  - apply (end_local server_process (E := game_end server_process env)); [done|unfold n; lia|done].
  - unfold GameSession_OnRecv. rewrite (proj1 (header_take n mem ltac:(lia))).
    by rewrite !(proj2 (Z.eqb_neq _ _)).
Qed.

Lemma waiting_stream bs (e : conn_end) :
  waits e -> Forall no_exchange (frames bs) ->
  match @stream_run _ server_ops e bs with Rest e' _ => e' = e | Stop e' => dropped e e' end.
Proof using Type.
  intros He Hx. rewrite stream_run_step. rewrite frames_step in Hx. cbv zeta in *.
  destruct (Nat.ltb_spec (length bs) 4); [done|].
  destruct (Nat.ltb_spec (Z.to_nat (m_dataSize bs)) 4); [destruct e as [[] ? ? ?]; by split_and!|].
  destruct (Nat.ltb_spec (length bs) (Z.to_nat (m_dataSize bs))); [done|]. cbn [orb] in Hx.
  apply Forall_cons in Hx as [Hx _]. cbn [OnRecv server_ops end_ops end_recv game_end].
  unfold GameSession_OnRecv at 1. rewrite He. cbn [negb]. rewrite (proj2 (Z.eqb_neq _ _)) by exact Hx.
  exact (settle_dropped e).
Qed.

(** C7: only a holder of the session's key acts through a connection, whatever
    bytes arrive in whatever chunks.  On an established session the handlers have
    run on exactly the contents of the packets at the head of the stream that are
    sealed under the key, one after the other, until one refused or ended the
    process; the first packet that is not, or a length below four, ends the session
    and nothing more.  So a peer that has not got the key, and one that has not
    exchanged keys yet, can only have its own session closed: nothing else of the
    program changes, and it does not end. *)
Theorem hostile_bytes_refused (key : list Z) (c c' : conn (conn_end (W := program))) (chunks : list (list Z)) :
  armed c -> chunks <> [] -> Forall (Forall is_byte) chunks -> @recv_steps _ server_ops c chunks c' ->
  let e := c_state c in
  let pks := frames (data (c_buf c) ++ concat chunks) in
  (established key (x_sess e) ->
   (exists k plains, Forall2 (opened key) (take k pks) plains /\
      let '(go, e1) := obey plains e in
      if go : bool
      then (k = length pks /\ c_state c' = e1) \/
           ((forall pk plain, pks !! k = Some pk -> ~ opened key pk plain) /\
            dropped e1 (c_state c') /\ c_posted c' = None)
      else c_state c' = e1 /\ c_posted c' = None) /\
   (Forall (fun pk => forall plain, ~ opened key pk plain) pks ->
      c_state c' = e \/ (dropped e (c_state c') /\ c_posted c' = None))) /\
  (m_handshakeDone (x_sess e) = false -> Forall no_exchange pks ->
     c_state c' = e \/ (dropped e (c_state c') /\ c_posted c' = None)).
Proof using OK.
  intros Ha Hne Hb Hrun e pks. split.
  - intros He.
    pose proof (@recv_steps_refines _ server_ops (holds key) (fun _ => True) (server_ops_holds key) (server_ops_local key)
      c c' chunks Hrun He (or_introl Ha) Hb ltac:(by apply Forall_true) Hne) as Href.
    destruct (hostile_stream key (data (c_buf c) ++ concat chunks) e He) as (k & plains & Hf & Hr).
    fold e in Href. fold pks in Hf, Hr.
    assert (exists k plains, Forall2 (opened key) (take k pks) plains /\
      let '(go, e1) := obey plains e in
      if go : bool
      then (k = length pks /\ c_state c' = e1) \/
           ((forall pk plain, pks !! k = Some pk -> ~ opened key pk plain) /\
            dropped e1 (c_state c') /\ c_posted c' = None)
      else c_state c' = e1 /\ c_posted c' = None) as Hmain.
    { exists k, plains. split; [done|]. destruct (@stream_run _ server_ops e _) as [e' r|e'].
      - destruct Hr as [-> ->], Href as [-> _]. by left.
      - destruct Href as [-> Hp], Hr as [->|(e1 & -> & Hdr & Hno)]; [done|]. right. by split_and!. }
    split; [exact Hmain|]. intros Hno. clear -Hmain Hno. destruct Hmain as (k & plains & Hf & Hr).
    destruct plains as [|plain plains].
    { cbn in Hr. destruct Hr as [[_ ->]|(_ & Hd)]; [by left|by right]. }
    destruct (take k pks) as [|pk rest] eqn:Et; [inversion Hf|]. inversion Hf as [|? ? ? ? Hop]; subst.
    assert (pk ∈ pks) as Hin.
    { rewrite <- (take_drop k pks), Et. by left. }
    rewrite Forall_forall in Hno. by destruct (Hno pk Hin plain).
  - intros He Hx.
    pose proof (@recv_steps_refines _ server_ops (fun _ => True) no_exchange (fun _ _ H => H) exchange_local
      c c' chunks Hrun I (or_introl Ha) Hb Hx Hne) as Href.
    pose proof (waiting_stream (data (c_buf c) ++ concat chunks) e He Hx) as Hw. fold e in Href.
    destruct (@stream_run _ server_ops e _) as [e' r|e']; [left|right].
    + destruct Href as [-> _]. done.
    + by destruct Href as [-> Hp].
Qed.

(** C6: from the client's Init to the game: the packets the client fills and
    sends after the handshake arrive, cut in any way, as calls of the server's
    handlers on their contents, in order: rooms are entered, chats said, logins
    queued exactly as sent (texts cut to 255, 15 and 63 characters). *)
Theorem client_packets_reach_game {W1} (Process1 : Z -> list Z -> gsession -> W1 -> outcome (bool * gsession * W1))
    (lenv : nat -> login_env) (stack : nat -> list Z) (key : list Z) (ps : list packet) (ms : list message)
    (s : gsession) (e : conn_end) :
  established key s -> established key (x_sess e) -> Forall2 carries_packet ps ms -> Forall (wrapped key) ms ->
  exists wires s', send_messages (server_end Process1 lenv stack) ms s = Ok s' /\ gs_sent s' = gs_sent s ++ wires /\
  forall c0 chunks c,
    receiving e c0 -> data (c_buf c0) = [] -> Forall (Forall is_byte) chunks -> concat chunks = concat wires ->
    @recv_steps _ server_ops c0 chunks c ->
    c_state c = snd (run_packets server_closed server_packet ps e).
Proof using OK.
  apply (packets_arrive server_process server_closed (game_end server_process env) _ key) with Process1.
  - apply server_end_ok.
  - intros num buf s0 w go s' w' He E. by rewrite (server_keeps_session _ _ _ _ _ _ _ E).
  - intros buf p s0 w. apply server_reads.
Qed.

(** A sealed packet of four bytes is enough for a room chat: the message is then
    whatever the stack held behind the header, and it is broadcast to the room. *)
Theorem short_chat_leaks_stack (key nonce c t wire junk secret rest : list Z) (k : nat) (s : gsession)
    (g : program) (p : nat) :
  established key s -> GCM_seal key nonce [63; 0; 4; 0] = Some (c, t) -> envelope wire nonce c t ->
  e_stack (env k) = junk ++ secret ++ 0 :: rest -> length junk = 4%nat -> Forall (fun b => b <> 0) secret ->
  GetPlayer sid (g_world g) = Some p ->
  GameSession_OnRecv server_process (env k) wire s g =
    Ok (true, s, set_world (set_threads ([ARoomChat p secret] :: w_threads (g_world g)) (g_world g)) g).
Proof using OK.
  intros He Hs Hw Hst Hj Hsec Hp.
  assert (c_string (secret ++ 0 :: rest) = Some secret) as Hc.
  { clear -Hsec. induction Hsec as [|b l Hb _ IH]; [done|]. cbn. by rewrite (proj2 (Z.eqb_neq _ _)), IH. }
  pose proof (end_receives server_process (E := game_end server_process env) k key nonce [63; 0; 4; 0] c t wire s g He Hs Hw) as Hr.
  cbn [end_recv game_end end_stack] in Hr. rewrite Hr by (vm_compute; lia).
  unfold server_process, Handler_Process. change (m_packetNum [63; 0; 4; 0]) with (packet_num Req_RoomChat).
  rewrite RegisterPacket_lookup. cbn [handler_of run_handler]. unfold with_message. rewrite Hp, Hst.
  assert (drop off_m_message (write_bytes 0 [63; 0; 4; 0] (junk ++ secret ++ 0 :: rest)) = secret ++ 0 :: rest) as ->.
  { unfold write_bytes. cbn. destruct junk as [|? [|? [|? [|? [|]]]]]; done. }
  rewrite Hc. unfold start_event. cbn. unfold HandleReqRoomChatPacket. by rewrite Hp.
Qed.
End server.

(** *** Concrete channels *)

Lemma recv_one_chunk {S} `{SessionOps S} (e : S) (chunk : list Z) :
  forallb (fun b => (0 <=? b) && (b <? 256)) chunk = true -> 0 < Z.of_nat (length chunk) <= 65536 ->
  exists c, recv_steps (mkConn e (RecvBuffer_new BUFFER_SIZE) (Some (FreeSize (RecvBuffer_new BUFFER_SIZE)))) [chunk] c
    /\ Forall (Forall is_byte) [chunk].
Proof.
  intros Hb Hl. assert (Forall is_byte chunk) as Hbytes.
  { apply Forall_forall. intros b Hin. rewrite forallb_forall in Hb. apply list_elem_of_In, Hb in Hin.
    unfold is_byte. to_prop. lia. }
  assert (FreeSize (RecvBuffer_new BUFFER_SIZE) = 655360) as Hf by apply fresh_free.
  destruct (on_chunk_ok chunk (mkConn e (RecvBuffer_new BUFFER_SIZE) (Some (FreeSize (RecvBuffer_new BUFFER_SIZE)))))
    as (c & Hc & _); [split; [apply RecvBuffer_new_wf|]; split; [done|]; cbn [c_buf]; by rewrite Hf|done|cbn [c_buf]; lia|].
  exists c. split; [|by repeat constructor].
  eapply recv_cons; [reflexivity| |exact Hc|constructor]. rewrite Hf. lia.
Qed.

Definition toy_message (inner : list Z) : message := mkMessage inner (replicate 1400 5) toy_nonce.
Definition toy_env (k : nat) : @recv_env toy.ssl := @mkEnv toy.ssl None None (replicate 1280 (Z.of_nat k + 1)).
Definition toy_login (k : nat) : login_env := mkLoginEnv None None None.
Definition toy_stack (k : nat) : list Z := replicate 1280 9.

(** The envelopes a client puts on the wire for these messages. *)
Definition toy_wires (ms : list message) : list (list Z) :=
  match send_messages (server_end toy_process toy_login toy_stack) ms toy_end with Ok s => gs_sent s | Crash _ => [] end.

Lemma toy_sendable inner :
  4 <= m_dataSize inner <= 1280 -> m_dataSize inner <= Z.of_nat (length inner) ->
  @sendable toy.ssl toy_key (toy_message inner).
Proof.
  intros H1 H2. unfold sendable, toy_message, MAX_PLAIN_PACKET_SIZE. cbn [g_nonce g_buf g_inner].
  rewrite length_replicate. split_and!; try done; try lia.
Qed.

Definition two_chats : list message := [toy_message toy_inner; toy_message toy_inner].

(** Sixty bytes: one envelope of 38 and a part of the next. *)
Definition cut_chats : list Z := take 60 (concat (toy_wires two_chats)).

Lemma cut_chats_ok : forallb (fun b => (0 <=? b) && (b <? 256)) cut_chats = true /\ length cut_chats = 60%nat /\
  concat (toy_wires two_chats) = concat [cut_chats] ++ drop 60 (concat (toy_wires two_chats)).
Proof. split_and!; vm_compute; reflexivity. Qed.

Lemma two_chats_sendable : Forall (@sendable toy.ssl toy_key) two_chats.
Proof.
  apply Forall_cons. split; [|apply Forall_singleton]; apply toy_sendable; vm_compute; (split; congruence) || congruence.
Qed.

Lemma toy_process_keeps num buf s w go s' w' :
  @established toy.ssl toy_key s -> toy_process num buf s w = Ok (go, s', w') -> @established toy.ssl toy_key s'.
Proof. intros He E. by injection E as _ <- _. Qed.

Definition toy_receiver : @conn_end toy.ssl nat := @mkEnd toy.ssl nat toy_end 0%nat 0%nat None.

Lemma link_refines_messages_witness : exists c,
  @recv_steps _ (@end_ops toy.ssl nat S (game_end toy_process toy_env)) (fresh toy_receiver) [cut_chats] c /\
  x_world (c_state c) = 1%nat /\ length (data (c_buf c)) = 22%nat.
Proof.
  destruct cut_chats_ok as (Hb & Hl & Hc).
  destruct (@recv_one_chunk _ (@end_ops toy.ssl nat S (game_end toy_process toy_env)) toy_receiver cut_chats Hb)
    as (c & Hrun & Hbytes); [lia|].
  exists c. split; [exact Hrun|].
  destruct (@link_refines_messages toy.ssl nat toy_process S (game_end toy_process toy_env)
    (@game_end_ok toy.ssl toy.ssl_ok nat toy_process toy_env) toy_key toy_process_keeps nat toy_process
    (server_end toy_process toy_login toy_stack)
    (@server_end_ok toy.ssl toy.ssl_ok nat toy_process toy_login toy_stack) two_chats toy_end toy_receiver)
    as (wires & s' & H1 & H2 & H3 & H4); [done|done|exact two_chats_sendable|].
  assert (wires = toy_wires two_chats) as ->.
  { unfold toy_wires. rewrite H1, H2. reflexivity. }
  destruct (H4 (fresh toy_receiver) [cut_chats] _ c (proj1 (fresh_receiving _)) ltac:(discriminate) Hbytes Hc Hrun) as (k & (K1 & K2 & K3) & Hst).
  change (data (c_buf (fresh toy_receiver))) with (@nil Z) in K2, K3, Hst. cbn [app concat] in K2, K3. rewrite app_nil_r, Hl in K2, K3.
  destruct k as [|[|[|k]]]; [vm_compute in K3; lia| |vm_compute in K2; lia|vm_compute in K1; lia].
  change (handle toy_process S (game_end toy_process toy_env) (map plain_of (take 1 two_chats)) toy_receiver)
    with (true, @mkEnd toy.ssl nat toy_end 1%nat 1%nat None) in Hst.
  destruct Hst as (-> & -> & _). split; [reflexivity|]. vm_compute. reflexivity.
Defined.

(** A client says who it is and asks for an echo. *)
Definition toy_chunk (p : packet) : list Z :=
  match encode p (replicate 300 1) with Ok b => b | Crash _ => [] end.
Definition toy_packets : list packet := [ReqLogin testuser testpass; TestPacket [104; 105]].
Definition toy_messages : list message := map (fun p => toy_message (toy_chunk p)) toy_packets.

Lemma toy_carries : Forall2 carries_packet toy_packets toy_messages.
Proof.
  repeat (constructor; [split; [cbn; lia|exists (replicate 300 1); split; [vm_compute; lia|vm_compute; reflexivity]]|]).
  constructor.
Qed.

Lemma toy_wrapped : Forall (@wrapped toy.ssl toy_key) toy_messages.
Proof.
  apply Forall_forall. intros m (p & -> & _)%list_elem_of_fmap.
  split_and!; [reflexivity|cbn [g_buf toy_message]; rewrite length_replicate; lia|by eexists].
Qed.

Definition toy_bytes : list Z := concat (toy_wires toy_messages).

Lemma toy_bytes_ok : forallb (fun b => (0 <=? b) && (b <? 256)) toy_bytes = true /\ length toy_bytes = 408%nat.
Proof. split; vm_compute; reflexivity. Qed.

(** A program that keeps the packets it gets. *)
Definition keeping (p : option packet) (s : @gsession toy.ssl) (w : list (option packet))
  : outcome (bool * @gsession toy.ssl * list (option packet)) := Ok (true, s, w ++ [p]).
Definition keep_process (num : Z) (buf : list Z) := keeping (decode buf).

Lemma packets_delivered_witness : exists c,
  @recv_steps _ (@end_ops toy.ssl _ id (game_end keep_process toy_env))
    (fresh (@mkEnd toy.ssl _ toy_end [] 0%nat None)) [toy_bytes] c /\
  x_world (c_state c) = [Some (ReqLogin testuser testpass); Some (TestPacket [104; 105])].
Proof.
  destruct toy_bytes_ok as [Hb Hl].
  destruct (@recv_one_chunk _ (@end_ops toy.ssl _ id (game_end keep_process toy_env))
    (@mkEnd toy.ssl _ toy_end [] 0%nat None) toy_bytes Hb) as (c & Hrun & Hbytes); [lia|].
  exists c. split; [exact Hrun|].
  destruct (@packets_delivered toy.ssl _ keep_process id (game_end keep_process toy_env)
    (@game_end_ok toy.ssl toy.ssl_ok _ keep_process toy_env) toy_key nat toy_process
    (server_end toy_process toy_login toy_stack)
    (@server_end_ok toy.ssl toy.ssl_ok nat toy_process toy_login toy_stack)) with
    (h := fun p => keeping (Some p)) (ps := toy_packets) (ms := toy_messages) (s := toy_end)
    (e := @mkEnd toy.ssl (list (option packet)) toy_end [] 0%nat None) as (wires & s' & H1 & H2 & H3);
    [by intros * He [= _ <- _]|by intros buf p s w E; unfold keep_process; rewrite E|done|done
    |exact toy_carries|exact toy_wrapped|].
  rewrite (H3 _ [toy_bytes] c (proj1 (fresh_receiving _)) eq_refl Hbytes); [reflexivity| |exact Hrun].
  unfold toy_bytes, toy_wires. rewrite H1, H2. cbn [concat]. by rewrite app_nil_r.
Defined.

Definition toy_program : program := mkProgram world_new [] [] true (fun _ => Some (replicate 1400 0)).
Definition toy_server : @conn_end toy.ssl program := @mkEnd toy.ssl program toy_end toy_program 0%nat None.

Lemma client_packets_reach_game_witness : exists c,
  @recv_steps _ (@server_ops toy.ssl 3%nat toy_env) (fresh toy_server) [toy_bytes] c /\
  x_world (c_state c) =
    mkProgram world_new [(3%nat, testuser, testpass)] [(3%nat, test_reply)] true (g_alloc toy_program).
Proof.
  destruct toy_bytes_ok as [Hb Hl].
  destruct (@recv_one_chunk _ (@server_ops toy.ssl 3%nat toy_env) toy_server toy_bytes Hb)
    as (c & Hrun & Hbytes); [lia|].
  exists c. split; [exact Hrun|].
  destruct (@client_packets_reach_game toy.ssl toy.ssl_ok 3%nat toy_env nat toy_process toy_login toy_stack toy_key
    toy_packets toy_messages toy_end toy_server) as (wires & s' & H1 & H2 & H3);
    [done|done|exact toy_carries|exact toy_wrapped|].
  rewrite (H3 _ [toy_bytes] c (proj1 (fresh_receiving _)) eq_refl Hbytes); [vm_compute; reflexivity| |exact Hrun].
  unfold toy_bytes, toy_wires. rewrite H1, H2. cbn [concat]. by rewrite app_nil_r.
Defined.


(** A packet in the clear, on an established session and before any key exchange. *)
Definition garbage : list Z := [5; 0; 5; 0; 66].
Definition toy_stranger : @conn_end toy.ssl program := @mkEnd toy.ssl program (@gs_new toy.ssl) toy_program 0%nat None.

Lemma garbage_frames e : frames (data (c_buf (@fresh toy.ssl program e)) ++ concat [garbage]) = [garbage].
Proof. change (data (c_buf (fresh e))) with (@nil Z). vm_compute. reflexivity. Qed.

Lemma garbage_not_opened plain : ~ @opened toy.ssl toy_key garbage plain.
Proof. intros (nonce & c & t & _ & (H & _) & _). vm_compute in H. discriminate H. Qed.

Lemma hostile_bytes_refused_witness : exists c1 c2,
  @recv_steps _ (@server_ops toy.ssl 3%nat toy_env) (fresh toy_server) [garbage] c1 /\
  dropped 3 toy_server (c_state c1) /\ c_posted c1 = None /\
  @recv_steps _ (@server_ops toy.ssl 3%nat toy_env) (fresh toy_stranger) [garbage] c2 /\
  (c_state c2 = toy_stranger \/ (dropped 3 toy_stranger (c_state c2) /\ c_posted c2 = None)).
Proof.
  destruct (@recv_one_chunk _ (@server_ops toy.ssl 3%nat toy_env) toy_server garbage eq_refl)
    as (c1 & Hrun1 & Hb); [cbn; lia|].
  destruct (@recv_one_chunk _ (@server_ops toy.ssl 3%nat toy_env) toy_stranger garbage eq_refl)
    as (c2 & Hrun2 & _); [cbn; lia|].
  exists c1, c2.
  destruct (@hostile_bytes_refused toy.ssl toy.ssl_ok 3%nat toy_env toy_key (fresh toy_server) c1 [garbage]
    (proj2 (proj1 (fresh_receiving _))) ltac:(discriminate) Hb Hrun1) as [H1 _].
  destruct (@hostile_bytes_refused toy.ssl toy.ssl_ok 3%nat toy_env toy_key (fresh toy_stranger) c2 [garbage]
    (proj2 (proj1 (fresh_receiving _))) ltac:(discriminate) Hb Hrun2) as [_ H2].
  rewrite garbage_frames in H1, H2.
  destruct (H1 ltac:(by split)) as [(k & plains & Hf & Hr) _].
  destruct plains as [|plain plains].
  2:{ destruct k as [|k]; [inversion Hf|]. inversion Hf as [|? ? ? ? Hop]; subst.
      exfalso. exact (garbage_not_opened _ Hop). }
  destruct k as [|k]; [|inversion Hf]. cbn [obey] in Hr.
  destruct Hr as [[Hk _]|(_ & Hd & Hp)]; [discriminate Hk|].
  split; [exact Hrun1|]. split; [exact Hd|]. split; [exact Hp|]. split; [exact Hrun2|].
  apply H2; [reflexivity|]. repeat constructor. intros H. vm_compute in H. discriminate H.
Defined.
