(* ===== verification/Startup.v ===== *)
(** * Starting the programs

    src/DhNet_Server/ServerCore/SocketUtils.h/.cpp, Listener::StartAccept,
    ServerService::Start (Service.cpp), src/DhNet_Server/DhNet_Server/GameServer.h/
    .cpp and main.cpp, the console client's main.cpp, and the worker's turn
    (GameServer::Job, ThreadManager::DoGlobalQueueWork).

    Each definition puts together those of the components it starts: the settings
    (Setting.v), the handler tables (Server.v), the game (Game.v), the database
    (Db.v), the service and its listener (Service.v), the send pool (SendPool.v),
    the administration host (Admin.v) and the threads (Systems.v).  What Winsock,
    MySQL and gRPC answer are arguments. *)

From S2P Require Import Prelude Lock JobQueue Bytes Packets SendPool Session Service Systems Db Setting.
From S2P Require Import Slots Game Admin Server.
#[local] Open Scope Z_scope.

(** ** SocketUtils *)

Module SocketUtils.

(** Winsock's numbers. *)
Definition SOL_SOCKET : Z := 0xFFFF.
Definition IPPROTO_TCP : Z := 6.
Definition SO_DEBUG : Z := 0x0001.
Definition SO_REUSEADDR : Z := 0x0004.
Definition SO_LINGER : Z := 0x0080.
Definition SO_SNDBUF : Z := 0x1001.
Definition SO_RCVBUF : Z := 0x1002.
Definition SO_UPDATE_ACCEPT_CONTEXT : Z := 0x700B.
Definition TCP_NODELAY : Z := 0x0001.

(** The setsockopt call each setter makes: level, option, value. *)
Definition SetLinger (_onoff _linger : Z) : Z * Z * list Z := (SOL_SOCKET, SO_LINGER, [_onoff; _linger]).
Definition SetReuseAddress (_flag : bool) : Z * Z * list Z := (SOL_SOCKET, SO_REUSEADDR, [Z.b2z _flag]).
Definition SetRecvBufferSize (_size : Z) : Z * Z * list Z := (SOL_SOCKET, SO_RCVBUF, [_size]).
Definition SetSendBufferSize (_size : Z) : Z * Z * list Z := (SOL_SOCKET, SO_SNDBUF, [_size]).
Definition SetTcpNoDelay (_flag : bool) : Z * Z * list Z := (SOL_SOCKET, TCP_NODELAY, [Z.b2z _flag]).
Definition SetUpdateAcceptSocket (_listenSocket : Z) : Z * Z * list Z :=
  (SOL_SOCKET, SO_UPDATE_ACCEPT_CONTEXT, [_listenSocket]).

Definition SOCKET_ERROR : Z := -1.
Definition INVALID_SOCKET : Z := u64 (-1).
Definition AF_INET : Z := 2.
Definition SOCK_STREAM : Z := 1.
Definition WSA_FLAG_OVERLAPPED : Z := 1.

(** What the helpers make of the answer of the call they forward to: setsockopt,
    WSAIoctl, bind, listen. *)
Definition SetSockOpt (answer : Z) : bool := negb (answer =? SOCKET_ERROR).
Definition BindWindowsFunction (answer : Z) : bool := negb (answer =? SOCKET_ERROR).
Definition Bind (answer : Z) : bool := negb (answer =? SOCKET_ERROR).
Definition BindAnyAddress (bind : NetAddress -> Z) (_port : Z) : bool := Bind (bind (any_address _port)).
Definition Listen (answer : Z) : bool := negb (answer =? SOCKET_ERROR).
Definition CreateSocket (WSASocket : Z -> Z -> Z -> Z -> Z) : Z :=
  WSASocket AF_INET SOCK_STREAM IPPROTO_TCP WSA_FLAG_OVERLAPPED.

(** WSAStartup and the three extension functions; each failure ends the process. *)
Definition Init (startup connectEx disconnectEx acceptEx : Z) : outcome unit :=
  _ ← ASSERT_CRASH (startup =? 0);
  _ ← ASSERT_CRASH (BindWindowsFunction connectEx);
  _ ← ASSERT_CRASH (BindWindowsFunction disconnectEx);
  ASSERT_CRASH (BindWindowsFunction acceptEx).

(** The socket afterwards (None is INVALID_SOCKET) and whether closesocket ran. *)
Definition Close (_socket : option Z) : option Z * bool :=
  match _socket with Some _ => (None, true) | None => (None, false) end.

(** SetTcpNoDelay passes TCP_NODELAY at the socket level, where that number is
    SO_DEBUG: Nagle's algorithm stays on. *)
Theorem nodelay_sets_debug (flag : bool) :
  SetTcpNoDelay flag = (SOL_SOCKET, SO_DEBUG, [Z.b2z flag]) /\ fst (fst (SetTcpNoDelay flag)) <> IPPROTO_TCP.
Proof. split; [reflexivity|discriminate]. Qed.

End SocketUtils.

(** ** The completion port *)

(** HANDLE values: CreateIoCompletionPort answers NULL when it fails. *)
Definition NULL : Z := 0.
Definition INVALID_HANDLE_VALUE : Z := u64 (-1).

(** [handle]: what CreateIoCompletionPort answered. *)
Definition IocpCore_new (handle : Z) : outcome Z :=
  _ ← ASSERT_CRASH (negb (handle =? INVALID_HANDLE_VALUE));
  Ok handle.

(** The answer, a HANDLE, converted to bool. *)
Definition IocpCore_Register (answer : Z) : bool := negb (answer =? NULL).

(** ** The listener and the service *)

(** What the calls of StartAccept answer. *)
Record accept_env := mkAcceptEnv {
  e_socket : Z -> Z -> Z -> Z -> Z; e_port : Z; e_reuse : Z; e_linger : Z; e_bind : NetAddress -> Z; e_listen : Z;
  e_attempts : list (bool * wsa_result);
}.

Definition StartAccept (serverService : option NetAddress) (x : accept_env) (l : Listener) : outcome (bool * Listener) :=
  match serverService with
  | None => Ok (false, l)
  | Some address =>
  if SocketUtils.CreateSocket (e_socket x) =? SocketUtils.INVALID_SOCKET then Ok (false, l)
  else if negb (IocpCore_Register (e_port x)) then Ok (false, l)
  else if negb (SocketUtils.SetSockOpt (e_reuse x)) then Ok (false, l)
  else if negb (SocketUtils.SetSockOpt (e_linger x)) then Ok (false, l)
  else if negb (SocketUtils.Bind (e_bind x address)) then Ok (false, l)
  else if negb (SocketUtils.Listen (e_listen x)) then Ok (false, l)
  else l ← RegisterAccept (e_attempts x) l; Ok (true, l)
  end.

(** Whether every call before the first accept succeeds. *)
Definition accept_ready (x : accept_env) (address : NetAddress) : bool :=
  negb (SocketUtils.CreateSocket (e_socket x) =? SocketUtils.INVALID_SOCKET) && IocpCore_Register (e_port x) &&
  SocketUtils.SetSockOpt (e_reuse x) && SocketUtils.SetSockOpt (e_linger x) &&
  SocketUtils.Bind (e_bind x address) && SocketUtils.Listen (e_listen x).

(** The accepts come first, then the 30000 chunks of the send pool; no worker
    runs yet. *)
Definition ServerService_Start (address : NetAddress) (x : accept_env) (fill : nat -> option (list Z)) (pool : SendPool)
  : outcome (bool * Listener * SendPool) :=
  r ← StartAccept (Some address) x (mkListener 0 None);
  let '(ok, l) := r in
  if negb ok then Ok (false, l, pool)
  else pool ← SendPool.Init 30000 fill pool; Ok (true, l, pool).

(** ** GameServer *)

Record GameServer := mkGameServer {
  gs_ip : list Z;
  gs_port : Z;
  gs_maxSessionCount : Z;
  gs_setting : option ServerSetting;
  gs_handlers : gmap Z server_handler;                       (* PacketHandler::Instance() *)
  gs_game : option world;                                    (* the player, room and lobby systems *)
  gs_sessions : option (gset nat);                           (* m_gameSessionSystem *)
  gs_db : option DbSystem;
  gs_service : option (NetAddress * Service.Service * Listener);
  gs_pool : SendPool;                                        (* Sender::m_sendPool *)
  gs_grpc : GrpcHost;
  gs_threads : Threads.ThreadManager;
  gs_iocp : option Z;                                        (* the completion port's handle *)
}.

Definition GameServer_new : GameServer :=
  mkGameServer [] 0 0 None ∅ None None None None SendPool_new GrpcHost_new Threads.ThreadManager_new None.

Definition AddSetting (s : ServerSetting) (g : GameServer) : GameServer :=
  mkGameServer (m_ip s) (m_port s) (Setting.m_maxSessionCount s) (Some s) (gs_handlers g) (gs_game g) (gs_sessions g)
    (gs_db g) (gs_service g) (gs_pool g) (gs_grpc g) (gs_threads g) (gs_iocp g).

(** What the machine answers while the server starts: MySQL per connection, InetPton,
    Winsock, operator new[], gRPC, the number of hardware threads; [b_tls k] is how many
    database workers take their thread id between the launches of workers k-1 and k. *)
Record boot_env := mkBootEnv {
  b_mysql : nat -> bool * list bool;
  b_inet : list Z -> option Z;
  b_junk : Z;                                 (* the IN_ADDR of Ip2Address before InetPton *)
  b_sockets : Z * Z * Z * Z;                  (* SocketUtils::Init in the Service constructor *)
  b_port : Z;                                 (* CreateIoCompletionPort in IocpCore's constructor *)
  b_accept : accept_env;
  b_fill : nat -> option (list Z);
  b_grpc : bool;
  b_cores : nat;
  b_tls : nat -> nat;
}.

Definition AddSystem (x : boot_env) (g : GameServer) : GameServer :=
  let db := match gs_setting g with
            | Some s => snd (DbSystem_Init (map (b_mysql x) (seq 0 (Z.to_nat (m_dbPoolSize s)))) DbSystem_new)
            | None => DbSystem_new
            end in
  mkGameServer (gs_ip g) (gs_port g) (gs_maxSessionCount g) (gs_setting g) (gs_handlers g) (Some world_new) (Some ∅)
    (Some db) (gs_service g) (gs_pool g) (gs_grpc g) (gs_threads g) (gs_iocp g).

(** The statements of StartServer, each of which may end the process. *)
Definition start_packets (g : GameServer) : outcome GameServer :=
  Ok (mkGameServer (gs_ip g) (gs_port g) (gs_maxSessionCount g) (gs_setting g) RegisterPacket (gs_game g)
        (gs_sessions g) (gs_db g) (gs_service g) (gs_pool g) (gs_grpc g) (gs_threads g) (gs_iocp g)).

Definition start_systems (x : boot_env) (g : GameServer) : outcome GameServer := Ok (AddSystem x g).

(** [make_shared<ServerService>], its listener not yet started. *)
Definition start_service (x : boot_env) (g : GameServer) : outcome GameServer :=
  iocp ← IocpCore_new (b_port x);
  let address := NetAddress_new (Ip2Address (b_inet x) (b_junk x) (gs_ip g)) (gs_port g) in
  let '(s1, s2, s3, s4) := b_sockets x in
  _ ← SocketUtils.Init s1 s2 s3 s4;
  let service := Service_new true (gs_maxSessionCount g) in
  Ok (mkGameServer (gs_ip g) (gs_port g) (gs_maxSessionCount g) (gs_setting g) (gs_handlers g) (gs_game g)
        (gs_sessions g) (gs_db g) (Some (address, service, mkListener 0 None)) (gs_pool g) (gs_grpc g) (gs_threads g)
        (Some iocp)).

Definition start_listener (x : boot_env) (g : GameServer) : outcome GameServer :=
  match gs_service g with
  | None => Crash "null ServerService dereferenced"
  | Some (address, service, _) =>
      r ← ServerService_Start address (b_accept x) (b_fill x) (gs_pool g);
      let '(ok, listener, pool) := r in
      _ ← ASSERT_CRASH ok;
      Ok (mkGameServer (gs_ip g) (gs_port g) (gs_maxSessionCount g) (gs_setting g) (gs_handlers g) (gs_game g)
            (gs_sessions g) (gs_db g) (Some (address, service, listener)) pool (gs_grpc g) (gs_threads g) (gs_iocp g))
  end.

Definition start_grpc (x : boot_env) (g : GameServer) : outcome GameServer :=
  match gs_setting g with
  | None => Crash "null ServerSetting dereferenced"
  | Some _ =>
      r ← GrpcHost_Start (b_grpc x) (gs_grpc g);
      Ok (mkGameServer (gs_ip g) (gs_port g) (gs_maxSessionCount g) (gs_setting g) (gs_handlers g) (gs_game g)
            (gs_sessions g) (gs_db g) (gs_service g) (gs_pool g) (snd r) (gs_threads g) (gs_iocp g))
  end.

(** A database worker takes its id from the same counter. *)
Definition db_InitTLS (tm : Threads.ThreadManager) : Threads.ThreadManager :=
  Threads.mkTM (Threads.m_threads tm) (snd (InitTLS (Threads.SThreadId tm))) (Threads.t_self tm).

(** One [Launch]: the worker may run from here on. *)
Definition start_worker (x : boot_env) (k : nat) (g : GameServer) : outcome GameServer :=
  Ok (mkGameServer (gs_ip g) (gs_port g) (gs_maxSessionCount g) (gs_setting g) (gs_handlers g) (gs_game g)
        (gs_sessions g) (gs_db g) (gs_service g) (gs_pool g) (gs_grpc g)
        (Threads.Launch (Nat.iter (b_tls x k) db_InitTLS (gs_threads g))) (gs_iocp g)).

(** StartServer up to its Join: the statements in their order. *)
Definition StartServer_steps (x : boot_env) : list (GameServer -> outcome GameServer) :=
  [start_packets; start_systems x; start_service x; start_listener x; start_grpc x] ++
  map (start_worker x) (seq 0 (b_cores x)).

Definition run_steps (steps : list (GameServer -> outcome GameServer)) (g : GameServer) : outcome GameServer :=
  foldl (fun r f => r ≫= f) (Ok g) steps.

Definition StartServer (x : boot_env) (g : GameServer) : outcome GameServer := run_steps (StartServer_steps x) g.

(** main, up to the workers. *)
Definition server_main (env : string -> option (list Z)) (junk : list Z) (x : boot_env) : outcome GameServer :=
  s ← ServerSetting_new env junk;
  StartServer x (AddSetting s GameServer_new).

(** GetSystem<T>: null before AddSystem. *)
Definition GetSystem_ok (g : GameServer) : bool :=
  match gs_game g, gs_sessions g, gs_db g with Some _, Some _, Some _ => true | _, _, _ => false end.

(** The address the settings give, and whether Winsock could be set up. *)
Definition server_address (x : boot_env) (s : ServerSetting) : NetAddress :=
  NetAddress_new (Ip2Address (b_inet x) (b_junk x) (m_ip s)) (m_port s).

Definition sockets_ok (a : Z * Z * Z * Z) : bool :=
  let '(s1, s2, s3, s4) := a in
  (s1 =? 0) && SocketUtils.BindWindowsFunction s2 && SocketUtils.BindWindowsFunction s3 &&
  SocketUtils.BindWindowsFunction s4.

(** ** A worker's turn *)

(** [LEndTickCount = ::GetTickCount64() + 64] *)
Definition LEndTickCount_of (now : Z) : Z := u64 (now + 64).

(** The loop of DoGlobalQueueWork: one clock reading per turn; [Execute q] is what
    running queue [q] does to the global queue.  The queues executed, the global
    queue, and whether the loop was left. *)
Fixpoint DoGlobalQueueWork_loop (readings : list Z) (LEndTickCount : Z)
    (Execute : nat -> list (option nat) -> list (option nat)) (g : list (option nat))
  : list nat * list (option nat) * bool :=
  match readings with
  | [] => ([], g, false)
  | now :: readings =>
      if LEndTickCount <? now then ([], g, true)
      else
        match LockQueue_Pop g with
        | (None, g) => ([], g, true)
        | (Some q, g) =>
            let '(qs, g, ended) := DoGlobalQueueWork_loop readings LEndTickCount Execute (Execute q g) in
            (q :: qs, g, ended)
        end
  end.

(** ** The console client *)

Definition SERVER_PORT : Z := 7900.

(** Its start: the send pool, the handlers, one session, ten dispatch threads. *)
Definition client_main (sockets : Z * Z * Z * Z) (port : Z) (ip : Z) (fill : nat -> option (list Z))
    (connect : nat -> option bool)
  : outcome (NetAddress * SendPool * gmap Z client_handler * Threads.ThreadManager) :=
  pool ← SendPool.Init 1024 fill SendPool_new;
  _ ← IocpCore_new port;
  let '(s1, s2, s3, s4) := sockets in
  _ ← SocketUtils.Init s1 s2 s3 s4;
  ok ← ClientService_Start (Service_new false 1) connect;
  _ ← ASSERT_CRASH ok;
  Ok (NetAddress_new ip SERVER_PORT, pool, client_table, Nat.iter 10 Threads.Launch Threads.ThreadManager_new).

(** One turn of the chat loop: in a room, a ReqRoomChat to every session. *)
Definition client_chat_turn (g_inRoom : bool) (res : nat -> wsa_result) (v : Service.Service)
    (pool : SendPool) (m : gmap nat (Session Z * net Z))
  : outcome (option (list Z) * SendPool * gmap nat (Session Z * net Z)) :=
  if negb g_inRoom then Ok (None, pool, m)
  else
    r ← GetSenderAndPacket (Z.of_nat (sizeof Req_RoomChat)) pool;
    let '(sender, pool) := r in
    packet ← ReqRoomChat_Init (c_str (text "Test Message")) (take (sizeof Req_RoomChat) (chunk_bytes pool sender));
    m ← BroadCast sender res v m;
    Ok (Some packet, pool, m).

(** ** Lemmas *)

Lemma ASSERT_CRASH_Ok b : is_Ok (ASSERT_CRASH b) = b.
Proof. by destruct b. Qed.

Lemma Init_new n fill :
  match SendPool.Init n fill SendPool_new with
  | Ok pool => m_useFlag pool = replicate (Z.to_nat n) false /\ is_Some (fill (1024 * Z.to_nat n)%nat)
  | Crash _ => fill (1024 * Z.to_nat n)%nat = None
  end.
Proof.
  unfold SendPool.Init. cbn [mbind outcome_bind ASSERT_CRASH SendPool_new m_chunk m_useSize Z.eqb].
  by destruct (fill _) as [chunk|].
Qed.

(** A fresh service starts exactly when every call of StartAccept succeeds, an accept
    is posted and there is memory for the send pool. *)
Lemma ServerService_Start_ok address x fill :
  match ServerService_Start address x fill SendPool_new with
  | Ok (ok, l, pool) =>
      ok = accept_ready x address /\
      (ok = true -> accept_posted (e_attempts x) /\ is_Some (l_posted l) /\
                    m_useFlag pool = replicate (Z.to_nat 30000) false /\ is_Some (fill (1024 * Z.to_nat 30000)%nat))
  | Crash _ =>
      accept_ready x address = true /\ (accept_posted (e_attempts x) -> fill (1024 * Z.to_nat 30000)%nat = None)
  end.
Proof.
  unfold ServerService_Start, StartAccept, accept_ready.
  destruct (SocketUtils.CreateSocket (e_socket x) =? SocketUtils.INVALID_SOCKET), (IocpCore_Register (e_port x)),
    (SocketUtils.SetSockOpt (e_reuse x)), (SocketUtils.SetSockOpt (e_linger x)),
    (SocketUtils.Bind (e_bind x address)), (SocketUtils.Listen (e_listen x)); cbn [negb andb mbind outcome_bind]; try done.
  pose proof (RegisterAccept_Ok (e_attempts x) (mkListener 0 None)) as Ha.
  destruct (RegisterAccept (e_attempts x) (mkListener 0 None)) as [l|c] eqn:El; cbn [mbind outcome_bind negb].
  - pose proof (Init_new 30000 fill) as Hi. destruct (SendPool.Init 30000 fill SendPool_new) as [pool|c];
      cbn [mbind outcome_bind].
    + destruct Hi as [H1 H2]. split; [done|]. intros _. split_and!; try done.
      * apply Ha. by eexists.
      * by eapply RegisterAccept_session.
    + by split.
  - split; [done|]. intros Hp. apply Ha in Hp as [l' Hl]. done.
Qed.

Lemma Init_ok a : (let '(s1, s2, s3, s4) := a in is_Ok (SocketUtils.Init s1 s2 s3 s4)) = sockets_ok a.
Proof.
  destruct a as [[[s1 s2] s3] s4]. unfold SocketUtils.Init, sockets_ok.
  by destruct (s1 =? 0), (SocketUtils.BindWindowsFunction s2), (SocketUtils.BindWindowsFunction s3),
    (SocketUtils.BindWindowsFunction s4).
Qed.

Lemma run_steps_app l1 l2 g : run_steps (l1 ++ l2) g = run_steps l1 g ≫= run_steps l2.
Proof.
  unfold run_steps. rewrite foldl_app. destruct (foldl _ (Ok g) l1) as [g'|c]; [done|]. cbn.
  induction l2 as [|f l2 IH]; [done|exact IH].
Qed.

Lemma run_steps_cons f l g : run_steps (f :: l) g = f g ≫= run_steps l.
Proof. exact (run_steps_app [f] l g). Qed.

(** *** The state the workers start in *)

(** [s]: the settings.  The handlers are registered, every system exists, the listener
    is on the address of the settings with an accept posted, all chunks of the send
    pool are free, and the administration host runs exactly if it could be built. *)
Record complete (x : boot_env) (s : ServerSetting) (g : GameServer) : Prop := mkComplete {
  co_handlers : gs_handlers g = RegisterPacket;
  co_game : gs_game g = Some world_new /\ gs_sessions g = Some ∅;
  co_db : gs_db g = Some (snd (DbSystem_Init (map (b_mysql x) (seq 0 (Z.to_nat (m_dbPoolSize s)))) DbSystem_new));
  co_service : exists l, is_Some (l_posted l) /\
    gs_service g = Some (server_address x s, Service_new true (Setting.m_maxSessionCount s), l);
  co_pool : m_useFlag (gs_pool g) = replicate (Z.to_nat 30000) false;
  co_grpc : m_running (gs_grpc g) = b_grpc x;
  co_iocp : gs_iocp g = Some (b_port x);
}.

Definition start_conditions (x : boot_env) (s : ServerSetting) : Prop :=
  b_port x <> INVALID_HANDLE_VALUE /\ sockets_ok (b_sockets x) = true /\
  accept_ready (b_accept x) (server_address x s) = true /\ accept_posted (e_attempts (b_accept x)) /\
  is_Some (b_fill x (1024 * Z.to_nat 30000)%nat).

(** The statements before the first Launch. *)
Definition before_workers (x : boot_env) : list (GameServer -> outcome GameServer) :=
  [start_packets; start_systems x; start_service x; start_listener x; start_grpc x].

Lemma before_workers_ok x s :
  match run_steps (before_workers x) (AddSetting s GameServer_new) with
  | Ok g => complete x s g /\ gs_threads g = Threads.ThreadManager_new /\ start_conditions x s
  | Crash _ => ~ start_conditions x s
  end.
Proof.
  unfold before_workers, run_steps, start_conditions. cbn [foldl mbind outcome_bind start_packets start_systems].
  unfold start_service, IocpCore_new. cbn [AddSystem AddSetting GameServer_new gs_ip gs_port gs_maxSessionCount
    gs_setting gs_handlers gs_game gs_sessions gs_db gs_service gs_pool gs_grpc gs_threads gs_iocp].
  destruct (Z.eqb_spec (b_port x) INVALID_HANDLE_VALUE); cbn [negb ASSERT_CRASH mbind outcome_bind]; [by intros (? & _)|].
  pose proof (Init_ok (b_sockets x)) as Hs. destruct (b_sockets x) as [[[s1 s2] s3] s4].
  destruct (SocketUtils.Init s1 s2 s3 s4); cbn [mbind outcome_bind is_Ok] in *; [|intros (_ & Hn & _); congruence].
  unfold start_listener. cbn [gs_service gs_pool].
  change (NetAddress_new _ _) with (server_address x s).
  pose proof (ServerService_Start_ok (server_address x s) (b_accept x) (b_fill x)) as Hok.
  destruct (ServerService_Start (server_address x s) (b_accept x) (b_fill x) SendPool_new) as [[[ok l] pool]|c];
    cbn [mbind outcome_bind].
  - destruct Hok as [E Hok]. destruct ok; cbn [ASSERT_CRASH mbind outcome_bind]; [|intros (_ & _ & Hn & _); congruence].
    destruct (Hok eq_refl) as (Ha & Hl & Hf & Hm). unfold start_grpc, GrpcHost_Start.
    cbn [gs_setting gs_grpc GrpcHost_new m_running negb].
    destruct (b_grpc x) eqn:Eg; cbn [g_thread negb mbind outcome_bind snd gs_threads];
      (split; [|done]); (split; cbn [gs_handlers gs_game gs_sessions gs_db gs_service gs_pool gs_grpc gs_iocp m_running];
      [done|done|done|by exists l|exact Hf|done|done]).
  - destruct Hok as [E Hok]. intros (_ & _ & _ & Ha & Hm). rewrite (Hok Ha) in Hm. by destruct Hm.
Qed.

Lemma workers_complete x s ks g :
  complete x s g ->
  exists g', run_steps (map (start_worker x) ks) g = Ok g' /\ complete x s g' /\
    gs_threads g' = foldl (fun tm k => Threads.Launch (Nat.iter (b_tls x k) db_InitTLS tm)) (gs_threads g) ks.
Proof.
  revert g. induction ks as [|k ks IH]; intros g Hg; [by exists g|].
  cbn [map]. rewrite run_steps_cons. cbn [start_worker mbind outcome_bind].
  destruct (IH (mkGameServer (gs_ip g) (gs_port g) (gs_maxSessionCount g) (gs_setting g) (gs_handlers g) (gs_game g)
        (gs_sessions g) (gs_db g) (gs_service g) (gs_pool g) (gs_grpc g)
        (Threads.Launch (Nat.iter (b_tls x k) db_InitTLS (gs_threads g))) (gs_iocp g))) as (g' & H1 & H2 & H3).
  { by destruct Hg. }
  by exists g'.
Qed.

(** No statement before the first Launch launches. *)
Lemma before_workers_threads x k g g' :
  run_steps (take k (before_workers x)) g = Ok g' -> gs_threads g' = gs_threads g.
Proof.
  assert (forall l, (forall f g g', f ∈ l -> f g = Ok g' -> gs_threads g' = gs_threads g) ->
    forall g g', run_steps l g = Ok g' -> gs_threads g' = gs_threads g) as Hl.
  { induction l as [|f l IH]; intros Hf h h' H; [by injection H as <-|].
    rewrite run_steps_cons in H. apply bind_Ok_inv in H as (h1 & H1 & H).
    rewrite (IH ltac:(intros; eapply Hf; [by right|done]) _ _ H). eapply Hf; [by left|done]. }
  apply Hl. clear. intros f g g' Hf%list_elem_of_In%list_elem_of_In H.
  apply elem_of_take in Hf as (i & Hi & _). apply list_elem_of_lookup_2 in Hi.
  unfold before_workers in Hi. repeat (apply elem_of_cons in Hi as [->|Hi]); [..|by apply elem_of_nil in Hi].
  - by injection H as <-.
  - by injection H as <-.
  - unfold start_service in H. apply bind_Ok_inv in H as (? & _ & H). destruct (b_sockets x) as [[[s1 s2] s3] s4].
    apply bind_Ok_inv in H as (? & _ & H). by injection H as <-.
  - unfold start_listener in H. destruct (gs_service g) as [[[a v] l]|]; [|done].
    apply bind_Ok_inv in H as ([[ok l'] pool] & _ & H). apply bind_Ok_inv in H as (? & _ & H). by injection H as <-.
  - unfold start_grpc in H. destruct (gs_setting g); [|done].
    apply bind_Ok_inv in H as (? & _ & H). by injection H as <-.
Qed.

(** The ids handed out: different, none 0, below the counter. *)
Definition ids_fit (n : Z) (tm : Threads.ThreadManager) : Prop :=
  Threads.SThreadId tm = n /\ NoDup (Threads.t_self tm :: Threads.m_threads tm) /\
  Forall (fun t => 1 <= t < n) (Threads.t_self tm :: Threads.m_threads tm).

Lemma ids_weaken (n m : Z) l : n <= m -> Forall (fun t => 1 <= t < n) l -> Forall (fun t => 1 <= t < m) l.
Proof. intros Hn Hf. eapply Forall_impl; [exact Hf|]. cbn. lia. Qed.

Lemma db_InitTLS_ids n tm : 1 <= n < 2 ^ 32 - 1 -> ids_fit n tm -> ids_fit (n + 1) (db_InitTLS tm).
Proof.
  intros Hn (Hc & Hd & Hr). unfold ids_fit, db_InitTLS, InitTLS. cbn [Threads.SThreadId Threads.m_threads Threads.t_self snd].
  rewrite Hc, wrapU_small by lia. split_and!; [done|done|]. by apply (ids_weaken n); [lia|].
Qed.

Lemma iter_ids k n tm : 1 <= n -> n + Z.of_nat k < 2 ^ 32 -> ids_fit n tm -> ids_fit (n + Z.of_nat k) (Nat.iter k db_InitTLS tm).
Proof.
  intros H1 Hk Hn. induction k as [|k IH]; [by rewrite Z.add_0_r|].
  cbn [Nat.iter nat_rect]. replace (n + Z.of_nat (S k)) with (n + Z.of_nat k + 1) by lia.
  apply db_InitTLS_ids; [lia|]. apply IH. lia.
Qed.

Lemma Launch_ids n tm : 1 <= n < 2 ^ 32 - 1 -> ids_fit n tm -> ids_fit (n + 1) (Threads.Launch tm).
Proof.
  intros Hn (Hc & Hd & Hr). unfold ids_fit, Threads.Launch, InitTLS.
  cbn [Threads.SThreadId Threads.m_threads Threads.t_self]. rewrite Hc, wrapU_small by lia. split_and!; [done| |].
  - change (Threads.t_self tm :: Threads.m_threads tm ++ [n]) with ((Threads.t_self tm :: Threads.m_threads tm) ++ [n]).
    apply NoDup_app. split_and!; [done| |apply NoDup_singleton]. intros t Ht E%list_elem_of_singleton.
    rewrite Forall_forall in Hr. apply Hr in Ht. lia.
  - change (Threads.t_self tm :: Threads.m_threads tm ++ [n]) with ((Threads.t_self tm :: Threads.m_threads tm) ++ [n]).
    apply Forall_app. split; [by apply (ids_weaken n); [lia|]|]. constructor; [lia|done].
Qed.

(** The ids taken while the workers are launched. *)
Definition ids_taken (x : boot_env) : Z := zsum (fun k => Z.of_nat (b_tls x k) + 1) (seq 0 (b_cores x)).

Lemma launches_ids x ks n tm :
  1 <= n -> n + zsum (fun k => Z.of_nat (b_tls x k) + 1) ks < 2 ^ 32 -> ids_fit n tm ->
  let tm' := foldl (fun tm k => Threads.Launch (Nat.iter (b_tls x k) db_InitTLS tm)) tm ks in
  ids_fit (n + zsum (fun k => Z.of_nat (b_tls x k) + 1) ks) tm' /\
  length (Threads.m_threads tm') = (length (Threads.m_threads tm) + length ks)%nat.
Proof.
  revert n tm. induction ks as [|k ks IH]; intros n tm H1 Hn Ht; cbn [foldl zsum] in *; [rewrite Z.add_0_r, Nat.add_0_r; done|].
  assert (0 <= zsum (fun k => Z.of_nat (b_tls x k) + 1) ks) as Hpos.
  { clear. induction ks as [|k ks IH]; cbn; lia. }
  destruct (IH (n + Z.of_nat (b_tls x k) + 1) (Threads.Launch (Nat.iter (b_tls x k) db_InitTLS tm))) as [Ha Hb];
    [lia|lia|apply Launch_ids; [lia|apply iter_ids; [lia|lia|done]]|].
  split; [|].
  - replace (n + (Z.of_nat (b_tls x k) + 1 + zsum (fun k => Z.of_nat (b_tls x k) + 1) ks))
      with (n + Z.of_nat (b_tls x k) + 1 + zsum (fun k => Z.of_nat (b_tls x k) + 1) ks) by lia. exact Ha.
  - rewrite Hb. assert (forall j, length (Threads.m_threads (Nat.iter j db_InitTLS tm)) = length (Threads.m_threads tm)) as Hj.
    { intros j. induction j; cbn; done. }
    unfold Threads.Launch, InitTLS. cbn [Threads.m_threads length]. rewrite length_app, Hj. cbn. lia.
Qed.

(** What start-up needs, and what it gives. *)
Lemma server_main_Ok env junk x :
  match ServerSetting_new env junk with
  | Crash _ => ~ exists g, server_main env junk x = Ok g
  | Ok s =>
      ((exists g, server_main env junk x = Ok g) <-> start_conditions x s) /\
      forall g, server_main env junk x = Ok g -> complete x s g /\
        gs_threads g = foldl (fun tm k => Threads.Launch (Nat.iter (b_tls x k) db_InitTLS tm))
                         Threads.ThreadManager_new (seq 0 (b_cores x))
  end.
Proof.
  unfold server_main. destruct (ServerSetting_new env junk) as [s|c]; cbn [mbind outcome_bind]; [|by intros [g H]].
  unfold StartServer, StartServer_steps. fold (before_workers x). rewrite run_steps_app.
  pose proof (before_workers_ok x s) as H. destruct (run_steps (before_workers x) _) as [g|c]; cbn [mbind outcome_bind].
  - destruct H as (Hc & Ht & Hs). destruct (workers_complete x s (seq 0 (b_cores x)) g Hc) as (g' & Hr & Hc' & Ht').
    rewrite Hr. split; [by split; [|eexists]|]. intros g2 [= <-]. by rewrite Ht', Ht.
  - split; [by split; [intros [? ?]|]|]. by intros g Hg.
Qed.

(** ** Properties *)

(** C36: a server is complete before a worker can run.  At every point of StartServer,
    after any number of its statements, if a worker has been launched then the packet
    handlers are registered, every system exists, the listener is on the address of the
    settings with an accept posted, all 30000 send chunks are free and the
    administration host runs exactly if it could be built.  When StartServer reaches
    its Join there is a worker for each hardware thread, and the ids of the main thread
    and of the workers are different and fit the lock's owner field, as long as fewer
    than 65534 ids were taken. *)
Theorem server_start_complete (env : string -> option (list Z)) (junk : list Z) (x : boot_env) (s : ServerSetting) :
  env_ok env junk -> ServerSetting_new env junk = Ok s ->
  (forall k g, run_steps (take k (StartServer_steps x)) (AddSetting s GameServer_new) = Ok g ->
     Threads.m_threads (gs_threads g) <> [] -> complete x s g) /\
  GetPort (server_address x s) = m_port s /\
  (forall ip, b_inet x (m_ip s) = Some ip -> sin_addr (server_address x s) = ip) /\
  (forall g, server_main env junk x = Ok g -> ids_taken x < 65534 ->
     complete x s g /\ length (Threads.m_threads (gs_threads g)) = b_cores x /\
     NoDup (Threads.t_self (gs_threads g) :: Threads.m_threads (gs_threads g)) /\
     Forall (fun t => 1 <= t <= 0xFFFF) (Threads.t_self (gs_threads g) :: Threads.m_threads (gs_threads g))).
Proof.
  intros He Hs. split_and!.
  - intros k g Hg Hth. unfold StartServer_steps in Hg. fold (before_workers x) in Hg. rewrite take_app in Hg.
    rewrite run_steps_app in Hg. apply bind_Ok_inv in Hg as (g1 & H1 & H2).
    destruct (decide (k <= 5)%nat) as [Hk|Hk].
    + replace (k - length (before_workers x))%nat with 0%nat in H2 by (cbn; lia). injection H2 as <-.
      apply before_workers_threads in H1. by rewrite H1 in Hth.
    + rewrite take_ge in H1 by (cbn; lia). pose proof (before_workers_ok x s) as Hb. rewrite H1 in Hb.
      destruct Hb as (Hc & _). rewrite <- fmap_take in H2.
      destruct (workers_complete x s (take (k - length (before_workers x)) (seq 0 (b_cores x))) g1 Hc) as (g' & Hr & Hc' & _).
      change (start_worker x <$> _) with (map (start_worker x) (take (k - length (before_workers x)) (seq 0 (b_cores x)))) in H2.
      rewrite Hr in H2. by injection H2 as <-.
  - apply port_roundtrip. rewrite (settings_equal _ _ He) in Hs. unfold settings_spec in Hs.
    repeat match type of Hs with (stoi ?e ≫= _) = Ok _ => apply bind_Ok_inv in Hs as (? & ? & Hs) end.
    injection Hs as <-. apply (wrapU_range 16). lia.
  - intros ip Hip. cbn. unfold Ip2Address. by rewrite Hip.
  - intros g Hg Hn. pose proof (server_main_Ok env junk x) as H. rewrite Hs in H. destruct H as [_ H].
    destruct (H g Hg) as [Hc Ht]. unfold ids_taken in Hn.
    destruct (launches_ids x (seq 0 (b_cores x)) 2 Threads.ThreadManager_new) as [(_ & Hd & Hr) Hl]; [lia|lia| |].
    { split_and!; [done|apply NoDup_singleton|constructor; [by vm_compute|done]]. }
    rewrite <- Ht in *. split_and!; [done| |done|].
    + rewrite Hl. cbn. by rewrite length_seq.
    + eapply Forall_impl; [exact Hr|]. cbn beta. intros t Hi. lia.
Qed.

(** C37: start-up succeeds exactly when the settings parse, the completion port's handle
    is not INVALID_HANDLE_VALUE, Winsock can be set up, every step of StartAccept
    succeeds, an accept is posted before the recursion of RegisterAccept has used up the
    stack, with a session for each attempt, and there is memory for the send pool; in
    every other case the process ends. *)
Theorem server_start_fails_exactly (env : string -> option (list Z)) (junk : list Z) (x : boot_env) :
  (exists g, server_main env junk x = Ok g) <->
  exists s, ServerSetting_new env junk = Ok s /\
    b_port x <> INVALID_HANDLE_VALUE /\ sockets_ok (b_sockets x) = true /\
    accept_ready (b_accept x) (server_address x s) = true /\
    (exists errors rest, e_attempts (b_accept x) = map (fun e => (true, Failed e)) errors ++ (true, Posted) :: rest) /\
    is_Some (b_fill x (1024 * Z.to_nat 30000)%nat).
Proof.
  pose proof (server_main_Ok env junk x) as H. destruct (ServerSetting_new env junk) as [s|c].
  - destruct H as [-> _]. split; [by exists s|]. by intros (s' & [= <-] & Hs).
  - split; [done|]. by intros (s' & E & _).
Qed.

(** A completion port that could not be created is not noticed: the constructor
    compares the handle with INVALID_HANDLE_VALUE and CreateIoCompletionPort answers
    NULL, so start-up succeeds or fails as with a good port, and goes on without one. *)
Theorem null_port_not_noticed (env : string -> option (list Z)) (junk : list Z) (x : boot_env) (s : ServerSetting) :
  b_port x = NULL -> ServerSetting_new env junk = Ok s ->
  (exists g, server_main env junk x = Ok g /\ gs_iocp g = Some NULL) <->
  sockets_ok (b_sockets x) = true /\ accept_ready (b_accept x) (server_address x s) = true /\
  accept_posted (e_attempts (b_accept x)) /\ is_Some (b_fill x (1024 * Z.to_nat 30000)%nat).
Proof.
  intros Hx Hs. pose proof (server_main_Ok env junk x) as H. rewrite Hs in H. destruct H as [Hiff Hc].
  split.
  - intros (g & Hg & _). destruct (proj1 Hiff (ex_intro _ g Hg)) as (_ & ?). done.
  - intros Hcond. destruct (proj2 Hiff) as [g Hg]; [split; [by rewrite Hx|done]|].
    exists g. split; [done|]. destruct (Hc g Hg) as [[] _]. by rewrite <- Hx.
Qed.

(** An address that InetPton does not understand is not noticed either: the server
    binds to whatever the uninitialised IN_ADDR held. *)
Theorem bad_address_not_noticed (x : boot_env) (s : ServerSetting) :
  b_inet x (m_ip s) = None -> sin_addr (server_address x s) = b_junk x.
Proof. intros H. cbn. unfold Ip2Address. by rewrite H. Qed.

(** a worker's turn ends: once the clock has passed LEndTickCount at the k-th
    reading, the loop has been left after at most k queues, whatever those
    queues did to the global queue. *)
Theorem worker_turn_ends (readings : list Z) (k : nat) (now lend : Z)
    (Execute : nat -> list (option nat) -> list (option nat)) (g : list (option nat)) :
  readings !! k = Some now -> lend < now ->
  let '(qs, _, ended) := DoGlobalQueueWork_loop readings lend Execute g in
  ended = true /\ (length qs <= k)%nat.
Proof.
  intros Hk Hn. revert k g Hk. induction readings as [|t readings IH]; intros k g Hk; [done|]. cbn.
  destruct (lend <? t) eqn:E; [split; [done|cbn; lia]|].
  destruct (LockQueue_Pop g) as [[q|] g']; [|split; [done|cbn; lia]].
  destruct k as [|k]; [cbn in Hk; simplify_eq; to_prop; lia|]. cbn in Hk.
  specialize (IH k (Execute q g') Hk). destruct (DoGlobalQueueWork_loop readings lend Execute (Execute q g')) as [[qs g2] e].
  destruct IH as [-> IH]. split; [done|cbn; lia].
Qed.

(** The configured maximum of sessions is not a limit: an accepted connection is
    registered whatever the count and the maximum are. *)
Theorem max_sessions_not_enforced (attempts : list (bool * wsa_result)) (l l' : Listener) (w : svc_world) session :
  l_posted l = Some session -> RegisterAccept attempts l = Ok l' ->
  exists w', ProcessAccept true true attempts l w = Ok (l', w') /\
    m_sessions (sv_service w') = {[session]} ∪ m_sessions (sv_service w) /\
    Service.m_maxSessionCount (sv_service w') = Service.m_maxSessionCount (sv_service w) /\
    m_sessionCount (sv_service w') = i32 (m_sessionCount (sv_service w) + 1).
Proof. intros Hl Hr. unfold ProcessAccept. rewrite Hl, Hr. cbn. eauto. Qed.

(** *** A server with an empty environment *)

Definition good_accept : accept_env := mkAcceptEnv (fun _ _ _ _ => 100) 4 0 0 (fun _ => 0) 0 [(true, Failed 10061); (true, Posted)].
Definition boot1 : boot_env :=
  mkBootEnv (fun _ => (true, [true])) (fun _ => Some 0x0100007F) 0 (0, 0, 0, 0) 4 good_accept (fun _ => Some []) true 8
    (fun k => if (k <? 4)%nat then 1%nat else 0%nat).

Definition no_env (_ : string) : option (list Z) := None.

Lemma no_env_ok : env_ok no_env (replicate 256 0).
Proof. split; [done|by rewrite length_replicate]. Qed.

(** Its settings: the defaults. *)
Definition setting1 : ServerSetting :=
  match settings_spec no_env with Ok s => s | Crash _ => mkSetting [] 0 0 [] 0 [] [] [] 0 [] end.

Lemma setting1_made : ServerSetting_new no_env (replicate 256 0) = Ok setting1.
Proof. rewrite (settings_equal _ _ no_env_ok). reflexivity. Qed.

Lemma boot1_conditions : start_conditions boot1 setting1.
Proof.
  split; [discriminate|]. split; [reflexivity|]. split; [reflexivity|]. split; [by exists [10061], []|by eexists].
Qed.

Lemma boot1_Ok : exists g, server_main no_env (replicate 256 0) boot1 = Ok g.
Proof.
  pose proof (server_main_Ok no_env (replicate 256 0) boot1) as H. rewrite setting1_made in H.
  apply H, boot1_conditions.
Qed.

Lemma server_start_complete_witness :
  exists g, server_main no_env (replicate 256 0) boot1 = Ok g /\ complete boot1 setting1 g /\
    length (Threads.m_threads (gs_threads g)) = 8%nat.
Proof.
  destruct boot1_Ok as [g Hg]. exists g. split; [done|].
  destruct (server_start_complete no_env (replicate 256 0) boot1 setting1 no_env_ok setting1_made) as (_ & _ & _ & H).
  destruct (H g Hg) as (H1 & H2 & _); [by vm_compute|]. by split.
Defined.

Lemma worker_turn_ends_witness :
  DoGlobalQueueWork_loop [100; 130; 170] 164 (fun q g => g ++ [Some q]) [Some 3%nat; Some 5%nat] =
    ([3%nat; 5%nat], [Some 3%nat; Some 5%nat], true) /\ (length [3%nat; 5%nat] <= 2)%nat.
Proof.
  split; [reflexivity|].
  apply (worker_turn_ends [100; 130; 170] 2 170 164 (fun q g => g ++ [Some q]) [Some 3%nat; Some 5%nat] eq_refl). lia.
Defined.

(** The client's chat turn in a room: the packet is in the first chunk and the
    one session has it in flight. *)
Example chat_turn :
  match client_chat_turn true (fun _ => Posted) (mkService {[0%nat]} 1 1 false)
          (mkSendPool (Some (replicate 4096 0)) (replicate 4 Sender_new) (replicate 4 false) 4 0)
          {[0%nat := idle]} with
  | Ok (Some packet, pool, m) =>
      decode packet = Some (ReqRoomChat (text "Test Message")) /\
      inflight <$> (snd <$> m !! 0%nat) = Some [[0]] /\ m_useFlag pool = [true; false; false; false]
  | _ => False
  end.
Proof. vm_compute. done. Qed.
